(* ===== verification/_CoqProject ===== *)
-Q . S2P
Prelude.v
Endian.v
Hex.v
ProofOfWork.v
Sha256Spec.v
Sha256.v
Base64.v
AesSpec.v
Aes.v
Cursor.v
Event.v
Run.v
Process.v
Args.v
Keys.v
Mining.v
Dm.v
Gnostr.v
Xor.v
Nostril.v
Jsmin.v
ConfRead.v
Configurator.v
Json.v
JsonParse.v
JsonSpec.v
JsonGrammar.v
JsonRound.v
Comm.v
Client.v
Relay.v
Interop.v
Nostro.v
Http.v
HttpRelay.v
HttpClient.v
Variants.v
Web.v
WebApp.v
Desktop.v
Samples.v
