(* ===== verification/Prelude.v ===== *)
(** * Verification of the gnostr event tool

    The program [gnostr.c] builds Nostr events: it parses a command line,
    serialises the event, hashes the serialisation to the event's id, signs it
    and prints JSON; it can encrypt the content for a recipient and mine an id or
    a key with leading zero bits.  It stands on headers of its own
    ([include/cursor.h], [hex.h], [endian.h], [proof.h], [random.h],
    [openssl_hash.h]) and on [sha256.c], [base64.c] and [aes.c].  Beside it the
    repository builds [configurator.c], which tests the compiler and writes
    [config.h], the minifier [template/gnostr-jsmin.c] and the utility
    [sources/gnostr-xor.c].  Its directory [src] holds a second family: nostril, the
    tool gnostr grew from, and in C++ a client library ([nostr.cc]), a relay
    ([relay.cc], [database.cc], [wss_relay.cc]) and a command line client
    ([wss_client.cc]), which exchange events as JSON with the vendored library
    [json.hpp], and a relay and a client over HTTP ([http]).  On the client library
    stand a web client ([web]), a desktop client ([desktop]) and two sample
    programs ([examples], [test]).  [devtools] holds two programs that grew from
    [gnostr.c].

    ** Files

    - [Prelude]: fixed-width integers as [Z] with their wrap-around ([wrap],
      [to_signed]), buffers as [list Z] with bounds-checked writes ([put], [None]
      for a write outside the object), C operators with C's precedence, bit-level
      lemmas, [len_lia], and decision by enumeration of the 256 bytes.
    - [Endian]: [include/endian.h] for a little-endian machine.
    - [Hex]: [include/hex.h].
    - [ProofOfWork]: [include/proof.h], leading zero bits of a digest.
    - [Sha256Spec]: FIPS 180-4 as a reference; [Sha256]: [sha256.c], its streaming
      context, the unrolled transformation, the typed feeders.
    - [Base64]: [base64.c] over any alphabet and over RFC 4648, and its reference.
    - [AesSpec]: FIPS 197 and CBC as a reference; [Aes]: [aes.c].
    - [Cursor]: [include/cursor.h], a cursor as three offsets into one object.
    - [Event]: the data, the JSON writers, [event_commitment],
      [generate_event_id], [print_event] and the tags of [gnostr.c], against the
      NIP-01 serialisation written as a text.
    - [Run]: outcomes and the monad of computations on a state, shared by the
      programs; [Process]: the state of a [gnostr] process (errno, answers of
      getrandom, log of effects), [strtol], [include/random.h],
      [include/openssl_hash.h] and the two programs of [template] that ask for the
      list of relays.
    - [Args]: options, help texts and [parse_args]; [Keys]: keys and signatures
      over the interface [Secp256k1]; [Mining]: [ensure_nonce_tag] and
      [mine_event]; [Dm]: [aes_encrypt] and [make_encrypted_dm].
    - [Gnostr]: [try_subcommand] and [main], composed of all of the above.
    - [Xor]: [sources/gnostr-xor.c] and [include/xor_hash.h].
    - [Nostril]: [src/nostril/nostril.c] and what [src/nostril/nostri.c] does not
      share with [gnostr.c]; the functions of [Keys], [Dm] and [Gnostr] that both
      have take what the program says of a secret as an argument ([report]):
      nothing in gnostr, [print_hex] and [print_shared] in nostril.
    - [Variants]: [devtools/gnostr-git.c] and [devtools/.gnostr-relay.c], two
      instances of one program.
    - [Jsmin]: [template/gnostr-jsmin.c].
    - [ConfRead] and [Configurator]: [configurator.c], the second using the first.
    - [Json]: values, access, conversions and the serializer of
      [ext/json-3.11.2/single_include/nlohmann/json.hpp]; [JsonParse]: its lexer
      and parser; [JsonSpec]: RFC 8259 as texts of tokens, against the lexer;
      [JsonGrammar]: the grammar as parse trees, against the parser; [JsonRound]:
      what is written is read back, and the properties of the library.
    - [Comm]: [src/log.cc] and the state and exceptions of the C++ programs;
      [Client]: [src/nostr.cc], [src/nostr.hh] and [src/uuid.cc]; [Relay]:
      [src/database.cc], [src/relay.cc] and the handlers of [src/wss_relay.cc], with
      the abstract relay they refine; [Interop]: what gnostr prints, read by the
      relay; [Nostro]: [src/wss_client.cc], which [src/wss_req.cc] repeats.
    - [Http]: [src/http/http.cc] with the two functions of asio that it reads a
      socket with; [HttpRelay]: [src/http/http_relay.cc] over the database of
      [Relay], and the abstract relay it refines; [HttpClient]:
      [src/http/http_client.cc], and the way from the client to the relay and back.
    - [Web]: the handlers of [web/home.cc], [web/feed.cc] and [web/follows.cc] and
      the menu of [web/web.cc], each on a record of what the widgets hold;
      [WebApp]: the client as a whole, what a user does as a sequence of actions;
      [Desktop]: the same for [desktop/gnostro.cc]; [Samples]:
      [examples/examples.cc] and [test/tests.cc].

    Definitions carry the names of the C functions; a loop of a C function has a
    definition of its own with a suffix such as [_loop].  A function that writes
    through a pointer takes the object and returns it; a function that ends the
    program is a computation of [Run.prog].  In the C++ files a computation is
    [Comm.cpp], where an exception is a value, an object that a [try] block fills
    in is a state of [Comm.edit], so that what an exception leaves of it is
    visible, and a function of the library that can throw returns [Json.result];
    [Http.member] is a computation of [cpp] that fills in an object.

    ** Interfaces

    - [Process.OS]: time, execvp and the freedom of strtol.
    - [Process.Reporter]: what a program says of a secret writes to standard error
      at most; the lemmas on keys, encrypted messages and [main_signed] hold for
      every reporter, so gnostr and nostril share them.
    - [Variants.Tool] with its laws [ToolLaws]: the texts, the options that end
      the program and the subcommands of a variant of gnostr.
    - [Keys.Secp256k1], with its laws [Secp256k1Laws]: key pairs, Schnorr
      signatures and the shared secret of libsecp256k1, which is vendored under
      [ext/]; [Keys.Toy] is an instance that satisfies the laws.
    - [Json.Floats]: the texts of doubles (strtod and the printer of the library).
    - [Comm.Disk]: the files that open for writing; [Client.Network]: what happens
      on a connection to a relay; [Client.Random]: the numbers drawn for
      identifiers; [HttpClient.Http_network] and [HttpClient.Rand]: the same for
      the HTTP client; [Web.Wt]: what Wt gives back of a text.
    - [ConfRead.Host]: popen, fopen, fclose and remove for the configurator;
      [Configurator.Toolchain] says that compiling and running a source is
      reproducible; [ConfRead.toy_host] is an instance of both.
    Memory that the C code leaves uninitialised has arbitrary contents ([junk]).

    ** What the theorems show

    - The whole program: with status 0 [main] has printed one event of its key
      with the requested fields, whose signature verifies and whose id is the
      digest of its NIP-01 serialisation, with the time cut to 15 digits when it
      has more; or
      encryption was asked for and refused, and nothing is printed ([Gnostr]).
    - Equivalence with references: [sha256] and its streaming use with FIPS 180-4
      ([Sha256]), key expansion, cipher and CBC with FIPS 197 ([Aes]), the
      commitment with the NIP-01 text ([nip01]; [truncated] from 10^15 on) and
      the printed object with its text, two events with the same commitment
      having the same fields ([Event]), the option loop with option lists ([Args]).
    - Round trips: hexadecimal, base64, CBC, JSON strings, cursor pushes and
      pulls, encrypted messages from sender to recipient for the lengths whose
      padding fits its array ([Dm]), numbers in a base ([Args]), descriptions of
      tests ([ConfRead]).
    - Bounds: no sequence of cursor operations whose sizes fit an int and whose
      allocations do not wrap the pointer leaves its range ([Cursor]); the exact
      sizes at which the writers succeed; the arrays that are too small, each with the input that
      overflows it ([Dm], [Process], [Event]); the buffer of the compiler's
      command line is always large enough ([ConfRead]).
    - Termination: the parser and the minifier always end; mining ends at the
      first candidate that is good enough and not at all when none can be.
    - The minifier reads its input as tokens in the only possible way and prints
      them with the whitespace that a closed form says, or stops when there is no
      such reading ([Jsmin]); the header of the configurator gives every test its meaning
      ([Configurator]).
    - Programs compared: what nostril's parser accepts, gnostr's accepts with the
      same result; nostril prints one valid requested event as gnostr does, within
      its smaller arrays, but on standard error ([Nostril]).  The variants return
      what gnostr returns for the same arguments ([Variants]).
    - The JSON library: the parser accepts exactly RFC 8259, always ends, makes
      well-typed values only, and reads back what the serializer writes with an
      indentation of at most 512 columns ([JsonGrammar], [JsonRound]).
    - The relay refines an abstract relay of two lists of events; it answers every
      message without floating-point numbers; it loses no event, but stores
      many copies and answers with the oldest one only ([Relay]).
    - Programs composed: an event goes from [make_event] through the relay to
      another client unchanged ([Relay]), and from gnostr's output into the
      relay ([Interop]); the client runs to its end ([Nostro]); the HTTP client
      gets back through the HTTP relay every event of its author
      ([HttpClient]).
    - The pages: a generated event is stored by every relay that gets it, a
      generated request asks for what the page says, and the tables show the
      events fetched, or the messages received, row by row ([Web], [Desktop]).
      Through any sequence of actions the web client follows a relation on forms,
      messages and rows, up to an event that the library does not write, where
      its behaviour is undefined ([WebApp]).
    - HTTP: a message is read back however the connection cuts it into segments,
      and on any stream of bytes [http::parse] ends, with the message the stream
      begins with or with an error ([Http]); the HTTP relay refines an abstract
      relay on the text it takes from the stream, over any run of connections
      ([HttpRelay]).
    - Error paths: each function's failures with their conditions, and the
      defects found while modelling them.

    ** Bounds and fuel

    Integers are kept at their width wherever the C code stores them.  Loops that
    are not structural take fuel: of base64, AES and the cursor the number of
    bytes left, of [grab_stream], the reader and the minifier the length of
    the input plus a constant, of [run_test] the number of tests plus one (the
    longest chain of dependencies that is not circular).  The theorems either fix
    that fuel or hold for any fuel that is large enough; the JSON parser takes two
    turns per byte and a few more ([parse_fuel], enough by [parse_fuel_enough]),
    [scan_string] the bytes left plus one, the serializer's digit loops 20; mining has no bound in
    the C code, and its theorems speak of the first success.  Texts are assumed
    shorter than 2^31 bytes where the C code keeps lengths in an int.

    ** Not modelled, and why

    [is_executable_file] of [gnostr.c] only calls the system and is not used; the
    OpenSSL branch of [sha256.c] and AES-128/192 are not compiled; most entries of
    [base_tests] are commented out in the source.  [hash_xor] of [gnostr-xor.c] is
    not called and reads memory it never writes.
    Of [json.hpp] only what these programs use is modelled: no iterators, pointers, patches, binary formats, callbacks or comments; the
    messages of exceptions are left out, and so are the clock readings in
    front of log lines.  The stack is unbounded: the recursion of the serializer
    on deeply nested values is not limited in the model.  TLS and the event loop
    are libraries under [ext]; a socket is the segments that [recv] returns on
    it, until the end of the stream, and accepting a connection is taking the
    next of a list; the relay's handlers run one after the other as on its single
    thread.  Of [web] and [desktop] the layout, the styles, the menus and the
    windows are calls of Wt and wxWidgets, which are libraries: what a handler
    reads from a widget is a field of its page.

    ** What could come next

    Every program of the repository has its core here.  Open are the freeing of
    memory in the configurator, whose allocations are values of the model, and
    more of [json.hpp] than these programs use. *)
From Stdlib Require Export ZArith Lia Btauto.
From stdpp Require Export base tactics list list_numbers option numbers strings.
#[export] Set Default Proof Using "Type".

Declare Scope c_scope.
Delimit Scope c_scope with C.

(** ** C integer operators, with C's relative precedence *)

Notation "a .<< n" := (Z.shiftl a n) (at level 51, left associativity) : c_scope.
Notation "a .>> n" := (Z.shiftr a n) (at level 51, left associativity) : c_scope.
Notation "a .& b" := (Z.land a b) (at level 52, left associativity) : c_scope.
Notation "a .^ b" := (Z.lxor a b) (at level 53, left associativity) : c_scope.
Notation "a .| b" := (Z.lor a b) (at level 54, left associativity) : c_scope.

Open Scope Z_scope.
Open Scope c_scope.

(** ** Fixed-width integers *)

Definition wrap (w z : Z) : Z := z mod 2 ^ w.

Abbreviation u8 := (wrap 8).
Abbreviation u16 := (wrap 16).
Abbreviation u32 := (wrap 32).
Abbreviation u64 := (wrap 64).

(** Conversion of an arbitrary integer to a signed [w]-bit integer. *)
Definition to_signed (w z : Z) : Z :=
  let m := wrap w z in if m <? 2 ^ (w - 1) then m else m - 2 ^ w.

Definition in_width (w z : Z) : Prop := 0 <= z < 2 ^ w.

Abbreviation is_byte := (in_width 8).

(** A buffer of [unsigned char]. *)
Definition Bytes (l : list Z) : Prop := Forall (in_width 8) l.

#[export] Instance in_width_dec w z : Decision (in_width w z).
Proof. unfold in_width. apply _. Defined.

#[export] Instance Bytes_dec l : Decision (Bytes l).
Proof. unfold Bytes. apply _. Defined.

(** A decidable closed statement, by evaluation. *)
Ltac by_compute := apply (bool_decide_unpack _); vm_compute; exact I.

(** ** Arrays *)

(** [a[i]] for an index that is in range; every theorem that reads an array
    carries the length that puts its indices in range. *)
Definition get (l : list Z) (i : Z) : Z := nth (Z.to_nat i) l 0.

Notation "l .[ i ]" := (get l i) (at level 1, left associativity, format "l .[ i ]") : c_scope.

Definition len {A} (l : list A) : Z := Z.of_nat (length l).

(** [n] bytes starting at offset [off]. *)
Definition slice (off n : Z) (l : list Z) : list Z :=
  take (Z.to_nat n) (drop (Z.to_nat off) l).

(** [memcpy(l + off, d, len d)] inside one object. *)
Definition splice (off : Z) (d l : list Z) : list Z :=
  take (Z.to_nat off) l ++ d ++ drop (Z.to_nat off + length d) l.

(** A bounds-checked [memcpy]: [None] is a write outside the object. *)
Definition put (off : Z) (d l : list Z) : option (list Z) :=
  if (0 <=? off) && (off + len d <=? len l) then Some (splice off d l) else None.

(** The bytes of a C string literal, without the terminating NUL. *)
Definition cs (s : string) : list Z :=
  map (fun a => Z.of_N (Ascii.N_of_ascii a)) (String.list_ascii_of_string s).

(** Whether [s] begins with [p]. *)
Fixpoint starts_with (p s : list Z) : bool :=
  match p, s with
  | [], _ => true
  | x :: p, y :: s => (x =? y) && starts_with p s
  | _ :: _, [] => false
  end.

(** [lia] with the defining equations of the divisions in sight. *)
Ltac dlia := Z.to_euclidean_division_equations; lia.

(** Equality of lists with the same spine, element by element. *)
Ltac list_eq := repeat match goal with |- _ :: _ = _ :: _ => apply (f_equal2 cons) end.

(** A step of the option monad, without unfolding anything else. *)
Lemma bind_some {A B} (x : A) (f : A -> option B) : Some x ≫= f = f x.
Proof. done. Qed.

(** ** Bit-level reasoning *)

Lemma in_width_wrap w z : 0 <= w -> in_width w (wrap w z).
Proof. intros; unfold in_width, wrap; apply Z.mod_pos_bound; lia. Qed.

Lemma wrap_id w z : in_width w z -> wrap w z = z.
Proof. intros [??]; unfold wrap; by apply Z.mod_small. Qed.

Lemma wrap_spec w z i : 0 <= w -> Z.testbit (wrap w z) i = (i <? w) && Z.testbit z i.
Proof. intros; unfold wrap; by apply Z.testbit_mod_pow2. Qed.

Lemma testbit_out w z i : 0 <= w -> in_width w z -> w <= i -> Z.testbit z i = false.
Proof.
  intros ? Hz ?. rewrite <- (wrap_id w z Hz), wrap_spec by done.
  by destruct (Z.ltb_spec i w); [lia|].
Qed.

Lemma in_width_bits w z :
  0 <= w -> 0 <= z -> (forall i, w <= i -> Z.testbit z i = false) -> in_width w z.
Proof.
  intros Hw Hz Hb. enough (wrap w z = z) as <- by by apply in_width_wrap.
  apply Z.bits_inj'; intros i Hi. rewrite wrap_spec by done.
  destruct (Z.ltb_spec i w); [done|]. by rewrite Hb.
Qed.

Lemma in_width_lor w a b : 0 <= w -> in_width w a -> in_width w b -> in_width w (a .| b).
Proof.
  intros ? Ha Hb. apply in_width_bits; [done|apply Z.lor_nonneg; firstorder|].
  intros. by rewrite Z.lor_spec, !(testbit_out w).
Qed.

Lemma in_width_lxor w a b : 0 <= w -> in_width w a -> in_width w b -> in_width w (a .^ b).
Proof.
  intros ? Ha Hb. apply in_width_bits; [done|apply Z.lxor_nonneg; firstorder|].
  intros. by rewrite Z.lxor_spec, !(testbit_out w).
Qed.

Lemma in_width_land w a b : 0 <= w -> in_width w a -> 0 <= b -> in_width w (a .& b).
Proof.
  intros ? Ha Hb. apply in_width_bits; [done|apply Z.land_nonneg; firstorder|].
  intros. by rewrite Z.land_spec, (testbit_out w a).
Qed.

Lemma in_width_shiftr w a n : 0 <= w -> 0 <= n -> in_width w a -> in_width w (a .>> n).
Proof.
  intros ? ? Ha. apply in_width_bits; [done|apply Z.shiftr_nonneg; firstorder|].
  intros. rewrite Z.shiftr_spec by lia. apply (testbit_out w); firstorder lia.
Qed.

Lemma in_width_le w w' a : 0 <= w <= w' -> in_width w a -> in_width w' a.
Proof.
  intros ? [??]. split; [done|]. eapply Z.lt_le_trans; [done|].
  apply Z.pow_le_mono_r; lia.
Qed.

(** A mask of [n] one bits, shifted by [k], selects a digit in base [2^n]. *)
Lemma land_mask a n k :
  0 <= n -> 0 <= k -> a .& (Z.ones n .<< k) = (a / 2 ^ k) mod 2 ^ n * 2 ^ k.
Proof.
  intros. rewrite <- Z.shiftl_mul_pow2 by done. apply Z.bits_inj'; intros i Hi.
  rewrite Z.land_spec, !Z.shiftl_spec by done.
  destruct (Z.ltb_spec i k).
  - by rewrite !(Z.testbit_neg_r _ (i - k)), andb_false_r by lia.
  - rewrite Z.testbit_mod_pow2, Z.div_pow2_bits, Z.testbit_ones_nonneg by lia.
    rewrite Z.sub_add. by rewrite andb_comm.
Qed.

(** Disjoint parts: [|] is addition. *)
Lemma lor_add a b k : 0 <= k -> in_width k a -> a .| (b * 2 ^ k) = a + b * 2 ^ k.
Proof.
  intros Hk Ha. rewrite <- Z.shiftl_mul_pow2 by done. symmetry.
  rewrite Z.add_nocarry_lxor, Z.lxor_lor; try done; apply Z.bits_inj'; intros i Hi;
    rewrite Z.land_spec, Z.shiftl_spec, Z.bits_0 by done;
    (destruct (Z.ltb_spec i k);
      [by rewrite (Z.testbit_neg_r b), andb_false_r by lia
      |by rewrite (testbit_out k a)]).
Qed.

(** Two integers are equal when their bits are equal boolean functions of the
    bits of their parts; for xor, and, or. *)
Ltac bitwise := apply Z.bits_inj'; intros; rewrite ?Z.lxor_spec, ?Z.land_spec, ?Z.lor_spec; btauto.

(** Widths of composed expressions. *)
Create HintDb byte.
#[export] Hint Resolve in_width_wrap in_width_lor in_width_lxor : byte.
#[export] Hint Extern 1 (0 <= _) => lia : byte.
#[export] Hint Extern 1 (in_width _ _) => split; [lia | reflexivity] : byte.

(** [Bytes] of an explicit list. *)
Ltac bytes_list := repeat apply Forall_cons_2; [auto 10 with byte ..|apply Forall_nil_2].

(** ** Reading, slicing and splicing arrays *)

Lemma Bytes_app l1 l2 : Bytes (l1 ++ l2) <-> Bytes l1 /\ Bytes l2.
Proof. apply Forall_app. Qed.

Lemma Bytes_get l i : Bytes l -> is_byte (l.[i]).
Proof.
  unfold get. generalize (Z.to_nat i). intros n H; revert n.
  induction H as [|x l Hx _ IH]; intros [|n]; simpl; try done; split; lia.
Qed.

Lemma len_app {A} (l1 l2 : list A) : len (l1 ++ l2) = len l1 + len l2.
Proof. unfold len. rewrite length_app. lia. Qed.

Lemma len_nil {A} : len (@nil A) = 0.
Proof. done. Qed.

Lemma len_cons {A} (x : A) l : len (x :: l) = len l + 1.
Proof. unfold len; cbn [length]; lia. Qed.

Lemma len_map {A B} (f : A -> B) l : len (map f l) = len l.
Proof. unfold len. by rewrite length_map. Qed.

Lemma len_rev {A} (l : list A) : len (rev l) = len l.
Proof. unfold len. by rewrite length_rev. Qed.

Lemma len_repeat {A} (x : A) n : len (repeat x n) = Z.of_nat n.
Proof. unfold len. by rewrite repeat_length. Qed.

Lemma len_take {A} n (l : list A) : len (take n l) = Z.min (Z.of_nat n) (len l).
Proof. unfold len. rewrite length_take. lia. Qed.

Lemma len_drop {A} n (l : list A) : len (drop n l) = Z.max 0 (len l - Z.of_nat n).
Proof. unfold len. rewrite length_drop. lia. Qed.

Create Rewrite HintDb len.
#[export] Hint Rewrite @len_app @len_nil @len_cons @len_map @len_rev @len_repeat @len_take
  @len_drop @length_app @length_take @length_drop @length_map @repeat_length : len.

Lemma len_nonneg {A} (l : list A) : 0 <= len l.
Proof. unfold len; lia. Qed.

(** Lengths of lists, normalised and decided. *)
Ltac len_lia :=
  autorewrite with len in *;
  repeat match goal with
  | |- context [len ?l] =>
      lazymatch goal with H : 0 <= len l |- _ => fail | _ => pose proof (len_nonneg l) end
  | _ : context [len ?l] |- _ =>
      lazymatch goal with H : 0 <= len l |- _ => fail | _ => pose proof (len_nonneg l) end
  end; unfold len in *; lia.

Lemma get_lookup l i : 0 <= i < len l -> l !! Z.to_nat i = Some (l.[i]).
Proof.
  unfold get, len; intros ?. destruct (nth_lookup_or_length l (Z.to_nat i) 0); [done|lia].
Qed.

Lemma get_lookup' l n x : l !! n = Some x -> l.[Z.of_nat n] = x.
Proof. unfold get. rewrite Nat2Z.id. apply nth_lookup_Some. Qed.

Lemma get_app_l l1 l2 i : 0 <= i < len l1 -> (l1 ++ l2).[i] = l1.[i].
Proof. unfold get, len; intros. apply app_nth1; lia. Qed.

Lemma get_app_r l1 l2 i : len l1 <= i -> (l1 ++ l2).[i] = l2.[i - len l1].
Proof.
  unfold get, len; intros. rewrite app_nth2 by lia. f_equal. lia.
Qed.

Lemma splice_length off d l :
  0 <= off -> off + len d <= len l -> length (splice off d l) = length l.
Proof.
  unfold splice, len; intros. rewrite !length_app, length_take, length_drop. lia.
Qed.

Lemma splice_Bytes off d l : Bytes d -> Bytes l -> Bytes (splice off d l).
Proof.
  intros. unfold splice. rewrite !Bytes_app. split_and!; [by apply Forall_take|done|].
  by apply Forall_drop.
Qed.

Lemma slice_splice_same off d l :
  0 <= off -> off + len d <= len l -> slice off (len d) (splice off d l) = d.
Proof.
  unfold splice, slice, len; intros. rewrite drop_app_length', Nat2Z.id, take_app_length;
    [done|rewrite length_take; lia].
Qed.

Lemma take_splice n off d l :
  Z.of_nat n <= off -> off <= len l -> take n (splice off d l) = take n l.
Proof.
  unfold splice, len; intros. rewrite take_app_le by (rewrite length_take; lia).
  rewrite take_take. f_equal. lia.
Qed.

(** A splice replaces the middle of three parts. *)
Lemma splice_at x y z d o :
  o = len x -> length y = length d -> splice o d (x ++ y ++ z) = x ++ d ++ z.
Proof.
  intros -> Hl. unfold splice. replace (Z.to_nat (len x)) with (length x) by len_lia.
  rewrite take_app_length, <- Hl, (app_assoc x y z), drop_app_length'; [done|].
  by rewrite length_app.
Qed.

(** A list cut at an offset, the second part of a given length. *)
Lemma cut_at off n (l : list Z) :
  0 <= off -> 0 <= n -> off + n <= len l ->
  exists x y z, l = x ++ y ++ z /\ len x = off /\ len y = n.
Proof.
  intros. exists (take (Z.to_nat off) l), (take (Z.to_nat n) (drop (Z.to_nat off) l)),
    (drop (Z.to_nat n) (drop (Z.to_nat off) l)).
  rewrite !take_drop. split_and!; [done|len_lia|len_lia].
Qed.

Lemma splice_splice o d1 d2 l :
  0 <= o -> o + len d1 + len d2 <= len l ->
  splice (o + len d1) d2 (splice o d1 l) = splice o (d1 ++ d2) l.
Proof.
  intros Ho Hl. destruct (cut_at o (len d1 + len d2) l) as (x & y & z & -> & Hx & Hy); [lia|len_lia|lia|].
  destruct (cut_at (len d1) (len d2) y) as (y1 & y2 & y3 & -> & Hy1 & Hy2); [len_lia|len_lia|lia|].
  assert (y3 = []) as -> by (apply nil_length_inv; len_lia). rewrite app_nil_r in *.
  rewrite (splice_at x (y1 ++ y2) z (d1 ++ d2)) by len_lia. rewrite <- !app_assoc.
  rewrite (splice_at x y1) by len_lia. rewrite app_assoc, (splice_at (x ++ d1) y2) by len_lia.
  by rewrite <- !app_assoc.
Qed.

Lemma drop_splice n off d l :
  0 <= off -> off + len d <= len l -> off + len d <= Z.of_nat n -> drop n (splice off d l) = drop n l.
Proof.
  intros Ho Hl Hn. destruct (cut_at off (len d) l) as (x & y & z & -> & Hx & Hy); [lia|len_lia|lia|].
  rewrite (splice_at x y) by len_lia. rewrite !drop_app_ge by len_lia. f_equal. len_lia.
Qed.

(** Writing right after the part of a buffer that is already filled. *)
Lemma put_app out d junk :
  len d <= len junk -> put (len out) d (out ++ junk) = Some ((out ++ d) ++ drop (length d) junk).
Proof.
  intros. unfold put. destruct (Z.leb_spec 0 (len out)); [|len_lia].
  destruct (Z.leb_spec (len out + len d) (len (out ++ junk))); [|len_lia]. cbn [andb]. f_equal.
  unfold splice. replace (Z.to_nat (len out)) with (length out) by len_lia.
  rewrite take_app_length, drop_app_ge by lia. rewrite app_assoc. do 2 f_equal. lia.
Qed.

Lemma put_mid a p p' c : length p' = length p -> put (len a) p' (a ++ p ++ c) = Some (a ++ p' ++ c).
Proof.
  intros Hl. rewrite put_app by len_lia. rewrite Hl, drop_app_length. by rewrite <- app_assoc.
Qed.

Lemma slice_at pre l n : slice (len pre) n (pre ++ l) = take (Z.to_nat n) l.
Proof.
  unfold slice. replace (Z.to_nat (len pre)) with (length pre) by len_lia.
  by rewrite drop_app_length.
Qed.

Lemma slice_rest pre l : slice (len pre) (len (pre ++ l) - len pre) (pre ++ l) = l.
Proof. rewrite slice_at. apply take_ge. len_lia. Qed.

(** [memset(p, 0, end - p)]. *)
Lemma put_zeros out junk :
  put (len out) (repeat 0 (Z.to_nat (len (out ++ junk) - len out))) (out ++ junk)
  = Some (out ++ repeat 0 (length junk)).
Proof.
  replace (Z.to_nat (len (out ++ junk) - len out)) with (length junk) by len_lia.
  rewrite put_app by len_lia. rewrite repeat_length, drop_ge, app_nil_r; done.
Qed.

(** A slice, index by index. *)
Lemma slice_map off n l :
  (off + n <= length l)%nat ->
  take n (drop off l) = map (fun k => l.[Z.of_nat off + Z.of_nat k]) (List.seq 0 n).
Proof.
  intros H. apply list_eq. intros i. destruct (decide (i < n)%nat) as [Hi|Hi].
  - rewrite lookup_take_lt, lookup_drop by done.
    rewrite list_lookup_fmap, lookup_seq_lt by done. cbn [fmap option_fmap option_map].
    rewrite Nat.add_0_l, <- Nat2Z.inj_add. unfold get. rewrite Nat2Z.id.
    destruct (nth_lookup_or_length l (off + i) 0); [done|lia].
  - rewrite !lookup_ge_None_2; [done|rewrite length_map, length_seq; lia|rewrite length_take; lia].
Qed.

(** ** Exhaustive reasoning over a byte *)

Definition all_bytes : list Z := map Z.of_nat (List.seq 0 256).

Lemma byte_forall (P : Z -> bool) : forallb P all_bytes = true -> forall b, is_byte b -> P b = true.
Proof.
  rewrite forallb_forall. intros H b [??]. apply H, in_map_iff.
  exists (Z.to_nat b). rewrite in_seq. change (2 ^ 8) with 256 in *. lia.
Qed.

Lemma byte_forall_eq (f g : Z -> Z) :
  forallb (fun b => f b =? g b) all_bytes = true -> forall b, is_byte b -> f b = g b.
Proof. intros H b Hb. apply Z.eqb_eq. by apply (byte_forall (fun b => f b =? g b)). Qed.

Lemma byte_forall2 (P : Z -> Z -> bool) :
  forallb (fun a => forallb (P a) all_bytes) all_bytes = true ->
  forall a b, is_byte a -> is_byte b -> P a b = true.
Proof.
  intros H a b Ha Hb. apply (byte_forall (P a)); [|done].
  by apply (byte_forall (fun a => forallb (P a) all_bytes)).
Qed.

(** ** Conversion to a signed integer *)

Lemma to_signed_range w z : 0 < w -> - 2 ^ (w - 1) <= to_signed w z < 2 ^ (w - 1).
Proof.
  intros Hw. unfold to_signed. pose proof (in_width_wrap w z ltac:(lia)) as [? Hz].
  assert (2 ^ w = 2 * 2 ^ (w - 1)) as E by (rewrite <- Z.pow_succ_r by lia; f_equal; lia).
  destruct (Z.ltb_spec (wrap w z) (2 ^ (w - 1))); lia.
Qed.

Lemma to_signed_fits w z : 0 < w -> - 2 ^ (w - 1) <= z < 2 ^ (w - 1) -> to_signed w z = z.
Proof.
  intros Hw Hz. unfold to_signed, wrap. assert (E : 2 ^ w = 2 * 2 ^ (w - 1)) by (rewrite <- Z.pow_succ_r by lia; f_equal; lia).
  cbv zeta. destruct (Z.leb_spec 0 z).
  - rewrite Z.mod_small by lia. case_match; lia.
  - assert (z mod 2 ^ w = z + 2 ^ w) as -> by (symmetry; apply Z.mod_unique with (-1); lia). case_match; lia.
Qed.
