(* ===== verification/Endian.v ===== *)
(** * Byte order: [include/endian.h]

    The byte-swapping macros and the [cpu_to_*]/[*_to_cpu] conversions for the
    configuration of [include/config.h] ([HAVE_LITTLE_ENDIAN 1],
    [HAVE_BYTESWAP_H 0], [HAVE_BSWAP_64 0]), and the memory image of an integer
    on that machine.  The theorems relate the conversions to the big-endian
    reading and writing of memory that SHA-256 asks for. *)
From S2P Require Import Prelude.

(** ** The memory image of integers *)

(** Little-endian, what a load or a store of the configured CPU does. *)
Fixpoint load_le (l : list Z) : Z :=
  match l with [] => 0 | b :: l => b + 2 ^ 8 * load_le l end.

Fixpoint store_le (n : nat) (z : Z) : list Z :=
  match n with O => [] | S n => u8 z :: store_le n (z / 2 ^ 8) end.

(** Big-endian, the reference for the [be] conversions. *)
Definition load_be (l : list Z) : Z := load_le (rev l).

Definition store_be (n : nat) (z : Z) : list Z := rev (store_le n z).

(** ** Byte swaps *)

Definition BSWAP_16 (val : Z) : Z :=
  ((u16 val .& 0x00ff) .<< 8) .| ((u16 val .& 0xff00) .>> 8).

Definition BSWAP_32 (val : Z) : Z :=
  u32 ((u32 val .& 0x000000ff) .<< 24)
  .| u32 ((u32 val .& 0x0000ff00) .<< 8)
  .| ((u32 val .& 0x00ff0000) .>> 8)
  .| ((u32 val .& 0xff000000) .>> 24).

Definition BSWAP_64 (val : Z) : Z :=
  u64 ((u64 val .& 0x00000000000000ff) .<< 56)
  .| u64 ((u64 val .& 0x000000000000ff00) .<< 40)
  .| u64 ((u64 val .& 0x0000000000ff0000) .<< 24)
  .| u64 ((u64 val .& 0x00000000ff000000) .<< 8)
  .| ((u64 val .& 0x000000ff00000000) .>> 8)
  .| ((u64 val .& 0x0000ff0000000000) .>> 24)
  .| ((u64 val .& 0x00ff000000000000) .>> 40)
  .| ((u64 val .& 0xff00000000000000) .>> 56).

Definition bswap_16 (val : Z) : Z := u16 (BSWAP_16 val).
Definition bswap_32 (val : Z) : Z := u32 (BSWAP_32 val).
Definition bswap_64 (val : Z) : Z := u64 (BSWAP_64 val).

(** ** Conversions *)

Definition cpu_to_le64 (native : Z) : Z := u64 native.
Definition cpu_to_le32 (native : Z) : Z := u32 native.
Definition cpu_to_le16 (native : Z) : Z := u16 native.
Definition le64_to_cpu (le_val : Z) : Z := u64 le_val.
Definition le32_to_cpu (le_val : Z) : Z := u32 le_val.
Definition le16_to_cpu (le_val : Z) : Z := u16 le_val.

Definition cpu_to_be64 (native : Z) : Z := u64 (BSWAP_64 native).
Definition cpu_to_be32 (native : Z) : Z := u32 (BSWAP_32 native).
Definition cpu_to_be16 (native : Z) : Z := u16 (BSWAP_16 native).
Definition be64_to_cpu (be_val : Z) : Z := u64 (BSWAP_64 be_val).
Definition be32_to_cpu (be_val : Z) : Z := u32 (BSWAP_32 be_val).
Definition be16_to_cpu (be_val : Z) : Z := u16 (BSWAP_16 be_val).

(** ** Memory images *)

Lemma store_le_length n z : length (store_le n z) = n.
Proof. revert z; induction n; intros; simpl; auto. Qed.

Lemma store_be_length n z : length (store_be n z) = n.
Proof. unfold store_be. by rewrite length_rev, store_le_length. Qed.

Lemma store_le_Bytes n z : Bytes (store_le n z).
Proof.
  revert z; induction n; intros; simpl; constructor; [by apply in_width_wrap|apply IHn].
Qed.

Lemma store_be_Bytes n z : Bytes (store_be n z).
Proof. apply Forall_rev, store_le_Bytes. Qed.

Lemma load_le_bound l : Bytes l -> in_width (8 * len l) (load_le l).
Proof.
  unfold len. induction 1 as [|b l Hb Hl IH]; [split; simpl; lia|].
  cbn [load_le length]. unfold in_width in *.
  replace (8 * Z.of_nat (S (length l))) with (8 + 8 * Z.of_nat (length l)) by lia.
  rewrite Z.pow_add_r by lia. change (2 ^ 8) with 256 in *. nia.
Qed.

Lemma load_be_bound l : Bytes l -> in_width (8 * len l) (load_be l).
Proof.
  intros. unfold load_be. replace (len l) with (len (rev l))
    by (unfold len; by rewrite length_rev).
  apply load_le_bound. by apply Forall_rev.
Qed.

Lemma store_load_le l : Bytes l -> store_le (length l) (load_le l) = l.
Proof.
  induction 1 as [|b l Hb Hl IH]; [done|]. cbn [length store_le load_le].
  unfold wrap, in_width in *. f_equal.
  - rewrite Z.mul_comm, Z.mod_add by lia. by apply Z.mod_small.
  - rewrite Z.mul_comm, Z.div_add, Z.div_small by lia. done.
Qed.

Lemma load_store_le n z : load_le (store_le n z) = wrap (8 * Z.of_nat n) z.
Proof.
  revert z; induction n as [|n IH]; intros z; cbn [load_le store_le].
  - unfold wrap. by rewrite Z.mod_1_r.
  - rewrite IH. unfold wrap. replace (8 * Z.of_nat (S n)) with (8 + 8 * Z.of_nat n) by lia.
    rewrite Z.pow_add_r, Z.rem_mul_r by lia. done.
Qed.

Lemma store_load_be l : Bytes l -> store_be (length l) (load_be l) = l.
Proof.
  intros. unfold store_be, load_be. rewrite <- (length_rev l), store_load_le.
  - apply rev_involutive.
  - by apply Forall_rev.
Qed.

Lemma load_store_be n z : load_be (store_be n z) = wrap (8 * Z.of_nat n) z.
Proof. unfold store_be, load_be. by rewrite rev_involutive, load_store_le. Qed.

(** Two memory images of one width are equal when they load the same value. *)
Lemma load_le_inj l1 l2 :
  Bytes l1 -> Bytes l2 -> length l1 = length l2 -> load_le l1 = load_le l2 -> l1 = l2.
Proof.
  intros H1 H2 Hl He. rewrite <- (store_load_le l1), <- (store_load_le l2) by done.
  by rewrite Hl, He.
Qed.

(** A store keeps the low bytes only. *)
Lemma store_le_wrap n z : store_le n (wrap (8 * Z.of_nat n) z) = store_le n z.
Proof.
  apply load_le_inj; [apply store_le_Bytes..|by rewrite !store_le_length|].
  rewrite !load_store_le. apply wrap_id, in_width_wrap. lia.
Qed.

(** ** The byte swaps reverse the memory image *)

(** Digit [i] of [val] in base 256, moved to position [j]: the shape of every
    term of a byte swap. *)
Definition digit (val i : Z) : Z := (val / 2 ^ (8 * i)) mod 2 ^ 8.

Lemma digit_width val i : is_byte (digit val i).
Proof. by apply in_width_wrap. Qed.

Lemma swap_left w val i j :
  0 <= i <= j -> 8 * j + 8 <= w ->
  wrap w ((val .& (Z.ones 8 .<< (8 * i))) .<< (8 * (j - i))) = digit val i * 2 ^ (8 * j).
Proof.
  intros. rewrite land_mask by lia. fold (digit val i).
  rewrite Z.shiftl_mul_pow2, <- Z.mul_assoc, <- Z.pow_add_r by lia.
  replace (8 * i + 8 * (j - i)) with (8 * j) by lia.
  apply wrap_id, (in_width_le (8 + 8 * j)); [lia|].
  pose proof (digit_width val i) as [? ?]. unfold in_width.
  rewrite Z.pow_add_r by lia. nia.
Qed.

Lemma swap_right val i j :
  0 <= j <= i ->
  (val .& (Z.ones 8 .<< (8 * i))) .>> (8 * (i - j)) = digit val i * 2 ^ (8 * j).
Proof.
  intros. rewrite land_mask by lia. fold (digit val i).
  replace (8 * i) with (8 * j + 8 * (i - j)) at 1 by lia.
  rewrite Z.pow_add_r, Z.mul_assoc, Z.shiftr_div_pow2, Z.div_mul by lia. done.
Qed.

Lemma digit_wrap w val i :
  0 <= i -> 8 * i + 8 <= w -> digit (wrap w val) i = digit val i.
Proof.
  intros. apply Z.bits_inj'; intros k Hk. unfold digit.
  rewrite !Z.testbit_mod_pow2 by lia. destruct (Z.ltb_spec k 8); [|done].
  rewrite !Z.div_pow2_bits, wrap_spec by lia. by destruct (Z.ltb_spec (k + 8 * i) w); [|lia].
Qed.

Lemma digit_0 val : u8 val = digit val 0.
Proof. unfold digit. by rewrite Z.mul_0_r, Z.pow_0_r, Z.div_1_r. Qed.

Lemma digit_S val i : 0 <= i -> digit (val / 2 ^ 8) i = digit val (i + 1).
Proof.
  intros. unfold digit. rewrite Z.div_div, <- Z.pow_add_r by lia. do 3 f_equal. lia.
Qed.

Lemma load_le_app l1 l2 : load_le (l1 ++ l2) = load_le l1 + 2 ^ (8 * len l1) * load_le l2.
Proof.
  unfold len. induction l1 as [|b l IH]; cbn [app load_le length].
  - change (8 * Z.of_nat 0) with 0. lia.
  - rewrite IH. replace (8 * Z.of_nat (S (length l))) with (8 + 8 * Z.of_nat (length l)) by lia.
    rewrite Z.pow_add_r by lia. lia.
Qed.

Lemma load_be_cons b l : load_be (b :: l) = load_be l + b * 2 ^ (8 * len l).
Proof.
  unfold load_be. cbn [rev]. rewrite load_le_app. cbn [load_le].
  unfold len. rewrite length_rev. lia.
Qed.

(** A chain of [|] of digits at decreasing positions is a big-endian load. *)
Fixpoint lor_be (l : list Z) : Z :=
  match l with [] => 0 | b :: l => (b * 2 ^ (8 * len l)) .| lor_be l end.

Lemma lor_be_load l : Bytes l -> lor_be l = load_be l.
Proof.
  induction 1 as [|b l Hb Hl IH]; [done|]. cbn [lor_be]. rewrite IH, load_be_cons, Z.lor_comm.
  apply lor_add; [unfold len; lia|]. by apply load_be_bound.
Qed.

Lemma store_le_digits n val :
  store_le n val = map (fun i => digit val (Z.of_nat i)) (List.seq 0 n).
Proof.
  revert val; induction n as [|n IH]; intros val; [done|].
  cbn [store_le List.seq map]. rewrite digit_0, IH, <- seq_shift, map_map. f_equal.
  apply map_ext. intros i. rewrite digit_S by lia. f_equal. lia.
Qed.

Lemma digits_Bytes val l : Bytes (map (digit val) l).
Proof. apply Forall_map, Forall_true. intros; apply digit_width. Qed.

(** Rewrites one swap macro into the sum of its digits. *)
Ltac swap_digits w :=
  repeat match goal with
  | |- context [wrap w ((?v .& ?m) .<< ?s)] =>
      let i := eval vm_compute in (Z.log2 m / 8) in
      let j := eval vm_compute in (Z.log2 m / 8 + s / 8) in
      change (wrap w ((v .& m) .<< s))
        with (wrap w ((v .& (Z.ones 8 .<< (8 * i))) .<< (8 * (j - i))));
      rewrite (swap_left w v i j) by lia
  | |- context [(?v .& ?m) .>> ?s] =>
      let i := eval vm_compute in (Z.log2 m / 8) in
      let j := eval vm_compute in (Z.log2 m / 8 - s / 8) in
      change ((v .& m) .>> s) with ((v .& (Z.ones 8 .<< (8 * i))) .>> (8 * (i - j)));
      rewrite (swap_right v i j) by lia
  end; rewrite <- ?Z.lor_assoc.

(** Every swap macro of the header is the big-endian reading of the
    little-endian memory image of its argument. *)
Ltac solve_swap w :=
  swap_digits w; rewrite store_le_digits;
  match goal with
  | |- _ = load_be (map ?f ?s) =>
      rewrite <- (lor_be_load (map f s))
        by (apply Forall_map, Forall_true; intros; apply digit_width);
      cbn [List.seq map lor_be]; rewrite Z.lor_0_r;
      repeat (rewrite digit_wrap by lia); reflexivity
  end.

Lemma BSWAP_16_spec val : BSWAP_16 val = load_be (store_le 2 val).
Proof.
  unfold BSWAP_16. rewrite <- (wrap_id 16 ((u16 val .& 0x00ff) .<< 8)).
  - solve_swap 16.
  - change (u16 val .& 0x00ff) with (u16 val .& (Z.ones 8 .<< (8 * 0))).
    rewrite land_mask by lia. fold (digit (u16 val) 0). rewrite Z.shiftl_mul_pow2 by lia.
    pose proof (digit_width (u16 val) 0) as [? ?]. unfold in_width. lia.
Qed.

Lemma BSWAP_32_spec val : BSWAP_32 val = load_be (store_le 4 val).
Proof. unfold BSWAP_32. solve_swap 32. Qed.

Lemma BSWAP_64_spec val : BSWAP_64 val = load_be (store_le 8 val).
Proof. unfold BSWAP_64. solve_swap 64. Qed.

(** ** The interface the clients use

    A conversion of [n] bytes between the CPU's order and big-endian order. *)
Class ByteSwap (n : nat) (swap : Z -> Z) : Prop :=
  byte_swap val : swap val = load_be (store_le n val).

Lemma load_be_store_width n val : in_width (8 * Z.of_nat n) (load_be (store_le n val)).
Proof.
  replace (Z.of_nat n) with (len (store_le n val)) by (unfold len; by rewrite store_le_length).
  apply load_be_bound, store_le_Bytes.
Qed.

#[local] Ltac solve_swap_instance n spec :=
  intros val; cbv beta delta [bswap_16 bswap_32 bswap_64 cpu_to_be16 cpu_to_be32 cpu_to_be64
    be16_to_cpu be32_to_cpu be64_to_cpu];
  rewrite spec; apply wrap_id, (load_be_store_width n val).

#[export] Instance bswap_16_swap : ByteSwap 2 bswap_16.
Proof. solve_swap_instance 2%nat BSWAP_16_spec. Qed.
#[export] Instance bswap_32_swap : ByteSwap 4 bswap_32.
Proof. solve_swap_instance 4%nat BSWAP_32_spec. Qed.
#[export] Instance bswap_64_swap : ByteSwap 8 bswap_64.
Proof. solve_swap_instance 8%nat BSWAP_64_spec. Qed.
#[export] Instance cpu_to_be16_swap : ByteSwap 2 cpu_to_be16.
Proof. solve_swap_instance 2%nat BSWAP_16_spec. Qed.
#[export] Instance cpu_to_be32_swap : ByteSwap 4 cpu_to_be32.
Proof. solve_swap_instance 4%nat BSWAP_32_spec. Qed.
#[export] Instance cpu_to_be64_swap : ByteSwap 8 cpu_to_be64.
Proof. solve_swap_instance 8%nat BSWAP_64_spec. Qed.
#[export] Instance be16_to_cpu_swap : ByteSwap 2 be16_to_cpu.
Proof. solve_swap_instance 2%nat BSWAP_16_spec. Qed.
#[export] Instance be32_to_cpu_swap : ByteSwap 4 be32_to_cpu.
Proof. solve_swap_instance 4%nat BSWAP_32_spec. Qed.
#[export] Instance be64_to_cpu_swap : ByteSwap 8 be64_to_cpu.
Proof. solve_swap_instance 8%nat BSWAP_64_spec. Qed.

(** The conversions share bodies: without this, resolution unfolds them. *)
#[export] Hint Opaque bswap_16 bswap_32 bswap_64 cpu_to_be16 cpu_to_be32 cpu_to_be64
  be16_to_cpu be32_to_cpu be64_to_cpu : typeclass_instances.

Section ByteSwap.
Context {n : nat} {swap : Z -> Z} `{!ByteSwap n swap}.

(** Loading big-endian data and converting it reads it big-endian. *)
Lemma swap_load l : Bytes l -> length l = n -> swap (load_le l) = load_be l.
Proof using Type*. intros Hl <-. by rewrite (byte_swap (swap:=swap)), store_load_le. Qed.

(** Storing a converted value writes it big-endian. *)
Lemma swap_store val : store_le n (swap val) = store_be n val.
Proof using Type*.
  apply load_le_inj; [apply store_le_Bytes|apply store_be_Bytes| |].
  - by rewrite store_le_length, store_be_length.
  - rewrite load_store_le, (byte_swap (n:=n) (swap:=swap)). apply wrap_id, load_be_store_width.
Qed.

Lemma swap_swap val : in_width (8 * Z.of_nat n) val -> swap (swap val) = val.
Proof using Type*.
  intros. rewrite (byte_swap (n:=n) (swap:=swap)), swap_store. unfold store_be, load_be.
  by rewrite rev_involutive, load_store_le, wrap_id.
Qed.
End ByteSwap.

(** ** Properties *)

(** A big-endian field read from memory through [be64_to_cpu],
    [be32_to_cpu] or [be16_to_cpu] has the big-endian value of its bytes, and a
    value stored through [cpu_to_be*] is laid out most significant byte first. *)
Theorem be_conversions_memory (b8 b4 b2 : list Z) (v : Z)
    (H8 : Bytes b8 /\ length b8 = 8%nat) (H4 : Bytes b4 /\ length b4 = 4%nat)
    (H2 : Bytes b2 /\ length b2 = 2%nat) :
  be64_to_cpu (load_le b8) = load_be b8 /\ be32_to_cpu (load_le b4) = load_be b4 /\
  be16_to_cpu (load_le b2) = load_be b2 /\ store_le 8 (cpu_to_be64 v) = store_be 8 v /\
  store_le 4 (cpu_to_be32 v) = store_be 4 v /\ store_le 2 (cpu_to_be16 v) = store_be 2 v.
Proof.
  destruct H8, H4, H2. split_and!; first [by apply swap_load | by apply swap_store].
Qed.

Lemma be_conversions_memory_witness :
  be64_to_cpu (load_le [1; 2; 3; 4; 5; 6; 7; 8]) = 0x0102030405060708 /\
  store_le 4 (cpu_to_be32 0x0a0b0c0d) = [10; 11; 12; 13].
Proof.
  pose proof (be_conversions_memory [1; 2; 3; 4; 5; 6; 7; 8] [1; 2; 3; 4] [1; 2] 0x0a0b0c0d) as H.
  destruct H as (H8 & _ & _ & _ & H4 & _);
    [split; [repeat constructor; lia|reflexivity]..|].
  split; [exact H8|exact H4].
Defined.
