(* ===== verification/Hex.v ===== *)
(** * Hexadecimal text: [include/hex.h]

    [char_to_hex], [hex_decode], [hexchar], [hex_encode] and [hex_str_size],
    with the decoder's partial writes kept (a failed call leaves the prefix it
    decoded in the buffer), their round trips and the exact condition under
    which decoding succeeds. *)
From S2P Require Import Prelude.

(** [*val = ...; return 1], or [return 0] with [*val] untouched. *)
Definition char_to_hex (c : Z) : option Z :=
  if (48 <=? c) && (c <=? 57) then Some (u8 (c - 48))
  else if (97 <=? c) && (c <=? 102) then Some (u8 (c - 97 + 10))
  else if (65 <=? c) && (c <=? 70) then Some (u8 (c - 65 + 10))
  else None.

(** The [while (slen > 1)] loop and its final [return slen == 0 && bufsize == 0]:
    the return value and the bytes stored so far.  [str] is the text left
    ([slen] is its length), [bufsize] the room left. *)
Fixpoint hex_decode_loop (str : list Z) (bufsize : Z) (p : list Z) : Z * list Z :=
  match str with
  | c1 :: c2 :: str' =>
      match char_to_hex c1, char_to_hex c2 with
      | Some v1, Some v2 =>
          if bufsize =? 0 then (0, p)
          else hex_decode_loop str' (bufsize - 1) (p ++ [u8 ((v1 .<< 4) .| v2)])
      | _, _ => (0, p)
      end
  | _ => (Z.b2z ((len str =? 0) && (bufsize =? 0)), p)
  end.

(** [hex_decode(str, slen, buf, bufsize)] on a buffer of [bufsize] bytes:
    return value and buffer. *)
Definition hex_decode (str buf : list Z) : Z * list Z :=
  let '(ok, p) := hex_decode_loop str (len buf) [] in (ok, splice 0 p buf).

Definition hex_str_size (bytes : Z) : Z := u64 (2 * bytes + 1).

(** [abort()] is [None]. *)
Definition hexchar (val : Z) : option Z :=
  if val <? 10 then Some (48 + val)
  else if val <? 16 then Some (97 + val - 10)
  else None.

Fixpoint hex_encode_loop (buf : list Z) : option (list Z) :=
  match buf with
  | [] => Some [0]
  | c :: buf =>
      h ← hexchar (c .>> 4);
      l ← hexchar (c .& 0xF);
      rest ← hex_encode_loop buf;
      Some (h :: l :: rest)
  end.

(** [hex_encode(buf, bufsize, dest, destsize)] on the [destsize] bytes [dest]:
    return value and destination; [None] is [abort()]. *)
Definition hex_encode (buf dest : list Z) : option (Z * list Z) :=
  if len dest <? hex_str_size (len buf) then Some (0, dest)
  else text ← hex_encode_loop buf; Some (1, splice 0 text dest).

(** ** Reference: the digits of a byte string *)

Definition hex_digit (v : Z) : Z := if v <? 10 then 48 + v else 87 + v.

Definition hex_text (l : list Z) : list Z :=
  concat (map (fun b => [hex_digit (b / 16); hex_digit (b mod 16)]) l).

(** Value of a digit in either case. *)
Definition is_hex (c : Z) : bool :=
  ((48 <=? c) && (c <=? 57)) || ((97 <=? c) && (c <=? 102)) || ((65 <=? c) && (c <=? 70)).

Lemma hex_text_length l : length (hex_text l) = (2 * length l)%nat.
Proof. unfold hex_text. induction l; simpl; lia. Qed.

Lemma hexchar_digit v : 0 <= v < 16 -> hexchar v = Some (hex_digit v).
Proof.
  intros. unfold hexchar, hex_digit. destruct (Z.ltb_spec v 10); [done|].
  destruct (Z.ltb_spec v 16); [f_equal; lia|lia].
Qed.

Lemma char_to_hex_digit v : 0 <= v < 16 -> char_to_hex (hex_digit v) = Some v.
Proof.
  intros. assert (In v (map Z.of_nat (seq 0 16))) as Hv.
  { apply in_map_iff. exists (Z.to_nat v). rewrite in_seq. lia. }
  simpl in Hv. repeat (destruct Hv as [<-|Hv]; [reflexivity|]). done.
Qed.

Lemma char_to_hex_bound c v : char_to_hex c = Some v -> in_width 4 v.
Proof.
  unfold char_to_hex, in_width, wrap. intros.
  repeat case_match; simplify_eq; rewrite Z.mod_small; lia.
Qed.

Lemma char_to_hex_is_hex c : is_Some (char_to_hex c) <-> is_hex c = true.
Proof.
  unfold char_to_hex, is_hex.
  destruct ((48 <=? c) && (c <=? 57)), ((97 <=? c) && (c <=? 102)), ((65 <=? c) && (c <=? 70));
    simpl; split; intros; by eauto using is_Some_None.
Qed.

(** A byte as its two nibbles. *)
Lemma nibbles b : is_byte b -> u8 (((b / 16) .<< 4) .| (b mod 16)) = b.
Proof.
  intros [??]. rewrite Z.shiftl_mul_pow2, Z.lor_comm, lor_add by (try lia; by apply in_width_wrap).
  rewrite wrap_id; [|split]; change (2 ^ 4) with 16; dlia.
Qed.

Lemma shiftr_nibble b : b .>> 4 = b / 16.
Proof. by rewrite Z.shiftr_div_pow2. Qed.

Lemma land_nibble b : b .& 0xF = b mod 16.
Proof. change 0xF with (Z.ones 4). by rewrite Z.land_ones. Qed.

Lemma hex_encode_loop_text l : Bytes l -> hex_encode_loop l = Some (hex_text l ++ [0]).
Proof.
  induction 1 as [|b l [??] Hl IH]; [done|]. cbn [hex_encode_loop].
  rewrite shiftr_nibble, land_nibble, !hexchar_digit, IH by dlia. done.
Qed.

Lemma hex_decode_loop_text l p :
  Bytes l -> hex_decode_loop (hex_text l) (len l) p = (1, p ++ l).
Proof.
  intros Hl. revert p. induction Hl as [|b l Hb Hl IH]; intros p.
  - by rewrite app_nil_r.
  - unfold hex_text; cbn [map concat app hex_decode_loop]. fold (hex_text l).
    pose proof Hb as [??]. rewrite !char_to_hex_digit by dlia.
    rewrite nibbles by done. unfold len in *; cbn [length].
    destruct (Z.eqb_spec (Z.of_nat (S (length l))) 0); [lia|].
    replace (Z.of_nat (S (length l)) - 1) with (Z.of_nat (length l)) by lia.
    rewrite IH, <- app_assoc. done.
Qed.

(** ** What a call leaves behind *)

Lemma splice_0 d l : len d <= len l -> splice 0 d l = d ++ drop (length d) l.
Proof. done. Qed.

Lemma splice_0_full d l : length d = length l -> splice 0 d l = d.
Proof. intros H. unfold splice. simpl. by rewrite H, drop_all, app_nil_r. Qed.

(** Lower-case form of a digit. *)
Definition lower (c : Z) : Z := if (65 <=? c) && (c <=? 70) then c + 32 else c.

Lemma hex_digit_char c v : char_to_hex c = Some v -> hex_digit v = lower c.
Proof.
  unfold char_to_hex, hex_digit, lower, wrap.
  destruct (Z.leb_spec 48 c), (Z.leb_spec c 57), (Z.leb_spec 97 c), (Z.leb_spec c 102),
    (Z.leb_spec 65 c), (Z.leb_spec c 70); simpl; intros [=<-]; try lia;
    rewrite Z.mod_small by lia; destruct (Z.ltb_spec (c - 48) 10); try lia;
    destruct (Z.ltb_spec (c - 97 + 10) 10); try lia;
    destruct (Z.ltb_spec (c - 65 + 10) 10); lia.
Qed.

Lemma char_to_hex_nibble c1 c2 v1 v2 :
  char_to_hex c1 = Some v1 -> char_to_hex c2 = Some v2 ->
  let b := u8 ((v1 .<< 4) .| v2) in
  is_byte b /\ hex_digit (b / 16) = lower c1 /\ hex_digit (b mod 16) = lower c2.
Proof.
  intros H1 H2 b. pose proof (char_to_hex_bound _ _ H1) as [??].
  pose proof (char_to_hex_bound _ _ H2) as [? Hv2]. change (2 ^ 4) with 16 in *.
  assert (b = v2 + v1 * 16) as Hb.
  { unfold b. rewrite Z.shiftl_mul_pow2, Z.lor_comm, lor_add by done.
    apply wrap_id. split; lia. }
  rewrite <- (hex_digit_char _ _ H1), <- (hex_digit_char _ _ H2).
  split_and!; [by apply in_width_wrap|f_equal; dlia|f_equal; dlia].
Qed.

(** The loop invariant of [hex_decode]: whatever happens the bytes stored are
    the decoding of a prefix of the text, they fit in the buffer, and the call
    returns 1 exactly when all of a well-formed text of the right length is
    consumed. *)
Lemma hex_decode_loop_spec str bufsize p :
  0 <= bufsize ->
  exists l, hex_decode_loop str bufsize p =
      (Z.b2z (forallb is_hex str && (len str =? 2 * bufsize)), p ++ l) /\
    Bytes l /\ len l <= bufsize /\ (exists rest, map lower str = hex_text l ++ rest /\
      (forallb is_hex str && (len str =? 2 * bufsize) = true -> rest = [])).
Proof.
  revert bufsize p. induction (Nat.lt_wf_0_projected (@length Z) str) as [str _ IH].
  intros n p Hn. destruct str as [|c1 [|c2 str]].
  - exists []. rewrite app_nil_r. cbn [hex_decode_loop map]. split_and!.
    + change (len []) with 0. destruct (Z.eqb_spec n 0) as [->|]; [done|].
      by destruct (Z.eqb_spec 0 (2 * n)); [lia|].
    + constructor.
    + done.
    + by exists [].
  - exists []. rewrite app_nil_r. cbn [hex_decode_loop map].
    assert ((len [c1] =? 2 * n) = false) as -> by len_lia.
    rewrite andb_false_r. split_and!; [done|constructor|done|by exists [lower c1]].
  - cbn [hex_decode_loop].
    destruct (char_to_hex c1) as [v1|] eqn:E1, (char_to_hex c2) as [v2|] eqn:E2.
    2-4: exists []; rewrite app_nil_r;
      assert (forallb is_hex (c1 :: c2 :: str) = false) as -> by
        (cbn [forallb]; destruct (is_hex c1) eqn:H1, (is_hex c2) eqn:H2; try done;
         apply char_to_hex_is_hex in H1, H2; destruct H1, H2; congruence);
      split_and!; [done|constructor|done|by exists (map lower (c1 :: c2 :: str))].
    destruct (Z.eqb_spec n 0) as [->|Hn0].
    { exists []. rewrite app_nil_r. assert ((len (c1 :: c2 :: str) =? 2 * 0) = false) as ->
        by len_lia.
      rewrite andb_false_r. split_and!; [done|constructor|done|].
      by exists (map lower (c1 :: c2 :: str)). }
    destruct (IH str ltac:(simpl; lia) (n - 1) (p ++ [u8 ((v1 .<< 4) .| v2)]))
      as (l & -> & Hl & Hlen & rest & Hrest & Hdone); [lia|].
    destruct (char_to_hex_nibble _ _ _ _ E1 E2) as (Hb & Hd1 & Hd2).
    assert (forallb is_hex (c1 :: c2 :: str) && (len (c1 :: c2 :: str) =? 2 * n) =
            forallb is_hex str && (len str =? 2 * (n - 1))) as ->.
    { cbn [forallb]. assert (is_hex c1 = true) as -> by (apply char_to_hex_is_hex; eauto).
      assert (is_hex c2 = true) as -> by (apply char_to_hex_is_hex; eauto).
      rewrite !andb_true_l. f_equal.
      autorewrite with len. apply Bool.eq_true_iff_eq. rewrite !Z.eqb_eq. lia. }
    exists (u8 ((v1 .<< 4) .| v2) :: l). rewrite <- app_assoc. split_and!.
    + done.
    + by constructor.
    + len_lia.
    + exists rest. split; [|done]. cbn [map hex_text concat app]. unfold hex_text; cbn [map concat app].
      by rewrite Hd1, Hd2, Hrest.
Qed.

Lemma hex_decode_spec str buf :
  exists l, hex_decode str buf =
      (Z.b2z (forallb is_hex str && (len str =? 2 * len buf)), l ++ drop (length l) buf) /\
    Bytes l /\ len l <= len buf /\ (exists rest, map lower str = hex_text l ++ rest /\
      (forallb is_hex str && (len str =? 2 * len buf) = true -> rest = [])).
Proof.
  destruct (hex_decode_loop_spec str (len buf) [] (len_nonneg _)) as (l & He & Hl & Hn & Hr).
  exists l. unfold hex_decode. rewrite He. done.
Qed.

(** What was in the buffer plays no part in a call that succeeds. *)
Lemma hex_decode_fills str buf buf' :
  length buf = length buf' ->
  fst (hex_decode str buf) = fst (hex_decode str buf') /\
  (fst (hex_decode str buf) <> 0 -> snd (hex_decode str buf) = snd (hex_decode str buf')).
Proof.
  intros Hb. unfold hex_decode. replace (len buf') with (len buf) by (unfold len; lia).
  destruct (hex_decode_loop_spec str (len buf) [] (len_nonneg _)) as (l & -> & _ & _ & rest & Hr & Hdone).
  cbn [app fst snd]. split; [done|].
  destruct (forallb is_hex str && (len str =? 2 * len buf)) eqn:E; [intros _|done].
  rewrite (Hdone eq_refl), app_nil_r in Hr. apply andb_true_iff in E as [_ E]. apply Z.eqb_eq in E.
  apply (f_equal length) in Hr. rewrite length_map, hex_text_length in Hr. unfold len in E.
  rewrite !splice_0_full by lia. done.
Qed.

(** What [hex_encode] stores when it is given room. *)
Lemma hex_encode_text b dest :
  Bytes b -> 2 * len b + 1 < 2 ^ 64 -> 2 * len b + 1 <= len dest ->
  hex_encode b dest = Some (1, hex_text b ++ 0 :: drop (2 * length b + 1) dest).
Proof.
  intros Hb Hs Hd. unfold hex_encode, hex_str_size. pose proof (len_nonneg b).
  rewrite wrap_id, hex_encode_loop_text by (done || by split; lia).
  destruct (Z.ltb_spec (len dest) (2 * len b + 1)); [lia|].
  unfold splice. simpl. rewrite <- app_assoc. do 4 f_equal. simpl. f_equal.
  rewrite length_app, hex_text_length. simpl. f_equal; lia.
Qed.

(** ** Properties *)

(** Decoding the text [hex_encode] writes gives the bytes back: for every
    byte string [b], [hex_encode] into a large enough destination returns 1,
    never aborts, NUL-terminates, leaves the rest of the destination alone, and
    [hex_decode] of the text into a buffer of [b]'s size returns 1 with [b] in
    the buffer. *)
Theorem hex_round_trip (b dest buf : list Z) (Hb : Bytes b) (Hs : 2 * len b + 1 < 2 ^ 64)
    (Hd : 2 * len b + 1 <= len dest) (Hbuf : length buf = length b) :
  hex_encode b dest = Some (1, hex_text b ++ 0 :: drop (2 * length b + 1) dest) /\
  hex_decode (hex_text b) buf = (1, b).
Proof.
  split; [by apply hex_encode_text|].
  unfold hex_decode. replace (len buf) with (len b) by (unfold len; by rewrite Hbuf).
  rewrite hex_decode_loop_text by done. simpl. by rewrite splice_0_full.
Qed.

Lemma hex_round_trip_witness :
  hex_encode [0; 171; 255] (repeat 9 8) = Some (1, [48; 48; 97; 98; 102; 102; 0; 9]) /\
  hex_decode [48; 48; 97; 98; 102; 102] [7; 7; 7] = (1, [0; 171; 255]).
Proof.
  apply (hex_round_trip [0; 171; 255] (repeat 9 8) [7; 7; 7]);
    [repeat constructor; lia|reflexivity|vm_compute; discriminate|reflexivity].
Defined.

Lemma hex_decode_keeps str buf :
  Bytes buf -> Bytes (hex_decode str buf).2 /\ length (hex_decode str buf).2 = length buf.
Proof.
  intros Hb. destruct (hex_decode_spec str buf) as (l & -> & Hl & Hn & _). cbn [snd].
  split; [apply Bytes_app; split; [done|by apply Forall_drop]|].
  rewrite length_app, length_drop. unfold len in Hn; lia.
Qed.

(** [hex_decode] returns 1 exactly when the text consists of [2 * bufsize]
    hexadecimal digits of either case; then the buffer holds the bytes whose
    lower-case text is the lower-cased input, and in every case, failures
    included, it stores at most [bufsize] bytes, all of them bytes, and leaves
    the buffer's length alone. *)
Theorem hex_decode_accepts (str buf : list Z) :
  (fst (hex_decode str buf) = 1 <->
     forallb is_hex str = true /\ len str = 2 * len buf) /\
  (fst (hex_decode str buf) = 1 -> hex_text (snd (hex_decode str buf)) = map lower str) /\
  length (snd (hex_decode str buf)) = length buf /\
  (Bytes buf -> Bytes (snd (hex_decode str buf))).
Proof.
  destruct (hex_decode_spec str buf) as (l & -> & Hl & Hn & rest & Hr & Hdone). simpl.
  assert (Hlen : length (l ++ drop (length l) buf) = length buf).
  { rewrite length_app, length_drop. unfold len in Hn; lia. }
  assert (Hok : Z.b2z (forallb is_hex str && (len str =? 2 * len buf)) = 1 <->
     forallb is_hex str = true /\ len str = 2 * len buf).
  { rewrite <- Z.eqb_eq with (m := 2 * len buf), <- andb_true_iff. by destruct (_ && _). }
  split_and!; [done| |done|].
  - rewrite Hok. intros [Hhex Heq]. rewrite Hdone, app_nil_r in Hr
      by (by rewrite Hhex, Heq, Z.eqb_refl).
    assert (2 * len l = len str) as Hl2.
    { apply (f_equal len) in Hr. unfold len in *. rewrite length_map, hex_text_length in Hr. lia. }
    rewrite drop_ge by (unfold len in *; lia). by rewrite app_nil_r, Hr.
  - intros. apply Bytes_app. split; [done|by apply Forall_drop].
Qed.

Lemma hex_decode_accepts_witness :
  hex_text (snd (hex_decode [65; 98] [0])) = [97; 98].
Proof.
  exact (proj1 (proj2 (hex_decode_accepts [65; 98] [0])) eq_refl).
Defined.
