(* ===== verification/ProofOfWork.v ===== *)
(** * Proof of work: [include/proof.h]

    [zero_bits] and [count_leading_zero_bits].  The specification reads the
    hash as a 256-bit big-endian number: a hash has at least [d] leading zero
    bits exactly when that number is below [2^(256-d)]. *)
From S2P Require Import Prelude Endian.

(** [while (b >>= 1) n++;] — eight iterations are enough for a byte
    ([zero_bits_loop_log2]). *)
Fixpoint zero_bits_loop (fuel : nat) (b n : Z) : option Z :=
  match fuel with
  | O => None
  | S fuel =>
      let b := u8 (b .>> 1) in
      if b =? 0 then Some n else zero_bits_loop fuel b (n + 1)
  end.

Definition zero_bits (b : Z) : Z :=
  if b =? 0 then 8
  else 7 - default 8 (zero_bits_loop 8 b 0).

(** The [for] loop over [hash[i]], [i < 32], with its [break]. *)
Fixpoint count_leading_zero_bits_loop (hash : list Z) (total : Z) : Z :=
  match hash with
  | [] => total
  | h :: hash =>
      let bits := zero_bits h in
      let total := total + bits in
      if bits =? 8 then count_leading_zero_bits_loop hash total else total
  end.

Definition count_leading_zero_bits (hash : list Z) : Z :=
  count_leading_zero_bits_loop (take 32 hash) 0.

(** ** The bit count of one byte *)

Lemma zero_bits_loop_log2 b : is_byte b -> 0 < b -> zero_bits_loop 8 b 0 = Some (Z.log2 b).
Proof.
  intros Hb Hpos.
  assert (H : (b =? 0) || bool_decide (zero_bits_loop 8 b 0 = Some (Z.log2 b)) = true).
  { clear Hpos. revert b Hb.
    apply (byte_forall (fun b => (b =? 0) || bool_decide (zero_bits_loop 8 b 0 = Some (Z.log2 b)))).
    vm_compute. done. }
  apply orb_true_iff in H as [?%Z.eqb_eq|?%bool_decide_eq_true]; [lia|done].
Qed.

Lemma zero_bits_log2 b : is_byte b -> 0 < b -> zero_bits b = 7 - Z.log2 b.
Proof.
  intros. unfold zero_bits. rewrite zero_bits_loop_log2 by done.
  by destruct (Z.eqb_spec b 0); [lia|].
Qed.

Lemma zero_bits_range b : is_byte b -> 0 <= zero_bits b <= 8 /\ (zero_bits b = 8 <-> b = 0).
Proof.
  intros Hb. pose proof Hb as [??]. unfold zero_bits.
  destruct (Z.eqb_spec b 0) as [->|?]; [lia|].
  rewrite zero_bits_loop_log2 by (done || lia). simpl.
  pose proof (Z.log2_nonneg b). assert (Z.log2 b < 8) by (apply Z.log2_lt_pow2; lia). lia.
Qed.

Lemma zero_bits_spec b d : is_byte b -> 0 <= d <= 8 -> (d <= zero_bits b <-> b < 2 ^ (8 - d)).
Proof.
  intros Hb Hd. pose proof Hb as [??]. destruct (decide (b = 0)) as [->|].
  - change (zero_bits 0) with 8. pose proof (Z.pow_pos_nonneg 2 (8 - d)). lia.
  - rewrite zero_bits_log2 by (done || lia).
    rewrite Z.log2_lt_pow2 by lia. lia.
Qed.

(** ** The count over the whole hash *)

Lemma count_loop_add hash t :
  count_leading_zero_bits_loop hash t = t + count_leading_zero_bits_loop hash 0.
Proof.
  revert t; induction hash as [|h hash IH]; intros t;
    cbn [count_leading_zero_bits_loop]; [lia|].
  destruct (zero_bits h =? 8); [|lia]. rewrite (IH (t + _)), (IH (0 + _)). lia.
Qed.

Lemma count_loop_range hash :
  Bytes hash -> 0 <= count_leading_zero_bits_loop hash 0 <= 8 * len hash.
Proof.
  induction 1 as [|h hash Hh Hl IH]; cbn [count_leading_zero_bits_loop]; [done|]. rewrite len_cons.
  pose proof (zero_bits_range h Hh). pose proof (len_nonneg hash).
  destruct (Z.eqb_spec (zero_bits h) 8); [|lia]. rewrite count_loop_add. lia.
Qed.

Lemma count_loop_spec hash d :
  Bytes hash -> 0 <= d <= 8 * len hash ->
  (d <= count_leading_zero_bits_loop hash 0 <-> load_be hash < 2 ^ (8 * len hash - d)).
Proof.
  intros Hl; revert d. induction Hl as [|h hash Hh Hl IH]; intros d Hd.
  - change (len (@nil Z)) with 0 in *. replace d with 0 by lia. change (load_be []) with 0. simpl. lia.
  - rewrite (@len_cons Z) in *. cbn [count_leading_zero_bits_loop]. rewrite load_be_cons.
    pose proof (load_be_bound hash Hl) as [Hlo Hhi]. pose proof (len_nonneg hash).
    pose proof (count_loop_range hash Hl). pose proof (zero_bits_range h Hh) as [Hr H8].
    pose proof Hh as [??]. set (L := 8 * len hash) in *.
    destruct (Z.eqb_spec (zero_bits h) 8) as [E|E].
    + rewrite E, (proj1 H8 E), Z.mul_0_l, Z.add_0_r, count_loop_add, Z.add_0_l.
      destruct (Z.le_gt_cases d 8).
      * pose proof (Z.pow_le_mono_r 2 L (8 * (len hash + 1) - d)). lia.
      * replace (8 * (len hash + 1) - d) with (L - (d - 8)) by lia.
        rewrite <- IH by lia. lia.
    + rewrite Z.add_0_l. destruct (Z.le_gt_cases d 8).
      * rewrite zero_bits_spec by (done || lia).
        replace (8 * (len hash + 1) - d) with ((8 - d) + L) by lia.
        rewrite Z.pow_add_r by lia. nia.
      * assert (2 ^ L <= h * 2 ^ L) by nia.
        pose proof (Z.pow_le_mono_r 2 (8 * (len hash + 1) - d) L). lia.
Qed.

Lemma count_range hash : Bytes hash -> length hash = 32%nat -> 0 <= count_leading_zero_bits hash <= 256.
Proof.
  intros Hb Hl. unfold count_leading_zero_bits. rewrite take_ge by lia.
  pose proof (count_loop_range hash Hb). unfold len in *. lia.
Qed.

(** [count_leading_zero_bits] of a 32-byte hash counts the leading zero
    bits of the 256-bit big-endian number the hash denotes: the count is between
    0 and 256, it reaches [d] exactly when the number is below [2^(256-d)], and
    the inner loop of [zero_bits] never runs out of its eight iterations. *)
Theorem count_leading_zero_bits_spec (hash : list Z)
    (Hb : Bytes hash) (Hl : length hash = 32%nat) :
  0 <= count_leading_zero_bits hash <= 256 /\
  (forall d, 0 <= d <= 256 ->
     (d <= count_leading_zero_bits hash <-> load_be hash < 2 ^ (256 - d))) /\
  (forall b, b ∈ hash -> b <> 0 -> is_Some (zero_bits_loop 8 b 0)).
Proof.
  unfold count_leading_zero_bits. rewrite take_ge by lia.
  assert (len hash = 32) as H32 by (unfold len; lia).
  split; [|split].
  - pose proof (count_loop_range hash Hb) as H. rewrite H32 in H. lia.
  - intros d Hd. pose proof (count_loop_spec hash d Hb) as H. rewrite H32 in H. by apply H.
  - intros b Hin ?. pose proof (proj1 (Forall_forall _ _) Hb b Hin) as Hbb. pose proof Hbb as [??].
    rewrite zero_bits_loop_log2; [by eexists|done|lia].
Qed.

Lemma count_leading_zero_bits_spec_witness :
  count_leading_zero_bits (0 :: 0 :: 31 :: repeat 255 29) = 19 /\
  load_be (0 :: 0 :: 31 :: repeat 255 29) < 2 ^ (256 - 19).
Proof.
  split; [reflexivity|].
  destruct (count_leading_zero_bits_spec (0 :: 0 :: 31 :: repeat 255 29)) as (_ & H & _);
    [repeat constructor; lia|reflexivity|].
  apply H; [lia|vm_compute; discriminate].
Defined.
