(* ===== verification/Sha256Spec.v ===== *)
(** * The SHA-256 standard (FIPS 180-4)

    The reference that [sha256.c] implements: the six logical functions of
    section 4.1.2, the constants of 4.2.2 from the cube roots that
    define them, padding (5.1.1), the initial hash value (5.3.3), the message schedule and the compression loop (6.2.2), over
    messages that are whole bytes. *)
From S2P Require Import Prelude Endian.

(** Addition of 32-bit words. *)
Notation "a ⊞ b" := (u32 (a + b)) (at level 50, left associativity) : c_scope.

Module Spec.

Definition ROTR (n x : Z) : Z := (x .>> n) .| u32 (x .<< (32 - n)).
Definition SHR (n x : Z) : Z := x .>> n.
Definition NOT (x : Z) : Z := x .^ 0xffffffff.

Definition Ch (x y z : Z) : Z := (x .& y) .^ (NOT x .& z).
Definition Maj (x y z : Z) : Z := (x .& y) .^ (x .& z) .^ (y .& z).
Definition Sum0 (x : Z) : Z := ROTR 2 x .^ ROTR 13 x .^ ROTR 22 x.
Definition Sum1 (x : Z) : Z := ROTR 6 x .^ ROTR 11 x .^ ROTR 25 x.
Definition sig0 (x : Z) : Z := ROTR 7 x .^ ROTR 18 x .^ SHR 3 x.
Definition sig1 (x : Z) : Z := ROTR 17 x .^ ROTR 19 x .^ SHR 10 x.

(** The first sixty-four primes. *)
Definition is_prime (n : Z) : bool :=
  forallb (fun d => negb (n mod Z.of_nat d =? 0)) (List.seq 2 (Z.to_nat n - 2)).
Definition primes : list Z := List.filter is_prime (map Z.of_nat (List.seq 2 310)).

(** The largest [r] below [2^n] with [r^3 <= x], bit by bit. *)
Fixpoint cbrt (n : nat) (r x : Z) : Z :=
  match n with
  | O => r
  | S n => let r' := r + 2 ^ Z.of_nat n in cbrt n (if r' ^ 3 <=? x then r' else r) x
  end.

(** The first 32 bits of the fractional parts of the cube roots of the primes,
    and of the square roots of the first eight. *)
Definition K : list Z := map (fun p => u32 (cbrt 35 0 (p * 2 ^ 96))) primes.
Definition H0 : list Z := map (fun p => u32 (Z.sqrt (p * 2 ^ 64))) (take 8 primes).

(** The padding of a message of [n] bytes: a one bit, zero bits up to 448 modulo
    512, and the length in bits on 64 bits. *)
Definition padding (n : Z) : list Z :=
  0x80 :: repeat 0 (Z.to_nat ((55 - n) mod 64)) ++ store_be 8 (8 * n).

Definition pad (msg : list Z) : list Z := msg ++ padding (len msg).

(** The words of a 512-bit block. *)
Definition block_words (block : list Z) : list Z :=
  map (fun i => load_be (slice (4 * Z.of_nat i) 4 block)) (List.seq 0 16).

(** [W_t] from the sixteen words before it, and the schedule [W_0 .. W_63]. *)
Definition next_word (w : list Z) (t : Z) : Z :=
  sig1 (w.[t - 2]) ⊞ w.[t - 7] ⊞ sig0 (w.[t - 15]) ⊞ w.[t - 16].

Fixpoint extend (n : nat) (w : list Z) : list Z :=
  match n with O => w | S n => extend n (w ++ [next_word w (len w)]) end.

Definition schedule (block : list Z) : list Z := extend 48 (block_words block).

(** One step of the compression loop on the working variables [a .. h]. *)
Definition step (st : list Z) (kw : Z * Z) : list Z :=
  match st with
  | [a; b; c; d; e; f; g; h] =>
      let T1 := h ⊞ Sum1 e ⊞ Ch e f g ⊞ kw.1 ⊞ kw.2 in
      let T2 := Sum0 a ⊞ Maj a b c in
      [T1 ⊞ T2; a; b; c; d ⊞ T1; e; f; g]
  | _ => st
  end.

Definition compress (H block : list Z) : list Z :=
  zip_with (fun x y => x ⊞ y) H (foldl step H (zip K (schedule block))).

Fixpoint hash_blocks (n : nat) (H l : list Z) : list Z :=
  match n with
  | O => H
  | S n => hash_blocks n (compress H (take 64 l)) (drop 64 l)
  end.

Definition digest (H : list Z) : list Z := concat (map (store_be 4) H).

Definition sha256 (msg : list Z) : list Z :=
  let p := pad msg in digest (hash_blocks (length p / 64) H0 p).

End Spec.

(** The constants, evaluated. *)
Definition K_table : list Z := Eval vm_compute in Spec.K.

Lemma K_value : Spec.K = K_table.
Proof. vm_cast_no_check (eq_refl K_table). Qed.

#[global] Opaque Spec.K.

(** ** Structure of the reference *)

Lemma hash_blocks_app n1 n2 H l1 l2 :
  length l1 = (64 * n1)%nat ->
  Spec.hash_blocks (n1 + n2) H (l1 ++ l2) = Spec.hash_blocks n2 (Spec.hash_blocks n1 H l1) l2.
Proof.
  revert H l1; induction n1 as [|n1 IH]; intros H l1 Hl; simpl.
  - by destruct l1.
  - rewrite take_app_le, drop_app_le by lia. apply IH. rewrite length_drop. lia.
Qed.

Lemma padding_length n : 0 <= n -> exists q, n + len (Spec.padding n) = 64 * q.
Proof.
  intros. unfold Spec.padding. rewrite len_cons, len_app, len_repeat.
  unfold len at 1. rewrite store_be_length, Z2Nat.id by (apply Z.mod_pos_bound; lia).
  exists ((n + ((55 - n) mod 64) + 9) / 64). dlia.
Qed.

(** The words the rounds 16 to 63 consume, produced one at a time from a window
    of the sixteen latest words, the way an in-place implementation does. *)
Fixpoint rolling (ks w st : list Z) : list Z :=
  match ks with
  | [] => st
  | k :: ks =>
      let nw := Spec.next_word w 16 in
      rolling ks (tail w ++ [nw]) (Spec.step st (k, nw))
  end.

Lemma next_word_window p w :
  length w = 16%nat -> Spec.next_word (p ++ w) (len (p ++ w)) = Spec.next_word w 16.
Proof.
  intros Hw. assert (len w = 16) by (unfold len; lia). unfold Spec.next_word. rewrite len_app.
  rewrite !get_app_r by lia. replace (len w) with 16 by lia.
  by replace (len p + 16 - 2 - len p) with (16 - 2) by lia;
    replace (len p + 16 - 7 - len p) with (16 - 7) by lia;
    replace (len p + 16 - 15 - len p) with (16 - 15) by lia;
    replace (len p + 16 - 16 - len p) with (16 - 16) by lia.
Qed.

Lemma extend_prefix n w : exists l, Spec.extend n w = w ++ l /\ length l = n.
Proof.
  revert w; induction n as [|n IH]; intros w; simpl.
  - exists []. by rewrite app_nil_r.
  - destruct (IH (w ++ [Spec.next_word w (len w)])) as (l & -> & Hl).
    eexists (_ :: l). by rewrite <- app_assoc; split; simpl; [|rewrite Hl].
Qed.

Lemma rolling_extend ks p w st l :
  length w = 16%nat -> Spec.extend (length ks) (p ++ w) = (p ++ w) ++ l ->
  foldl Spec.step st (zip ks l) = rolling ks w st.
Proof.
  revert p w st l; induction ks as [|k ks IH]; intros p w st l Hw He; [done|].
  cbn [length Spec.extend rolling] in *. rewrite next_word_window in He by done.
  set (nw := Spec.next_word w 16) in *.
  destruct (extend_prefix (length ks) ((p ++ w) ++ [nw])) as (l' & Hl' & _).
  rewrite Hl', <- app_assoc in He. apply app_inv_head in He as <-.
  cbn [app zip_with foldl]. apply (IH (p ++ take 1 w)).
  - rewrite length_app. destruct w; simpl in *; lia.
  - destruct w as [|x w]; [done|]. cbn [take tail].
    rewrite firstn_O. replace ((p ++ [x]) ++ w ++ [nw]) with ((p ++ x :: w) ++ [nw]) by (by rewrite <- !app_assoc).
    done.
Qed.

Lemma compress_rolling H block :
  Spec.compress H block =
  zip_with (fun x y => x ⊞ y) H
    (rolling (drop 16 Spec.K) (Spec.block_words block)
       (foldl Spec.step H (zip (take 16 Spec.K) (Spec.block_words block)))).
Proof.
  unfold Spec.compress, Spec.schedule. apply (f_equal (zip_with _ H)).
  assert (Hw : length (Spec.block_words block) = 16%nat) by (unfold Spec.block_words; by rewrite length_map).
  generalize dependent (Spec.block_words block). intros w Hw.
  assert (H16 : length (take 16 Spec.K) = 16%nat) by (rewrite K_value; reflexivity).
  assert (H48 : length (drop 16 Spec.K) = 48%nat) by (rewrite K_value; reflexivity).
  rewrite <- (take_drop 16 Spec.K) at 1.
  generalize dependent (take 16 Spec.K). generalize dependent (drop 16 Spec.K). intros K2 H2 K1 H1.
  destruct (extend_prefix 48 w) as (l & He & Hl). rewrite He, <- H2 in *.
  rewrite zip_with_app, foldl_app by congruence.
  by apply (rolling_extend K2 [] w).
Qed.
