(* ===== verification/Sha256.v ===== *)
(** * SHA-256: [sha256.c], [include/sha256.h]

    The streaming implementation: the context [struct sha256_ctx] with its
    64-byte buffer and byte count, the unrolled transformation, [add],
    [sha256_init], [sha256_update], [sha256_done], [sha256] and the typed
    feeders.  [HAVE_UNALIGNED_ACCESS] is 1 in [include/config.h], so
    [alignment_ok] holds and whole chunks are read in place.

    The refinement relation [repr ctx m] says that a context has absorbed the
    message [m]; [add] extends the message, [sha256_done] returns the digest of
    FIPS 180-4 ([Sha256Spec]). *)
From S2P Require Import Prelude Endian Sha256Spec.

(** ** The logical functions and one round *)

Definition Ch (x y z : Z) : Z := z .^ (x .& (y .^ z)).
Definition Maj (x y z : Z) : Z := (x .& y) .| (z .& (x .| y)).

Definition Sigma0 (x : Z) : Z :=
  (x .>> 2 .| u32 (x .<< 30)) .^ (x .>> 13 .| u32 (x .<< 19)) .^ (x .>> 22 .| u32 (x .<< 10)).
Definition Sigma1 (x : Z) : Z :=
  (x .>> 6 .| u32 (x .<< 26)) .^ (x .>> 11 .| u32 (x .<< 21)) .^ (x .>> 25 .| u32 (x .<< 7)).
Definition sigma0 (x : Z) : Z :=
  (x .>> 7 .| u32 (x .<< 25)) .^ (x .>> 18 .| u32 (x .<< 14)) .^ (x .>> 3).
Definition sigma1 (x : Z) : Z :=
  (x .>> 17 .| u32 (x .<< 15)) .^ (x .>> 19 .| u32 (x .<< 13)) .^ (x .>> 10).

(** The new values of [*d] and [*h]. *)
Definition Round (a b c d e f g h k w : Z) : Z * Z :=
  let t1 := h ⊞ Sigma1 e ⊞ Ch e f g ⊞ k ⊞ w in
  let t2 := Sigma0 a ⊞ Maj a b c in
  (d ⊞ t1, t1 ⊞ t2).

(** The C assignment [x = v]: [v] is evaluated once and named in what follows.
    A constant instead of a [let], so that conversion never unfolds it. *)
Definition assign {A B} (v : A) (k : A -> B) : B := k v.

Notation "'SET' x := v 'IN' k" := (assign v (fun x => k))
  (at level 10, x name, v at level 99, k at level 200) : c_scope.

(** [Transform(s, chunk)]: the new [s[0..7]], from the 16 words of [chunk]. *)
Definition Transform (s chunk : list Z) : list Z :=
  let a := s.[0] in let b := s.[1] in let c := s.[2] in let d := s.[3] in
  let e := s.[4] in let f := s.[5] in let g := s.[6] in let h := s.[7] in
  SET w0 := be32_to_cpu (chunk.[0]) IN
  let '(d, h) := Round a b c d e f g h 0x428a2f98 w0 in
  SET w1 := be32_to_cpu (chunk.[1]) IN
  let '(c, g) := Round h a b c d e f g 0x71374491 w1 in
  SET w2 := be32_to_cpu (chunk.[2]) IN
  let '(b, f) := Round g h a b c d e f 0xb5c0fbcf w2 in
  SET w3 := be32_to_cpu (chunk.[3]) IN
  let '(a, e) := Round f g h a b c d e 0xe9b5dba5 w3 in
  SET w4 := be32_to_cpu (chunk.[4]) IN
  let '(h, d) := Round e f g h a b c d 0x3956c25b w4 in
  SET w5 := be32_to_cpu (chunk.[5]) IN
  let '(g, c) := Round d e f g h a b c 0x59f111f1 w5 in
  SET w6 := be32_to_cpu (chunk.[6]) IN
  let '(f, b) := Round c d e f g h a b 0x923f82a4 w6 in
  SET w7 := be32_to_cpu (chunk.[7]) IN
  let '(e, a) := Round b c d e f g h a 0xab1c5ed5 w7 in
  SET w8 := be32_to_cpu (chunk.[8]) IN
  let '(d, h) := Round a b c d e f g h 0xd807aa98 w8 in
  SET w9 := be32_to_cpu (chunk.[9]) IN
  let '(c, g) := Round h a b c d e f g 0x12835b01 w9 in
  SET w10 := be32_to_cpu (chunk.[10]) IN
  let '(b, f) := Round g h a b c d e f 0x243185be w10 in
  SET w11 := be32_to_cpu (chunk.[11]) IN
  let '(a, e) := Round f g h a b c d e 0x550c7dc3 w11 in
  SET w12 := be32_to_cpu (chunk.[12]) IN
  let '(h, d) := Round e f g h a b c d 0x72be5d74 w12 in
  SET w13 := be32_to_cpu (chunk.[13]) IN
  let '(g, c) := Round d e f g h a b c 0x80deb1fe w13 in
  SET w14 := be32_to_cpu (chunk.[14]) IN
  let '(f, b) := Round c d e f g h a b 0x9bdc06a7 w14 in
  SET w15 := be32_to_cpu (chunk.[15]) IN
  let '(e, a) := Round b c d e f g h a 0xc19bf174 w15 in
  SET w0 := w0 ⊞ (sigma1 w14 ⊞ w9 ⊞ sigma0 w1) IN
  let '(d, h) := Round a b c d e f g h 0xe49b69c1 w0 in
  SET w1 := w1 ⊞ (sigma1 w15 ⊞ w10 ⊞ sigma0 w2) IN
  let '(c, g) := Round h a b c d e f g 0xefbe4786 w1 in
  SET w2 := w2 ⊞ (sigma1 w0 ⊞ w11 ⊞ sigma0 w3) IN
  let '(b, f) := Round g h a b c d e f 0x0fc19dc6 w2 in
  SET w3 := w3 ⊞ (sigma1 w1 ⊞ w12 ⊞ sigma0 w4) IN
  let '(a, e) := Round f g h a b c d e 0x240ca1cc w3 in
  SET w4 := w4 ⊞ (sigma1 w2 ⊞ w13 ⊞ sigma0 w5) IN
  let '(h, d) := Round e f g h a b c d 0x2de92c6f w4 in
  SET w5 := w5 ⊞ (sigma1 w3 ⊞ w14 ⊞ sigma0 w6) IN
  let '(g, c) := Round d e f g h a b c 0x4a7484aa w5 in
  SET w6 := w6 ⊞ (sigma1 w4 ⊞ w15 ⊞ sigma0 w7) IN
  let '(f, b) := Round c d e f g h a b 0x5cb0a9dc w6 in
  SET w7 := w7 ⊞ (sigma1 w5 ⊞ w0 ⊞ sigma0 w8) IN
  let '(e, a) := Round b c d e f g h a 0x76f988da w7 in
  SET w8 := w8 ⊞ (sigma1 w6 ⊞ w1 ⊞ sigma0 w9) IN
  let '(d, h) := Round a b c d e f g h 0x983e5152 w8 in
  SET w9 := w9 ⊞ (sigma1 w7 ⊞ w2 ⊞ sigma0 w10) IN
  let '(c, g) := Round h a b c d e f g 0xa831c66d w9 in
  SET w10 := w10 ⊞ (sigma1 w8 ⊞ w3 ⊞ sigma0 w11) IN
  let '(b, f) := Round g h a b c d e f 0xb00327c8 w10 in
  SET w11 := w11 ⊞ (sigma1 w9 ⊞ w4 ⊞ sigma0 w12) IN
  let '(a, e) := Round f g h a b c d e 0xbf597fc7 w11 in
  SET w12 := w12 ⊞ (sigma1 w10 ⊞ w5 ⊞ sigma0 w13) IN
  let '(h, d) := Round e f g h a b c d 0xc6e00bf3 w12 in
  SET w13 := w13 ⊞ (sigma1 w11 ⊞ w6 ⊞ sigma0 w14) IN
  let '(g, c) := Round d e f g h a b c 0xd5a79147 w13 in
  SET w14 := w14 ⊞ (sigma1 w12 ⊞ w7 ⊞ sigma0 w15) IN
  let '(f, b) := Round c d e f g h a b 0x06ca6351 w14 in
  SET w15 := w15 ⊞ (sigma1 w13 ⊞ w8 ⊞ sigma0 w0) IN
  let '(e, a) := Round b c d e f g h a 0x14292967 w15 in
  SET w0 := w0 ⊞ (sigma1 w14 ⊞ w9 ⊞ sigma0 w1) IN
  let '(d, h) := Round a b c d e f g h 0x27b70a85 w0 in
  SET w1 := w1 ⊞ (sigma1 w15 ⊞ w10 ⊞ sigma0 w2) IN
  let '(c, g) := Round h a b c d e f g 0x2e1b2138 w1 in
  SET w2 := w2 ⊞ (sigma1 w0 ⊞ w11 ⊞ sigma0 w3) IN
  let '(b, f) := Round g h a b c d e f 0x4d2c6dfc w2 in
  SET w3 := w3 ⊞ (sigma1 w1 ⊞ w12 ⊞ sigma0 w4) IN
  let '(a, e) := Round f g h a b c d e 0x53380d13 w3 in
  SET w4 := w4 ⊞ (sigma1 w2 ⊞ w13 ⊞ sigma0 w5) IN
  let '(h, d) := Round e f g h a b c d 0x650a7354 w4 in
  SET w5 := w5 ⊞ (sigma1 w3 ⊞ w14 ⊞ sigma0 w6) IN
  let '(g, c) := Round d e f g h a b c 0x766a0abb w5 in
  SET w6 := w6 ⊞ (sigma1 w4 ⊞ w15 ⊞ sigma0 w7) IN
  let '(f, b) := Round c d e f g h a b 0x81c2c92e w6 in
  SET w7 := w7 ⊞ (sigma1 w5 ⊞ w0 ⊞ sigma0 w8) IN
  let '(e, a) := Round b c d e f g h a 0x92722c85 w7 in
  SET w8 := w8 ⊞ (sigma1 w6 ⊞ w1 ⊞ sigma0 w9) IN
  let '(d, h) := Round a b c d e f g h 0xa2bfe8a1 w8 in
  SET w9 := w9 ⊞ (sigma1 w7 ⊞ w2 ⊞ sigma0 w10) IN
  let '(c, g) := Round h a b c d e f g 0xa81a664b w9 in
  SET w10 := w10 ⊞ (sigma1 w8 ⊞ w3 ⊞ sigma0 w11) IN
  let '(b, f) := Round g h a b c d e f 0xc24b8b70 w10 in
  SET w11 := w11 ⊞ (sigma1 w9 ⊞ w4 ⊞ sigma0 w12) IN
  let '(a, e) := Round f g h a b c d e 0xc76c51a3 w11 in
  SET w12 := w12 ⊞ (sigma1 w10 ⊞ w5 ⊞ sigma0 w13) IN
  let '(h, d) := Round e f g h a b c d 0xd192e819 w12 in
  SET w13 := w13 ⊞ (sigma1 w11 ⊞ w6 ⊞ sigma0 w14) IN
  let '(g, c) := Round d e f g h a b c 0xd6990624 w13 in
  SET w14 := w14 ⊞ (sigma1 w12 ⊞ w7 ⊞ sigma0 w15) IN
  let '(f, b) := Round c d e f g h a b 0xf40e3585 w14 in
  SET w15 := w15 ⊞ (sigma1 w13 ⊞ w8 ⊞ sigma0 w0) IN
  let '(e, a) := Round b c d e f g h a 0x106aa070 w15 in
  SET w0 := w0 ⊞ (sigma1 w14 ⊞ w9 ⊞ sigma0 w1) IN
  let '(d, h) := Round a b c d e f g h 0x19a4c116 w0 in
  SET w1 := w1 ⊞ (sigma1 w15 ⊞ w10 ⊞ sigma0 w2) IN
  let '(c, g) := Round h a b c d e f g 0x1e376c08 w1 in
  SET w2 := w2 ⊞ (sigma1 w0 ⊞ w11 ⊞ sigma0 w3) IN
  let '(b, f) := Round g h a b c d e f 0x2748774c w2 in
  SET w3 := w3 ⊞ (sigma1 w1 ⊞ w12 ⊞ sigma0 w4) IN
  let '(a, e) := Round f g h a b c d e 0x34b0bcb5 w3 in
  SET w4 := w4 ⊞ (sigma1 w2 ⊞ w13 ⊞ sigma0 w5) IN
  let '(h, d) := Round e f g h a b c d 0x391c0cb3 w4 in
  SET w5 := w5 ⊞ (sigma1 w3 ⊞ w14 ⊞ sigma0 w6) IN
  let '(g, c) := Round d e f g h a b c 0x4ed8aa4a w5 in
  SET w6 := w6 ⊞ (sigma1 w4 ⊞ w15 ⊞ sigma0 w7) IN
  let '(f, b) := Round c d e f g h a b 0x5b9cca4f w6 in
  SET w7 := w7 ⊞ (sigma1 w5 ⊞ w0 ⊞ sigma0 w8) IN
  let '(e, a) := Round b c d e f g h a 0x682e6ff3 w7 in
  SET w8 := w8 ⊞ (sigma1 w6 ⊞ w1 ⊞ sigma0 w9) IN
  let '(d, h) := Round a b c d e f g h 0x748f82ee w8 in
  SET w9 := w9 ⊞ (sigma1 w7 ⊞ w2 ⊞ sigma0 w10) IN
  let '(c, g) := Round h a b c d e f g 0x78a5636f w9 in
  SET w10 := w10 ⊞ (sigma1 w8 ⊞ w3 ⊞ sigma0 w11) IN
  let '(b, f) := Round g h a b c d e f 0x84c87814 w10 in
  SET w11 := w11 ⊞ (sigma1 w9 ⊞ w4 ⊞ sigma0 w12) IN
  let '(a, e) := Round f g h a b c d e 0x8cc70208 w11 in
  SET w12 := w12 ⊞ (sigma1 w10 ⊞ w5 ⊞ sigma0 w13) IN
  let '(h, d) := Round e f g h a b c d 0x90befffa w12 in
  SET w13 := w13 ⊞ (sigma1 w11 ⊞ w6 ⊞ sigma0 w14) IN
  let '(g, c) := Round d e f g h a b c 0xa4506ceb w13 in
  let '(f, b) := Round c d e f g h a b 0xbef9a3f7 (w14 ⊞ sigma1 w12 ⊞ w7 ⊞ sigma0 w15) in
  let '(e, a) := Round b c d e f g h a 0xc67178f2 (w15 ⊞ sigma1 w13 ⊞ w8 ⊞ sigma0 w0) in
  [s.[0] ⊞ a; s.[1] ⊞ b; s.[2] ⊞ c; s.[3] ⊞ d; s.[4] ⊞ e; s.[5] ⊞ f; s.[6] ⊞ g; s.[7] ⊞ h].

(** The [uint32_t] view of a 64-byte buffer. *)
Definition words (l : list Z) : list Z :=
  map (fun i => load_le (slice (4 * Z.of_nat i) 4 l)) (List.seq 0 16).

(** ** The context *)

Record sha256_ctx := Ctx {
  s : list Z;        (* uint32_t s[8] *)
  buf : list Z;      (* unsigned char u8[64] *)
  bytes : Z          (* size_t bytes *)
}.

Definition SHA256_INIT : sha256_ctx :=
  Ctx [0x6a09e667; 0xbb67ae85; 0x3c6ef372; 0xa54ff53a;
       0x510e527f; 0x9b05688c; 0x1f83d9ab; 0x5be0cd19] (repeat 0 64) 0.

Definition invalidate_sha256 (ctx : sha256_ctx) : sha256_ctx := Ctx (s ctx) (buf ctx) (u64 (-1)).

(** The assertion of [check_sha256]. *)
Definition check_sha256 (ctx : sha256_ctx) : bool := negb (bytes ctx =? u64 (-1)).

(** [while (len >= 64)]: whole chunks straight from the source. [length data]
    iterations are enough ([add_chunks_blocks]). *)
Fixpoint add_chunks (fuel : nat) (ctx : sha256_ctx) (data : list Z) : sha256_ctx * list Z :=
  match fuel with
  | O => (ctx, data)
  | S fuel =>
      if 64 <=? len data then
        let ctx := Ctx (Transform (s ctx) (words (take 64 data))) (buf ctx) (u64 (bytes ctx + 64)) in
        add_chunks fuel ctx (drop 64 data)
      else (ctx, data)
  end.

(** [add(ctx, p, len)], [data] the [len] bytes at [p]. *)
Definition add (ctx : sha256_ctx) (data : list Z) : sha256_ctx :=
  let bufsize := bytes ctx mod 64 in
  let '(ctx, data, bufsize) :=
    if 64 <=? u64 (bufsize + len data) then
      let n := 64 - bufsize in
      let buf' := splice bufsize (take (Z.to_nat n) data) (buf ctx) in
      (Ctx (Transform (s ctx) (words buf')) buf' (u64 (bytes ctx + n)), drop (Z.to_nat n) data, 0)
    else (ctx, data, bufsize) in
  let '(ctx, data) := add_chunks (length data) ctx data in
  if len data =? 0 then ctx
  else Ctx (s ctx) (splice bufsize data (buf ctx)) (u64 (bytes ctx + len data)).

(** ** The interface; [None] is a failed assertion *)

Definition sha256_init : sha256_ctx := SHA256_INIT.

Definition sha256_update (ctx : sha256_ctx) (p : list Z) : option sha256_ctx :=
  if check_sha256 ctx then Some (add ctx p) else None.

Definition pad : list Z := 0x80 :: repeat 0 63.

(** [sha256_done(ctx, res)]: the invalidated context and the 32 bytes of [res]. *)
Definition sha256_done (ctx : sha256_ctx) : sha256_ctx * list Z :=
  let sizedesc := cpu_to_be64 (u64 (bytes ctx .<< 3)) in
  let ctx := add ctx (take (Z.to_nat (1 + (128 - 8 - (bytes ctx mod 64) - 1) mod 64)) pad) in
  let ctx := add ctx (store_le 8 sizedesc) in
  let res := concat (map (fun w => store_le 4 (cpu_to_be32 w)) (s ctx)) in
  (invalidate_sha256 ctx, res).

Definition sha256 (p : list Z) : option (list Z) :=
  ctx ← sha256_update sha256_init p;
  Some (snd (sha256_done ctx)).

(** Feeding integers in native, little-endian and big-endian order. *)
Definition sha256_u8 ctx v := sha256_update ctx (store_le 1 v).
Definition sha256_u16 ctx v := sha256_update ctx (store_le 2 v).
Definition sha256_u32 ctx v := sha256_update ctx (store_le 4 v).
Definition sha256_u64 ctx v := sha256_update ctx (store_le 8 v).
Definition sha256_le16 ctx v := sha256_update ctx (store_le 2 (cpu_to_le16 v)).
Definition sha256_le32 ctx v := sha256_update ctx (store_le 4 (cpu_to_le32 v)).
Definition sha256_le64 ctx v := sha256_update ctx (store_le 8 (cpu_to_le64 v)).
Definition sha256_be16 ctx v := sha256_update ctx (store_le 2 (cpu_to_be16 v)).
Definition sha256_be32 ctx v := sha256_update ctx (store_le 4 (cpu_to_be32 v)).
Definition sha256_be64 ctx v := sha256_update ctx (store_le 8 (cpu_to_be64 v)).

(** ** One round is one step of the standard *)

Abbreviation is_word := (in_width 32).

Definition Words (l : list Z) : Prop := Forall (in_width 32) l.

Lemma add32_word a b : is_word (a ⊞ b).
Proof. by apply in_width_wrap. Qed.

Lemma Ch_spec x y z : is_word z -> Ch x y z = Spec.Ch x y z.
Proof.
  intros Hz. unfold Ch, Spec.Ch, Spec.NOT. apply Z.bits_inj'; intros i Hi.
  rewrite !Z.lxor_spec, !Z.land_spec, !Z.lxor_spec.
  destruct (Z.ltb_spec i 32).
  - change 0xffffffff with (Z.ones 32). rewrite Z.testbit_ones_nonneg by lia.
    destruct (Z.ltb_spec i 32); [|lia]. btauto.
  - rewrite (testbit_out 32 z) by done. btauto.
Qed.

Lemma Maj_spec x y z : Maj x y z = Spec.Maj x y z.
Proof.
  unfold Maj, Spec.Maj. apply Z.bits_inj'; intros i Hi.
  rewrite !Z.lor_spec, !Z.lxor_spec, !Z.land_spec, !Z.lor_spec. btauto.
Qed.

Lemma step_Round a b c d e f g h k w d' h' :
  Round a b c d e f g h k w = (d', h') -> is_word g ->
  Spec.step [a; b; c; d; e; f; g; h] (k, w) = [h'; a; b; c; d'; e; f; g] /\ is_word d' /\ is_word h'.
Proof.
  unfold Round. intros [= <- <-] Hg. split_and!; [|by apply in_width_wrap..].
  cbn [Spec.step fst snd]. by rewrite <- (Ch_spec e f g), <- Maj_spec.
Qed.

Lemma add32_schedule a b c d : a ⊞ (b ⊞ c ⊞ d) = b ⊞ c ⊞ d ⊞ a.
Proof. by rewrite Z.add_comm. Qed.

Lemma add32_assoc_schedule a b c d : a ⊞ b ⊞ c ⊞ d = b ⊞ c ⊞ d ⊞ a.
Proof.
  unfold wrap. rewrite !Z.add_mod_idemp_l, <- !Z.add_assoc, !Z.add_mod_idemp_l by lia.
  apply (f_equal (fun z => z mod _)). lia.
Qed.

(** The window of sixteen words moves by one word per round. *)
Lemma rolling_step k ks w0 w1 w2 w3 w4 w5 w6 w7 w8 w9 w10 w11 w12 w13 w14 w15 st nw :
  nw = sigma1 w14 ⊞ w9 ⊞ sigma0 w1 ⊞ w0 ->
  rolling (k :: ks) [w0; w1; w2; w3; w4; w5; w6; w7; w8; w9; w10; w11; w12; w13; w14; w15] st =
  rolling ks [w1; w2; w3; w4; w5; w6; w7; w8; w9; w10; w11; w12; w13; w14; w15; nw]
    (Spec.step st (k, nw)).
Proof. intros ->. reflexivity. Qed.

Lemma assign_intro {A B} (v : A) (k : A -> B) r : (forall x, x = v -> k x = r) -> assign v k = r.
Proof. intros H. by apply H. Qed.

(** Names the value of the next assignment. *)
Ltac assign_step :=
  let w := fresh "nw" in let Hw := fresh "Hnw" in
  apply assign_intro; intros w Hw.

(** Executes the next [Round] on both sides. *)
Ltac round_step :=
  lazymatch goal with
  | |- (let '(_, _) := Round ?a ?b ?c ?d ?e ?f ?g ?h ?k ?w in _) = _ =>
      let E := fresh "E" in let d' := fresh "d" in let h' := fresh "h" in
      let Hs := fresh "Hs" in let Hd := fresh "Hd" in let Hh := fresh "Hh" in
      destruct (Round a b c d e f g h k w) as [d' h'] eqn:E;
      lazymatch goal with
      | Hg : is_word g |- _ =>
          destruct (step_Round _ _ _ _ _ _ _ _ _ _ _ _ E Hg) as (Hs & Hd & Hh);
          rewrite Hs; clear E Hs; cbv beta iota
      end
  end.

Ltac schedule_round :=
  assign_step;
  lazymatch goal with
  | Hw : ?nw = _ |- (let '(_, _) := Round _ _ _ _ _ _ _ _ _ ?nw in _) = _ =>
      rewrite (rolling_step _ _ _ _ _ _ _ _ _ _ _ _ _ _ _ _ _ _ _ nw)
        by (rewrite Hw; apply add32_schedule); clear Hw
  end; round_step.

Ltac last_round :=
  lazymatch goal with
  | |- (let '(_, _) := Round ?a ?b ?c ?d ?e ?f ?g ?h ?k ?w in _) = _ =>
      let nw := fresh "nw" in let Hw := fresh "Hnw" in
      remember w as nw eqn:Hw;
      rewrite (rolling_step _ _ _ _ _ _ _ _ _ _ _ _ _ _ _ _ _ _ _ nw)
        by (rewrite Hw; apply add32_assoc_schedule); clear Hw
  end; round_step.

(** The unrolled code is the message schedule and the compression loop. *)
Lemma Transform_rolling a b c d e f g h
    w0 w1 w2 w3 w4 w5 w6 w7 w8 w9 w10 w11 w12 w13 w14 w15 chunk :
  is_word a -> is_word b -> is_word c -> is_word d ->
  is_word e -> is_word f -> is_word g -> is_word h ->
  map be32_to_cpu chunk = [w0; w1; w2; w3; w4; w5; w6; w7; w8; w9; w10; w11; w12; w13; w14; w15] ->
  let st := [a; b; c; d; e; f; g; h] in
  let w := [w0; w1; w2; w3; w4; w5; w6; w7; w8; w9; w10; w11; w12; w13; w14; w15] in
  Transform st chunk =
  zip_with (fun x y => x ⊞ y) st
    (rolling (drop 16 Spec.K) w (foldl Spec.step st (zip (take 16 Spec.K) w))).
Proof.
  intros Ha Hb Hc Hd He Hf Hg Hh Hchunk.
  do 16 (destruct chunk as [|? chunk]; [discriminate Hchunk|]).
  destruct chunk; [|discriminate Hchunk]. injection Hchunk as ? ? ? ? ? ? ? ? ? ? ? ? ? ? ? ?.
  intros st w; subst st w. rewrite K_value. unfold K_table.
  cbn [take drop zip_with foldl].
  cbv beta zeta iota delta [Transform get nth Z.to_nat Pos.to_nat Pos.iter_op Init.Nat.add].
  subst; repeat match goal with |- context [be32_to_cpu ?x] => generalize (be32_to_cpu x); intros ? end.
  do 16 (assign_step; subst; round_step). do 46 schedule_round. do 2 last_round. reflexivity.
Qed.

(** ** A chunk is one block of the standard *)

Lemma slice_Bytes off n l : Bytes l -> Bytes (slice off n l).
Proof. intros. by apply Forall_take, Forall_drop. Qed.

Lemma words_be block :
  Bytes block -> length block = 64%nat -> map be32_to_cpu (words block) = Spec.block_words block.
Proof.
  intros Hb Hl. unfold words, Spec.block_words. rewrite map_map. apply map_ext_in.
  intros i Hi%in_seq. apply swap_load; [by apply slice_Bytes|].
  unfold slice. rewrite length_take, length_drop. lia.
Qed.

Lemma Transform_compress st block :
  Words st -> length st = 8%nat -> Bytes block -> length block = 64%nat ->
  Transform st (words block) = Spec.compress st block.
Proof.
  intros Hst Hl Hb Hbl. do 8 (destruct st as [|? st]; [discriminate Hl|]). destruct st; [|discriminate Hl].
  rewrite compress_rolling, <- words_be by done.
  unfold Words in Hst. rewrite !Forall_cons in Hst. destruct_and!.
  remember (words block) as chunk eqn:Hc. assert (Hlc : length chunk = 16%nat) by (subst; reflexivity).
  do 16 (destruct chunk as [|? chunk]; [discriminate Hlc|]). destruct chunk; [|discriminate Hlc].
  cbn [map]. by apply Transform_rolling.
Qed.


Lemma step_length st kw : length (Spec.step st kw) = length st.
Proof. unfold Spec.step. repeat case_match; done. Qed.

Lemma foldl_step_length st l : length (foldl Spec.step st l) = length st.
Proof. revert st; induction l as [|kw l IH]; intros st; simpl; [done|]. by rewrite IH, step_length. Qed.

Lemma compress_words H block :
  length H = 8%nat -> Words (Spec.compress H block) /\ length (Spec.compress H block) = 8%nat.
Proof.
  intros Hl. unfold Spec.compress. split.
  - apply Forall_forall. intros x (i & a & b & -> & _)%elem_of_lookup_zip_with. apply add32_word.
  - rewrite length_zip_with, foldl_step_length. lia.
Qed.

Lemma hash_blocks_words n H l :
  Words H -> length H = 8%nat ->
  Words (Spec.hash_blocks n H l) /\ length (Spec.hash_blocks n H l) = 8%nat.
Proof.
  revert H l; induction n as [|n IH]; intros H l HW Hl; [done|]. simpl.
  apply IH; by apply compress_words.
Qed.

Lemma H0_words : Words Spec.H0 /\ length Spec.H0 = 8%nat.
Proof. unfold Words. by_compute. Qed.

(** ** The refinement relation *)

(** [ctx] has absorbed the whole blocks [full] and holds [tl] in its buffer. *)
Record absorbed (ctx : sha256_ctx) (full tl : list Z) (n : nat) : Prop := {
  absorbed_full : length full = (64 * n)%nat;
  absorbed_tl : (length tl < 64)%nat;
  absorbed_s : s ctx = Spec.hash_blocks n Spec.H0 full;
  absorbed_bytes : bytes ctx = len full + len tl;
  absorbed_buf : Bytes (buf ctx) /\ length (buf ctx) = 64%nat;
  absorbed_held : take (length tl) (buf ctx) = tl;
}.

Definition repr (ctx : sha256_ctx) (m : list Z) : Prop :=
  exists full tl n, m = full ++ tl /\ absorbed ctx full tl n.

Lemma Transform_hash_blocks n full block st :
  st = Spec.hash_blocks n Spec.H0 full -> length full = (64 * n)%nat ->
  Bytes block -> length block = 64%nat ->
  Transform st (words block) = Spec.hash_blocks (n + 1) Spec.H0 (full ++ block).
Proof.
  intros -> Hf Hb Hl. destruct H0_words.
  destruct (hash_blocks_words n Spec.H0 full) as [HW HWl]; [done..|].
  rewrite hash_blocks_app, Transform_compress by done. cbn [Spec.hash_blocks].
  by rewrite take_ge by lia.
Qed.

(** The chunk loop empties the data by whole blocks, whatever the fuel beyond
    its length. *)
Lemma add_chunks_blocks fuel ctx full n data :
  absorbed ctx full [] n -> Bytes data -> len full + len data < 2 ^ 64 ->
  (length data <= fuel)%nat ->
  exists ctx' d1 d2 k, add_chunks fuel ctx data = (ctx', d2) /\ data = d1 ++ d2 /\
    (length d2 < 64)%nat /\ absorbed ctx' (full ++ d1) [] (n + k).
Proof.
  revert ctx full n data; induction fuel as [|fuel IH]; intros ctx full n data HA Hb Hw Hf.
  { destruct data; [|simpl in Hf; lia]. exists ctx, [], [], 0%nat. simpl.
    rewrite app_nil_r, Nat.add_0_r. split_and!; [done..|lia|done]. }
  cbn [add_chunks]. destruct (Z.leb_spec 64 (len data)) as [Hd|Hd].
  2: { exists ctx, [], data, 0%nat. rewrite app_nil_r, Nat.add_0_r.
       split_and!; [done..|unfold len in Hd; lia|done]. }
  destruct HA as [Hfull _ Hs Hbytes Hbuf _].
  rewrite <- (take_drop 64 data) in Hb. apply Bytes_app in Hb as [Hb1 Hb2].
  assert (Hlt : length (take 64 data) = 64%nat) by (rewrite length_take; unfold len in *; lia).
  edestruct (IH (Ctx (Transform (s ctx) (words (take 64 data))) (buf ctx) (u64 (bytes ctx + 64)))
    (full ++ take 64 data) (n + 1)%nat (drop 64 data)) as (ctx' & d1 & d2 & k & E & Hdd & H2 & HA').
  - split; cbn [s buf bytes]; [rewrite length_app; lia|simpl; lia| | |done..].
    + by apply Transform_hash_blocks.
    + rewrite Hbytes, wrap_id; unfold in_width; len_lia.
  - done.
  - len_lia.
  - rewrite length_drop. unfold len in *. lia.
  - exists ctx', (take 64 data ++ d1), d2, (1 + k)%nat. rewrite E. split_and!; [done|..|done|].
    + by rewrite <- app_assoc, <- Hdd, take_drop.
    + rewrite app_assoc. replace (n + (1 + k))%nat with (n + 1 + k)%nat by lia. done.
Qed.

(** The rest of the data, shorter than a block, goes to the buffer. *)
Lemma hold_absorbed ctx full tl n d :
  absorbed ctx full tl n -> Bytes d -> (length tl + length d < 64)%nat ->
  len full + len tl + len d < 2 ^ 64 ->
  absorbed (if len d =? 0 then ctx
            else Ctx (s ctx) (splice (len tl) d (buf ctx)) (u64 (bytes ctx + len d)))
    full (tl ++ d) n.
Proof.
  intros HA Hb Hl Hw. destruct (Z.eqb_spec (len d) 0) as [Hd|Hd].
  { assert (d = []) as -> by (destruct d; [done|len_lia]). by rewrite app_nil_r. }
  destruct HA as [Hfull Htl Hs Hbytes [Hbuf Hbl] Hheld].
  assert (length (splice (len tl) d (buf ctx)) = 64%nat) by (rewrite splice_length; len_lia).
  split; cbn [s buf bytes]; try done.
  - rewrite length_app. lia.
  - rewrite Hbytes, wrap_id; unfold in_width; len_lia.
  - split; [by apply splice_Bytes|done].
  - unfold splice. replace (Z.to_nat (len tl)) with (length tl) by len_lia.
    rewrite Hheld, app_assoc. by apply take_app_length.
Qed.

(** The first branch of [add] completes the buffered block. *)
Lemma fill_absorbed ctx full tl n d :
  absorbed ctx full tl n -> Bytes d -> (length tl + length d = 64)%nat ->
  len full + len tl + len d < 2 ^ 64 ->
  let buf' := splice (len tl) d (buf ctx) in
  absorbed (Ctx (Transform (s ctx) (words buf')) buf' (u64 (bytes ctx + len d)))
    (full ++ tl ++ d) [] (n + 1).
Proof.
  intros [Hfull Htl Hs Hbytes [Hbuf Hbl] Hheld] Hb Hl Hw buf'.
  assert (Htlb : Bytes tl) by (rewrite <- Hheld; by apply Forall_take).
  assert (Hchunk : buf' = tl ++ d).
  { unfold buf', splice. replace (Z.to_nat (len tl)) with (length tl) by len_lia.
    rewrite Hheld, drop_ge by lia. by rewrite app_nil_r. }
  assert (Bytes (tl ++ d) /\ length (tl ++ d) = 64%nat) as [??]
    by (rewrite Bytes_app, length_app; lia || done).
  split; cbn [s buf bytes]; rewrite ?Hchunk; try done.
  - rewrite !length_app in *. lia.
  - simpl; lia.
  - by apply Transform_hash_blocks.
  - rewrite Hbytes, wrap_id; unfold in_width; len_lia.
Qed.

(** [add] extends the absorbed message. *)
Lemma add_absorbed ctx full tl n data :
  absorbed ctx full tl n -> Bytes data -> len full + len tl + len data < 2 ^ 64 ->
  repr (add ctx data) ((full ++ tl) ++ data).
Proof.
  intros HA Hb Hw. pose proof HA as [Hfull Htl _ Hbytes _ _].
  assert (Hmod : bytes ctx mod 64 = len tl) by (rewrite Hbytes; unfold len in *; dlia).
  unfold add. rewrite Hmod, (wrap_id 64 (len tl + len data)) by (unfold in_width; len_lia).
  destruct (Z.leb_spec 64 (len tl + len data)) as [Hge|Hlt].
  - set (k := Z.to_nat (64 - len tl)). rewrite <- (take_drop k data) in Hb, Hw.
    apply Bytes_app in Hb as [Hb0 Hb1].
    assert (Hk : (length tl + length (take k data) = 64)%nat) by (rewrite length_take; len_lia).
    replace (64 - len tl) with (len (take k data)) by len_lia.
    assert (Hw1 : len full + len tl + len (take k data) < 2 ^ 64) by len_lia.
    destruct (add_chunks_blocks (length (drop k data)) _ _ _ (drop k data)
      (fill_absorbed ctx full tl n (take k data) HA Hb0 Hk Hw1)) as (ctx' & d1 & d2 & j & E & Hd & H2 & HA');
      [done|len_lia|done|].
    rewrite E. rewrite Hd in Hb1, Hw. apply Bytes_app in Hb1 as [??].
    exists ((full ++ tl ++ take k data) ++ d1), d2, (n + 1 + j)%nat. split.
    + rewrite <- (take_drop k data) at 1. rewrite Hd. by rewrite <- !app_assoc.
    + apply (hold_absorbed _ _ [] _ d2 HA'); [done|simpl; lia|len_lia].
  - replace (add_chunks (length data) ctx data) with (ctx, data)
      by (destruct (length data); simpl; [done|]; destruct (Z.leb_spec 64 (len data)); [len_lia|done]).
    exists full, (tl ++ data), n. split; [by rewrite app_assoc|].
    apply hold_absorbed; [done..|len_lia|len_lia].
Qed.

Lemma add_repr ctx m data :
  repr ctx m -> Bytes data -> len m + len data < 2 ^ 64 -> repr (add ctx data) (m ++ data).
Proof.
  intros (full & tl & n & -> & HA) ??. apply add_absorbed with n; [done..|len_lia].
Qed.

Lemma repr_bytes ctx m : repr ctx m -> bytes ctx = len m.
Proof. intros (full & tl & n & -> & [_ _ _ H _ _]). len_lia. Qed.

Lemma init_repr : repr sha256_init [].
Proof.
  exists [], [], 0%nat. split; [done|].
  split; [done|simpl; lia|vm_compute; reflexivity|done|split; [by_compute|done]|done].
Qed.

(** ** Finishing *)

Lemma take_repeat {A} (x : A) k n : take k (repeat x n) = repeat x (Nat.min k n).
Proof. revert n; induction k as [|k IH]; intros [|n]; simpl; [done..|]. by rewrite IH. Qed.

(** The bytes [sha256_done] adds are the padding of the standard. *)
Lemma done_padding (m : list Z) :
  len m < 2 ^ 61 ->
  take (Z.to_nat (1 + (128 - 8 - (len m mod 64) - 1) mod 64)) pad
  ++ store_le 8 (cpu_to_be64 (u64 (len m .<< 3))) = Spec.padding (len m).
Proof.
  intros Hm. pose proof (len_nonneg m).
  rewrite (swap_store (swap:=cpu_to_be64)). unfold Spec.padding, pad.
  rewrite Z.shiftl_mul_pow2, wrap_id by (unfold in_width; lia).
  replace (128 - 8 - (len m mod 64) - 1) with (119 - len m mod 64) by lia.
  assert (Hk : (119 - len m mod 64) mod 64 = (55 - len m) mod 64) by dlia.
  rewrite Hk. pose proof (Z.mod_pos_bound (55 - len m) 64).
  replace (Z.to_nat (1 + (55 - len m) mod 64)) with (S (Z.to_nat ((55 - len m) mod 64))) by lia.
  cbn [take]. rewrite take_repeat, Nat.min_l by lia.
  cbn [app]. by replace (len m * 2 ^ 3) with (8 * len m) by lia.
Qed.

Lemma done_repr ctx m :
  repr ctx m -> len m < 2 ^ 61 -> snd (sha256_done ctx) = Spec.sha256 m.
Proof.
  intros Hr Hm. unfold sha256_done. cbn [snd]. rewrite (repr_bytes _ _ Hr).
  pose proof (done_padding m Hm) as Hpad.
  set (p1 := take _ pad) in *. set (p2 := store_le 8 _) in *.
  destruct (padding_length (len m)) as [q Hq]; [len_lia|].
  assert (Bytes p1 /\ Bytes p2) as [Hb1 Hb2].
  { split; [apply Forall_take; unfold pad; by_compute|apply store_le_Bytes]. }
  assert (Hlp : len p1 + len p2 < 2 ^ 62).
  { subst p1 p2. unfold len. rewrite length_take, store_le_length.
    change (length pad) with 64%nat. lia. }
  assert (Hr2 : repr (add (add ctx p1) p2) (Spec.pad m)).
  { unfold Spec.pad. rewrite <- Hpad, app_assoc.
    apply add_repr; [apply add_repr|done|]; [done..|len_lia|len_lia]. }
  destruct Hr2 as (full & tl & n & Hf & [Hfull Htl Hs _ _ _]).
  assert (Hlen : len full + len tl = 64 * q).
  { rewrite <- Hq, <- len_app, <- Hf. unfold Spec.pad. by rewrite len_app. }
  assert (tl = []) as -> by (apply nil_length_inv; len_lia).
  rewrite app_nil_r in Hf. unfold Spec.sha256. rewrite Hf.
  replace (length full / 64)%nat with n by (rewrite Hfull, Nat.mul_comm, Nat.div_mul; lia).
  rewrite Hs. unfold Spec.digest. f_equal. apply map_ext. intros w. by apply swap_store.
Qed.

Lemma sha256_spec (p : list Z) : Bytes p -> len p < 2 ^ 61 -> sha256 p = Some (Spec.sha256 p).
Proof.
  intros Hp Hl. change (sha256 p) with (Some (snd (sha256_done (add sha256_init p)))). f_equal.
  apply done_repr; [|done]. apply (add_repr _ [] p init_repr); [done|len_lia].
Qed.

(** A digest is 32 bytes. *)
Lemma sha256_digest (m : list Z) : Bytes (Spec.sha256 m) /\ length (Spec.sha256 m) = 32%nat.
Proof.
  unfold Spec.sha256, Spec.digest. cbv zeta.
  destruct (hash_blocks_words (length (Spec.pad m) / 64) Spec.H0 (Spec.pad m)) as [_ Hl]; [apply H0_words..|].
  generalize dependent (Spec.hash_blocks (length (Spec.pad m) / 64) Spec.H0 (Spec.pad m)). intros H Hl. split.
  - apply Forall_concat, Forall_map, Forall_true. intros v. apply store_be_Bytes.
  - rewrite length_concat, map_map, (map_ext _ (fun _ => 4%nat)) by (intros; apply store_be_length).
    do 9 (destruct H as [|? H]; [done|]); done.
Qed.

(** ** Properties *)

(** C2: [sha256] computes the SHA-256 digest of FIPS 180-4 for every message
    whose bit length fits the 64-bit length field. *)
Theorem sha256_correct (p : list Z) (Hp : Bytes p) (Hl : len p < 2 ^ 61) :
  sha256 p = Some (Spec.sha256 p).
Proof. by apply sha256_spec. Qed.

Lemma sha256_correct_witness :
  sha256 (cs "abc") = Some (Spec.sha256 (cs "abc")) /\
  Spec.sha256 (cs "abc") =
    [0xba; 0x78; 0x16; 0xbf; 0x8f; 0x01; 0xcf; 0xea; 0x41; 0x41; 0x40; 0xde; 0x5d; 0xae; 0x22; 0x23;
     0xb0; 0x03; 0x61; 0xa3; 0x96; 0x17; 0x7a; 0x9c; 0xb4; 0x10; 0xff; 0x61; 0xf2; 0x00; 0x15; 0xad].
Proof. split; [apply sha256_correct; [by_compute|done]|vm_compute; reflexivity]. Defined.

(** Feeding a list of pieces one by one. *)
Definition update_all (ctx : sha256_ctx) (ps : list (list Z)) : option sha256_ctx :=
  foldl (fun c p => c ≫= fun c => sha256_update c p) (Some ctx) ps.

(** C31: an initialised context fed any sequence of pieces succeeds, and finishing
    it gives the digest of their concatenation: splitting the input between
    calls of [sha256_update] does not change the result. *)
Theorem sha256_streaming (ps : list (list Z)) (Hp : Forall Bytes ps)
    (Hl : len (concat ps) < 2 ^ 61) :
  exists ctx, update_all sha256_init ps = Some ctx /\ bytes ctx = len (concat ps) /\
    snd (sha256_done ctx) = Spec.sha256 (concat ps).
Proof.
  enough (exists ctx, update_all sha256_init ps = Some ctx /\ repr ctx (concat ps)) as (ctx & ? & Hr).
  { exists ctx. split_and!; [done|by apply repr_bytes|by apply done_repr]. }
  revert Hp Hl. induction ps as [|p ps IH] using rev_ind; intros Hp Hl.
  { exists sha256_init. split; [done|]. apply init_repr. }
  rewrite concat_app in *. cbn [concat] in *. rewrite app_nil_r in *.
  apply Forall_app in Hp as [Hps Hp]. apply Forall_cons in Hp as [Hp _].
  destruct (IH Hps) as (ctx & E & Hr); [len_lia|]. unfold update_all in *. rewrite foldl_app, E.
  pose proof (repr_bytes _ _ Hr) as Hb. cbn [foldl mbind option_bind]. unfold sha256_update, check_sha256.
  rewrite Hb. change (u64 (-1)) with (2 ^ 64 - 1).
  destruct (Z.eqb_spec (len (concat ps)) (2 ^ 64 - 1)); [len_lia|].
  eexists. split; [done|]. apply add_repr; [done..|len_lia].
Qed.

Lemma sha256_streaming_witness :
  exists ctx, update_all sha256_init [cs "a"; []; cs "bc"] = Some ctx /\ bytes ctx = 3 /\
    snd (sha256_done ctx) = Spec.sha256 (cs "abc").
Proof. apply (sha256_streaming [cs "a"; []; cs "bc"]); [by_compute|done]. Defined.

(** A finished context is destroyed: it can no longer be updated, until it
    is initialised again. *)
Theorem sha256_done_destroys (ctx : sha256_ctx) (p : list Z) :
  sha256_update (fst (sha256_done ctx)) p = None.
Proof. reflexivity. Qed.

(** The typed feeders hash the value in the byte order they name. *)
Theorem sha256_feeders (ctx : sha256_ctx) (v : Z) :
  sha256_be16 ctx v = sha256_update ctx (store_be 2 v) /\
  sha256_be32 ctx v = sha256_update ctx (store_be 4 v) /\
  sha256_be64 ctx v = sha256_update ctx (store_be 8 v) /\
  sha256_le16 ctx v = sha256_update ctx (store_le 2 v) /\
  sha256_le32 ctx v = sha256_update ctx (store_le 4 v) /\
  sha256_le64 ctx v = sha256_update ctx (store_le 8 v).
Proof.
  unfold sha256_be16, sha256_be32, sha256_be64, sha256_le16, sha256_le32, sha256_le64.
  rewrite !swap_store. unfold cpu_to_le16, cpu_to_le32, cpu_to_le64.
  split_and!; try done; f_equal; [exact (store_le_wrap 2 v)|exact (store_le_wrap 4 v)
    |exact (store_le_wrap 8 v)].
Qed.
