(* ===== verification/Base64.v ===== *)
(** * Base64: [base64.c], [include/base64.h]

    The maps between an alphabet of 64 characters and the six-bit values, the
    encoder and the decoder with their triplet, quartet and tail routines.
    Destination buffers are written through the bounds-checked [put]; [None] is
    a write outside the buffer, an aborted assertion or exhausted fuel, and the
    theorems show that none of them happens.  A [char] is its byte; plain [char]
    is signed (x86), so [(char)0xff] is -1.  [errno] is threaded.

    The reference is RFC 4648: groups of 24 bits, read as three bytes and as
    four six-bit values. *)
From S2P Require Import Prelude.

Inductive errno := E0 | EDOM | EOVERFLOW | EINVAL.

#[export] Instance errno_eq_dec : EqDecision errno.
Proof. solve_decision. Defined.

Record base64_maps_t := Maps {
  encode_map : list Z;     (* char[64] *)
  decode_map : list Z      (* signed char[256] *)
}.

Definition schar (c : Z) : Z := to_signed 8 c.

(** [assert(sixbit <= 63)] *)
Definition sixbit_to_b64 (maps : base64_maps_t) (sixbit : Z) : option Z :=
  if sixbit <=? 63 then Some (encode_map maps).[sixbit] else None.

Definition sixbit_from_b64 (maps : base64_maps_t) (b64letter : Z) (e : errno) : Z * errno :=
  let ret := (decode_map maps).[b64letter] in
  if ret =? -1 then (-1, EDOM) else (ret, e).

Definition base64_char_in_alphabet (maps : base64_maps_t) (b64char : Z) : bool :=
  negb ((decode_map maps).[b64char] =? -1).

Definition base64_init_maps (src : list Z) : base64_maps_t :=
  Maps (take 64 src)
    (foldl (fun m i => <[Z.to_nat src.[i] := i]> m) (repeat (-1) 256)
       (map Z.of_nat (List.seq 0 64))).

Definition base64_encoded_length (srclen : Z) : Z := u64 (u64 (srclen + 2) / 3 * 4).

(** The four characters stored through [dest]. *)
Definition base64_encode_triplet_using_maps (maps : base64_maps_t) (src : list Z)
    : option (list Z) :=
  let a := schar src.[0] in
  let b := schar src.[1] in
  let c := schar src.[2] in
  d0 ← sixbit_to_b64 maps (u8 ((a .& 0xfc) .>> 2));
  d1 ← sixbit_to_b64 maps (u8 (((a .& 0x3) .<< 4) .| ((b .& 0xf0) .>> 4)));
  d2 ← sixbit_to_b64 maps (u8 (((c .& 0xc0) .>> 6) .| ((b .& 0xf) .<< 2)));
  d3 ← sixbit_to_b64 maps (u8 (c .& 0x3f));
  Some [d0; d1; d2; d3].

Definition eq_char : Z := 61.   (* '=' *)

Definition base64_encode_tail_using_maps (maps : base64_maps_t) (src : list Z)
    : option (list Z) :=
  if len src <=? 3 then
    longsrc ← put 0 src (repeat 0 3);
    dest ← base64_encode_triplet_using_maps maps longsrc;
    put (1 + len src) (repeat eq_char (Z.to_nat (3 - len src))) dest
  else None.

(** [while (srclen - src_offset >= 3)] *)
Fixpoint encode_loop (fuel : nat) (maps : base64_maps_t) (dest src : list Z)
    (src_offset dest_offset : Z) : option (list Z * Z * Z) :=
  match fuel with
  | O => None
  | S fuel =>
      if 3 <=? u64 (len src - src_offset) then
        t ← base64_encode_triplet_using_maps maps (slice src_offset 3 src);
        dest ← put dest_offset t dest;
        encode_loop fuel maps dest src (src_offset + 3) (dest_offset + 4)
      else Some (dest, src_offset, dest_offset)
  end.

(** After the loop: the tail, and NUL up to the end of the buffer. *)
Definition encode_finish (maps : base64_maps_t) (src : list Z) (e : errno)
    (st : list Z * Z * Z) : option (Z * list Z * errno) :=
  let '(dest, src_offset, dest_offset) := st in
  '(dest, dest_offset) ←
    (if src_offset <? len src then
       t ← base64_encode_tail_using_maps maps (slice src_offset (len src - src_offset) src);
       dest ← put dest_offset t dest;
       Some (dest, dest_offset + 4)
     else Some (dest, dest_offset));
  dest ← put dest_offset (repeat 0 (Z.to_nat (len dest - dest_offset))) dest;
  Some (dest_offset, dest, e).

(** [dest] is the destination buffer, [destlen] its length: the return value,
    the buffer afterwards and [errno]. *)
Definition base64_encode_using_maps (maps : base64_maps_t) (dest src : list Z) (e : errno)
    : option (Z * list Z * errno) :=
  if len dest <? base64_encoded_length (len src) then Some (-1, dest, EOVERFLOW)
  else encode_loop (S (length src)) maps dest src 0 0 ≫= encode_finish maps src e.

Definition base64_decoded_length (srclen : Z) : Z := u64 (u64 (srclen + 3) / 4 * 3).

(** The return value and the bytes stored through [dest]. *)
Definition base64_decode_quartet_using_maps (maps : base64_maps_t) (src : list Z) (e : errno)
    : Z * list Z * errno :=
  let '(a, e) := sixbit_from_b64 maps src.[0] e in
  let '(b, e) := sixbit_from_b64 maps src.[1] e in
  let '(c, e) := sixbit_from_b64 maps src.[2] e in
  let '(d, e) := sixbit_from_b64 maps src.[3] e in
  if (a =? -1) || (b =? -1) || (c =? -1) || (d =? -1) then (-1, [], e)
  else (0, [u8 ((a .<< 2) .| (b .>> 4));
            u8 (((b .& 0xf) .<< 4) .| (c .>> 2));
            u8 (((c .& 0x3) .<< 6) .| d)], e).

(** [while (insize != 0 && src[insize-1] == '=')], from [insize = n]. *)
Fixpoint strip_padding (n : nat) (src : list Z) : nat :=
  match n with
  | O => O
  | S m => if src.[Z.of_nat m] =? eq_char then strip_padding m src else n
  end.

Definition base64_decode_tail_using_maps (maps : base64_maps_t) (dest : list Z) (dest_offset : Z)
    (src : list Z) (e : errno) : option (Z * list Z * errno) :=
  let insize := Z.of_nat (strip_padding (length src) src) in
  if insize =? 0 then Some (0, dest, e)
  else if insize =? 1 then Some (-1, dest, EINVAL)
  else
    longsrc ← put 0 (take (Z.to_nat insize) src) (repeat 65 4);
    let '(r, w, e) := base64_decode_quartet_using_maps maps longsrc e in
    if r =? -1 then Some (-1, dest, e)
    else dest ← put dest_offset w dest; Some (insize - 1, dest, e).

(** [for (i = 0; srclen - i > 4; i += 4)]; [inl] is the early [return -1]. *)
Fixpoint decode_loop (fuel : nat) (maps : base64_maps_t) (dest src : list Z) (i dest_offset : Z)
    (e : errno) : option ((list Z * errno) + (list Z * Z * Z)) :=
  match fuel with
  | O => None
  | S fuel =>
      if 4 <? u64 (len src - i) then
        let '(r, w, e) := base64_decode_quartet_using_maps maps (slice i 4 src) e in
        if r =? -1 then Some (inl (dest, e))
        else
          dest ← put dest_offset w dest;
          decode_loop fuel maps dest src (i + 4) (dest_offset + 3) e
      else Some (inr (dest, i, dest_offset))
  end.

(** After the loop: the tail, and NUL up to the end of the buffer. *)
Definition decode_finish (maps : base64_maps_t) (src : list Z) (e : errno)
    (st : (list Z * errno) + (list Z * Z * Z)) : option (Z * list Z * errno) :=
  match st with
  | inl (dest, e) => Some (-1, dest, e)
  | inr (dest, i, dest_offset) =>
      '(more, dest, e) ←
        base64_decode_tail_using_maps maps dest dest_offset (slice i (len src - i) src) e;
      if more =? -1 then Some (-1, dest, e)
      else
        let dest_offset := dest_offset + more in
        dest ← put dest_offset (repeat 0 (Z.to_nat (len dest - dest_offset))) dest;
        Some (dest_offset, dest, e)
  end.

Definition base64_decode_using_maps (maps : base64_maps_t) (dest src : list Z) (e : errno)
    : option (Z * list Z * errno) :=
  if len dest <? base64_decoded_length (len src) then Some (-1, dest, EOVERFLOW)
  else decode_loop (S (length src)) maps dest src 0 0 e ≫= decode_finish maps src e.

(** ** The pregenerated maps of RFC 4648 *)

Definition alphabet_rfc4648 : list Z :=
  cs "ABCDEFGHIJKLMNOPQRSTUVWXYZabcdefghijklmnopqrstuvwxyz0123456789+/".

Definition base64_maps_rfc4648 : base64_maps_t :=
  Maps alphabet_rfc4648
    [ (-1); (-1); (-1); (-1); (-1); (-1); (-1); (-1); (-1); (-1); (-1); (-1); (-1); (-1); (-1); (-1);
      (-1); (-1); (-1); (-1); (-1); (-1); (-1); (-1); (-1); (-1); (-1); (-1); (-1); (-1); (-1); (-1);
      (-1); (-1); (-1); (-1); (-1); (-1); (-1); (-1); (-1); (-1); (-1); 62; (-1); (-1); (-1); 63;
      52; 53; 54; 55; 56; 57; 58; 59; 60; 61; (-1); (-1); (-1); (-1); (-1); (-1);
      (-1); 0; 1; 2; 3; 4; 5; 6; 7; 8; 9; 10; 11; 12; 13; 14;
      15; 16; 17; 18; 19; 20; 21; 22; 23; 24; 25; (-1); (-1); (-1); (-1); (-1);
      (-1); 26; 27; 28; 29; 30; 31; 32; 33; 34; 35; 36; 37; 38; 39; 40;
      41; 42; 43; 44; 45; 46; 47; 48; 49; 50; 51; (-1); (-1); (-1); (-1); (-1);
      (-1); (-1); (-1); (-1); (-1); (-1); (-1); (-1); (-1); (-1); (-1); (-1); (-1); (-1); (-1); (-1);
      (-1); (-1); (-1); (-1); (-1); (-1); (-1); (-1); (-1); (-1); (-1); (-1); (-1); (-1); (-1); (-1);
      (-1); (-1); (-1); (-1); (-1); (-1); (-1); (-1); (-1); (-1); (-1); (-1); (-1); (-1); (-1); (-1);
      (-1); (-1); (-1); (-1); (-1); (-1); (-1); (-1); (-1); (-1); (-1); (-1); (-1); (-1); (-1); (-1);
      (-1); (-1); (-1); (-1); (-1); (-1); (-1); (-1); (-1); (-1); (-1); (-1); (-1); (-1); (-1); (-1);
      (-1); (-1); (-1); (-1); (-1); (-1); (-1); (-1); (-1); (-1); (-1); (-1); (-1); (-1); (-1); (-1);
      (-1); (-1); (-1); (-1); (-1); (-1); (-1); (-1); (-1); (-1); (-1); (-1); (-1); (-1); (-1); (-1);
      (-1); (-1); (-1); (-1); (-1); (-1); (-1); (-1); (-1); (-1); (-1); (-1); (-1); (-1); (-1); (-1) ].

Definition base64_encode := base64_encode_using_maps base64_maps_rfc4648.
Definition base64_encode_triplet := base64_encode_triplet_using_maps base64_maps_rfc4648.
Definition base64_encode_tail := base64_encode_tail_using_maps base64_maps_rfc4648.
Definition base64_decode := base64_decode_using_maps base64_maps_rfc4648.
Definition base64_decode_quartet := base64_decode_quartet_using_maps base64_maps_rfc4648.
Definition base64_decode_tail := base64_decode_tail_using_maps base64_maps_rfc4648.

(** ** The reference: RFC 4648 *)

(** A 24-bit group from three bytes, its four six-bit values, and back. *)
Definition group24 (a b c : Z) : Z := a * 2 ^ 16 + b * 2 ^ 8 + c.

Definition sextets (g : Z) : list Z :=
  [g / 2 ^ 18; g / 2 ^ 12 mod 2 ^ 6; g / 2 ^ 6 mod 2 ^ 6; g mod 2 ^ 6].

Definition group_sextets (v0 v1 v2 v3 : Z) : Z :=
  v0 * 2 ^ 18 + v1 * 2 ^ 12 + v2 * 2 ^ 6 + v3.

Definition octets (g : Z) : list Z := [g / 2 ^ 16; g / 2 ^ 8 mod 2 ^ 8; g mod 2 ^ 8].

Definition letter (maps : base64_maps_t) (v : Z) : Z := (encode_map maps).[v].

Definition value (maps : base64_maps_t) (c : Z) : option Z :=
  let v := (decode_map maps).[c] in if v =? -1 then None else Some v.

Fixpoint b64_text (maps : base64_maps_t) (l : list Z) : list Z :=
  match l with
  | [] => []
  | [a] => map (letter maps) (take 2 (sextets (group24 a 0 0))) ++ [eq_char; eq_char]
  | [a; b] => map (letter maps) (take 3 (sextets (group24 a b 0))) ++ [eq_char]
  | a :: b :: c :: l => map (letter maps) (sextets (group24 a b c)) ++ b64_text maps l
  end.

Definition quartet_ref (maps : base64_maps_t) (a b c d : Z) : option (list Z) :=
  v0 ← value maps a; v1 ← value maps b; v2 ← value maps c; v3 ← value maps d;
  Some (octets (group_sextets v0 v1 v2 v3)).

(** The last group of at most four characters, its padding dropped; the values
    a short group lacks are those of the letter [A]. *)
Definition tail_ref (maps : base64_maps_t) (l : list Z) : option (list Z) :=
  match take (strip_padding (length l) l) l with
  | [] => Some []
  | [a; b] => o ← quartet_ref maps a b 65 65; Some (take 1 o)
  | [a; b; c] => o ← quartet_ref maps a b c 65; Some (take 2 o)
  | [a; b; c; d] => quartet_ref maps a b c d
  | _ => None
  end.

Fixpoint decode_ref (maps : base64_maps_t) (l : list Z) : option (list Z) :=
  match l with
  | a :: b :: c :: d :: ((_ :: _) as r) =>
      o1 ← quartet_ref maps a b c d; o2 ← decode_ref maps r; Some (o1 ++ o2)
  | _ => tail_ref maps l
  end.

(** ** One group *)

Lemma byte_fields a : is_byte a ->
  u8 ((schar a .& 0xfc) .>> 2) = a / 4 /\ (schar a .& 0x3) .<< 4 = (a mod 4) * 2 ^ 4 /\
  (schar a .& 0xf0) .>> 4 = a / 16 /\ (schar a .& 0xf) .<< 2 = (a mod 16) * 2 ^ 2 /\
  (schar a .& 0xc0) .>> 6 = a / 64 /\ schar a .& 0x3f = a mod 64.
Proof.
  intros H. split_and!; revert a H; match goal with |- forall a, _ -> @?f a = @?g a =>
    apply (byte_forall_eq f g) end; vm_compute; reflexivity.
Qed.

Lemma sextets_bytes a b c :
  is_byte a -> is_byte b -> is_byte c ->
  sextets (group24 a b c) =
  [a / 4; b / 16 + a mod 4 * 2 ^ 4; c / 64 + b mod 16 * 2 ^ 2; c mod 64].
Proof.
  unfold in_width, sextets, group24. intros. list_eq; [dlia..|done].
Qed.

Lemma encode_triplet_spec maps a b c :
  is_byte a -> is_byte b -> is_byte c ->
  base64_encode_triplet_using_maps maps [a; b; c] =
  Some (map (letter maps) (sextets (group24 a b c))).
Proof.
  intros Ha Hb Hc. unfold base64_encode_triplet_using_maps.
  change [a; b; c].[0] with a. change [a; b; c].[1] with b. change [a; b; c].[2] with c.
  destruct (byte_fields a Ha) as (-> & -> & _), (byte_fields b Hb) as (_ & _ & -> & -> & _),
    (byte_fields c Hc) as (_ & _ & _ & _ & -> & ->).
  unfold in_width in *. change (2 ^ 8) with 256 in *.
  rewrite (Z.lor_comm (_ * 2 ^ 4)), !lor_add by (unfold in_width; dlia).
  rewrite !wrap_id by (unfold in_width; dlia).
  unfold sixbit_to_b64. repeat match goal with |- context [?x <=? 63] =>
    destruct (Z.leb_spec x 63); [|exfalso; dlia] end.
  by rewrite sextets_bytes.
Qed.

(** The values of a map are six-bit values, or -1. *)
Definition values_ok (maps : base64_maps_t) : Prop :=
  Forall (fun v => -1 <= v < 64) (decode_map maps).

Lemma values_ok_get maps c : values_ok maps -> -1 <= (decode_map maps).[c] < 64.
Proof.
  unfold get. generalize (Z.to_nat c). intros n H; revert n.
  induction H as [|v l Hv _ IH]; intros [|n]; simpl; try lia. apply IH.
Qed.

Lemma value_range maps c v : values_ok maps -> value maps c = Some v -> 0 <= v < 64.
Proof.
  intros H%(values_ok_get _ c). unfold value.
  destruct (Z.eqb_spec (decode_map maps).[c] (-1)); intros [= <-]; lia.
Qed.

Lemma sixbit_from_b64_value maps c e :
  sixbit_from_b64 maps c e =
  match value maps c with Some v => (v, e) | None => (-1, EDOM) end.
Proof. unfold sixbit_from_b64, value. by case_match. Qed.

Lemma value_not_fail maps c v : value maps c = Some v -> (v =? -1) = false.
Proof. unfold value. case_match; congruence. Qed.

Lemma octets_code v0 v1 v2 v3 :
  0 <= v0 < 64 -> 0 <= v1 < 64 -> 0 <= v2 < 64 -> 0 <= v3 < 64 ->
  [u8 ((v0 .<< 2) .| (v1 .>> 4)); u8 (((v1 .& 0xf) .<< 4) .| (v2 .>> 2));
   u8 (((v2 .& 0x3) .<< 6) .| v3)] = octets (group_sextets v0 v1 v2 v3).
Proof.
  intros. change 0xf with (Z.ones 4). change 0x3 with (Z.ones 2).
  rewrite !Z.land_ones, !Z.shiftl_mul_pow2, !Z.shiftr_div_pow2 by lia.
  rewrite !(Z.lor_comm (_ * _)), !lor_add by (unfold in_width; dlia).
  rewrite !wrap_id by (unfold in_width; dlia).
  unfold octets, group_sextets. list_eq; [dlia..|done].
Qed.

Lemma decode_quartet_spec maps a b c d e :
  values_ok maps ->
  base64_decode_quartet_using_maps maps [a; b; c; d] e =
  match quartet_ref maps a b c d with Some o => (0, o, e) | None => (-1, [], EDOM) end.
Proof.
  intros Hm. unfold base64_decode_quartet_using_maps, quartet_ref.
  change [a; b; c; d].[0] with a. change [a; b; c; d].[1] with b.
  change [a; b; c; d].[2] with c. change [a; b; c; d].[3] with d.
  rewrite sixbit_from_b64_value. destruct (value maps a) as [v0|] eqn:E0; cbv beta iota;
    rewrite sixbit_from_b64_value; destruct (value maps b) as [v1|] eqn:E1; cbv beta iota;
    rewrite sixbit_from_b64_value; destruct (value maps c) as [v2|] eqn:E2; cbv beta iota;
    rewrite sixbit_from_b64_value; destruct (value maps d) as [v3|] eqn:E3; cbv beta iota;
    cbn [mbind option_bind];
    repeat match goal with H : value _ _ = Some _ |- _ =>
      rewrite ?(value_not_fail _ _ _ H); apply value_range in H; [|done] end;
    rewrite ?orb_true_r; cbn [orb Z.eqb Pos.eqb]; try done.
  by rewrite octets_code.
Qed.

Lemma octets_length g : length (octets g) = 3%nat.
Proof. done. Qed.

(** ** The encoder *)

Lemma b64_text_length maps l : len (b64_text maps l) = (len l + 2) / 3 * 4.
Proof.
  induction (Nat.lt_wf_0_projected (@length Z) l) as [l _ IH].
  destruct l as [|a [|b [|c l]]]; [done..|]. cbn [b64_text].
  rewrite len_app, IH, !len_cons by (simpl; lia). change (len (map _ _)) with 4. dlia.
Qed.

Lemma encode_tail_spec maps l :
  Bytes l -> (0 < length l < 3)%nat ->
  base64_encode_tail_using_maps maps l = Some (b64_text maps l).
Proof.
  intros Hb Hl. unfold base64_encode_tail_using_maps.
  destruct l as [|a [|b [|c l]]]; [simpl in Hl; lia| | |simpl in Hl; lia];
    repeat (apply Forall_cons in Hb as [? Hb]).
  - change (put 0 [a] (repeat 0 3)) with (Some [a; 0; 0]).
    change (len [a] <=? 3) with true. cbn [mbind option_bind].
    rewrite encode_triplet_spec by done. reflexivity.
  - change (put 0 [a; b] (repeat 0 3)) with (Some [a; b; 0]).
    change (len [a; b] <=? 3) with true. cbn [mbind option_bind].
    rewrite encode_triplet_spec by done. reflexivity.
Qed.

Lemma encode_run maps rest fuel pre out junk e :
  Bytes rest -> (length rest < fuel)%nat -> len (pre ++ rest) < 2 ^ 64 ->
  len (b64_text maps rest) <= len junk ->
  encode_loop fuel maps (out ++ junk) (pre ++ rest) (len pre) (len out)
    ≫= encode_finish maps (pre ++ rest) e =
  Some (len out + len (b64_text maps rest),
        out ++ b64_text maps rest ++ repeat 0 (length junk - length (b64_text maps rest)), e).
Proof.
  revert rest pre out junk. induction fuel as [|fuel IH]; intros rest pre out junk Hb Hf Hw Hj; [lia|].
  cbn [encode_loop]. assert (Hrem : len (pre ++ rest) - len pre = len rest) by len_lia.
  rewrite Hrem, wrap_id by (unfold in_width; len_lia).
  destruct (Z.leb_spec 3 (len rest)) as [H3|H3].
  - destruct rest as [|a [|b [|c rest]]]; try (unfold len in H3; simpl in H3; lia).
    apply Forall_cons in Hb as [Ha Hb]; apply Forall_cons in Hb as [Hb Hc];
      apply Forall_cons in Hc as [Hc Hr]. rewrite slice_at. change (Z.to_nat 3) with 3%nat. cbn [take].
    rewrite encode_triplet_spec by done. cbn [mbind option_bind b64_text] in *.
    set (t := map _ _) in *. assert (Ht : length t = 4%nat) by reflexivity.
    rewrite put_app by len_lia. cbn [mbind option_bind].
    replace (pre ++ a :: b :: c :: rest) with ((pre ++ [a; b; c]) ++ rest) in * by (by rewrite <- app_assoc).
    replace (len pre + 3) with (len (pre ++ [a; b; c])) by (rewrite len_app; done).
    replace (len out + 4) with (len (out ++ t)) by len_lia.
    rewrite IH by (done || (simpl in Hf; lia) || len_lia). f_equal. do 2 f_equal; [len_lia|].
    rewrite <- !app_assoc. do 4 f_equal. rewrite length_drop, length_app. lia.
  - cbn [mbind option_bind encode_finish]. rewrite slice_rest.
    destruct (Z.ltb_spec (len pre) (len (pre ++ rest))) as [Hne|He].
    + rewrite encode_tail_spec by (done || len_lia). cbn [mbind option_bind].
      rewrite put_app by done. cbn [mbind option_bind].
      assert (len (b64_text maps rest) = 4) as H4 by (rewrite b64_text_length; len_lia || dlia).
      replace (len out + 4) with (len (out ++ b64_text maps rest)) by len_lia.
      rewrite put_zeros. cbn [mbind option_bind]. rewrite length_drop, <- app_assoc, len_app.
      done.
    + assert (rest = []) as -> by (apply nil_length_inv; len_lia). cbn [mbind option_bind].
      rewrite put_zeros. cbn [mbind option_bind b64_text length app].
      by rewrite Nat.sub_0_r, Z.add_0_r.
Qed.

Lemma encode_spec maps dest src e :
  Bytes src -> len src < 2 ^ 63 ->
  base64_encode_using_maps maps dest src e =
  Some (if len dest <? len (b64_text maps src) then (-1, dest, EOVERFLOW)
        else (len (b64_text maps src),
              b64_text maps src ++ repeat 0 (length dest - length (b64_text maps src)), e)).
Proof.
  intros Hsrc Hl.
  unfold base64_encode_using_maps. pose proof (b64_text_length maps src) as Ht.
  assert (base64_encoded_length (len src) = len (b64_text maps src)) as ->.
  { unfold base64_encoded_length. rewrite Ht. rewrite !wrap_id; unfold in_width;
      pose proof (len_nonneg src); rewrite ?wrap_id; unfold in_width; try dlia. }
  destruct (Z.ltb_spec (len dest) (len (b64_text maps src))); [done|].
  by apply (encode_run maps src (S (length src)) [] [] dest e); [|lia|len_lia|].
Qed.

(** The encoder never leaves its buffers; it fails with [EOVERFLOW] and
    leaves the buffer alone exactly when the buffer is shorter than
    [base64_encoded_length], and otherwise stores the RFC 4648 text followed
    by NULs and returns the length of the text. *)
Theorem base64_encode_exact (maps : base64_maps_t) (dest src : list Z) (e : errno)
    (Hsrc : Bytes src) (Hl : len src < 2 ^ 63) :
  base64_encode_using_maps maps dest src e =
  Some (if len dest <? len (b64_text maps src) then (-1, dest, EOVERFLOW)
        else (len (b64_text maps src),
              b64_text maps src ++ repeat 0 (length dest - length (b64_text maps src)), e)).
Proof. by apply encode_spec. Qed.

Lemma base64_encode_exact_witness :
  base64_encode_using_maps base64_maps_rfc4648 (repeat 7 9) (cs "abc") E0 =
  Some (4, cs "YWJj" ++ repeat 0 5, E0).
Proof.
  rewrite (base64_encode_exact base64_maps_rfc4648 (repeat 7 9) (cs "abc") E0);
    [vm_compute; reflexivity|by_compute|done].
Defined.

(** ** The decoder *)

Lemma strip_padding_le n l : (strip_padding n l <= n)%nat.
Proof. induction n as [|n IH]; simpl; [lia|]. case_match; lia. Qed.

Lemma decode_tail_spec maps l out junk e :
  values_ok maps -> (length l <= 4)%nat -> (l = [] \/ 3 <= len junk) ->
  match tail_ref maps l with
  | Some o => (length o <= 3)%nat /\ len o <= len junk /\ exists junk',
      base64_decode_tail_using_maps maps (out ++ junk) (len out) l e =
      Some (len o, (out ++ o) ++ junk', e) /\ length (o ++ junk') = length junk
  | None => exists e',
      base64_decode_tail_using_maps maps (out ++ junk) (len out) l e = Some (-1, out ++ junk, e') /\
      (e' = EDOM \/ e' = EINVAL)
  end.
Proof.
  intros Hm Hl Hj. unfold base64_decode_tail_using_maps, tail_ref.
  pose proof (strip_padding_le (length l) l) as Hs.
  set (n := strip_padding (length l) l) in *. set (t := take n l).
  assert (Hn : length t = n) by (unfold t; rewrite length_take; lia).
  rewrite Nat2Z.id. fold t. clearbody n.
  assert (Hj' : t <> [] -> 3 <= len junk).
  { intros Ht. destruct Hj as [->|]; [|done]. by destruct Ht; unfold t; rewrite take_nil. }
  clearbody t. subst n.
  destruct t as [|a [|b t]]; [| |].
  { split_and!; [simpl; lia|len_lia|]. exists junk. by rewrite app_nil_r. }
  { exists EINVAL. split; [done|by right]. }
  specialize (Hj' ltac:(done)).
  destruct (Z.eqb_spec (Z.of_nat (length (a :: b :: t))) 0); [simpl in *; lia|].
  destruct (Z.eqb_spec (Z.of_nat (length (a :: b :: t))) 1); [simpl in *; lia|].
  assert (exists c d, put 0 (a :: b :: t) (repeat 65 4) = Some [a; b; c; d] /\
    match a :: b :: t with
    | [] => Some [] | [a; b] => o ← quartet_ref maps a b 65 65; Some (take 1 o)
    | [a; b; c] => o ← quartet_ref maps a b c 65; Some (take 2 o)
    | [a; b; c; d] => quartet_ref maps a b c d | _ => None
    end = o ← quartet_ref maps a b c d; Some (take (length (a :: b :: t) - 1) o))
    as (c & d & -> & ->).
  { destruct t as [|c [|d [|x t]]]; [by eexists _, _..| |simpl in *; lia].
    eexists _, _; split; [done|]. unfold quartet_ref. repeat (case_match; simpl; try done).
    by destruct (value maps a), (value maps b), (value maps c), (value maps d). }
  cbn [mbind option_bind]. rewrite decode_quartet_spec by done.
  destruct (quartet_ref maps a b c d) as [o|] eqn:Ho; cbn [mbind option_bind].
  2: { exists EDOM. split; [done|by left]. }
  assert (Hlo : length o = 3%nat).
  { unfold quartet_ref in Ho. destruct (value maps a), (value maps b), (value maps c), (value maps d);
      try done. by injection Ho as <-. }
  change (0 =? -1) with false. cbv iota.
  rewrite put_app by len_lia. cbn [mbind option_bind].
  set (nt := length (a :: b :: t)) in *. set (k := (nt - 1)%nat).
  assert ((2 <= nt <= 4)%nat) by (subst nt; simpl in *; lia).
  split_and!; [rewrite length_take; lia|len_lia|].
  exists (drop k o ++ drop (length o) junk). split.
  - do 3 f_equal; [|by rewrite <- (take_drop k o) at 1; rewrite <- !app_assoc].
    unfold len. rewrite length_take. lia.
  - rewrite !length_app, length_take, !length_drop. len_lia.
Qed.

Lemma decode_ref_short maps l : (length l <= 4)%nat -> decode_ref maps l = tail_ref maps l.
Proof. intros. destruct l as [|? [|? [|? [|? [|? ?]]]]]; simpl in *; (done || lia). Qed.

Lemma decode_ref_cons maps a b c d x r :
  decode_ref maps (a :: b :: c :: d :: x :: r) =
  o1 ← quartet_ref maps a b c d; o2 ← decode_ref maps (x :: r); Some (o1 ++ o2).
Proof. reflexivity. Qed.

Lemma decode_run maps rest fuel pre out junk e :
  values_ok maps -> (length rest < fuel)%nat -> len (pre ++ rest) < 2 ^ 64 ->
  (len rest + 3) / 4 * 3 <= len junk ->
  match decode_ref maps rest with
  | Some o => len o <= len junk /\
      decode_loop fuel maps (out ++ junk) (pre ++ rest) (len pre) (len out) e
        ≫= decode_finish maps (pre ++ rest) e =
      Some (len out + len o, out ++ o ++ repeat 0 (length junk - length o), e)
  | None => exists junk' e',
      decode_loop fuel maps (out ++ junk) (pre ++ rest) (len pre) (len out) e
        ≫= decode_finish maps (pre ++ rest) e = Some (-1, out ++ junk', e') /\
      length junk' = length junk /\ (e' = EDOM \/ e' = EINVAL)
  end.
Proof.
  intros Hm. revert rest pre out junk.
  induction fuel as [|fuel IH]; intros rest pre out junk Hf Hw Hj; [lia|].
  cbn [decode_loop]. assert (Hrem : len (pre ++ rest) - len pre = len rest) by len_lia.
  rewrite Hrem, wrap_id by (unfold in_width; len_lia).
  destruct (Z.ltb_spec 4 (len rest)) as [H4|H4].
  - destruct rest as [|a [|b [|c [|d [|x rest]]]]]; try (unfold len in H4; simpl in H4; lia).
    rewrite slice_at. change (Z.to_nat 4) with 4%nat. cbn [take].
    rewrite decode_quartet_spec, decode_ref_cons by done.
    destruct (quartet_ref maps a b c d) as [o|] eqn:Ho; cbn [mbind option_bind].
    2: { exists junk, EDOM. split_and!; [done..|by left]. }
    assert (Hlo : length o = 3%nat).
    { unfold quartet_ref in Ho. destruct (value maps a), (value maps b), (value maps c), (value maps d);
        try done. by injection Ho as <-. }
    change (0 =? -1) with false. cbv iota.
    assert (3 <= len junk) by (rewrite !len_cons in Hj; pose proof (len_nonneg rest); dlia).
    rewrite put_app by len_lia. cbn [mbind option_bind].
    replace (pre ++ a :: b :: c :: d :: x :: rest)
      with ((pre ++ [a; b; c; d]) ++ x :: rest) in * by (by rewrite <- app_assoc).
    replace (len pre + 4) with (len (pre ++ [a; b; c; d])) by (rewrite len_app; done).
    replace (len out + 3) with (len (out ++ o)) by len_lia.
    assert (Hroom : (len (x :: rest) + 3) / 4 * 3 <= len (drop (length o) junk)).
    { rewrite len_drop, Hlo. rewrite !len_cons in *. pose proof (len_nonneg rest). dlia. }
    specialize (IH (x :: rest) (pre ++ [a; b; c; d]) (out ++ o) (drop (length o) junk)
      ltac:(simpl in *; lia) Hw Hroom).
    destruct (decode_ref maps (x :: rest)) as [o2|]; cbn [mbind option_bind].
    + destruct IH as [Ho2 ->]. split; [len_lia|]. do 3 f_equal; [len_lia|].
      rewrite <- !app_assoc. do 4 f_equal. rewrite length_drop, length_app. lia.
    + destruct IH as (junk' & e' & -> & Hlj & He). exists (o ++ junk'), e'.
      rewrite <- app_assoc. split_and!; [done| |done].
      rewrite length_app, Hlj, length_drop. len_lia.
  - assert ((length rest <= 4)%nat) by len_lia. rewrite decode_ref_short by done.
    cbn [mbind option_bind decode_finish]. rewrite slice_rest.
    assert (Hr : rest = [] \/ 3 <= len junk).
    { destruct rest; [by left|right]. rewrite len_cons in Hj. pose proof (len_nonneg rest). dlia. }
    pose proof (decode_tail_spec maps rest out junk e Hm ltac:(done) Hr) as HT.
    destruct (tail_ref maps rest) as [o|].
    + destruct HT as (_ & Hoj & junk' & -> & Hlj). split; [done|]. cbn [mbind option_bind].
      destruct (Z.eqb_spec (len o) (-1)); [len_lia|].
      rewrite <- len_app, put_zeros. cbn [mbind option_bind]. rewrite <- app_assoc.
      rewrite length_app in Hlj. by replace (length junk') with (length junk - length o)%nat by lia.
    + destruct HT as (e' & -> & He). cbn [mbind option_bind]. by exists junk, e'.
Qed.

Lemma decode_spec maps dest src e :
  values_ok maps -> len src < 2 ^ 63 ->
  if len dest <? base64_decoded_length (len src)
  then base64_decode_using_maps maps dest src e = Some (-1, dest, EOVERFLOW)
  else match decode_ref maps src with
  | Some o => base64_decode_using_maps maps dest src e =
      Some (len o, o ++ repeat 0 (length dest - length o), e)
  | None => exists dest' e', base64_decode_using_maps maps dest src e = Some (-1, dest', e') /\
      length dest' = length dest /\ (e' = EDOM \/ e' = EINVAL)
  end.
Proof.
  intros Hm Hl.
  unfold base64_decode_using_maps.
  destruct (Z.ltb_spec (len dest) (base64_decoded_length (len src))) as [|Hd]; [done|].
  assert (Hr : (len src + 3) / 4 * 3 <= len dest).
  { unfold base64_decoded_length in Hd. pose proof (len_nonneg src).
    rewrite (wrap_id 64 (len src + 3)), wrap_id in Hd by (unfold in_width; dlia). done. }
  pose proof (decode_run maps src (S (length src)) [] [] dest e Hm ltac:(lia) ltac:(len_lia) Hr) as HR.
  destruct (decode_ref maps src); [exact (proj2 HR)|exact HR].
Qed.

(** The decoder is total and stays inside its buffers: it fails with
    [EOVERFLOW] exactly when the buffer is shorter than [base64_decoded_length];
    otherwise it returns the bytes of the 24-bit groups followed by NULs, or -1
    with [EDOM] or [EINVAL] when the text has no such reading. *)
Theorem base64_decode_exact (maps : base64_maps_t) (dest src : list Z) (e : errno)
    (Hm : values_ok maps) (Hl : len src < 2 ^ 63) :
  if len dest <? base64_decoded_length (len src)
  then base64_decode_using_maps maps dest src e = Some (-1, dest, EOVERFLOW)
  else match decode_ref maps src with
  | Some o => base64_decode_using_maps maps dest src e =
      Some (len o, o ++ repeat 0 (length dest - length o), e)
  | None => exists dest' e', base64_decode_using_maps maps dest src e = Some (-1, dest', e') /\
      length dest' = length dest /\ (e' = EDOM \/ e' = EINVAL)
  end.
Proof. by apply decode_spec. Qed.

#[export] Instance values_ok_dec maps : Decision (values_ok maps).
Proof. unfold values_ok. apply _. Defined.

Lemma base64_decode_exact_witness :
  decode_ref base64_maps_rfc4648 (cs "YWI=") = Some (cs "ab") /\
  base64_decode_using_maps base64_maps_rfc4648 (repeat 7 4) (cs "YWI=") E0 =
  Some (2, cs "ab" ++ [0; 0], E0).
Proof.
  split; [reflexivity|].
  exact (base64_decode_exact base64_maps_rfc4648 (repeat 7 4) (cs "YWI=") E0
    ltac:(by_compute) eq_refl).
Defined.

(** ** Alphabets *)

(** An alphabet the documentation allows: 64 distinct characters, none of them
    the padding character. *)
Definition alphabet_ok (src : list Z) : Prop :=
  Bytes src /\ length src = 64%nat /\ NoDup src /\ eq_char ∉ src.

Definition init_step (src m : list Z) (i : Z) : list Z := <[Z.to_nat src.[i] := i]> m.

Lemma init_maps_loop (src : list Z) n m c :
  Bytes src -> (n <= length src)%nat -> NoDup src -> length m = 256%nat ->
  let m' := foldl (init_step src) m (map Z.of_nat (List.seq 0 n)) in
  length m' = 256%nat /\
  (forall i, (i < n)%nat -> m' !! Z.to_nat src.[Z.of_nat i] = Some (Z.of_nat i)) /\
  ((forall i, (i < n)%nat -> Z.to_nat src.[Z.of_nat i] <> c) -> m' !! c = m !! c).
Proof.
  intros Hb Hn Hd Hm. induction n as [|n IH]; [split_and!; [done|lia|done]|].
  rewrite seq_S, map_app, foldl_app. cbn [map foldl Nat.add].
  destruct IH as (Hl & Hi & Hc); [lia|]. set (m' := foldl _ m _) in *. clearbody m'.
  pose proof (Bytes_get src (Z.of_nat n) Hb) as [Hb0 Hb1]. unfold init_step.
  split_and!; [by rewrite length_insert|..].
  - intros i Hin. destruct (decide (i = n)) as [->|Hne].
    + apply list_lookup_insert_eq. lia.
    + rewrite list_lookup_insert_ne; [apply Hi; lia|].
      pose proof (Bytes_get src (Z.of_nat i) Hb) as [??].
      intros He%Z2Nat.inj; [|lia..].
      assert (H1 := get_lookup src (Z.of_nat i) ltac:(len_lia)).
      assert (H2 := get_lookup src (Z.of_nat n) ltac:(len_lia)).
      rewrite Nat2Z.id in H1, H2. rewrite He in H2. apply Hne. by eapply NoDup_lookup.
  - intros Hall. rewrite list_lookup_insert_ne by (apply Hall; lia). apply Hc. intros; apply Hall; lia.
Qed.

Lemma init_maps_values src : values_ok (base64_init_maps src).
Proof.
  unfold values_ok, base64_init_maps; cbn [decode_map].
  assert (Hm : Forall (fun v => -1 <= v < 64) (repeat (-1) 256)) by by_compute.
  assert (Hs : Forall (fun v => -1 <= v < 64) (map Z.of_nat (List.seq 0 64))) by by_compute.
  revert Hm. generalize (repeat (-1) 256) as m.
  induction Hs as [|i l Hi _ IH]; intros m Hm; [done|]. cbn [foldl]. apply IH.
  by apply Forall_insert.
Qed.

Lemma repeat_lookup {A} (x : A) n i : (i < n)%nat -> repeat x n !! i = Some x.
Proof. revert i; induction n as [|n IH]; intros [|i] ?; simpl; try lia; [done|apply IH; lia]. Qed.

Lemma init_maps_spec src :
  alphabet_ok src ->
  let maps := base64_init_maps src in
  (forall v, 0 <= v < 64 -> letter maps v = src.[v] /\ value maps (letter maps v) = Some v) /\
  (forall c, is_byte c -> value maps c = None <-> c ∉ src).
Proof.
  intros (Hb & Hl & Hd & Heq) maps.
  assert (Hlet : forall v, letter maps v = src.[v]).
  { intros v. unfold letter, maps; cbn [encode_map base64_init_maps]. by rewrite take_ge by lia. }
  assert (Hin : forall v, 0 <= v < 64 -> value maps src.[v] = Some v).
  { intros v Hv. destruct (init_maps_loop src 64 (repeat (-1) 256) 0 Hb) as (_ & Hi & _); [lia|done..|].
    specialize (Hi (Z.to_nat v) ltac:(lia)). rewrite Z2Nat.id in Hi by lia.
    assert ((decode_map maps).[src.[v]] = v) as Hv' by exact (nth_lookup_Some _ _ 0 _ Hi).
    unfold value. rewrite Hv'. destruct (Z.eqb_spec v (-1)); [lia|done]. }
  split; [intros v Hv; rewrite Hlet; split; [done|by apply Hin]|].
  intros c [Hc0 Hc1]. split.
  - intros Hc [i Hi]%list_elem_of_lookup. pose proof (lookup_lt_Some _ _ _ Hi) as Hlt.
    rewrite <- (get_lookup' _ _ _ Hi), Hin in Hc by lia. done.
  - intros Hns. destruct (init_maps_loop src 64 (repeat (-1) 256) (Z.to_nat c) Hb) as (_ & _ & Hno);
      [lia|done..|]. enough ((decode_map maps).[c] = -1) as Hv by (unfold value; by rewrite Hv).
    apply nth_lookup_Some. etransitivity; [apply Hno|].
    + intros i Hi Hic. apply Hns. pose proof (Bytes_get src (Z.of_nat i) Hb) as [??].
      apply Z2Nat.inj in Hic as <-; [|lia..].
      eapply list_elem_of_lookup_2, get_lookup. len_lia.
    + apply repeat_lookup. change (2 ^ 8) with 256 in *. lia.
Qed.

(** ** Round trip *)

(** What the round trip asks of the maps. *)
Definition maps_ok (maps : base64_maps_t) : Prop :=
  values_ok maps /\ forall v, 0 <= v < 64 -> value maps (letter maps v) = Some v /\ letter maps v <> eq_char.

Lemma sextets_range g : 0 <= g < 2 ^ 24 -> Forall (fun v => 0 <= v < 64) (sextets g).
Proof. intros. unfold sextets. repeat constructor; dlia. Qed.

Lemma group24_range a b c : is_byte a -> is_byte b -> is_byte c -> 0 <= group24 a b c < 2 ^ 24.
Proof. unfold in_width, group24. lia. Qed.

Lemma quartet_ref_letters maps g :
  maps_ok maps -> 0 <= g < 2 ^ 24 ->
  forall v0 v1 v2 v3, sextets g = [v0; v1; v2; v3] ->
  quartet_ref maps (letter maps v0) (letter maps v1) (letter maps v2) (letter maps v3) =
  Some (octets g).
Proof.
  intros [_ Hm] Hg v0 v1 v2 v3 Hs. pose proof (sextets_range g Hg) as HF. rewrite Hs in HF.
  rewrite !Forall_cons in HF. destruct HF as (H0 & H1 & H2 & H3 & _). unfold quartet_ref.
  rewrite (proj1 (Hm _ H0)), (proj1 (Hm _ H1)), (proj1 (Hm _ H2)), (proj1 (Hm _ H3)).
  cbn [mbind option_bind]. do 2 f_equal. injection Hs as <- <- <- <-. unfold group_sextets. dlia.
Qed.

Lemma letters_of (maps : base64_maps_t) g :
  exists v0 v1 v2 v3, sextets g = [v0; v1; v2; v3] /\
    v0 = g / 2 ^ 18 /\ v1 = g / 2 ^ 12 mod 2 ^ 6 /\ v2 = g / 2 ^ 6 mod 2 ^ 6 /\ v3 = g mod 2 ^ 6.
Proof. by eexists _, _, _, _. Qed.

(** The characters of a group, none of which is the padding character. *)
Lemma strip_letters maps g k pad :
  maps_ok maps -> 0 <= g < 2 ^ 24 -> (2 <= k <= 4)%nat -> pad = repeat eq_char (4 - k) ->
  let l := map (letter maps) (take k (sextets g)) ++ pad in
  take (strip_padding (length l) l) l = map (letter maps) (take k (sextets g)).
Proof.
  intros [_ Hm] Hg Hk -> l. pose proof (sextets_range g Hg) as HF.
  assert (Hne : forall v, 0 <= v < 64 -> (letter maps v =? eq_char) = false).
  { intros v Hv. apply Z.eqb_neq. by apply Hm. }
  unfold l, sextets in *. rewrite !Forall_cons in HF. destruct HF as (?&?&?&?&_).
  destruct k as [|[|[|[|[|k]]]]]; try lia;
    cbn -[Z.div Z.modulo Z.pow eq_char Z.eqb Z.of_nat letter]; unfold get;
    rewrite ?Nat2Z.id; cbn -[Z.div Z.modulo Z.pow eq_char Z.eqb letter];
    rewrite ?Z.eqb_refl, ?Hne by done; reflexivity.
Qed.

Lemma octets_sextets a b c : is_byte a -> is_byte b -> is_byte c -> octets (group24 a b c) = [a; b; c].
Proof. unfold in_width, octets, group24. intros. list_eq; [dlia..|done]. Qed.

Lemma b64_text_cons maps a b c l :
  b64_text maps (a :: b :: c :: l) = map (letter maps) (sextets (group24 a b c)) ++ b64_text maps l.
Proof. done. Qed.

(** A short group whose missing values are those of [A]. *)
Lemma short_group maps a b va :
  maps_ok maps -> is_byte a -> is_byte b -> value maps 65 = Some va -> 0 <= va < 64 ->
  tail_ref maps (b64_text maps [a]) = Some [a] /\ tail_ref maps (b64_text maps [a; b]) = Some [a; b].
Proof.
  intros Hm Ha Hb HA Hva. pose proof Hm as [_ Hl].
  assert (Hz : is_byte 0) by done.
  assert (Hv : forall v, 0 <= v < 64 -> value maps (letter maps v) = Some v) by (intros; by apply Hl).
  unfold tail_ref. split; cbn [b64_text].
  - rewrite (strip_letters maps (group24 a 0 0) 2) by (done || lia || by apply group24_range).
    pose proof (sextets_range _ (group24_range a 0 0 Ha Hz Hz)) as HF.
    rewrite sextets_bytes in * by done. rewrite !Forall_cons in HF. destruct HF as (?&?&_).
    cbn [take map]. unfold quartet_ref. rewrite HA, !Hv by done. cbn [mbind option_bind take octets].
    unfold group_sextets, in_width in *. f_equal. list_eq; [dlia|done].
  - rewrite (strip_letters maps (group24 a b 0) 3) by (done || lia || by apply group24_range).
    pose proof (sextets_range _ (group24_range a b 0 Ha Hb Hz)) as HF.
    rewrite sextets_bytes in * by done. rewrite !Forall_cons in HF. destruct HF as (?&?&?&_).
    cbn [take map]. unfold quartet_ref. rewrite HA, !Hv by done. cbn [mbind option_bind take octets].
    unfold group_sextets, in_width in *. f_equal. list_eq; [dlia..|done].
Qed.

Lemma decode_ref_full maps a b c l :
  maps_ok maps -> is_byte a -> is_byte b -> is_byte c ->
  decode_ref maps (b64_text maps (a :: b :: c :: l)) =
  o ← decode_ref maps (b64_text maps l); Some ([a; b; c] ++ o).
Proof.
  intros Hm Ha Hb Hc. rewrite b64_text_cons.
  assert (Hg := group24_range a b c Ha Hb Hc).
  destruct (letters_of maps (group24 a b c)) as (v0 & v1 & v2 & v3 & Hs & _).
  pose proof (quartet_ref_letters maps _ Hm Hg _ _ _ _ Hs) as HQ. rewrite octets_sextets in HQ by done.
  pose proof (strip_letters maps _ 4 [] Hm Hg ltac:(lia) eq_refl) as HT.
  rewrite app_nil_r in HT. cbn [take sextets] in HT. fold (sextets (group24 a b c)) in HT.
  destruct l as [|x l].
  - rewrite app_nil_r, decode_ref_short by done. unfold tail_ref. rewrite HT, Hs. cbn [map].
    by rewrite HQ.
  - rewrite Hs. cbn [map app]. assert (Hne : b64_text maps (x :: l) <> []).
    { intros He. pose proof (b64_text_length maps (x :: l)) as Hl. rewrite He, len_cons in Hl.
      change (len []) with 0 in Hl. pose proof (len_nonneg l). dlia. }
    destruct (b64_text maps (x :: l)) as [|y r]; [done|]. by rewrite decode_ref_cons, HQ.
Qed.

Lemma decode_ref_text maps va l :
  maps_ok maps -> value maps 65 = Some va -> Bytes l -> decode_ref maps (b64_text maps l) = Some l.
Proof.
  intros Hm HA. assert (Hva := value_range maps 65 va (proj1 Hm) HA).
  induction (Nat.lt_wf_0_projected (@length Z) l) as [l _ IH]. intros Hb.
  destruct l as [|a [|b [|c l]]]; repeat (apply Forall_cons in Hb as [? Hb]).
  - done.
  - rewrite decode_ref_short by done. by eapply (short_group maps a a).
  - rewrite decode_ref_short by done. by eapply (short_group maps a b).
  - rewrite decode_ref_full by done. rewrite IH by (done || (simpl; lia)). done.
Qed.

Lemma alphabet_maps_ok src : alphabet_ok src -> maps_ok (base64_init_maps src).
Proof.
  intros Hs. split; [apply init_maps_values|]. intros v Hv.
  destruct (init_maps_spec src Hs) as [Hl _]. destruct (Hl v Hv) as [He ?]. split; [done|].
  rewrite He. destruct Hs as (_ & Hlen & _ & Heq). intros Hc. apply Heq. rewrite <- Hc.
  eapply list_elem_of_lookup_2, get_lookup. len_lia.
Qed.

#[export] Instance alphabet_ok_dec src : Decision (alphabet_ok src).
Proof. unfold alphabet_ok. apply _. Defined.

(** ** The text of RFC 4648 *)

Abbreviation text64 := (b64_text base64_maps_rfc4648).

Lemma rfc4648_maps : base64_maps_rfc4648 = base64_init_maps alphabet_rfc4648.
Proof. vm_compute. reflexivity. Qed.

Lemma rfc4648_letter v : 0 <= v < 64 -> letter base64_maps_rfc4648 v ∈ alphabet_rfc4648.
Proof.
  intros Hv. unfold letter. change (encode_map base64_maps_rfc4648) with alphabet_rfc4648.
  eapply list_elem_of_lookup_2, get_lookup. change (len alphabet_rfc4648) with 64. lia.
Qed.

(** Its characters: letters and the padding. *)
Lemma text64_chars l : Bytes l -> Forall (fun c => c ∈ eq_char :: alphabet_rfc4648) (text64 l).
Proof.
  assert (Hg : forall k g, 0 <= g < 2 ^ 24 ->
    Forall (fun c => c ∈ eq_char :: alphabet_rfc4648) (map (letter base64_maps_rfc4648) (take k (sextets g)))).
  { intros k g Hg. apply Forall_map, Forall_take. eapply Forall_impl; [by apply sextets_range|].
    intros v Hv. apply list_elem_of_further. by apply rfc4648_letter. }
  assert (He : eq_char ∈ eq_char :: alphabet_rfc4648) by apply list_elem_of_here.
  induction (Nat.lt_wf_0_projected (@length Z) l) as [l _ IH]. intros Hb.
  destruct l as [|a [|b [|c l]]]; repeat (apply Forall_cons in Hb as [? Hb]); cbn [b64_text].
  - constructor.
  - apply Forall_app. split; [apply Hg; by apply group24_range|by repeat constructor].
  - apply Forall_app. split; [apply Hg; by apply group24_range|by repeat constructor].
  - apply Forall_app. split; [apply (Hg 4%nat); by apply group24_range|]. apply IH; [simpl; lia|done].
Qed.

Lemma decode_text64 dest l e :
  Bytes l -> len l < 2 ^ 61 -> (len l + 2) / 3 * 3 <= len dest ->
  base64_decode dest (text64 l) e = Some (len l, l ++ repeat 0 (length dest - length l), e).
Proof.
  intros Hb Hl Hd. pose proof (b64_text_length base64_maps_rfc4648 l) as Ht. pose proof (len_nonneg l).
  pose proof (decode_spec base64_maps_rfc4648 dest (text64 l) e) as HD. unfold base64_decode.
  assert (values_ok base64_maps_rfc4648) as Hv by (rewrite rfc4648_maps; apply init_maps_values).
  assert (base64_decoded_length (len (text64 l)) = (len l + 2) / 3 * 3) as E.
  { unfold base64_decoded_length. rewrite Ht, (wrap_id 64 (_ + 3)), wrap_id by (unfold in_width; dlia). dlia. }
  rewrite E in HD. destruct (Z.ltb_spec (len dest) ((len l + 2) / 3 * 3)); [lia|].
  rewrite (decode_ref_text base64_maps_rfc4648 0) in HD; [|rewrite rfc4648_maps; by apply alphabet_maps_ok; by_compute|done|done].
  apply HD; [done|]. rewrite Ht. dlia.
Qed.

(** C26: encoding and then decoding with the maps of any alphabet of 64 distinct
    characters that has the letter [A] and not the padding character gives the
    data back, for buffers of the advertised lengths. *)
Theorem base64_round_trip (alphabet dest1 dest2 src : list Z) (e1 e2 : errno)
    (Ha : alphabet_ok alphabet) (HA : 65 ∈ alphabet) (Hsrc : Bytes src) (Hl : len src < 2 ^ 61)
    (Hd1 : base64_encoded_length (len src) <= len dest1)
    (Hd2 : base64_decoded_length (base64_encoded_length (len src)) <= len dest2) :
  let maps := base64_init_maps alphabet in
  exists n out,
    base64_encode_using_maps maps dest1 src e1 = Some (n, out, e1) /\
    n = base64_encoded_length (len src) /\
    base64_decode_using_maps maps dest2 (take (Z.to_nat n) out) e2 =
      Some (len src, src ++ repeat 0 (length dest2 - length src), e2).
Proof.
  intros maps. pose proof (b64_text_length maps src) as Ht. pose proof (len_nonneg src).
  assert (Hel : base64_encoded_length (len src) = len (b64_text maps src)).
  { unfold base64_encoded_length. rewrite Ht, (wrap_id 64 (len src + 2)) by (unfold in_width; lia).
    apply wrap_id. unfold in_width. dlia. }
  rewrite Hel in *.
  eexists _, _. split; [|split; [reflexivity|]].
  - rewrite encode_spec by (done || lia).
    destruct (Z.ltb_spec (len dest1) (len (b64_text maps src))); [lia|done].
  - replace (Z.to_nat (len (b64_text maps src))) with (length (b64_text maps src)) by len_lia.
    rewrite take_app_length.
    pose proof (decode_spec maps dest2 (b64_text maps src) e2 (init_maps_values alphabet)) as HD.
    destruct (Z.ltb_spec (len dest2) (base64_decoded_length (len (b64_text maps src)))); [lia|].
    destruct (value maps 65) as [va|] eqn:HvA.
    2: { exfalso. by eapply (proj2 (init_maps_spec alphabet Ha)) in HvA. }
    rewrite (decode_ref_text maps va) in HD by (done || by apply alphabet_maps_ok).
    apply HD. rewrite Ht. dlia.
Qed.

Lemma base64_round_trip_witness :
  exists n out,
    base64_encode_using_maps (base64_init_maps alphabet_rfc4648) (repeat 7 9) (cs "Hello") E0
      = Some (n, out, E0) /\ n = 8 /\
    base64_decode_using_maps (base64_init_maps alphabet_rfc4648) (repeat 7 6) (take (Z.to_nat n) out) E0
      = Some (5, cs "Hello" ++ [0], E0).
Proof.
  apply (base64_round_trip alphabet_rfc4648 (repeat 7 9) (repeat 7 6) (cs "Hello") E0 E0);
    [by_compute|by_compute|by_compute|done..].
Defined.

(** A partial group is decoded by filling it up with the letter [A]: with an
    alphabet that lacks [A], the encoding of any data whose length is not a
    multiple of 3 is rejected by the decoder of the same alphabet. *)
Theorem base64_short_group_needs_A (alphabet dest src : list Z) (e : errno)
    (Ha : alphabet_ok alphabet) (HA : 65 ∉ alphabet) (Hsrc : Bytes src) (Hl : len src < 2 ^ 61)
    (Hr : len src mod 3 <> 0)
    (Hd : base64_decoded_length (base64_encoded_length (len src)) <= len dest) :
  let maps := base64_init_maps alphabet in
  exists dest' e', base64_decode_using_maps maps dest (b64_text maps src) e = Some (-1, dest', e').
Proof.
  intros maps. pose proof (b64_text_length maps src) as Ht. pose proof (len_nonneg src).
  assert (Hel : base64_encoded_length (len src) = len (b64_text maps src)).
  { unfold base64_encoded_length. rewrite Ht, (wrap_id 64 (len src + 2)) by (unfold in_width; lia).
    apply wrap_id. unfold in_width. dlia. }
  assert (Hm := alphabet_maps_ok _ Ha). fold maps in Hm.
  assert (HvA : value maps 65 = None) by by apply (proj2 (init_maps_spec alphabet Ha)).
  assert (decode_ref maps (b64_text maps src) = None) as Hnone.
  { clear Hd Hel Ht Hl H. revert Hsrc Hr.
    induction (Nat.lt_wf_0_projected (@length Z) src) as [l _ IH]. intros Hb Hr.
    destruct l as [|a [|b [|c l]]]; repeat (apply Forall_cons in Hb as [? Hb]); [done|..].
    - rewrite decode_ref_short by done. unfold tail_ref. cbn [b64_text].
      rewrite (strip_letters maps (group24 a 0 0) 2) by (done || lia || by apply group24_range).
      cbn [take map sextets]. unfold quartet_ref. rewrite HvA.
      by repeat (destruct (value maps _); cbn [mbind option_bind]; try done).
    - rewrite decode_ref_short by done. unfold tail_ref. cbn [b64_text].
      rewrite (strip_letters maps (group24 a b 0) 3) by (done || lia || by apply group24_range).
      cbn [take map sextets]. unfold quartet_ref. rewrite HvA.
      by repeat (destruct (value maps _); cbn [mbind option_bind]; try done).
    - rewrite decode_ref_full by done. rewrite IH; [done|simpl; lia|done|].
      rewrite !len_cons in Hr. dlia. }
  pose proof (decode_spec maps dest (b64_text maps src) e (init_maps_values alphabet)
    ltac:(rewrite Ht; dlia)) as HD.
  rewrite Hel in Hd. destruct (Z.ltb_spec (len dest) (base64_decoded_length (len (b64_text maps src))));
    [lia|]. rewrite Hnone in HD. destruct HD as (dest' & e' & HD & _). by exists dest', e'.
Qed.

Lemma base64_short_group_needs_A_witness :
  exists dest' e', base64_decode_using_maps (base64_init_maps (cs "BCDEFGHIJKLMNOPQRSTUVWXYZabcdefghijklmnopqrstuvwxyz0123456789+/-"))
    (repeat 7 6) (b64_text (base64_init_maps (cs "BCDEFGHIJKLMNOPQRSTUVWXYZabcdefghijklmnopqrstuvwxyz0123456789+/-"))
      (cs "Hello")) E0 = Some (-1, dest', e').
Proof.
  apply (base64_short_group_needs_A (cs "BCDEFGHIJKLMNOPQRSTUVWXYZabcdefghijklmnopqrstuvwxyz0123456789+/-")
    (repeat 7 6) (cs "Hello") E0); [by_compute|by_compute|by_compute|done..].
Defined.

(** The table of RFC 4648 is what [base64_init_maps] builds from its
    alphabet, and [base64_char_in_alphabet] decides membership. *)
Theorem base64_maps_rfc4648_init (c : Z) (Hc : is_byte c) :
  base64_maps_rfc4648 = base64_init_maps alphabet_rfc4648 /\
  (base64_char_in_alphabet base64_maps_rfc4648 c = true <-> c ∈ alphabet_rfc4648).
Proof.
  split; [vm_compute; reflexivity|].
  revert c Hc. enough (forall c, is_byte c ->
    Bool.eqb (base64_char_in_alphabet base64_maps_rfc4648 c) (bool_decide (c ∈ alphabet_rfc4648)) = true)
    as H. { intros c Hc. specialize (H c Hc). apply eqb_prop in H. rewrite H. apply bool_decide_eq_true. }
  apply byte_forall. vm_compute. reflexivity.
Qed.

Lemma base64_maps_rfc4648_init_witness :
  base64_maps_rfc4648 = base64_init_maps alphabet_rfc4648 /\
  (base64_char_in_alphabet base64_maps_rfc4648 43 = true <-> 43 ∈ alphabet_rfc4648).
Proof. by apply (base64_maps_rfc4648_init 43). Defined.
