(* ===== verification/AesSpec.v ===== *)
(** * The AES standard (FIPS 197), 256-bit keys

    The reference that [aes.c] implements: arithmetic in GF(2^8) (section 4),
    the S-box as an inverse followed by an affine map (5.1.1), the round
    transformations on the state [s[r,c]] = byte [r + 4c] (5.1), the key
    expansion (5.2) and the cipher (5.1). *)
From S2P Require Import Prelude.

Module Fips.

(** ** GF(2^8) modulo x^8 + x^4 + x^3 + x + 1 *)

Definition times_x (a : Z) : Z := if a <? 128 then 2 * a else (2 * a) .^ 0x11b.

Fixpoint mul_bits (n : nat) (a b : Z) : Z :=
  match n with
  | O => 0
  | S n => (if Z.odd b then a else 0) .^ mul_bits n (times_x a) (b / 2)
  end.

Definition mul (a b : Z) : Z := mul_bits 8 a b.

(** The inverse, 0 for 0: [b^254]. *)
Fixpoint pow (b : Z) (n : nat) : Z := match n with O => 1 | S n => mul b (pow b n) end.
Definition inv (b : Z) : Z :=
  let b2 := mul b b in let b4 := mul b2 b2 in let b8 := mul b4 b4 in
  let b16 := mul b8 b8 in let b32 := mul b16 b16 in let b64 := mul b32 b32 in
  mul (mul b64 b64) (mul b64 (mul b32 (mul b16 (mul b8 (mul b4 b2))))).

Definition rotl (k b : Z) : Z := u8 (b .<< k) .| (b .>> (8 - k)).
Definition affine (b : Z) : Z := b .^ rotl 1 b .^ rotl 2 b .^ rotl 3 b .^ rotl 4 b .^ 0x63.
Definition sub_byte (b : Z) : Z := affine (inv b).

(** ** Round transformations *)

Definition indices : list Z := map Z.of_nat (List.seq 0 16).

Definition SubBytes (s : list Z) : list Z := map sub_byte s.

Definition ShiftRows (s : list Z) : list Z :=
  map (fun k => let r := k mod 4 in let c := k / 4 in s.[r + 4 * ((c + r) mod 4)]) indices.

(** Row [r] of the product with the circulant matrix of [{02} {03} {01} {01}]. *)
Definition MixColumns (s : list Z) : list Z :=
  map (fun k => let r := k mod 4 in let c := k / 4 in
    mul s.[(r + 0) mod 4 + 4 * c] 0x02 .^ mul s.[(r + 1) mod 4 + 4 * c] 0x03
    .^ mul s.[(r + 2) mod 4 + 4 * c] 0x01 .^ mul s.[(r + 3) mod 4 + 4 * c] 0x01) indices.

Definition AddRoundKey (s w : list Z) : list Z := zip_with Z.lxor s w.

(** ** Key expansion: words are lists of four bytes *)

Definition SubWord (w : list Z) : list Z := map sub_byte w.
Definition RotWord (w : list Z) : list Z := drop 1 w ++ take 1 w.

(** [x^(j-1)] in the first byte. *)
Definition rcon (j : Z) : list Z := [Nat.iter (Z.to_nat (j - 1)) times_x 1; 0; 0; 0].

Definition xor_word (a b : list Z) : list Z := zip_with Z.lxor a b.

Definition next_word (w : list (list Z)) (i : Z) : list Z :=
  let prev := nth (Z.to_nat (i - 1)) w [] in
  let temp :=
    if i mod 8 =? 0 then xor_word (SubWord (RotWord prev)) (rcon (i / 8))
    else if i mod 8 =? 4 then SubWord prev
    else prev in
  xor_word (nth (Z.to_nat (i - 8)) w []) temp.

Fixpoint extend (n : nat) (w : list (list Z)) : list (list Z) :=
  match n with O => w | S n => extend n (w ++ [next_word w (len w)]) end.

Fixpoint chop4 (n : nat) (l : list Z) : list (list Z) :=
  match n with O => [] | S n => take 4 l :: chop4 n (drop 4 l) end.

Definition key_words (key : list Z) : list (list Z) := extend 52 (chop4 8 key).
Definition key_expansion (key : list Z) : list Z := concat (key_words key).

(** The four words of round [r]. *)
Definition round_key (w : list Z) (r : nat) : list Z := take 16 (drop (16 * r) w).

Definition round (w : list Z) (s : list Z) (r : nat) : list Z :=
  AddRoundKey (MixColumns (ShiftRows (SubBytes s))) (round_key w r).

Definition encrypt (w block : list Z) : list Z :=
  let s := AddRoundKey block (round_key w 0) in
  let s := foldl (round w) s (List.seq 1 13) in
  AddRoundKey (ShiftRows (SubBytes s)) (round_key w 14).

Definition aes256 (key block : list Z) : list Z := encrypt (key_expansion key) block.

(** ** Cipher block chaining (SP 800-38A), over whole blocks *)

Fixpoint cbc (w iv : list Z) (blocks : list (list Z)) : list (list Z) :=
  match blocks with
  | [] => []
  | p :: ps => let c := encrypt w (zip_with Z.lxor p iv) in c :: cbc w c ps
  end.

End Fips.

(** The example vector of FIPS 197, appendix C.3. *)
Example fips_197_c3 :
  Fips.aes256 (map Z.of_nat (List.seq 0 32)) (map (fun i => 0x11 * Z.of_nat i) (List.seq 0 16)) =
  [0x8e; 0xa2; 0xb7; 0xca; 0x51; 0x67; 0x45; 0xbf; 0xea; 0xfc; 0x49; 0x90; 0x4b; 0x49; 0x60; 0x89].
Proof. vm_compute. reflexivity. Qed.
