(* ===== verification/Aes.v ===== *)
(** * AES-256: [aes.c], [include/aes.h]

    The configuration of [include/aes.h] ([AES256 1]: [Nk] = 8, [Nr] = 14) with
    the CBC mode it enables and the CTR mode it leaves out.  A [state_t] is the
    sixteen bytes of the buffer it is cast from: [state[i][j]] is byte
    [4 * i + j].  The two unbounded round loops carry fuel; [None] is exhausted
    fuel or an access outside a buffer. *)
From S2P Require Import Prelude AesSpec.

Definition Nb : Z := 4.
Definition Nk : Z := 8.
Definition Nr : Z := 14.
Definition AES_BLOCKLEN : Z := 16.
Definition AES_KEYLEN : Z := 32.
Definition AES_keyExpSize : Z := 240.

(** ** Tables *)

Definition sbox : list Z :=
  [ 0x63; 0x7c; 0x77; 0x7b; 0xf2; 0x6b; 0x6f; 0xc5; 0x30; 0x01; 0x67; 0x2b; 0xfe; 0xd7; 0xab; 0x76;
    0xca; 0x82; 0xc9; 0x7d; 0xfa; 0x59; 0x47; 0xf0; 0xad; 0xd4; 0xa2; 0xaf; 0x9c; 0xa4; 0x72; 0xc0;
    0xb7; 0xfd; 0x93; 0x26; 0x36; 0x3f; 0xf7; 0xcc; 0x34; 0xa5; 0xe5; 0xf1; 0x71; 0xd8; 0x31; 0x15;
    0x04; 0xc7; 0x23; 0xc3; 0x18; 0x96; 0x05; 0x9a; 0x07; 0x12; 0x80; 0xe2; 0xeb; 0x27; 0xb2; 0x75;
    0x09; 0x83; 0x2c; 0x1a; 0x1b; 0x6e; 0x5a; 0xa0; 0x52; 0x3b; 0xd6; 0xb3; 0x29; 0xe3; 0x2f; 0x84;
    0x53; 0xd1; 0x00; 0xed; 0x20; 0xfc; 0xb1; 0x5b; 0x6a; 0xcb; 0xbe; 0x39; 0x4a; 0x4c; 0x58; 0xcf;
    0xd0; 0xef; 0xaa; 0xfb; 0x43; 0x4d; 0x33; 0x85; 0x45; 0xf9; 0x02; 0x7f; 0x50; 0x3c; 0x9f; 0xa8;
    0x51; 0xa3; 0x40; 0x8f; 0x92; 0x9d; 0x38; 0xf5; 0xbc; 0xb6; 0xda; 0x21; 0x10; 0xff; 0xf3; 0xd2;
    0xcd; 0x0c; 0x13; 0xec; 0x5f; 0x97; 0x44; 0x17; 0xc4; 0xa7; 0x7e; 0x3d; 0x64; 0x5d; 0x19; 0x73;
    0x60; 0x81; 0x4f; 0xdc; 0x22; 0x2a; 0x90; 0x88; 0x46; 0xee; 0xb8; 0x14; 0xde; 0x5e; 0x0b; 0xdb;
    0xe0; 0x32; 0x3a; 0x0a; 0x49; 0x06; 0x24; 0x5c; 0xc2; 0xd3; 0xac; 0x62; 0x91; 0x95; 0xe4; 0x79;
    0xe7; 0xc8; 0x37; 0x6d; 0x8d; 0xd5; 0x4e; 0xa9; 0x6c; 0x56; 0xf4; 0xea; 0x65; 0x7a; 0xae; 0x08;
    0xba; 0x78; 0x25; 0x2e; 0x1c; 0xa6; 0xb4; 0xc6; 0xe8; 0xdd; 0x74; 0x1f; 0x4b; 0xbd; 0x8b; 0x8a;
    0x70; 0x3e; 0xb5; 0x66; 0x48; 0x03; 0xf6; 0x0e; 0x61; 0x35; 0x57; 0xb9; 0x86; 0xc1; 0x1d; 0x9e;
    0xe1; 0xf8; 0x98; 0x11; 0x69; 0xd9; 0x8e; 0x94; 0x9b; 0x1e; 0x87; 0xe9; 0xce; 0x55; 0x28; 0xdf;
    0x8c; 0xa1; 0x89; 0x0d; 0xbf; 0xe6; 0x42; 0x68; 0x41; 0x99; 0x2d; 0x0f; 0xb0; 0x54; 0xbb; 0x16 ].

Definition rsbox : list Z :=
  [ 0x52; 0x09; 0x6a; 0xd5; 0x30; 0x36; 0xa5; 0x38; 0xbf; 0x40; 0xa3; 0x9e; 0x81; 0xf3; 0xd7; 0xfb;
    0x7c; 0xe3; 0x39; 0x82; 0x9b; 0x2f; 0xff; 0x87; 0x34; 0x8e; 0x43; 0x44; 0xc4; 0xde; 0xe9; 0xcb;
    0x54; 0x7b; 0x94; 0x32; 0xa6; 0xc2; 0x23; 0x3d; 0xee; 0x4c; 0x95; 0x0b; 0x42; 0xfa; 0xc3; 0x4e;
    0x08; 0x2e; 0xa1; 0x66; 0x28; 0xd9; 0x24; 0xb2; 0x76; 0x5b; 0xa2; 0x49; 0x6d; 0x8b; 0xd1; 0x25;
    0x72; 0xf8; 0xf6; 0x64; 0x86; 0x68; 0x98; 0x16; 0xd4; 0xa4; 0x5c; 0xcc; 0x5d; 0x65; 0xb6; 0x92;
    0x6c; 0x70; 0x48; 0x50; 0xfd; 0xed; 0xb9; 0xda; 0x5e; 0x15; 0x46; 0x57; 0xa7; 0x8d; 0x9d; 0x84;
    0x90; 0xd8; 0xab; 0x00; 0x8c; 0xbc; 0xd3; 0x0a; 0xf7; 0xe4; 0x58; 0x05; 0xb8; 0xb3; 0x45; 0x06;
    0xd0; 0x2c; 0x1e; 0x8f; 0xca; 0x3f; 0x0f; 0x02; 0xc1; 0xaf; 0xbd; 0x03; 0x01; 0x13; 0x8a; 0x6b;
    0x3a; 0x91; 0x11; 0x41; 0x4f; 0x67; 0xdc; 0xea; 0x97; 0xf2; 0xcf; 0xce; 0xf0; 0xb4; 0xe6; 0x73;
    0x96; 0xac; 0x74; 0x22; 0xe7; 0xad; 0x35; 0x85; 0xe2; 0xf9; 0x37; 0xe8; 0x1c; 0x75; 0xdf; 0x6e;
    0x47; 0xf1; 0x1a; 0x71; 0x1d; 0x29; 0xc5; 0x89; 0x6f; 0xb7; 0x62; 0x0e; 0xaa; 0x18; 0xbe; 0x1b;
    0xfc; 0x56; 0x3e; 0x4b; 0xc6; 0xd2; 0x79; 0x20; 0x9a; 0xdb; 0xc0; 0xfe; 0x78; 0xcd; 0x5a; 0xf4;
    0x1f; 0xdd; 0xa8; 0x33; 0x88; 0x07; 0xc7; 0x31; 0xb1; 0x12; 0x10; 0x59; 0x27; 0x80; 0xec; 0x5f;
    0x60; 0x51; 0x7f; 0xa9; 0x19; 0xb5; 0x4a; 0x0d; 0x2d; 0xe5; 0x7a; 0x9f; 0x93; 0xc9; 0x9c; 0xef;
    0xa0; 0xe0; 0x3b; 0x4d; 0xae; 0x2a; 0xf5; 0xb0; 0xc8; 0xeb; 0xbb; 0x3c; 0x83; 0x53; 0x99; 0x61;
    0x17; 0x2b; 0x04; 0x7e; 0xba; 0x77; 0xd6; 0x26; 0xe1; 0x69; 0x14; 0x63; 0x55; 0x21; 0x0c; 0x7d ].

Definition Rcon : list Z :=
  [ 0x8d; 0x01; 0x02; 0x04; 0x08; 0x10; 0x20; 0x40; 0x80; 0x1b; 0x36 ].

Definition getSBoxValue (num : Z) : Z := sbox.[num].
Definition getSBoxInvert (num : Z) : Z := rsbox.[num].

(** ** The state *)

(** [a[i] = v] *)
Definition upd (l : list Z) (i v : Z) : list Z := <[Z.to_nat i := v]> l.

(** [state[i][j]], read and assigned. *)
Definition at_ (state : list Z) (i j : Z) : Z := state.[4 * i + j].
Definition set_ (state : list Z) (i j v : Z) : list Z := upd state (4 * i + j) v.

(** [for (i = 0; i < 4; ++i)], and two of them nested. *)
Definition for4 (body : list Z -> Z -> list Z) (state : list Z) : list Z :=
  foldl body state [0; 1; 2; 3].
Definition for44 (body : list Z -> Z -> Z -> list Z) : list Z -> list Z :=
  for4 (fun state i => for4 (fun state j => body state i j) state).

(** ** Key expansion *)

Definition key_copy (Key RoundKey : list Z) (i : Z) : list Z :=
  let RoundKey := upd RoundKey (i * 4 + 0) Key.[i * 4 + 0] in
  let RoundKey := upd RoundKey (i * 4 + 1) Key.[i * 4 + 1] in
  let RoundKey := upd RoundKey (i * 4 + 2) Key.[i * 4 + 2] in
  upd RoundKey (i * 4 + 3) Key.[i * 4 + 3].

Definition SubWord (tempa : list Z) : list Z :=
  [getSBoxValue tempa.[0]; getSBoxValue tempa.[1]; getSBoxValue tempa.[2]; getSBoxValue tempa.[3]].

Definition RotWord (tempa : list Z) : list Z := [tempa.[1]; tempa.[2]; tempa.[3]; tempa.[0]].

(** The body of the second loop. *)
Definition key_step (RoundKey : list Z) (i : Z) : list Z :=
  let k := (i - 1) * 4 in
  let tempa := [RoundKey.[k + 0]; RoundKey.[k + 1]; RoundKey.[k + 2]; RoundKey.[k + 3]] in
  let tempa :=
    if i mod Nk =? 0 then
      let tempa := SubWord (RotWord tempa) in
      upd tempa 0 (tempa.[0] .^ Rcon.[i / Nk])
    else tempa in
  let tempa := if i mod Nk =? 4 then SubWord tempa else tempa in
  let j := i * 4 in
  let k := (i - Nk) * 4 in
  let RoundKey := upd RoundKey (j + 0) (RoundKey.[k + 0] .^ tempa.[0]) in
  let RoundKey := upd RoundKey (j + 1) (RoundKey.[k + 1] .^ tempa.[1]) in
  let RoundKey := upd RoundKey (j + 2) (RoundKey.[k + 2] .^ tempa.[2]) in
  upd RoundKey (j + 3) (RoundKey.[k + 3] .^ tempa.[3]).

(** The integers [a .. b-1]. *)
Definition range (a b : Z) : list Z :=
  map (fun i => a + Z.of_nat i) (List.seq 0 (Z.to_nat (b - a))).

Definition KeyExpansion (RoundKey Key : list Z) : list Z :=
  let RoundKey := foldl (key_copy Key) RoundKey (range 0 Nk) in
  foldl key_step RoundKey (range Nk (Nb * (Nr + 1))).

(** ** The context *)

Record AES_ctx := Ctx {
  RoundKey : list Z;   (* uint8_t[AES_keyExpSize] *)
  Iv : list Z          (* uint8_t[AES_BLOCKLEN] *)
}.

Definition AES_init_ctx (ctx : AES_ctx) (key : list Z) : AES_ctx :=
  Ctx (KeyExpansion (RoundKey ctx) key) (Iv ctx).

Definition AES_init_ctx_iv (ctx : AES_ctx) (key iv : list Z) : AES_ctx :=
  Ctx (KeyExpansion (RoundKey ctx) key) (splice 0 (take 16 iv) (Iv ctx)).

Definition AES_ctx_set_iv (ctx : AES_ctx) (iv : list Z) : AES_ctx :=
  Ctx (RoundKey ctx) (splice 0 (take 16 iv) (Iv ctx)).

(** ** Round operations *)

Definition AddRoundKey (round : Z) (state RoundKey : list Z) : list Z :=
  for44 (fun state i j =>
    set_ state i j (at_ state i j .^ RoundKey.[round * Nb * 4 + i * Nb + j])) state.

Definition SubBytes (state : list Z) : list Z :=
  for44 (fun state i j => set_ state j i (getSBoxValue (at_ state j i))) state.

Definition ShiftRows (state : list Z) : list Z :=
  let temp := at_ state 0 1 in
  let state := set_ state 0 1 (at_ state 1 1) in
  let state := set_ state 1 1 (at_ state 2 1) in
  let state := set_ state 2 1 (at_ state 3 1) in
  let state := set_ state 3 1 temp in
  let temp := at_ state 0 2 in
  let state := set_ state 0 2 (at_ state 2 2) in
  let state := set_ state 2 2 temp in
  let temp := at_ state 1 2 in
  let state := set_ state 1 2 (at_ state 3 2) in
  let state := set_ state 3 2 temp in
  let temp := at_ state 0 3 in
  let state := set_ state 0 3 (at_ state 3 3) in
  let state := set_ state 3 3 (at_ state 2 3) in
  let state := set_ state 2 3 (at_ state 1 3) in
  set_ state 1 3 temp.

Definition xtime (x : Z) : Z := u8 ((x .<< 1) .^ (((x .>> 7) .& 1) * 0x1b)).

Definition MixColumns (state : list Z) : list Z :=
  for4 (fun state i =>
    let t := at_ state i 0 in
    let Tmp := at_ state i 0 .^ at_ state i 1 .^ at_ state i 2 .^ at_ state i 3 in
    let Tm := xtime (at_ state i 0 .^ at_ state i 1) in
    let state := set_ state i 0 (at_ state i 0 .^ (Tm .^ Tmp)) in
    let Tm := xtime (at_ state i 1 .^ at_ state i 2) in
    let state := set_ state i 1 (at_ state i 1 .^ (Tm .^ Tmp)) in
    let Tm := xtime (at_ state i 2 .^ at_ state i 3) in
    let state := set_ state i 2 (at_ state i 2 .^ (Tm .^ Tmp)) in
    let Tm := xtime (at_ state i 3 .^ t) in
    set_ state i 3 (at_ state i 3 .^ (Tm .^ Tmp))) state.

Definition Multiply (x y : Z) : Z :=
  (y .& 1) * x
  .^ ((y .>> 1) .& 1) * xtime x
  .^ ((y .>> 2) .& 1) * xtime (xtime x)
  .^ ((y .>> 3) .& 1) * xtime (xtime (xtime x))
  .^ ((y .>> 4) .& 1) * xtime (xtime (xtime (xtime x))).

Definition InvMixColumns (state : list Z) : list Z :=
  for4 (fun state i =>
    let a := at_ state i 0 in
    let b := at_ state i 1 in
    let c := at_ state i 2 in
    let d := at_ state i 3 in
    let state := set_ state i 0 (u8 (Multiply a 0x0e .^ Multiply b 0x0b .^ Multiply c 0x0d .^ Multiply d 0x09)) in
    let state := set_ state i 1 (u8 (Multiply a 0x09 .^ Multiply b 0x0e .^ Multiply c 0x0b .^ Multiply d 0x0d)) in
    let state := set_ state i 2 (u8 (Multiply a 0x0d .^ Multiply b 0x09 .^ Multiply c 0x0e .^ Multiply d 0x0b)) in
    set_ state i 3 (u8 (Multiply a 0x0b .^ Multiply b 0x0d .^ Multiply c 0x09 .^ Multiply d 0x0e))) state.

Definition InvSubBytes (state : list Z) : list Z :=
  for44 (fun state i j => set_ state j i (getSBoxInvert (at_ state j i))) state.

Definition InvShiftRows (state : list Z) : list Z :=
  let temp := at_ state 3 1 in
  let state := set_ state 3 1 (at_ state 2 1) in
  let state := set_ state 2 1 (at_ state 1 1) in
  let state := set_ state 1 1 (at_ state 0 1) in
  let state := set_ state 0 1 temp in
  let temp := at_ state 0 2 in
  let state := set_ state 0 2 (at_ state 2 2) in
  let state := set_ state 2 2 temp in
  let temp := at_ state 1 2 in
  let state := set_ state 1 2 (at_ state 3 2) in
  let state := set_ state 3 2 temp in
  let temp := at_ state 0 3 in
  let state := set_ state 0 3 (at_ state 1 3) in
  let state := set_ state 1 3 (at_ state 2 3) in
  let state := set_ state 2 3 (at_ state 3 3) in
  set_ state 3 3 temp.

(** ** The cipher; the round loops only end at their [break] *)

Fixpoint cipher_loop (fuel : nat) (round : Z) (state RoundKey : list Z) : option (list Z) :=
  match fuel with
  | O => None
  | S fuel =>
      let state := SubBytes state in
      let state := ShiftRows state in
      if round =? Nr then Some state
      else
        let state := MixColumns state in
        let state := AddRoundKey round state RoundKey in
        cipher_loop fuel (u8 (round + 1)) state RoundKey
  end.

Definition Cipher (state RoundKey : list Z) : option (list Z) :=
  let state := AddRoundKey 0 state RoundKey in
  state ← cipher_loop 256 1 state RoundKey;
  Some (AddRoundKey Nr state RoundKey).

Fixpoint inv_cipher_loop (fuel : nat) (round : Z) (state RoundKey : list Z) : option (list Z) :=
  match fuel with
  | O => None
  | S fuel =>
      let state := InvShiftRows state in
      let state := InvSubBytes state in
      let state := AddRoundKey round state RoundKey in
      if round =? 0 then Some state
      else inv_cipher_loop fuel (u8 (round - 1)) (InvMixColumns state) RoundKey
  end.

Definition InvCipher (state RoundKey : list Z) : option (list Z) :=
  let state := AddRoundKey Nr state RoundKey in
  inv_cipher_loop 256 (Nr - 1) state RoundKey.

(** ** CBC *)

(** [n] bytes at [off] of a buffer, when they are inside it. *)
Definition load (off n : Z) (buf : list Z) : option (list Z) :=
  if (0 <=? off) && (off + n <=? len buf) then Some (slice off n buf) else None.

(** The local pointer [Iv] of [AES_CBC_encrypt_buffer]: into the context, or at
    an offset of the caller's buffer. *)
Inductive iv_ptr := CtxIv | BufAt (off : Z).

Definition load_iv (Iv_ : iv_ptr) (ctx : AES_ctx) (buf : list Z) : option (list Z) :=
  match Iv_ with CtxIv => load 0 AES_BLOCKLEN (Iv ctx) | BufAt off => load off AES_BLOCKLEN buf end.

(** Sixteen bytes of a block and of an initialisation vector. *)
Definition XorWithIv (block Iv_ : list Z) : list Z :=
  foldl (fun buf i => upd buf i (buf.[i] .^ Iv_.[i])) block (range 0 AES_BLOCKLEN).

Fixpoint cbc_encrypt_loop (fuel : nat) (ctx : AES_ctx) (buf : list Z) (i length_ : Z)
    (Iv_ : iv_ptr) : option (list Z * iv_ptr) :=
  match fuel with
  | O => None
  | S fuel =>
      if i <? length_ then
        iv ← load_iv Iv_ ctx buf;
        block ← load i AES_BLOCKLEN buf;
        block ← Cipher (XorWithIv block iv) (RoundKey ctx);
        buf ← put i block buf;
        cbc_encrypt_loop fuel ctx buf (i + AES_BLOCKLEN) length_ (BufAt i)
      else Some (buf, Iv_)
  end.

Definition AES_CBC_encrypt_buffer (ctx : AES_ctx) (buf : list Z) (length_ : Z)
    : option (AES_ctx * list Z) :=
  '(buf, Iv_) ← cbc_encrypt_loop (S (Z.to_nat length_)) ctx buf 0 length_ CtxIv;
  iv ← load_iv Iv_ ctx buf;
  Some (Ctx (RoundKey ctx) iv, buf).

Fixpoint cbc_decrypt_loop (fuel : nat) (ctx : AES_ctx) (buf : list Z) (i length_ : Z)
    : option (AES_ctx * list Z) :=
  match fuel with
  | O => None
  | S fuel =>
      if i <? length_ then
        storeNextIv ← load i AES_BLOCKLEN buf;
        block ← InvCipher storeNextIv (RoundKey ctx);
        buf ← put i (XorWithIv block (Iv ctx)) buf;
        cbc_decrypt_loop fuel (Ctx (RoundKey ctx) storeNextIv) buf (i + AES_BLOCKLEN) length_
      else Some (ctx, buf)
  end.

Definition AES_CBC_decrypt_buffer (ctx : AES_ctx) (buf : list Z) (length_ : Z)
    : option (AES_ctx * list Z) :=
  cbc_decrypt_loop (S (Z.to_nat length_)) ctx buf 0 length_.

(** ** ECB and CTR, the modes [include/aes.h] leaves out *)

Definition AES_ECB_encrypt (ctx : AES_ctx) (buf : list Z) : option (list Z) :=
  Cipher buf (RoundKey ctx).
Definition AES_ECB_decrypt (ctx : AES_ctx) (buf : list Z) : option (list Z) :=
  InvCipher buf (RoundKey ctx).

(** [for (bi = AES_BLOCKLEN - 1; bi >= 0; --bi)], from [bi = n - 1]. *)
Fixpoint ctr_increment (n : nat) (Iv_ : list Z) : list Z :=
  match n with
  | O => Iv_
  | S m =>
      let bi := Z.of_nat m in
      if Iv_.[bi] =? 255 then ctr_increment m (upd Iv_ bi 0)
      else upd Iv_ bi (u8 (Iv_.[bi] + 1))
  end.

(** [buffer] is the local key stream block, [bi] the position in it. *)
Fixpoint ctr_loop (fuel : nat) (ctx : AES_ctx) (buf : list Z) (i length_ : Z)
    (bi : Z) (buffer : list Z) : option (AES_ctx * list Z) :=
  match fuel with
  | O => None
  | S fuel =>
      if i <? length_ then
        '(ctx, bi, buffer) ←
          (if bi =? AES_BLOCKLEN then
             buffer ← Cipher (Iv ctx) (RoundKey ctx);
             Some (Ctx (RoundKey ctx) (ctr_increment 16 (Iv ctx)), 0, buffer)
           else Some (ctx, bi, buffer));
        x ← load i 1 buf;
        buf ← put i [x.[0] .^ buffer.[bi]] buf;
        ctr_loop fuel ctx buf (i + 1) length_ (bi + 1) buffer
      else Some (ctx, buf)
  end.

Definition AES_CTR_xcrypt_buffer (ctx : AES_ctx) (buf : list Z) (length_ : Z)
    : option (AES_ctx * list Z) :=
  ctr_loop (S (Z.to_nat length_)) ctx buf 0 length_ AES_BLOCKLEN [].

(** ** Blocks and round keys *)

(** Sixteen bytes. *)
Definition block16 (l : list Z) : Prop := Bytes l /\ length l = 16%nat.

(** An expanded key. *)
Definition round_keys (rk : list Z) : Prop := Bytes rk /\ length rk = 240%nat.

(** Names the sixteen bytes of a block. *)
Ltac destruct_block st H :=
  let Hl := fresh "Hl" in pose proof (proj2 H) as Hl;
  do 16 (destruct st as [|? st]; [discriminate Hl|]); destruct st; [|discriminate Hl]; clear Hl.

Lemma SubBytes_map st : block16 st -> SubBytes st = map getSBoxValue st.
Proof. intros H. destruct_block st H. reflexivity. Qed.

Lemma InvSubBytes_map st : block16 st -> InvSubBytes st = map getSBoxInvert st.
Proof. intros H. destruct_block st H. reflexivity. Qed.

Lemma ShiftRows_spec st : block16 st -> ShiftRows st = Fips.ShiftRows st.
Proof. intros H. destruct_block st H. reflexivity. Qed.

Lemma InvShiftRows_ShiftRows st : block16 st -> InvShiftRows (ShiftRows st) = st.
Proof. intros H. destruct_block st H. reflexivity. Qed.

Lemma AddRoundKey_spec r st rk :
  block16 st -> round_keys rk -> 0 <= r <= 14 ->
  AddRoundKey r st rk = Fips.AddRoundKey st (Fips.round_key rk (Z.to_nat r)).
Proof.
  intros H [_ Hk] Hr. unfold Fips.round_key. rewrite slice_map by lia.
  transitivity (zip_with Z.lxor st
    (map (fun k => rk.[r * 4 * 4 + k / 4 * 4 + k mod 4]) (map Z.of_nat (List.seq 0 16)))).
  - destruct_block st H. reflexivity.
  - unfold Fips.AddRoundKey. f_equal. rewrite map_map. apply map_ext_in. intros k Hk'%in_seq.
    f_equal. rewrite Nat2Z.inj_mul, Z2Nat.id by lia. dlia.
Qed.

Lemma map_block f st : (forall b, is_byte b -> is_byte (f b)) -> block16 st -> block16 (map f st).
Proof.
  intros Hf [Hb Hl]. split; [|by rewrite length_map]. apply Forall_map.
  eapply Forall_impl; [exact Hb|]. apply Hf.
Qed.

Lemma xor_block a b : block16 a -> block16 b -> block16 (zip_with Z.lxor a b).
Proof.
  intros [Ha Hla] [Hb Hlb]. split; [|rewrite length_zip_with; lia].
  apply Forall_forall. intros x (i & y & z & -> & Hy & Hz)%elem_of_lookup_zip_with.
  pose proof (Forall_lookup_1 _ _ _ _ Ha Hy). pose proof (Forall_lookup_1 _ _ _ _ Hb Hz).
  by apply in_width_lxor.
Qed.

Lemma xor_xor a b : length b = length a -> zip_with Z.lxor (zip_with Z.lxor a b) b = a.
Proof.
  revert b; induction a as [|x a IH]; intros [|y b] H; simpl in *; try done.
  rewrite IH by lia. f_equal. by rewrite Z.lxor_assoc, Z.lxor_nilpotent, Z.lxor_0_r.
Qed.

Lemma round_key_block rk r : round_keys rk -> (r <= 14)%nat -> block16 (Fips.round_key rk r).
Proof.
  intros [Hb Hl] Hr. unfold Fips.round_key. split; [by apply Forall_take, Forall_drop|].
  rewrite length_take, length_drop. lia.
Qed.

Lemma AddRoundKey_block r st rk :
  block16 st -> round_keys rk -> 0 <= r <= 14 -> block16 (AddRoundKey r st rk).
Proof.
  intros. rewrite AddRoundKey_spec by done. apply xor_block; [done|].
  apply round_key_block; [done|lia].
Qed.

Lemma AddRoundKey_AddRoundKey r st rk :
  block16 st -> round_keys rk -> 0 <= r <= 14 -> AddRoundKey r (AddRoundKey r st rk) rk = st.
Proof.
  intros. rewrite (AddRoundKey_spec r (AddRoundKey r st rk)) by auto using AddRoundKey_block.
  rewrite AddRoundKey_spec by done. apply xor_xor.
  destruct (round_key_block rk (Z.to_nat r)) as [_ ->]; [done|lia|by symmetry; apply H].
Qed.

(** ** S-boxes *)

Lemma sbox_byte b : is_byte b -> is_byte (getSBoxValue b).
Proof. intros _. apply Bytes_get. by_compute. Qed.

#[export] Hint Resolve sbox_byte Bytes_get : byte.

Lemma rsbox_sbox b : is_byte b -> getSBoxInvert (getSBoxValue b) = b.
Proof. revert b. apply byte_forall_eq. vm_compute. reflexivity. Qed.

Lemma sbox_fips b : is_byte b -> getSBoxValue b = Fips.sub_byte b.
Proof. revert b. apply byte_forall_eq. vm_compute. reflexivity. Qed.

Lemma SubBytes_block st : block16 st -> block16 (SubBytes st).
Proof. intros. rewrite SubBytes_map by done. by apply map_block; [apply sbox_byte|]. Qed.

Lemma SubBytes_spec st : block16 st -> SubBytes st = Fips.SubBytes st.
Proof.
  intros H. rewrite SubBytes_map by done. apply map_ext_Forall.
  eapply Forall_impl; [apply H|]. apply sbox_fips.
Qed.

Lemma InvSubBytes_SubBytes st : block16 st -> InvSubBytes (SubBytes st) = st.
Proof.
  intros H. rewrite InvSubBytes_map by by apply SubBytes_block. rewrite SubBytes_map by done.
  rewrite map_map. transitivity (map id st); [|apply map_id]. apply map_ext_Forall.
  eapply Forall_impl; [apply H|]. apply rsbox_sbox.
Qed.

Lemma ShiftRows_block st : block16 st -> block16 (ShiftRows st).
Proof.
  intros H. rewrite ShiftRows_spec by done. split; [|done]. apply Forall_map, Forall_true.
  intros k. apply Bytes_get, H.
Qed.

(** ** MixColumns *)

Lemma xtime_byte x : is_byte (xtime x).
Proof. by apply in_width_wrap. Qed.

#[export] Hint Resolve xtime_byte : byte.

Lemma xtime_lxor a b : is_byte a -> is_byte b -> xtime (a .^ b) = xtime a .^ xtime b.
Proof.
  intros Ha Hb. apply Z.eqb_eq.
  apply (byte_forall2 (fun a b => xtime (a .^ b) =? xtime a .^ xtime b)); [|done..].
  vm_compute. reflexivity.
Qed.

(** Distributes [xtime] over sums of bytes. *)
Ltac expand_xtime := repeat rewrite xtime_lxor by auto 10 with byte.

(** Evaluates the constant factors of [Multiply]. *)
Ltac run_multiply :=
  unfold Multiply;
  repeat match goal with
  | |- context [?y .& 1] => let v := eval vm_compute in (y .& 1) in change (y .& 1) with v
  end;
  rewrite ?Z.mul_0_l, ?Z.mul_1_l, ?Z.lxor_0_l, ?Z.lxor_0_r.

Lemma Multiply_0e x : Multiply x 0x0e = xtime x .^ xtime (xtime x) .^ xtime (xtime (xtime x)).
Proof. run_multiply. reflexivity. Qed.
Lemma Multiply_0b x : Multiply x 0x0b = x .^ xtime x .^ xtime (xtime (xtime x)).
Proof. run_multiply. reflexivity. Qed.
Lemma Multiply_0d x : Multiply x 0x0d = x .^ xtime (xtime x) .^ xtime (xtime (xtime x)).
Proof. run_multiply. reflexivity. Qed.
Lemma Multiply_09 x : Multiply x 0x09 = x .^ xtime (xtime (xtime x)).
Proof. run_multiply. reflexivity. Qed.

(** One column of the two mixing steps. *)
Definition mix_col (a b c d : Z) : list Z :=
  let Tmp := a .^ b .^ c .^ d in
  [a .^ (xtime (a .^ b) .^ Tmp); b .^ (xtime (b .^ c) .^ Tmp);
   c .^ (xtime (c .^ d) .^ Tmp); d .^ (xtime (d .^ a) .^ Tmp)].

Definition inv_mix_col (a b c d : Z) : list Z :=
  [u8 (Multiply a 0x0e .^ Multiply b 0x0b .^ Multiply c 0x0d .^ Multiply d 0x09);
   u8 (Multiply a 0x09 .^ Multiply b 0x0e .^ Multiply c 0x0b .^ Multiply d 0x0d);
   u8 (Multiply a 0x0d .^ Multiply b 0x09 .^ Multiply c 0x0e .^ Multiply d 0x0b);
   u8 (Multiply a 0x0b .^ Multiply b 0x0d .^ Multiply c 0x09 .^ Multiply d 0x0e)].

Definition columns (f : Z -> Z -> Z -> Z -> list Z) (st : list Z) : list Z :=
  match st with
  | [s0; s1; s2; s3; s4; s5; s6; s7; s8; s9; s10; s11; s12; s13; s14; s15] =>
      f s0 s1 s2 s3 ++ f s4 s5 s6 s7 ++ f s8 s9 s10 s11 ++ f s12 s13 s14 s15
  | _ => st
  end.

Lemma MixColumns_columns st : block16 st -> MixColumns st = columns mix_col st.
Proof. intros H. destruct_block st H. reflexivity. Qed.

Lemma InvMixColumns_columns st : block16 st -> InvMixColumns st = columns inv_mix_col st.
Proof. intros H. destruct_block st H. reflexivity. Qed.

Lemma mix_col_bytes a b c d :
  is_byte a -> is_byte b -> is_byte c -> is_byte d -> Bytes (mix_col a b c d).
Proof. intros. unfold mix_col. repeat apply Forall_cons_2; auto 10 with byte. Qed.

Lemma MixColumns_block st : block16 st -> block16 (MixColumns st).
Proof.
  intros H. rewrite MixColumns_columns by done. destruct_block st H. destruct H as [Hb _].
  unfold Bytes in Hb. rewrite !Forall_cons in Hb. destruct_and!.
  split; [|reflexivity]. cbn [columns]. rewrite !Bytes_app. split_and!; by apply mix_col_bytes.
Qed.

(** The product of the two circulant matrices is the identity. *)
Lemma inv_mix_col_mix_col a b c d a' b' c' d' :
  mix_col a b c d = [a'; b'; c'; d'] -> is_byte a -> is_byte b -> is_byte c -> is_byte d ->
  inv_mix_col a' b' c' d' = [a; b; c; d].
Proof.
  intros [= <- <- <- <-] Ha Hb Hc Hd. unfold inv_mix_col.
  rewrite !Multiply_0e, !Multiply_0b, !Multiply_0d, !Multiply_09. expand_xtime.
  list_eq; [..|done]; (rewrite wrap_id by auto 40 with byte). bitwise. bitwise. bitwise. bitwise.
Qed.

Lemma MixColumns_spec st : block16 st -> MixColumns st = Fips.MixColumns st.
Proof.
  intros H. rewrite MixColumns_columns by done.
  transitivity (columns (fun a b c d =>
    [Fips.mul a 2 .^ Fips.mul b 3 .^ Fips.mul c 1 .^ Fips.mul d 1;
     Fips.mul b 2 .^ Fips.mul c 3 .^ Fips.mul d 1 .^ Fips.mul a 1;
     Fips.mul c 2 .^ Fips.mul d 3 .^ Fips.mul a 1 .^ Fips.mul b 1;
     Fips.mul d 2 .^ Fips.mul a 3 .^ Fips.mul b 1 .^ Fips.mul c 1]) st).
  2: { destruct_block st H. reflexivity. }
  assert (M1 : forall b, is_byte b -> Fips.mul b 1 = b) by (apply byte_forall_eq; vm_compute; reflexivity).
  assert (M2 : forall b, is_byte b -> Fips.mul b 2 = xtime b)
    by (apply byte_forall_eq; vm_compute; reflexivity).
  assert (M3 : forall b, is_byte b -> Fips.mul b 3 = xtime b .^ b)
    by (apply byte_forall_eq; vm_compute; reflexivity).
  destruct_block st H. destruct H as [Hb _]. unfold Bytes in Hb. rewrite !Forall_cons in Hb.
  destruct_and!. cbn [columns]. unfold mix_col.
  rewrite !M1, !M2, !M3 by done. rewrite !xtime_lxor by done.
  cbn [app]. list_eq; [..|done]; bitwise.
Qed.

Lemma InvMixColumns_MixColumns st : block16 st -> InvMixColumns (MixColumns st) = st.
Proof.
  intros H. rewrite InvMixColumns_columns by by apply MixColumns_block.
  rewrite MixColumns_columns by done.
  destruct_block st H. destruct H as [Hb _]. unfold Bytes in Hb. rewrite !Forall_cons in Hb.
  destruct_and!. cbn [columns].
  destruct (mix_col z z0 z1 z2) as [|? [|? [|? [|? [|]]]]] eqn:E1; try discriminate E1.
  destruct (mix_col z3 z4 z5 z6) as [|? [|? [|? [|? [|]]]]] eqn:E2; try discriminate E2.
  destruct (mix_col z7 z8 z9 z10) as [|? [|? [|? [|? [|]]]]] eqn:E3; try discriminate E3.
  destruct (mix_col z11 z12 z13 z14) as [|? [|? [|? [|? [|]]]]] eqn:E4; try discriminate E4.
  cbn [app columns].
  by do 4 erewrite inv_mix_col_mix_col by eassumption.
Qed.

(** ** The cipher and its inverse *)

(** From here on the operations are used through their lemmas. *)
#[local] Opaque AddRoundKey SubBytes ShiftRows MixColumns InvSubBytes InvShiftRows InvMixColumns.

(** Substitution and shift, the part of a round without the key. *)
Definition core (st : list Z) : list Z := ShiftRows (SubBytes st).

(** The state after the first [n] rounds. *)
Fixpoint rounds (rk : list Z) (n : nat) (st : list Z) : list Z :=
  match n with
  | O => AddRoundKey 0 st rk
  | S m => AddRoundKey (Z.of_nat n) (MixColumns (core (rounds rk m st))) rk
  end.

Lemma rounds_block rk n st : round_keys rk -> (n <= 14)%nat -> block16 st -> block16 (rounds rk n st).
Proof.
  intros Hk. induction n as [|n IH]; intros Hn Hb; cbn [rounds]; apply AddRoundKey_block;
    try (done || lia).
  apply MixColumns_block, ShiftRows_block, SubBytes_block, IH; [lia|done].
Qed.

Lemma cipher_loop_rounds rk st k fuel :
  (k <= 13)%nat -> (k < fuel)%nat ->
  cipher_loop fuel (14 - Z.of_nat k) (rounds rk (13 - k) st) rk = Some (core (rounds rk 13 st)).
Proof.
  revert fuel. induction k as [|k IH]; intros [|fuel] Hk Hf; try lia; cbn [cipher_loop].
  - rewrite Nat.sub_0_r. cbv zeta. change (14 - Z.of_nat 0 =? Nr) with true. cbv iota.
    unfold core. reflexivity.
  - destruct (Z.eqb_spec (14 - Z.of_nat (S k)) Nr); [unfold Nr in *; lia|].
    rewrite wrap_id by (unfold in_width; lia).
    replace (14 - Z.of_nat (S k) + 1) with (14 - Z.of_nat k) by lia.
    rewrite <- (IH fuel) by lia. f_equal.
    replace (13 - k)%nat with (S (13 - S k)) by lia. cbn [rounds].
    replace (Z.of_nat (S (13 - S k))) with (14 - Z.of_nat (S k)) by lia. done.
Qed.

Lemma Cipher_rounds st rk : Cipher st rk = Some (AddRoundKey 14 (core (rounds rk 13 st)) rk).
Proof.
  unfold Cipher. pose proof (cipher_loop_rounds rk st 13 256 ltac:(lia) ltac:(lia)) as H.
  change (14 - Z.of_nat 13) with 1 in H. rewrite Nat.sub_diag in H. cbn [rounds] in H.
  cbv zeta. rewrite H. reflexivity.
Qed.

Lemma inv_cipher_loop_rounds rk st n fuel :
  round_keys rk -> block16 st -> (n <= 13)%nat -> (n < fuel)%nat ->
  inv_cipher_loop fuel (Z.of_nat n) (core (rounds rk n st)) rk = Some st.
Proof.
  intros Hk Hb. revert fuel. induction n as [|n IH]; intros [|fuel] Hn Hf; try lia; cbn [inv_cipher_loop];
    unfold core; (rewrite InvShiftRows_ShiftRows by (apply SubBytes_block, rounds_block; (done || lia)));
    rewrite InvSubBytes_SubBytes by (apply rounds_block; (done || lia)); cbn [rounds].
  - by rewrite AddRoundKey_AddRoundKey by (done || lia).
  - destruct (Z.eqb_spec (Z.of_nat (S n)) 0); [lia|].
    assert (Hn' : block16 (rounds rk n st)) by (apply rounds_block; (done || lia)).
    rewrite AddRoundKey_AddRoundKey
      by (done || lia || by apply MixColumns_block, ShiftRows_block, SubBytes_block).
    rewrite InvMixColumns_MixColumns by by apply ShiftRows_block, SubBytes_block.
    rewrite wrap_id by (unfold in_width; lia). replace (Z.of_nat (S n) - 1) with (Z.of_nat n) by lia.
    apply IH; lia.
Qed.

Lemma core_block st : block16 st -> block16 (core st).
Proof. intros. by apply ShiftRows_block, SubBytes_block. Qed.

Lemma InvCipher_Cipher st rk :
  block16 st -> round_keys rk -> Cipher st rk ≫= (fun c => InvCipher c rk) = Some st.
Proof.
  intros Hb Hk. rewrite Cipher_rounds. cbn [mbind option_bind]. unfold InvCipher.
  rewrite AddRoundKey_AddRoundKey
    by (done || (unfold Nr; lia) || (apply core_block, rounds_block; (done || lia))).
  apply (inv_cipher_loop_rounds rk st 13); (done || lia).
Qed.

Lemma rounds_fips rk n st :
  block16 st -> round_keys rk -> (n <= 13)%nat ->
  rounds rk n st = foldl (Fips.round rk) (Fips.AddRoundKey st (Fips.round_key rk 0)) (List.seq 1 n).
Proof.
  intros Hb Hk. induction n as [|n IH]; intros Hn.
  - cbn [rounds]. by rewrite AddRoundKey_spec.
  - rewrite seq_S, foldl_app, <- IH by lia. cbn [foldl rounds]. unfold Fips.round, core.
    assert (Hn' : block16 (rounds rk n st)) by (apply rounds_block; (done || lia)).
    rewrite AddRoundKey_spec, Nat2Z.id
      by (done || lia || by apply MixColumns_block, core_block).
    by rewrite MixColumns_spec, ShiftRows_spec, SubBytes_spec
      by (done || (by apply core_block) || by apply SubBytes_block).
Qed.

Lemma Cipher_fips st rk :
  block16 st -> round_keys rk -> Cipher st rk = Some (Fips.encrypt rk st).
Proof.
  intros Hb Hk. rewrite Cipher_rounds. unfold Fips.encrypt. rewrite <- rounds_fips by done.
  assert (Hn' : block16 (rounds rk 13 st)) by (apply rounds_block; (done || lia)).
  rewrite AddRoundKey_spec by (done || by apply core_block). unfold core.
  by rewrite ShiftRows_spec, SubBytes_spec by (done || by apply SubBytes_block).
Qed.

(** ** Key expansion *)

Lemma upd_app out x r i v : i = len out -> upd (out ++ x :: r) i v = (out ++ [v]) ++ r.
Proof.
  intros ->. unfold upd, len. rewrite Nat2Z.id.
  replace (length out) with (length out + 0)%nat by lia.
  rewrite insert_app_r. cbn [insert list_insert]. by rewrite <- app_assoc.
Qed.

(** A word of four bytes. *)
Definition word4 (w : list Z) : Prop := Bytes w /\ length w = 4%nat.

(** The [n] words written so far, and what is left of the array. *)
Definition written (rk : list Z) (w : list (list Z)) (total : nat) : Prop :=
  Forall word4 w /\ exists junk, rk = concat w ++ junk /\ (length w * 4 + length junk = total)%nat.

Lemma concat_words w : Forall word4 w -> length (concat w) = (length w * 4)%nat.
Proof. induction 1 as [|x w [_ Hx] _ IH]; simpl; [done|]. rewrite length_app. lia. Qed.

Lemma write_word rk w total a b c d i :
  written rk w total -> i = len w -> word4 [a; b; c; d] -> (length w < total / 4)%nat ->
  written (upd (upd (upd (upd rk (i * 4 + 0) a) (i * 4 + 1) b) (i * 4 + 2) c) (i * 4 + 3) d)
    (w ++ [[a; b; c; d]]) total.
Proof.
  intros (Hw & junk & -> & Hl) -> Hword Ht. pose proof (concat_words w Hw) as Hc.
  assert (4 * (total / 4) <= total)%nat by (apply Nat.Div0.mul_div_le).
  destruct junk as [|j0 [|j1 [|j2 [|j3 junk]]]]; try (simpl in Hl; lia).
  rewrite (upd_app (concat w)) by (unfold len; lia).
  rewrite (upd_app (concat w ++ _)) by (rewrite len_app; unfold len; simpl; lia).
  rewrite (upd_app ((concat w ++ _) ++ _)) by (rewrite !len_app; unfold len; simpl; lia).
  rewrite (upd_app (((concat w ++ _) ++ _) ++ _)) by (rewrite !len_app; unfold len; simpl; lia).
  split; [by apply Forall_app; split; [|constructor]|]. exists junk. split.
  - rewrite concat_app. cbn [concat]. by rewrite <- !app_assoc.
  - rewrite length_app. simpl in *. lia.
Qed.

Lemma read_word rk w total k j :
  written rk w total -> 0 <= k < len w -> 0 <= j < 4 ->
  rk.[k * 4 + j] = (nth (Z.to_nat k) w []).[j].
Proof.
  intros (Hw & junk & -> & _) Hk Hj. rewrite get_app_l by (rewrite <- ?concat_words; unfold len in *; rewrite concat_words by done; lia).
  revert k Hk. induction Hw as [|x w [_ Hx] _ IH]; intros k Hk; [unfold len in Hk; simpl in Hk; lia|].
  cbn [concat]. rewrite len_cons in Hk. destruct (decide (k = 0)) as [->|].
  - rewrite get_app_l by (unfold len; lia). done.
  - rewrite get_app_r by (unfold len; lia).
    replace (Z.to_nat k) with (S (Z.to_nat (k - 1))) by lia. cbn [nth].
    rewrite <- IH by lia. f_equal. unfold len. lia.
Qed.

Lemma get_upd_ne l i j v : 0 <= i -> 0 <= j -> i <> j -> (upd l i v).[j] = l.[j].
Proof.
  intros. unfold get, upd. rewrite !nth_lookup. by rewrite list_lookup_insert_ne by lia.
Qed.

Lemma nth_word w k : Forall word4 w -> (k < length w)%nat ->
  exists a b c d, nth k w [] = [a; b; c; d] /\ is_byte a /\ is_byte b /\ is_byte c /\ is_byte d.
Proof.
  intros Hw Hk. destruct (nth_lookup_or_length w k []) as [Hn|]; [|lia].
  destruct (Forall_lookup_1 _ _ _ _ Hw Hn) as [Hb Hl].
  destruct (nth k w []) as [|a [|b [|c [|d [|]]]]]; try discriminate Hl.
  unfold Bytes in Hb. rewrite !Forall_cons in Hb. by exists a, b, c, d; destruct_and!.
Qed.

Lemma rcon_table i : 8 <= i < 60 -> i mod 8 = 0 ->
  Fips.rcon (i / 8) = [Rcon.[i / Nk]; 0; 0; 0] /\ is_byte Rcon.[i / Nk].
Proof.
  intros Hi Hm. assert (H : i / 8 = 1 \/ i / 8 = 2 \/ i / 8 = 3 \/ i / 8 = 4 \/ i / 8 = 5 \/ i / 8 = 6
    \/ i / 8 = 7) by dlia.
  unfold Nk. destruct_or! H; rewrite H; split; by_compute || reflexivity.
Qed.

Lemma SubWord_list a b c d :
  SubWord [a; b; c; d] = [getSBoxValue a; getSBoxValue b; getSBoxValue c; getSBoxValue d].
Proof. done. Qed.

Lemma RotWord_list a b c d : RotWord [a; b; c; d] = [b; c; d; a].
Proof. done. Qed.

Lemma upd_head a b c d v : upd [a; b; c; d] 0 v = [v; b; c; d].
Proof. done. Qed.

(** The temporary word of the loop is the one of the standard. *)
Lemma key_temp i p0 p1 p2 p3 :
  8 <= i < 60 -> is_byte p0 -> is_byte p1 -> is_byte p2 -> is_byte p3 ->
  let tempa := [p0; p1; p2; p3] in
  let tempa :=
    if i mod Nk =? 0 then
      let tempa := SubWord (RotWord tempa) in upd tempa 0 (tempa.[0] .^ Rcon.[i / Nk])
    else tempa in
  let tempa := if i mod Nk =? 4 then SubWord tempa else tempa in
  tempa = (if i mod 8 =? 0 then Fips.xor_word (Fips.SubWord (Fips.RotWord [p0; p1; p2; p3])) (Fips.rcon (i / 8))
           else if i mod 8 =? 4 then Fips.SubWord [p0; p1; p2; p3] else [p0; p1; p2; p3]) /\
  word4 tempa.
Proof.
  intros Hi H0 H1 H2 H3. unfold Nk at 1 3.
  destruct (Z.eqb_spec (i mod 8) 0) as [Hm|Hm].
  - rewrite Hm. change (0 =? 4) with false. cbv iota zeta.
    destruct (rcon_table i Hi Hm) as [-> Hr]. rewrite RotWord_list, SubWord_list, upd_head.
    change [?a; ?b; ?c; ?d].[0] with a. unfold Fips.SubWord, Fips.RotWord. cbn [drop take app map]. rewrite <- !sbox_fips by done. unfold Fips.xor_word. cbn [zip_with].
    rewrite !Z.lxor_0_r. split; [reflexivity|]. split; [|reflexivity].
    bytes_list.
  - destruct (Z.eqb_spec (i mod 8) 4) as [H4|H4]; cbv zeta.
    + rewrite SubWord_list. unfold Fips.SubWord. cbn [map]. rewrite <- !sbox_fips by done.
      split; [reflexivity|]. split; [|reflexivity].
      bytes_list.
    + split; [done|]. split; [|done]. bytes_list.
Qed.

Lemma key_step_spec rk w i :
  written rk w 240 -> i = len w -> 8 <= i < 60 ->
  written (key_step rk i) (w ++ [Fips.next_word w i]) 240.
Proof.
  intros HW Hi Hr. pose proof HW as [Hw _].
  destruct (nth_word w (Z.to_nat (i - 1)) Hw) as (p0 & p1 & p2 & p3 & Hp & ?&?&?&?); [len_lia|].
  destruct (nth_word w (Z.to_nat (i - 8)) Hw) as (q0 & q1 & q2 & q3 & Hq & ?&?&?&?); [len_lia|].
  unfold key_step. cbv zeta. rewrite !(read_word rk w 240 (i - 1)) by (done || lia). rewrite Hp.
  change [p0; p1; p2; p3].[0] with p0. change [p0; p1; p2; p3].[1] with p1.
  change [p0; p1; p2; p3].[2] with p2. change [p0; p1; p2; p3].[3] with p3.
  destruct (key_temp i p0 p1 p2 p3 Hr) as [Ht Hw4]; [done..|]. cbv zeta in Ht, Hw4.
  set (tempa := if i mod Nk =? 4 then _ else _) in *. clearbody tempa.
  unfold Fips.next_word. rewrite Hp, Hq, <- Ht. clear Ht.
  destruct Hw4 as [Hb Hl]. destruct tempa as [|t0 [|t1 [|t2 [|t3 [|]]]]]; try discriminate Hl.
  unfold Bytes in Hb. rewrite !Forall_cons in Hb. destruct_and!.
  change [t0; t1; t2; t3].[0] with t0. change [t0; t1; t2; t3].[1] with t1.
  change [t0; t1; t2; t3].[2] with t2. change [t0; t1; t2; t3].[3] with t3. unfold Nk.
  rewrite !get_upd_ne by lia. rewrite !(read_word rk w 240 (i - 8)) by (done || lia). rewrite Hq.
  apply write_word; [done|done| |change (240 / 4)%nat with 60%nat; len_lia].
  split; [|done]. bytes_list.
Qed.

Lemma key_copy_spec rk w i key :
  Bytes key -> written rk w 240 -> i = len w -> i < 8 ->
  written (key_copy key rk i) (w ++ [[key.[i * 4 + 0]; key.[i * 4 + 1]; key.[i * 4 + 2]; key.[i * 4 + 3]]]) 240.
Proof.
  intros Hk HW Hi Hr. apply write_word; [done|done| |change (240 / 4)%nat with 60%nat; len_lia].
  split; [|done]. bytes_list.
Qed.

Lemma key_copy_loop rk key n :
  Bytes key -> length rk = 240%nat -> (n <= 8)%nat ->
  written (foldl (key_copy key) rk (map (fun i => 0 + Z.of_nat i) (List.seq 0 n)))
    (map (fun i => [key.[Z.of_nat i * 4 + 0]; key.[Z.of_nat i * 4 + 1];
                    key.[Z.of_nat i * 4 + 2]; key.[Z.of_nat i * 4 + 3]]) (List.seq 0 n)) 240.
Proof.
  intros Hk Hl. induction n as [|n IH]; intros Hn.
  - split; [constructor|]. by exists rk.
  - rewrite seq_S, !map_app, foldl_app. cbn [map foldl Nat.add]. rewrite Z.add_0_l.
    apply key_copy_spec; [done|apply IH; lia| |lia].
    unfold len. rewrite length_map, length_seq. done.
Qed.

Lemma extend_app n w : Fips.extend n w = foldl (fun w i => w ++ [Fips.next_word w i]) w
  (map (fun i => len w + Z.of_nat i) (List.seq 0 n)).
Proof.
  revert w; induction n as [|n IH]; intros w; [done|]. cbn [Fips.extend List.seq map foldl].
  rewrite IH, Z.add_0_r, <- seq_shift, map_map. f_equal. apply map_ext. intros i. len_lia.
Qed.

Lemma key_step_loop rk w n :
  written rk w 240 -> (8 <= length w)%nat -> (length w + n <= 60)%nat ->
  written (foldl key_step rk (map (fun i => len w + Z.of_nat i) (List.seq 0 n))) (Fips.extend n w) 240.
Proof.
  revert rk w; induction n as [|n IH]; intros rk w HW H8 Hn; [done|].
  cbn [List.seq map foldl Fips.extend]. rewrite Z.add_0_r, <- seq_shift, map_map.
  rewrite (map_ext _ (fun i => len (w ++ [Fips.next_word w (len w)]) + Z.of_nat i)) by (intros; len_lia).
  apply IH; [apply key_step_spec; [done|done|len_lia]|rewrite length_app; simpl; lia..].
Qed.

Lemma extend_length n w : length (Fips.extend n w) = (length w + n)%nat.
Proof. revert w; induction n as [|n IH]; intros w; simpl; [lia|]. rewrite IH, length_app. simpl. lia. Qed.

(** The code expands the key as the standard does, whatever the array held. *)
Lemma KeyExpansion_fips rk key :
  Bytes key -> length key = 32%nat -> length rk = 240%nat ->
  KeyExpansion rk key = Fips.key_expansion key /\ round_keys (KeyExpansion rk key).
Proof.
  intros Hk Hl Hrk. unfold KeyExpansion, range, Nk, Nb, Nr.
  pose proof (key_copy_loop rk key 8 Hk Hrk ltac:(lia)) as H1.
  change (Z.to_nat (8 - 0)) with 8%nat. set (rk1 := foldl (key_copy key) _ _) in *.
  set (w := map _ _) in H1. assert (Hw : w = Fips.chop4 8 key).
  { do 32 (destruct key as [|? key]; [discriminate Hl|]). destruct key; [reflexivity|discriminate Hl]. }
  assert (length w = 8%nat) as Hw8 by reflexivity.
  pose proof (key_step_loop rk1 w 52 H1 ltac:(lia) ltac:(lia)) as H2.
  change (len w) with 8 in H2. change (Z.to_nat (4 * (14 + 1) - 8)) with 52%nat.
  set (rk2 := foldl key_step _ _) in *. destruct H2 as (HF & junk & He & Hj).
  rewrite extend_length, Hw8 in Hj. assert (junk = []) as -> by (apply nil_length_inv; lia).
  rewrite app_nil_r, Hw in He. rewrite Hw in HF. clearbody rk2. clear H1.
  unfold Fips.key_expansion, Fips.key_words. rewrite He. split; [reflexivity|]. split.
  - apply Forall_concat. eapply Forall_impl; [exact HF|]. by intros x [? _].
  - rewrite concat_words by done. by rewrite extend_length, <- Hw, Hw8.
Qed.

(** ** Cipher block chaining *)

Lemma XorWithIv_zip block iv : block16 block -> block16 iv -> XorWithIv block iv = zip_with Z.lxor block iv.
Proof. intros H1 H2. destruct_block block H1. destruct_block iv H2. reflexivity. Qed.

Lemma encrypt_block rk st : block16 st -> round_keys rk -> block16 (Fips.encrypt rk st).
Proof.
  intros Hb Hk. pose proof (Cipher_fips st rk Hb Hk) as H. rewrite Cipher_rounds in H.
  apply (inj Some) in H. rewrite <- H.
  apply AddRoundKey_block; [|done|lia]. apply core_block, rounds_block; done || lia.
Qed.

Lemma InvCipher_encrypt rk st :
  block16 st -> round_keys rk -> InvCipher (Fips.encrypt rk st) rk = Some st.
Proof.
  intros Hb Hk. pose proof (InvCipher_Cipher st rk Hb Hk) as H. by rewrite Cipher_fips in H.
Qed.

#[local] Opaque Fips.encrypt Cipher InvCipher.

Lemma load_mid a p c n : len p = n -> load (len a) n (a ++ p ++ c) = Some p.
Proof.
  intros <-. unfold load. pose proof (len_nonneg a). destruct (Z.leb_spec 0 (len a)); [|lia].
  destruct (Z.leb_spec (len a + len p) (len (a ++ p ++ c))); [|len_lia]. cbn [andb].
  rewrite slice_at. replace (Z.to_nat (len p)) with (length p) by len_lia.
  by rewrite take_app_length.
Qed.

(** The vector the next block is chained to. *)
Definition next_iv (iv : list Z) (cs : list (list Z)) : list Z := List.last cs iv.

Lemma cbc_length rk iv ps : length (Fips.cbc rk iv ps) = length ps.
Proof. revert iv; induction ps as [|p ps IH]; intros iv; simpl; auto. Qed.

Lemma cbc_blocks rk iv ps :
  round_keys rk -> block16 iv -> Forall block16 ps -> Forall block16 (Fips.cbc rk iv ps).
Proof.
  intros Hk Hiv Hp. revert iv Hiv. induction Hp as [|p ps Hb _ IH]; intros iv Hiv; [constructor|].
  cbn [Fips.cbc]. assert (block16 (Fips.encrypt rk (zip_with Z.lxor p iv)))
    by by apply encrypt_block; [apply xor_block|]. constructor; [done|by apply IH].
Qed.

Lemma next_iv_cons iv c cs : next_iv iv (c :: cs) = next_iv c cs.
Proof.
  revert iv c; induction cs as [|x cs IH]; intros iv c; [done|].
  exact (eq_trans (IH iv x) (eq_sym (IH c x))).
Qed.

Lemma next_iv_app iv cs ds : next_iv iv (cs ++ ds) = next_iv (next_iv iv cs) ds.
Proof.
  revert iv; induction cs as [|c cs IH]; intros iv; [done|]. cbn [app]. by rewrite !next_iv_cons, IH.
Qed.

Lemma next_iv_block iv cs : block16 iv -> Forall block16 cs -> block16 (next_iv iv cs).
Proof.
  intros Hiv H. revert iv Hiv. induction H as [|c cs Hc _ IH]; intros iv Hiv; [done|].
  rewrite next_iv_cons. by apply IH.
Qed.

Lemma cbc_app rk iv ps qs :
  Fips.cbc rk iv (ps ++ qs) = Fips.cbc rk iv ps ++ Fips.cbc rk (next_iv iv (Fips.cbc rk iv ps)) qs.
Proof.
  revert iv; induction ps as [|p ps IH]; intros iv; [done|]. cbn [app Fips.cbc].
  by rewrite IH, next_iv_cons.
Qed.

Lemma concat_blocks ps : Forall block16 ps -> len (concat ps) = 16 * len ps.
Proof.
  induction 1 as [|p ps [_ Hp] _ IH]; [done|]. cbn [concat]. rewrite len_app, len_cons, IH.
  unfold len. lia.
Qed.

(** Where the local pointer of the encryption loop points to. *)
Definition iv_at (Iv_ : iv_ptr) (ctx : AES_ctx) (done iv : list Z) : Prop :=
  (Iv_ = CtxIv /\ iv = Iv ctx) \/ (exists d, done = d ++ iv /\ Iv_ = BufAt (len d)).

Lemma load_iv_at Iv_ ctx done iv r :
  iv_at Iv_ ctx done iv -> len iv = 16 -> load_iv Iv_ ctx (done ++ r) = Some iv.
Proof.
  unfold load_iv, AES_BLOCKLEN. intros [[-> ->]|(d & -> & ->)] Hl.
  - pose proof (load_mid [] (Iv ctx) [] 16 Hl) as H. by rewrite app_nil_r in H.
  - rewrite <- app_assoc. by apply load_mid.
Qed.

(** The loop consumes the blocks below the length one by one. *)
Lemma cbc_encrypt_loop_prefix ctx rest ps done iv Iv_ length_ :
  round_keys (RoundKey ctx) -> block16 iv -> Forall block16 ps -> iv_at Iv_ ctx done iv ->
  len done + 16 * len ps < length_ + 16 ->
  let cs := Fips.cbc (RoundKey ctx) iv ps in
  exists Iv', iv_at Iv' ctx (done ++ concat cs) (next_iv iv cs) /\ forall fuel,
    cbc_encrypt_loop (length ps + fuel) ctx (done ++ concat ps ++ rest) (len done) length_ Iv_ =
    cbc_encrypt_loop fuel ctx (done ++ concat cs ++ rest) (len (done ++ concat cs)) length_ Iv'.
Proof.
  intros Hk Hiv Hps. revert done iv Iv_ Hiv.
  induction Hps as [|p ps Hp Hps IH]; intros done iv Iv_ Hiv Hat Hlen.
  - exists Iv_. cbn [Fips.cbc concat app length Nat.add]. by rewrite app_nil_r.
  - pose proof (len_nonneg ps). rewrite len_cons in Hlen.
    assert (Hx := xor_block p iv Hp Hiv). assert (Hc := encrypt_block (RoundKey ctx) _ Hx Hk).
    assert (Hcip := Cipher_fips _ (RoundKey ctx) Hx Hk). cbn [Fips.cbc concat].
    generalize dependent (Fips.encrypt (RoundKey ctx) (zip_with Z.lxor p iv)). intros c Hc Hcip.
    destruct (IH (done ++ c) c (BufAt (len done)) Hc) as (Iv' & Hat' & Hrun);
      [right; by exists done|rewrite len_app; destruct Hc as [_ Hc]; unfold len in *; lia|].
    exists Iv'. rewrite next_iv_cons, (app_assoc done c). split; [done|]. intros fuel.
    rewrite <- (app_assoc c), (app_assoc done c), <- Hrun. cbn [length Nat.add cbc_encrypt_loop].
    destruct (Z.ltb_spec (len done) length_); [|lia].
    rewrite (load_iv_at _ _ _ iv) by (done || (unfold len; destruct Hiv; lia)).
    assert (Hlp : len p = AES_BLOCKLEN) by (unfold len, AES_BLOCKLEN; destruct Hp; lia).
    rewrite bind_some, <- app_assoc, (load_mid done p (concat ps ++ rest) AES_BLOCKLEN Hlp), bind_some.
    rewrite XorWithIv_zip, Hcip, bind_some, put_mid, bind_some by (done || (destruct Hc, Hp; lia)).
    rewrite (app_assoc done c). replace (len done + AES_BLOCKLEN) with (len (done ++ c)); [done|].
    rewrite len_app. unfold AES_BLOCKLEN, len. destruct Hc. lia.
Qed.

(** The blocks a call of the given length touches: the length is rounded up. *)
Definition covers (length_ : Z) (ps : list (list Z)) : Prop :=
  length_ <= 16 * len ps < length_ + 16.

Lemma cbc_encrypt_spec ctx ps rest length_ :
  round_keys (RoundKey ctx) -> block16 (Iv ctx) -> Forall block16 ps -> covers length_ ps ->
  let cs := Fips.cbc (RoundKey ctx) (Iv ctx) ps in
  AES_CBC_encrypt_buffer ctx (concat ps ++ rest) length_ =
  Some (Ctx (RoundKey ctx) (next_iv (Iv ctx) cs), concat cs ++ rest).
Proof.
  intros Hk Hiv Hps [Hc1 Hc2] cs. unfold AES_CBC_encrypt_buffer.
  assert (Hcs : Forall block16 cs) by by apply cbc_blocks.
  destruct (cbc_encrypt_loop_prefix ctx rest ps [] (Iv ctx) CtxIv length_ Hk Hiv Hps)
    as (Iv' & Hat & E); [by left|done|]. cbn [app] in E, Hat. change (len []) with 0 in E. fold cs in E, Hat.
  replace (S (Z.to_nat length_)) with (length ps + S (Z.to_nat length_ - length ps))%nat
    by (unfold len in *; lia).
  rewrite E. cbn [cbc_encrypt_loop].
  assert (len (concat cs) = 16 * len ps) as Hlc
    by (rewrite concat_blocks by done; unfold len, cs; by rewrite cbc_length).
  destruct (Z.ltb_spec (len (concat cs)) length_); [lia|]. rewrite bind_some.
  destruct (next_iv_block (Iv ctx) cs Hiv Hcs) as [_ Hl].
  by rewrite (load_iv_at _ _ _ _ rest Hat), bind_some by (unfold len; lia).
Qed.

(** A buffer cut into blocks. *)
Lemma blocks_of (buf : list Z) :
  Bytes buf -> exists ps rest, buf = concat ps ++ rest /\ Forall block16 ps /\ (length rest < 16)%nat.
Proof.
  induction (Nat.lt_wf_0_projected (@length Z) buf) as [buf _ IH]. intros Hb.
  destruct (decide (length buf < 16)%nat) as [Hl|Hl]; [by exists [], buf|].
  rewrite <- (take_drop 16 buf) in Hb. apply Bytes_app in Hb as [Hb1 Hb2].
  destruct (IH (drop 16 buf)) as (ps & rest & E & Hps & Hr); [rewrite length_drop; lia|done|].
  exists (take 16 buf :: ps), rest. split_and!; [|constructor; [|done]|done].
  - cbn [concat]. by rewrite <- app_assoc, <- E, take_drop.
  - split; [done|]. rewrite length_take. lia.
Qed.

Lemma cbc_decrypt_loop_spec rk rest ps done iv fuel length_ :
  round_keys rk -> block16 iv -> Forall block16 ps ->
  length_ <= len done + 16 * len ps < length_ + 16 -> (length ps < fuel)%nat ->
  let cs := Fips.cbc rk iv ps in
  cbc_decrypt_loop fuel (Ctx rk iv) (done ++ concat cs ++ rest) (len done) length_ =
  Some (Ctx rk (next_iv iv cs), done ++ concat ps ++ rest).
Proof.
  intros Hk Hiv Hps. revert done iv fuel Hiv.
  induction Hps as [|p ps Hp Hps IH]; intros done iv [|fuel] Hiv Hlen Hf; try (simpl in Hf; lia);
    cbn [cbc_decrypt_loop].
  - change (len []) with 0 in Hlen. by destruct (Z.ltb_spec (len done) length_); [lia|].
  - pose proof (len_nonneg ps). rewrite len_cons in Hlen.
    destruct (Z.ltb_spec (len done) length_); [|lia].
    cbn [Fips.cbc concat RoundKey Iv]. assert (Hx := xor_block p iv Hp Hiv).
    assert (Hc := encrypt_block rk _ Hx Hk). assert (Hinv := InvCipher_encrypt rk _ Hx Hk).
    generalize dependent (Fips.encrypt rk (zip_with Z.lxor p iv)). intros c Hc Hinv.
    rewrite <- app_assoc, load_mid by (unfold len, AES_BLOCKLEN; destruct Hc; lia).
    rewrite bind_some. rewrite Hinv. rewrite bind_some.
    rewrite XorWithIv_zip, xor_xor by (done || (destruct Hp, Hiv; lia)).
    rewrite put_mid by (destruct Hc, Hp; lia). rewrite bind_some.
    rewrite (app_assoc done p). replace (len done + AES_BLOCKLEN) with (len (done ++ p))
      by (rewrite len_app; unfold AES_BLOCKLEN, len; destruct Hp; lia).
    rewrite (IH (done ++ p) c fuel Hc).
    + by rewrite next_iv_cons, <- !app_assoc.
    + rewrite len_app. destruct Hp as [_ Hp]. unfold len in *. lia.
    + simpl in Hf. lia.
Qed.

Lemma init_ctx_iv_ok ctx key iv :
  length (RoundKey ctx) = 240%nat -> length (Iv ctx) = 16%nat -> Bytes key -> length key = 32%nat ->
  block16 iv ->
  AES_init_ctx_iv ctx key iv = Ctx (Fips.key_expansion key) iv /\ round_keys (Fips.key_expansion key).
Proof.
  intros Hr Hi Hk Hl [Hb Hil]. destruct (KeyExpansion_fips (RoundKey ctx) key Hk Hl Hr) as [He Hrk].
  unfold AES_init_ctx_iv. rewrite He in *. split; [|done]. f_equal.
  unfold splice. rewrite (take_ge iv 16) by lia. change (Z.to_nat 0) with 0%nat.
  rewrite firstn_O, drop_ge by lia. by rewrite app_nil_r.
Qed.

#[local] Opaque AES_CBC_encrypt_buffer AES_CBC_decrypt_buffer KeyExpansion Fips.key_expansion.

(** ** Properties *)

(** C3: with an expanded 256-bit key [Cipher] is the AES of FIPS 197, for every
    key and block; its loop ends after the fourteen rounds. *)
Theorem aes256_fips (rk key block : list Z)
    (Hrk : length rk = 240%nat) (Hk : Bytes key /\ length key = 32%nat) (Hb : block16 block) :
  Cipher block (KeyExpansion rk key) = Some (Fips.aes256 key block).
Proof.
  destruct Hk as [Hk Hl]. destruct (KeyExpansion_fips rk key Hk Hl Hrk) as [He Hr].
  rewrite Cipher_fips by done. rewrite He. reflexivity.
Qed.

#[export] Instance block16_dec l : Decision (block16 l).
Proof. unfold block16. apply _. Defined.

Definition example_key : list Z := range 0 32.
Definition example_block : list Z := map (fun i => 0x11 * i) (range 0 16).

Lemma aes256_fips_witness :
  Cipher example_block (KeyExpansion (repeat 0 240) example_key) =
    Some (Fips.aes256 example_key example_block).
Proof. apply aes256_fips; by_compute. Defined.

(** [InvCipher] undoes [Cipher] under any expanded key. *)
Theorem aes_decrypt_encrypt (rk block : list Z) (Hk : round_keys rk) (Hb : block16 block) :
  exists c, Cipher block rk = Some c /\ block16 c /\ InvCipher c rk = Some block.
Proof.
  exists (Fips.encrypt rk block). split_and!.
  - by apply Cipher_fips.
  - by apply encrypt_block.
  - by apply InvCipher_encrypt.
Qed.

#[export] Instance round_keys_dec l : Decision (round_keys l).
Proof. unfold round_keys. apply _. Defined.

Lemma aes_decrypt_encrypt_witness :
  exists c, Cipher example_block (repeat 0x5a 240) = Some c /\ block16 c /\
    InvCipher c (repeat 0x5a 240) = Some example_block.
Proof. apply aes_decrypt_encrypt; by_compute. Defined.

(** A context set up from a key and a vector encrypts a buffer of whole
    blocks to their CBC encryption under the AES of the standard, leaves the rest
    of the buffer alone and keeps the last ciphertext block for the next call. *)
Theorem cbc_encrypt_exact (ctx : AES_ctx) (key iv rest : list Z) (ps : list (list Z))
    (Hctx : length (RoundKey ctx) = 240%nat /\ length (Iv ctx) = 16%nat)
    (Hk : Bytes key /\ length key = 32%nat) (Hiv : block16 iv) (Hps : Forall block16 ps) :
  let cs := Fips.cbc (Fips.key_expansion key) iv ps in
  AES_CBC_encrypt_buffer (AES_init_ctx_iv ctx key iv) (concat ps ++ rest) (16 * len ps) =
  Some (Ctx (Fips.key_expansion key) (List.last cs iv), concat cs ++ rest).
Proof.
  destruct Hctx, Hk. destruct (init_ctx_iv_ok ctx key iv) as [-> Hr]; [done..|].
  generalize dependent (Fips.key_expansion key). intros rk Hr.
  pose proof (cbc_encrypt_spec (Ctx rk iv) ps rest (16 * len ps) Hr Hiv Hps) as H'.
  cbn [RoundKey Iv] in H'. apply H'. unfold covers. lia.
Qed.

Lemma cbc_encrypt_exact_witness :
  AES_CBC_encrypt_buffer (AES_init_ctx_iv (Ctx (repeat 0 240) (repeat 0 16)) example_key (repeat 1 16))
    (concat [example_block; example_block] ++ [1; 2; 3]) 32 =
  Some (Ctx (Fips.key_expansion example_key)
    (List.last (Fips.cbc (Fips.key_expansion example_key) (repeat 1 16) [example_block; example_block]) (repeat 1 16)),
    concat (Fips.cbc (Fips.key_expansion example_key) (repeat 1 16) [example_block; example_block]) ++ [1; 2; 3]).
Proof.
  apply (cbc_encrypt_exact (Ctx (repeat 0 240) (repeat 0 16)) example_key (repeat 1 16) [1; 2; 3]
    [example_block; example_block]); by_compute.
Defined.

(** C25: decrypting with the same key and vector gives the plaintext back, and
    both calls leave the same vector in the context; a length that is not a
    multiple of 16 is rounded up to whole blocks. *)
Theorem cbc_round_trip (ctx : AES_ctx) (key iv rest : list Z) (ps : list (list Z)) (length_ : Z)
    (Hctx : length (RoundKey ctx) = 240%nat /\ length (Iv ctx) = 16%nat)
    (Hk : Bytes key /\ length key = 32%nat) (Hiv : block16 iv) (Hps : Forall block16 ps)
    (Hl : covers length_ ps) :
  exists ctx' cipher,
    AES_CBC_encrypt_buffer (AES_init_ctx_iv ctx key iv) (concat ps ++ rest) length_ =
      Some (ctx', cipher ++ rest) /\ len cipher = 16 * len ps /\
    AES_CBC_decrypt_buffer (AES_init_ctx_iv ctx key iv) (cipher ++ rest) length_ =
      Some (ctx', concat ps ++ rest).
Proof.
  destruct Hctx, Hk. destruct (init_ctx_iv_ok ctx key iv) as [-> Hr]; [done..|].
  generalize dependent (Fips.key_expansion key). intros rk Hr.
  pose proof (cbc_encrypt_spec (Ctx rk iv) ps rest length_ Hr Hiv Hps Hl) as H'.
  pose proof (cbc_decrypt_loop_spec rk rest ps [] iv (S (Z.to_nat length_)) length_ Hr Hiv Hps) as H''.
  cbn [RoundKey Iv] in H', H''. eexists _, _. split; [exact H'|]. split.
  - rewrite concat_blocks by by apply cbc_blocks. unfold len. by rewrite cbc_length.
  - apply H''; unfold covers, len in *; simpl; lia.
Qed.

Lemma cbc_round_trip_witness :
  exists ctx' cipher,
    AES_CBC_encrypt_buffer (AES_init_ctx_iv (Ctx (repeat 0 240) (repeat 0 16)) example_key (repeat 1 16))
      (concat [example_block; example_block] ++ [9]) 17 = Some (ctx', cipher ++ [9]) /\ len cipher = 32 /\
    AES_CBC_decrypt_buffer (AES_init_ctx_iv (Ctx (repeat 0 240) (repeat 0 16)) example_key (repeat 1 16))
      (cipher ++ [9]) 17 = Some (ctx', concat [example_block; example_block] ++ [9]).
Proof.
  apply (cbc_round_trip (Ctx (repeat 0 240) (repeat 0 16)) example_key (repeat 1 16) [9]
    [example_block; example_block] 17); by_compute.
Defined.

(** Encrypting a message in two calls is encrypting it in one: the context
    carries the chaining vector. *)
Theorem cbc_encrypt_resume (ctx : AES_ctx) (ps qs : list (list Z))
    (Hk : round_keys (RoundKey ctx)) (Hiv : block16 (Iv ctx))
    (Hps : Forall block16 ps) (Hqs : Forall block16 qs) :
  exists ctx1 ctx2 c1 c2,
    AES_CBC_encrypt_buffer ctx (concat ps) (16 * len ps) = Some (ctx1, c1) /\
    AES_CBC_encrypt_buffer ctx1 (concat qs) (16 * len qs) = Some (ctx2, c2) /\
    AES_CBC_encrypt_buffer ctx (concat ps ++ concat qs) (16 * (len ps + len qs)) = Some (ctx2, c1 ++ c2).
Proof.
  pose proof (cbc_encrypt_spec ctx ps [] (16 * len ps) Hk Hiv Hps ltac:(unfold covers; lia)) as H1.
  cbv zeta in H1.
  assert (Hiv1 := next_iv_block (Iv ctx) _ Hiv (cbc_blocks (RoundKey ctx) (Iv ctx) ps Hk Hiv Hps)).
  set (iv1 := next_iv (Iv ctx) (Fips.cbc (RoundKey ctx) (Iv ctx) ps)) in *.
  pose proof (cbc_encrypt_spec (Ctx (RoundKey ctx) iv1) qs [] (16 * len qs) Hk Hiv1 Hqs
    ltac:(unfold covers; lia)) as H2. cbv zeta in H2. cbn [RoundKey Iv] in H2.
  assert (Hpq : Forall block16 (ps ++ qs)) by by apply Forall_app.
  pose proof (cbc_encrypt_spec ctx (ps ++ qs) [] (16 * (len ps + len qs)) Hk Hiv Hpq
    ltac:(unfold covers; rewrite len_app; lia)) as H3. cbv zeta in H3.
  rewrite cbc_app in H3. fold iv1 in H3. rewrite next_iv_app in H3. fold iv1 in H3.
  rewrite !concat_app in H3. rewrite !app_nil_r in H1, H2, H3.
  eexists _, _, _, _. split; [exact H1|]. split; [exact H2|exact H3].
Qed.

Lemma cbc_encrypt_resume_witness :
  exists ctx1 ctx2 c1 c2,
    AES_CBC_encrypt_buffer (Ctx (repeat 0x5a 240) (repeat 1 16)) (concat [example_block]) 16 = Some (ctx1, c1) /\
    AES_CBC_encrypt_buffer ctx1 (concat [repeat 2 16; repeat 3 16]) 32 = Some (ctx2, c2) /\
    AES_CBC_encrypt_buffer (Ctx (repeat 0x5a 240) (repeat 1 16))
      (concat [example_block] ++ concat [repeat 2 16; repeat 3 16]) 48 = Some (ctx2, c1 ++ c2).
Proof.
  apply (cbc_encrypt_resume (Ctx (repeat 0x5a 240) (repeat 1 16)) [example_block] [repeat 2 16; repeat 3 16]);
    by_compute.
Defined.

#[local] Transparent AES_CBC_encrypt_buffer.

(** A call whose length, rounded up to whole blocks, exceeds the buffer writes
    outside it: the buffer must be a multiple of the block length, as the header
    asks, even when the length is not. *)
Theorem cbc_encrypt_overrun (ctx : AES_ctx) (buf : list Z) (length_ : Z)
    (Hk : round_keys (RoundKey ctx)) (Hiv : block16 (Iv ctx)) (Hb : Bytes buf)
    (Hover : len buf < 16 * ((length_ + 15) / 16)) :
  AES_CBC_encrypt_buffer ctx buf length_ = None.
Proof.
  destruct (blocks_of buf Hb) as (ps & rest & -> & Hps & Hr).
  assert (Hn := concat_blocks ps Hps). rewrite len_app, Hn in Hover. pose proof (len_nonneg ps).
  assert (16 * len ps < length_) by (pose proof (len_nonneg rest); dlia).
  unfold AES_CBC_encrypt_buffer.
  destruct (cbc_encrypt_loop_prefix ctx rest ps [] (Iv ctx) CtxIv length_ Hk Hiv Hps)
    as (Iv' & Hat & E); [by left|change (len []) with 0; lia|]. cbn [app] in E, Hat. change (len []) with 0 in E.
  set (cs := Fips.cbc (RoundKey ctx) (Iv ctx) ps) in *.
  assert (Hcs : Forall block16 cs) by by apply cbc_blocks.
  assert (len (concat cs) = 16 * len ps) as Hlc
    by (rewrite concat_blocks by done; unfold len, cs; by rewrite cbc_length).
  replace (S (Z.to_nat length_)) with (length ps + S (Z.to_nat length_ - length ps))%nat
    by (unfold len in *; lia).
  rewrite E. cbn [cbc_encrypt_loop].
  destruct (Z.ltb_spec (len (concat cs)) length_); [|lia].
  destruct (next_iv_block (Iv ctx) cs Hiv Hcs) as [_ Hl].
  rewrite (load_iv_at _ _ _ _ rest Hat), bind_some by (unfold len; lia).
  assert (load (len (concat cs)) AES_BLOCKLEN (concat cs ++ rest) = None) as ->; [|done].
  unfold load, AES_BLOCKLEN. rewrite len_app.
  destruct (Z.leb_spec (len (concat cs) + 16) (len (concat cs) + len rest)); [unfold len in *; lia|].
  by rewrite andb_false_r.
Qed.

Lemma cbc_encrypt_overrun_witness :
  AES_CBC_encrypt_buffer (Ctx (repeat 0x5a 240) (repeat 1 16)) (repeat 7 20) 17 = None.
Proof. apply cbc_encrypt_overrun; [by_compute..|done]. Defined.

(** ** Counter mode *)

(** One pass over the data and a second pass from the same state. *)
Lemma ctr_loop_twice (rest data : list Z) ctx bi buffer length_ (done : list Z) :
  length_ = len done + len data ->
  exists ctx' data', len data' = len data /\ forall (done' : list Z) fuel, len done' = len done ->
    (length data < fuel)%nat ->
    ctr_loop fuel ctx (done' ++ data ++ rest) (len done') length_ bi buffer =
      Some (ctx', done' ++ data' ++ rest) /\
    ctr_loop fuel ctx (done' ++ data' ++ rest) (len done') length_ bi buffer =
      Some (ctx', done' ++ data ++ rest).
Proof.
  revert ctx bi buffer done; induction data as [|x data IH]; intros ctx bi buffer done Hl.
  - exists ctx, []. split; [done|]. intros done' [|fuel] Hd Hf; [simpl in Hf; lia|]. cbn [ctr_loop].
    change (len []) with 0 in Hl. by destruct (Z.ltb_spec (len done') length_); [lia|].
  - assert (Hnext : exists ctx1 bi1 buffer1, (if bi =? AES_BLOCKLEN then
        b ← Cipher (Iv ctx) (RoundKey ctx); Some (Ctx (RoundKey ctx) (ctr_increment 16 (Iv ctx)), 0, b)
        else Some (ctx, bi, buffer)) = Some (ctx1, bi1, buffer1)).
    { destruct (bi =? AES_BLOCKLEN); [|by eexists _, _, _].
      rewrite Cipher_rounds, bind_some. by eexists _, _, _. }
    destruct Hnext as (ctx1 & bi1 & buffer1 & Hnext). rewrite len_cons in Hl.
    set (k := buffer1.[bi1]).
    destruct (IH ctx1 (bi1 + 1) buffer1 (done ++ [x]) ltac:(len_lia)) as (ctx' & data' & Hld & Hrun).
    exists ctx', (x .^ k :: data'). split; [by rewrite !len_cons, Hld|].
    intros done' [|fuel] Hd Hf; [simpl in Hf; lia|]. cbn [ctr_loop]. pose proof (len_nonneg data).
    destruct (Z.ltb_spec (len done') length_); [|lia]. rewrite Hnext, bind_some.
    cbn [app]. change (x :: data ++ rest) with ([x] ++ data ++ rest).
    change (x .^ k :: data' ++ rest) with ([x .^ k] ++ data' ++ rest).
    rewrite !load_mid, !bind_some by done.
    change [?a].[0] with a. fold k. rewrite !put_mid, !bind_some by done.
    rewrite Z.lxor_assoc, Z.lxor_nilpotent, Z.lxor_0_r.
    destruct (Hrun (done' ++ [x .^ k]) fuel ltac:(len_lia) ltac:(simpl in Hf; lia)) as [H1 _].
    destruct (Hrun (done' ++ [x]) fuel ltac:(len_lia) ltac:(simpl in Hf; lia)) as [_ H2].
    rewrite len_app in H1, H2. change (len [?y]) with 1 in H1, H2.
    rewrite <- !app_assoc in H1, H2. by split.
Qed.

(** Counter mode is an involution: crypting twice from the same context gives
    the buffer back, whatever the key stream. *)
Theorem ctr_involution (ctx : AES_ctx) (data rest : list Z) :
  exists ctx' cipher,
    AES_CTR_xcrypt_buffer ctx (data ++ rest) (len data) = Some (ctx', cipher ++ rest) /\
    len cipher = len data /\
    AES_CTR_xcrypt_buffer ctx (cipher ++ rest) (len data) = Some (ctx', data ++ rest).
Proof.
  destruct (ctr_loop_twice rest data ctx AES_BLOCKLEN [] (len data) [] eq_refl)
    as (ctx' & data' & Hl & Hrun).
  destruct (Hrun [] (S (Z.to_nat (len data))) eq_refl ltac:(unfold len; lia)) as [H1 H2].
  by exists ctx', data'.
Qed.
