(* ===== verification/Cursor.v ===== *)
(** * Cursors: [include/cursor.h]

    A [struct cursor] is three pointers into one object.  The object is a list
    of bytes, the pointers are offsets in it, and an operation runs on the
    cursor and the memory of its object, in a state monad over [option]: [None]
    is an access outside the object, which [wf] cursors never make.  The
    operations that can fail return [false] (C's 0) and leave the state as the
    code leaves it.

    The writers compose with C's [&&]; [Appends m t k] is the contract a client
    uses: [m] writes the text [t] when [len t + k] bytes of room are left
    ([k] = 1 for [cursor_push], which never fills the last byte, [k] = 0 for
    [cursor_push_byte]) and fails otherwise, inside the cursor's range.

    Sizes of type [int] are multiplied and added as the code does, a result
    outside [int] being undefined ([None]).  The allocators add an
    [unsigned long] to a pointer; they take the address [base] of the object,
    and the sum wraps at 2^64 ([ptr_add]).  The other operations add an [int]
    to a pointer, which cannot wrap for an object that lies in the lower half
    of the address space, 2^31 bytes above its bottom. *)
From S2P Require Import Prelude Endian.

Record cursor := Cursor {
  start : Z;
  p : Z;
  end_ : Z
}.

Record array := Array { cur : cursor; elem_size : Z }.

(** The cursor and the memory of the object it points into. *)
Definition state : Type := cursor * list Z.

Definition CM (A : Type) : Type := state -> option (A * state).

Definition ret {A} (a : A) : CM A := fun s => Some (a, s).
Definition bind {A B} (m : CM A) (f : A -> CM B) : CM B :=
  fun s => '(a, s) ← m s; f a s.

Notation "'DO' x <- m 'THEN' k" := (bind m (fun x => k))
  (at level 10, x name, m at level 99, k at level 200) : c_scope.

(** C's [&&] on the results. *)
Definition andM (m1 m2 : CM bool) : CM bool := DO b <- m1 THEN if b then m2 else ret false.

Notation "a 'AND' b" := (andM a b) (at level 56, right associativity) : c_scope.

Definition set_p (c : cursor) (p' : Z) : cursor := Cursor (start c) p' (end_ c).

(** Loads and stores of the object. *)
Definition load (off n : Z) (mem : list Z) : option (list Z) :=
  if (0 <=? n) && (0 <=? off) && (off + n <=? len mem) then Some (slice off n mem) else None.

(** The result of an [int] operation: overflow is undefined. *)
Definition int_result (z : Z) : option Z :=
  if (- 2 ^ 31 <=? z) && (z <? 2 ^ 31) then Some z else None.

(** A pointer plus an [unsigned long], as an offset in the object at [base]. *)
Definition ptr_add (base q n : Z) : Z := u64 (base + q + n) - base.

(** ** Operations that only move pointers *)

Definition reset_cursor (c : cursor) : cursor := set_p c (start c).

Definition wipe_cursor : CM unit := fun '(c, mem) =>
  let c := reset_cursor c in
  mem ← put (start c) (repeat 0 (Z.to_nat (end_ c - start c))) mem;
  Some (tt, (c, mem)).

Definition make_cursor (start end_ : Z) : cursor := Cursor start start end_.
Definition make_array (start end_ elem_size : Z) : array := Array (make_cursor start end_) elem_size.
Definition cursor_eof (c : cursor) : bool := p c =? end_ c.
Definition copy_cursor (src : cursor) : cursor := Cursor (start src) (p src) (end_ src).
Definition cursor_len (c : cursor) : Z := to_signed 32 (p c - start c).
Definition cursor_count (c : cursor) (elem_size : Z) : Z := u64 (cursor_len c) / elem_size.
Definition cursor_remaining_capacity (c : cursor) : Z := to_signed 32 (end_ c - p c).

Definition index_cursor (c : cursor) (index elem_size : Z) : option Z :=
  let p := start c + u32 (elem_size * index) in
  if end_ c <=? p then None else Some p.

(** ** Allocation *)

Definition cursor_malloc (base size : Z) : CM (option Z) := fun '(mem, m) =>
  if end_ mem <? ptr_add base (p mem) size then Some (None, (mem, m))
  else Some (Some (p mem), (set_p mem (ptr_add base (p mem) size), m)).

Definition cursor_alloc (base size : Z) : CM (option Z) :=
  DO r <- cursor_malloc base size THEN
  match r with
  | None => ret None
  | Some r => fun '(c, mem) => mem ← put r (repeat 0 (Z.to_nat size)) mem; Some (Some r, (c, mem))
  end.

(** The slice is the second result. *)
Definition cursor_slice (base size : Z) : CM (option cursor) :=
  DO r <- cursor_alloc base size THEN
  match r with
  | None => ret None
  | Some r => fun '(c, mem) => Some (Some (make_cursor r (p c)), (c, mem))
  end.

(** ** Reading; the bytes read are the result *)

Definition pull_byte : CM (option Z) := fun '(c, mem) =>
  if end_ c <? p c + 1 then Some (None, (c, mem))
  else b ← load (p c) 1 mem; Some (Some b.[0], (set_p c (p c + 1), mem)).

(** [for (; p < end; p++)]; the offset of the string and whether it ends. *)
Fixpoint pull_c_str_loop (fuel : nat) : CM bool := fun '(c, mem) =>
  match fuel with
  | O => None
  | S fuel =>
      if p c <? end_ c then
        b ← load (p c) 1 mem;
        if b.[0] =? 0 then Some (true, (set_p c (p c + 1), mem))
        else pull_c_str_loop fuel (set_p c (p c + 1), mem)
      else Some (false, (c, mem))
  end.

Definition cursor_pull_c_str : CM (Z * bool) := fun '(c, mem) =>
  '(b, s) ← pull_c_str_loop (S (Z.to_nat (end_ c - p c))) (c, mem);
  Some ((p c, b), s).

Definition cursor_pull (n : Z) : CM (option (list Z)) := fun '(c, mem) =>
  if end_ c <? p c + n then Some (None, (c, mem))
  else data ← load (p c) n mem; Some (Some data, (set_p c (p c + n), mem)).

(** A cursor of another object receives the data. *)
Definition pull_data_into_cursor (n : Z) (dest : state) : CM (option Z * state) := fun s =>
  let '(d, dmem) := dest in
  if end_ d <? p d + n then Some ((None, dest), s)
  else
    '(r, s) ← cursor_pull n s;
    match r with
    | None => Some ((None, dest), s)
    | Some data => dmem ← put (p d) data dmem; Some ((Some (p d), (set_p d (p d + n), dmem)), s)
    end.

Definition cursor_dropn (size n : Z) : CM bool := fun '(c, mem) =>
  if n =? 0 then Some (true, (c, mem))
  else
    d ← int_result (size * n);
    if p c - d <? start c then Some (false, (c, mem))
    else Some (true, (set_p c (p c - d), mem)).

Definition cursor_drop (size : Z) : CM bool := cursor_dropn size 1.

(** [Some None] is the null pointer. *)
Definition cursor_topn (c : cursor) (l n : Z) : option (option Z) :=
  n ← int_result (n + 1);
  d ← int_result (l * n);
  Some (if p c - d <? start c then None else Some (p c - d)).

Definition cursor_top (c : cursor) (l : Z) : option Z :=
  if p c - l <? start c then None else Some (p c - l).

Definition cursor_top_int : CM (option Z) := fun '(c, mem) =>
  match cursor_top c 4 with
  | None => Some (None, (c, mem))
  | Some q => b ← load q 4 mem; Some (Some (to_signed 32 (load_le b)), (c, mem))
  end.

Definition cursor_pop (l : Z) : CM (option (list Z)) := fun '(c, mem) =>
  if p c - l <? start c then Some (None, (c, mem))
  else
    let c := set_p c (p c - l) in
    data ← load (p c) l mem; Some (Some data, (c, mem)).

Definition cursor_pull_int : CM (option Z) :=
  DO r <- cursor_pull 4 THEN ret (option_map (fun b => to_signed 32 (load_le b)) r).

(** ** Writing *)

Definition cursor_push_byte (b : Z) : CM bool := fun '(c, mem) =>
  if end_ c <? p c + 1 then Some (false, (c, mem))
  else mem ← put (p c) [u8 b] mem; Some (true, (set_p c (p c + 1), mem)).

(** [n] bytes of [data], which lies outside the object; reading more bytes than
    [data] has, or a negative count, is an access outside an object. *)
Definition cursor_push (data : list Z) (n : Z) : CM bool := fun '(c, mem) =>
  if end_ c <=? p c + n then Some (false, (c, mem))
  else
    d ← load 0 n data;
    mem ← put (p c) d mem;
    Some (true, (set_p c (p c + n), mem)).

Definition cursor_push_int (i : Z) : CM bool := cursor_push (store_le 4 i) 4.
Definition cursor_push_u16 (i : Z) : CM bool := cursor_push (store_le 2 i) 2.

(** A C string is the list of its bytes before the NUL; its [strlen] becomes
    the [int] argument. *)
Definition push_sized_str (str : list Z) (l : Z) : CM bool := cursor_push str l.
Definition cursor_push_str (str : list Z) : CM bool := cursor_push str (to_signed 32 (len str)).
Definition cursor_push_c_str (str : list Z) : CM bool := cursor_push_str str AND cursor_push_byte 0.

(** ** Well-formed cursors and the room that is left *)

Record wf (s : state) : Prop := {
  wf_start : 0 <= start s.1;
  wf_p : start s.1 <= p s.1;
  wf_end : p s.1 <= end_ s.1;
  wf_mem : end_ s.1 <= len s.2;
}.

Definition room (s : state) : Z := end_ s.1 - p s.1.

(** The cursor moved inside its range and wrote between the two positions at
    most: the rest of the object, and the bytes before [p], are untouched. *)
Record step (s s' : state) : Prop := {
  step_start : start s'.1 = start s.1;
  step_end : end_ s'.1 = end_ s.1;
  step_len : len s'.2 = len s.2;
  step_before : take (Z.to_nat (p s.1)) s'.2 = take (Z.to_nat (p s.1)) s.2;
  step_after : drop (Z.to_nat (end_ s.1)) s'.2 = drop (Z.to_nat (end_ s.1)) s.2;
  step_p : p s.1 <= p s'.1;
}.

(** The text the cursor holds. *)
Definition text (s : state) : list Z := slice (start s.1) (p s.1 - start s.1) s.2.

(** The state after appending [t]. *)
Definition appended (s : state) (t : list Z) : state :=
  (set_p s.1 (p s.1 + len t), splice (p s.1) t s.2).

(** The contract of a writer. *)
Definition Appends (m : CM bool) (t : list Z) (k : Z) : Prop := forall s, wf s ->
  if len t + k <=? room s then m s = Some (true, appended s t)
  else exists s', m s = Some (false, s') /\ wf s' /\ step s s'.

(** ** Every step stays in the object *)

Lemma step_refl s : step s s.
Proof. by split. Qed.

Lemma step_trans s1 s2 s3 : step s1 s2 -> step s2 s3 -> step s1 s3.
Proof.
  intros [A1 A2 A3 A4 A5 A6] [B1 B2 B3 B4 B5 B6]. split; try congruence; [|lia].
  rewrite <- A4. apply (f_equal (take (Z.to_nat (p s1.1)))) in B4.
  rewrite !take_take in B4. by replace (Z.to_nat (p s1.1) `min` Z.to_nat (p s2.1))%nat
    with (Z.to_nat (p s1.1)) in B4 by lia.
Qed.

Lemma appended_step s d : wf s -> len d <= room s -> wf (appended s d) /\ step s (appended s d).
Proof.
  destruct s as [c mem]. intros [H1 H2 H3 H4] Hd. unfold room in Hd. cbn [fst snd] in *.
  pose proof (len_nonneg d).
  assert (length (splice (p c) d mem) = length mem) as Hl by (apply splice_length; lia).
  split; split; cbn [fst snd appended set_p start p end_]; try (unfold len in *; lia).
  - apply take_splice; lia.
  - apply drop_splice; lia.
Qed.

Lemma put_appended s d :
  wf s -> len d <= room s -> put (p s.1) d s.2 = Some (splice (p s.1) d s.2).
Proof.
  destruct s as [c mem]. intros [H1 H2 H3 H4] Hd. unfold room in Hd. cbn [fst snd] in *. unfold put.
  destruct (Z.leb_spec 0 (p c)); [|lia]. by destruct (Z.leb_spec (p c + len d) (len mem)); [|lia].
Qed.

Lemma room_appended s d : room (appended s d) = room s - len d.
Proof. destruct s as [c mem]. unfold room, appended. cbn [fst set_p p end_]. lia. Qed.

Lemma appended_app s d1 d2 :
  wf s -> len d1 + len d2 <= room s -> appended (appended s d1) d2 = appended s (d1 ++ d2).
Proof.
  destruct s as [c mem]. intros [H1 H2 H3 H4] Hd. unfold room in Hd. cbn [fst snd] in *.
  unfold appended, set_p. cbn [fst snd start p end_]. rewrite splice_splice by lia.
  rewrite len_app. do 2 f_equal. lia.
Qed.

Lemma text_appended s d : wf s -> len d <= room s -> text (appended s d) = text s ++ d.
Proof.
  destruct s as [c mem]. intros [H1 H2 H3 H4] Hd. unfold room in Hd. cbn [fst snd] in *.
  destruct (cut_at (p c) (len d) mem) as (x & y & z & -> & Hx & Hy); [lia|len_lia|lia|].
  unfold text, appended, set_p. cbn [fst snd start p end_]. rewrite (splice_at x y) by len_lia.
  destruct (cut_at (start c) (p c - start c) x) as (x1 & x2 & x3 & -> & Hx1 & Hx2); [lia..|].
  assert (x3 = []) as -> by (apply nil_length_inv; len_lia). rewrite app_nil_r.
  rewrite <- !app_assoc, <- Hx1, !slice_at. rewrite (app_assoc x2 d z).
  rewrite !take_app_length' by len_lia. done.
Qed.

(** ** The writers *)

Lemma Appends_push_byte b : Appends (cursor_push_byte b) [u8 b] 0.
Proof.
  intros [c mem] Hwf. unfold cursor_push_byte.
  change (len [u8 b]) with 1. unfold room; cbn [fst snd].
  destruct (Z.ltb_spec (end_ c) (p c + 1)).
  - destruct (Z.leb_spec (1 + 0) (end_ c - p c)); [lia|]. eauto using step_refl.
  - destruct (Z.leb_spec (1 + 0) (end_ c - p c)); [|lia].
    pose proof (put_appended (c, mem) [u8 b] Hwf) as E. cbn [fst snd] in E.
    rewrite E by (unfold room; cbn [fst]; change (len [u8 b]) with 1; lia). done.
Qed.

Lemma load_all d : load 0 (len d) d = Some d.
Proof.
  unfold load. pose proof (len_nonneg d). destruct (Z.leb_spec 0 (len d)); [|lia].
  destruct (Z.leb_spec (0 + len d) (len d)); [|lia]. cbn [andb Z.leb Z.compare].
  f_equal. unfold slice. rewrite take_ge; [done|]. cbn [Z.to_nat drop]. len_lia.
Qed.

Lemma Appends_push d : Appends (cursor_push d (len d)) d 1.
Proof.
  intros [c mem] Hwf. unfold cursor_push. unfold room; cbn [fst snd].
  destruct (Z.leb_spec (end_ c) (p c + len d)).
  - destruct (Z.leb_spec (len d + 1) (end_ c - p c)); [lia|]. eauto using step_refl.
  - destruct (Z.leb_spec (len d + 1) (end_ c - p c)); [|lia]. rewrite load_all, bind_some.
    pose proof (put_appended (c, mem) d Hwf) as E. cbn [fst snd] in E.
    rewrite E by (unfold room; cbn [fst]; lia). done.
Qed.

Lemma to_signed_id w z : 0 < w -> 0 <= z < 2 ^ (w - 1) -> to_signed w z = z.
Proof.
  intros Hw Hz. unfold to_signed. rewrite wrap_id.
  - cbv zeta. destruct (Z.ltb_spec z (2 ^ (w - 1))); [done|lia].
  - split; [lia|]. apply Z.lt_le_trans with (2 ^ (w - 1)); [lia|]. apply Z.pow_le_mono_r; lia.
Qed.

Lemma Appends_push_str str : len str < 2 ^ 31 -> Appends (cursor_push_str str) str 1.
Proof.
  intros. unfold cursor_push_str. rewrite to_signed_id by (lia || (split; [len_lia|done])).
  apply Appends_push.
Qed.

Lemma Appends_ret : Appends (ret true) [] 0.
Proof.
  intros [c mem] Hwf. unfold room; cbn [fst]. destruct Hwf as [? ? ? ?]. cbn [fst snd] in *.
  change (len []) with 0. destruct (Z.leb_spec (0 + 0) (end_ c - p c)); [|lia].
  unfold ret, appended, splice, set_p. cbn [fst snd]. rewrite Z.add_0_r. cbn [app length].
  rewrite Nat.add_0_r, take_drop. by destruct c.
Qed.

(** Sequencing with [&&]. *)
Lemma Appends_and m1 t1 k1 m2 t2 k2 :
  k1 <= len t2 + k2 -> 0 <= k1 -> 0 <= k2 -> Appends m1 t1 k1 -> Appends m2 t2 k2 ->
  Appends (m1 AND m2) (t1 ++ t2) k2.
Proof.
  intros Hk Hk1 Hk2 H1 H2 s Hwf. specialize (H1 s Hwf). unfold andM, bind.
  pose proof (len_nonneg t1). pose proof (len_nonneg t2). rewrite len_app.
  destruct (Z.leb_spec (len t1 + k1) (room s)) as [Hr|Hr].
  - rewrite H1, bind_some. destruct (appended_step s t1 Hwf) as [Hwf1 Hst]; [lia|].
    specialize (H2 _ Hwf1). rewrite room_appended in H2.
    destruct (Z.leb_spec (len t2 + k2) (room s - len t1)) as [Hr2|Hr2];
      destruct (Z.leb_spec (len t1 + len t2 + k2) (room s)); try lia.
    + by rewrite H2, appended_app by (done || lia).
    + destruct H2 as (s' & -> & ? & ?). exists s'. eauto using step_trans.
  - destruct (Z.leb_spec (len t1 + len t2 + k2) (room s)); [lia|].
    destruct H1 as (s' & -> & ? & ?). rewrite bind_some. exists s'. eauto.
Qed.

Lemma Appends_push_c_str str :
  len str < 2 ^ 31 -> Appends (cursor_push_c_str str) (str ++ [0]) 0.
Proof.
  intros. apply (Appends_and _ _ 1); [done..| |]; [by apply Appends_push_str|apply Appends_push_byte].
Qed.

(** ** Reading back *)

Lemma load_ok off n mem : 0 <= n -> 0 <= off -> off + n <= len mem -> load off n mem = Some (slice off n mem).
Proof.
  intros. unfold load. destruct (Z.leb_spec 0 n); [|lia]. destruct (Z.leb_spec 0 off); [|lia].
  by destruct (Z.leb_spec (off + n) (len mem)); [|lia].
Qed.

Lemma slice_splice off d mem :
  0 <= off -> off + len d <= len mem -> slice off (len d) (splice off d mem) = d.
Proof. apply slice_splice_same. Qed.

Lemma pop_appended s d :
  wf s -> len d <= room s ->
  cursor_pop (len d) (appended s d) = Some (Some d, (s.1, splice (p s.1) d s.2)).
Proof.
  destruct s as [c mem]. intros [H1 H2 H3 H4] Hd. unfold room in Hd. cbn [fst snd] in *.
  pose proof (len_nonneg d). unfold cursor_pop, appended, set_p. cbn [fst snd start p end_].
  rewrite Z.add_simpl_r. destruct (Z.ltb_spec (p c) (start c)); [lia|].
  assert (length (splice (p c) d mem) = length mem) as Hl by (apply splice_length; lia).
  rewrite load_ok, bind_some, slice_splice by (unfold len in *; lia). by destruct c.
Qed.

Lemma pull_pushed s d :
  wf s -> len d <= room s ->
  cursor_pull (len d) (set_p (appended s d).1 (p s.1), (appended s d).2) = Some (Some d, appended s d).
Proof.
  destruct s as [c mem]. intros [H1 H2 H3 H4] Hd. unfold room in Hd. cbn [fst snd] in *.
  pose proof (len_nonneg d). unfold cursor_pull, appended, set_p. cbn [fst snd start p end_].
  destruct (Z.ltb_spec (end_ c) (p c + len d)); [lia|].
  assert (length (splice (p c) d mem) = length mem) as Hl by (apply splice_length; lia).
  by rewrite load_ok, bind_some, slice_splice by (unfold len in *; lia).
Qed.

(** ** Traces of operations *)

(** [Top] and [Index] read what the pointer they get points to. *)
Inductive op :=
| Reset | Wipe | Malloc (size : Z) | Alloc (size : Z) | Slice (size : Z)
| PullByte | PullCStr | Pull (n : Z) | PullInt | Drop (size n : Z) | Top (l n : Z) | TopInt | Pop (n : Z)
| Index (i size : Z) | PullInto (n : Z) (dest : state)
| PushByte (b : Z) | Push (d : list Z) | PushInt (i : Z) | PushU16 (i : Z) | PushCStr (str : list Z).

(** Sizes and counts are not negative, an [int] and its products are at most
    [INT_MAX], an allocation is below 2^63. *)
Definition op_ok (o : op) : Prop :=
  match o with
  | Malloc n | Alloc n | Slice n => 0 <= n < 2 ^ 63
  | Pull n | Pop n => 0 <= n < 2 ^ 31
  | PullInto n dest => 0 <= n < 2 ^ 31 /\ wf dest
  | Drop size n => 0 <= size /\ 0 <= n /\ size * n < 2 ^ 31
  | Top l n => 0 <= l /\ 0 <= n /\ n + 1 < 2 ^ 31 /\ l * (n + 1) < 2 ^ 31
  | Push str | PushCStr str => len str < 2 ^ 31
  | _ => True
  end.

(** Reading [n] bytes through a pointer that may be null. *)
Definition deref (n : Z) (q : option Z) : CM unit := fun '(c, mem) =>
  match q with
  | None => Some (tt, (c, mem))
  | Some q => _ ← load q n mem; Some (tt, (c, mem))
  end.

Definition ignore {A} (m : CM A) : CM unit := DO _ <- m THEN ret tt.

Definition run (base : Z) (o : op) : CM unit :=
  match o with
  | Reset => fun '(c, mem) => Some (tt, (reset_cursor c, mem))
  | Wipe => wipe_cursor
  | Malloc n => ignore (cursor_malloc base n)
  | Alloc n => ignore (cursor_alloc base n)
  | Slice n => ignore (cursor_slice base n)
  | PullByte => ignore pull_byte
  | PullCStr => ignore cursor_pull_c_str
  | Pull n => ignore (cursor_pull n)
  | PullInt => ignore cursor_pull_int
  | Drop size n => ignore (cursor_dropn size n)
  | Top l n => fun '(c, mem) => q ← cursor_topn c l n; deref l q (c, mem)
  | TopInt => ignore cursor_top_int
  | Pop n => ignore (cursor_pop n)
  | PullInto n dest => ignore (pull_data_into_cursor n dest)
  | Index i size => fun '(c, mem) => deref 1 (index_cursor c i size) (c, mem)
  | PushByte b => ignore (cursor_push_byte b)
  | Push d => ignore (cursor_push d (len d))
  | PushInt i => ignore (cursor_push_int i)
  | PushU16 i => ignore (cursor_push_u16 i)
  | PushCStr str => ignore (cursor_push_c_str str)
  end.

Fixpoint run_all (base : Z) (os : list op) : CM unit :=
  match os with [] => ret tt | o :: os => DO _ <- run base o THEN run_all base os end.

(** The cursor still describes the same range, and nothing outside it changed. *)
Record confined (s s' : state) : Prop := {
  conf_start : start s'.1 = start s.1;
  conf_end : end_ s'.1 = end_ s.1;
  conf_len : len s'.2 = len s.2;
  conf_before : take (Z.to_nat (start s.1)) s'.2 = take (Z.to_nat (start s.1)) s.2;
  conf_after : drop (Z.to_nat (end_ s.1)) s'.2 = drop (Z.to_nat (end_ s.1)) s.2;
}.

Lemma confined_refl s : confined s s.
Proof. by split. Qed.

Lemma confined_trans s1 s2 s3 : confined s1 s2 -> confined s2 s3 -> confined s1 s3.
Proof. intros [A1 A2 A3 A4 A5] [B1 B2 B3 B4 B5]. split; congruence. Qed.

Lemma step_confined s s' : wf s -> step s s' -> confined s s'.
Proof.
  intros [H1 H2 H3 H4] [A1 A2 A3 A4 A5 A6]. split; try done.
  apply (f_equal (take (Z.to_nat (start s.1)))) in A4. rewrite !take_take in A4.
  by replace (Z.to_nat (start s.1) `min` Z.to_nat (p s.1))%nat with (Z.to_nat (start s.1)) in A4 by lia.
Qed.

(** Where the object may lie: no pointer that an operation computes wraps. *)
Definition placed (base : Z) (s : state) : Prop := 2 ^ 31 <= base /\ base + len s.2 <= 2 ^ 63.

Lemma placed_confined base s s' : placed base s -> confined s s' -> placed base s'.
Proof. intros [H1 H2] C. split; [done|]. by rewrite (conf_len _ _ C). Qed.

Lemma int_result_ok z : - 2 ^ 31 <= z < 2 ^ 31 -> int_result z = Some z.
Proof.
  intros. unfold int_result. destruct (Z.leb_spec (- 2 ^ 31) z); [|lia]. by destruct (Z.ltb_spec z (2 ^ 31)); [|lia].
Qed.

Lemma ptr_add_id base q n : 0 <= base + q + n < 2 ^ 64 -> ptr_add base q n = q + n.
Proof. intros. unfold ptr_add. rewrite wrap_id by done. lia. Qed.

Section traces.
Context (base : Z).

(** [m] succeeds, stays well-formed and confined. *)
Definition Safe {A} (m : CM A) : Prop := forall s, wf s -> placed base s ->
  exists a s', m s = Some (a, s') /\ wf s' /\ confined s s'.

Lemma Safe_bind {A B} (m : CM A) (f : A -> CM B) : Safe m -> (forall a, Safe (f a)) -> Safe (bind m f).
Proof.
  intros Hm Hf s Hs Hb. destruct (Hm s Hs Hb) as (a & s1 & E & Hs1 & C1). unfold bind. rewrite E, bind_some.
  destruct (Hf a s1 Hs1) as (b & s2 & E2 & Hs2 & C2); [by eapply placed_confined|].
  exists b, s2. eauto using confined_trans.
Qed.

Lemma Safe_ret {A} (a : A) : Safe (ret a).
Proof. intros s Hs _. exists a, s. auto using confined_refl. Qed.

Lemma Safe_ignore {A} (m : CM A) : Safe m -> Safe (ignore m).
Proof. intros. apply Safe_bind; [done|]. intros. apply Safe_ret. Qed.

(** A writer that keeps its contract is safe. *)
Lemma Safe_Appends m t k : Appends m t k -> 0 <= k -> Safe m.
Proof.
  intros H Hk s Hs _. specialize (H s Hs). destruct (Z.leb_spec (len t + k) (room s)).
  - destruct (appended_step s t Hs) as [? ?]; [lia|]. eauto 10 using step_confined.
  - destruct H as (s' & -> & ? & ?). eauto 10 using step_confined.
Qed.

(** Moving [p] inside the range changes nothing else. *)
Lemma set_p_ok c mem q :
  wf (c, mem) -> start c <= q <= end_ c -> wf (set_p c q, mem) /\ confined (c, mem) (set_p c q, mem).
Proof. intros [H1 H2 H3 H4] Hq. cbn [fst snd] in *. by repeat split; cbn [fst snd set_p start p end_]; try lia. Qed.

(** Writing inside the range. *)
Lemma write_ok c mem q d :
  wf (c, mem) -> start c <= q -> q + len d <= end_ c ->
  put q d mem = Some (splice q d mem) /\ wf (c, splice q d mem) /\ confined (c, mem) (c, splice q d mem).
Proof.
  intros [H1 H2 H3 H4] Hq Hd. cbn [fst snd] in *. pose proof (len_nonneg d).
  assert (length (splice q d mem) = length mem) as Hl by (apply splice_length; lia).
  split_and!.
  - unfold put. destruct (Z.leb_spec 0 q); [|lia]. by destruct (Z.leb_spec (q + len d) (len mem)); [|lia].
  - split; cbn [fst snd]; unfold len in *; lia.
  - split; cbn [fst snd]; try done; [unfold len; lia|apply take_splice; lia|apply drop_splice; lia].
Qed.

Lemma malloc_spec n c mem :
  0 <= n < 2 ^ 63 -> wf (c, mem) -> placed base (c, mem) ->
  if end_ c <? p c + n then cursor_malloc base n (c, mem) = Some (None, (c, mem))
  else cursor_malloc base n (c, mem) = Some (Some (p c), (set_p c (p c + n), mem)).
Proof.
  intros Hn [H1 H2 H3 H4] [H5 H6]. cbn [fst snd] in *. unfold cursor_malloc.
  rewrite ptr_add_id by lia. by case_match.
Qed.

(** Allocation returns zeroed memory just below the new [p]. *)
Lemma alloc_spec n c mem :
  0 <= n < 2 ^ 63 -> wf (c, mem) -> placed base (c, mem) ->
  (p c + n <= end_ c /\ cursor_alloc base n (c, mem) =
     Some (Some (p c), (set_p c (p c + n), splice (p c) (repeat 0 (Z.to_nat n)) mem)) /\
     wf (set_p c (p c + n), splice (p c) (repeat 0 (Z.to_nat n)) mem) /\
     confined (c, mem) (set_p c (p c + n), splice (p c) (repeat 0 (Z.to_nat n)) mem)) \/
  (end_ c < p c + n /\ cursor_alloc base n (c, mem) = Some (None, (c, mem))).
Proof.
  intros Hn Hs Hb. pose proof Hs as [H1 H2 H3 H4]. cbn [fst snd] in *.
  pose proof (malloc_spec n c mem Hn Hs Hb) as Em.
  unfold cursor_alloc, bind. destruct (Z.ltb_spec (end_ c) (p c + n)) as [|Hr]; rewrite Em; [by right|left].
  destruct (set_p_ok c mem (p c + n) Hs) as [Hs' C']; [lia|].
  destruct (write_ok (set_p c (p c + n)) mem (p c) (repeat 0 (Z.to_nat n)) Hs') as (E & Hs2 & C2);
    [done|cbn [set_p end_]; len_lia|].
  rewrite bind_some, E, bind_some. split_and!; [lia|done..|]. by eapply confined_trans.
Qed.

Lemma Safe_malloc n : 0 <= n < 2 ^ 63 -> Safe (cursor_malloc base n).
Proof.
  intros Hn [c mem] Hs Hb. pose proof (malloc_spec n c mem Hn Hs Hb) as E. pose proof Hs as [H1 H2 H3 H4].
  cbn [fst snd] in *. destruct (Z.ltb_spec (end_ c) (p c + n)); rewrite E; [eauto 10 using confined_refl|].
  destruct (set_p_ok c mem (p c + n) Hs) as [? ?]; [lia|]. eauto 10.
Qed.

Lemma Safe_alloc n : 0 <= n < 2 ^ 63 -> Safe (cursor_alloc base n).
Proof.
  intros Hn [c mem] Hs Hb. destruct (alloc_spec n c mem Hn Hs Hb) as [(_ & -> & ? & ?)|[_ ->]];
    eexists _, _; eauto using confined_refl.
Qed.

(** Reading through a pointer inside the range. *)
Lemma Safe_deref n q c mem :
  0 <= n -> wf (c, mem) -> (forall q', q = Some q' -> start c <= q' /\ q' + n <= end_ c) ->
  exists a s', deref n q (c, mem) = Some (a, s') /\ wf s' /\ confined (c, mem) s'.
Proof.
  intros Hn Hs Hq. pose proof Hs as [H1 H2 H3 H4]. cbn [fst snd] in *.
  destruct q as [q|]; cbn [deref]; [|eauto using confined_refl].
  destruct (Hq q eq_refl). rewrite load_ok, bind_some by lia. eauto using confined_refl.
Qed.

Lemma Safe_pull_into n dest : 0 <= n -> wf dest -> Safe (pull_data_into_cursor n dest).
Proof.
  intros Hn Hd [c mem] Hs Hb. destruct dest as [d dmem]. pose proof Hs as [H1 H2 H3 H4].
  pose proof Hd as [D1 D2 D3 D4]. cbn [fst snd] in *. unfold pull_data_into_cursor, cursor_pull.
  destruct (Z.ltb_spec (end_ d) (p d + n)); [eauto 10 using confined_refl|].
  destruct (Z.ltb_spec (end_ c) (p c + n)); [rewrite bind_some; eauto 10 using confined_refl|].
  rewrite load_ok, bind_some by lia. destruct (set_p_ok c mem (p c + n) Hs) as [? ?]; [lia|].
  rewrite bind_some. destruct (write_ok d dmem (p d) (slice (p c) n mem) Hd) as (-> & _ & _);
    [done|unfold len, slice in *; rewrite length_take, length_drop; lia|]. eauto 10.
Qed.

Lemma Safe_pull n : 0 <= n -> Safe (cursor_pull n).
Proof.
  intros Hn [c mem] Hs _. pose proof Hs as [H1 H2 H3 H4]. cbn [fst snd] in *. unfold cursor_pull.
  destruct (Z.ltb_spec (end_ c) (p c + n)); [eexists _, _; eauto using confined_refl|].
  rewrite load_ok, bind_some by lia.
  destruct (set_p_ok c mem (p c + n) Hs) as [? ?]; [lia|]. eauto 10.
Qed.

Lemma Safe_pull_byte : Safe pull_byte.
Proof.
  intros [c mem] Hs _. pose proof Hs as [H1 H2 H3 H4]. cbn [fst snd] in *. unfold pull_byte.
  destruct (Z.ltb_spec (end_ c) (p c + 1)); [eexists _, _; eauto using confined_refl|].
  rewrite load_ok, bind_some by lia.
  destruct (set_p_ok c mem (p c + 1) Hs) as [? ?]; [lia|]. eauto 10.
Qed.

Lemma pull_c_str_loop_safe fuel c mem :
  wf (c, mem) -> end_ c - p c < Z.of_nat fuel ->
  exists b s', pull_c_str_loop fuel (c, mem) = Some (b, s') /\ wf s' /\ confined (c, mem) s'.
Proof.
  revert c. induction fuel as [|fuel IH]; intros c Hs Hf; [pose proof (wf_end _ Hs); cbn [fst] in *; lia|].
  cbn [pull_c_str_loop]. pose proof Hs as [H1 H2 H3 H4]. cbn [fst snd] in *.
  destruct (Z.ltb_spec (p c) (end_ c)); [|eauto 10 using confined_refl].
  rewrite load_ok, bind_some by lia. destruct (set_p_ok c mem (p c + 1) Hs) as [Hs' C']; [lia|].
  case_match; [by eauto 10|].
  destruct (IH _ Hs') as (b & s' & -> & ? & ?); [cbn [set_p p end_]; lia|]. eauto 10 using confined_trans.
Qed.

Lemma Safe_run o : op_ok o -> Safe (run base o).
Proof.
  intros Ho. destruct o; cbn [op_ok run] in *.
  - intros [c mem] Hs Hb. pose proof Hs as [H1 H2 H3 H4]. cbn [fst snd] in *.
    destruct (set_p_ok c mem (start c) Hs) as [? ?]; [lia|]. unfold reset_cursor. eauto 10.
  - intros [c mem] Hs Hb. pose proof Hs as [H1 H2 H3 H4]. cbn [fst snd] in *. unfold wipe_cursor.
    destruct (set_p_ok c mem (start c) Hs) as [Hs' C']; [lia|].
    destruct (write_ok (reset_cursor c) mem (start c) (repeat 0 (Z.to_nat (end_ c - start c))) Hs')
      as (E & ? & ?); [done|cbn [reset_cursor set_p end_]; len_lia|].
    change (start (reset_cursor c)) with (start c). change (end_ (reset_cursor c)) with (end_ c).
    rewrite E, bind_some. eauto 10 using confined_trans.
  - by apply Safe_ignore, Safe_malloc.
  - by apply Safe_ignore, Safe_alloc.
  - apply Safe_ignore, Safe_bind; [by apply Safe_alloc|]. intros [r|]; [|apply Safe_ret].
    intros [c mem] Hs Hb. eauto 10 using confined_refl.
  - apply Safe_ignore, Safe_pull_byte.
  - apply Safe_ignore. intros [c mem] Hs Hb. unfold cursor_pull_c_str.
    destruct (pull_c_str_loop_safe (S (Z.to_nat (end_ c - p c))) c mem Hs) as (b & s' & E & ? & ?); [lia|].
    rewrite E, bind_some. eauto 10.
  - apply Safe_ignore, Safe_pull. lia.
  - apply Safe_ignore, Safe_bind; [by apply Safe_pull|]. intros. apply Safe_ret.
  - apply Safe_ignore. intros [c mem] Hs Hb. pose proof Hs as [H1 H2 H3 H4]. cbn [fst snd] in *.
    unfold cursor_dropn. destruct Ho as (? & ? & ?). case_match; [eauto 10 using confined_refl|].
    rewrite int_result_ok, bind_some by nia.
    destruct (Z.ltb_spec (p c - size * n) (start c)); [eauto 10 using confined_refl|].
    destruct (set_p_ok c mem (p c - size * n) Hs) as [? ?]; [nia|]. eauto 10.
  - intros [c mem] Hs Hb. pose proof Hs as [H1 H2 H3 H4]. cbn [fst snd] in *. destruct Ho as (? & ? & ? & ?).
    unfold cursor_topn. rewrite int_result_ok, bind_some by lia. rewrite int_result_ok, !bind_some by nia.
    apply Safe_deref; [done..|]. intros q. destruct (Z.ltb_spec (p c - l * (n + 1)) (start c)); [done|].
    intros [= <-]. nia.
  - apply Safe_ignore. intros [c mem] Hs Hb. pose proof Hs as [H1 H2 H3 H4]. cbn [fst snd] in *.
    unfold cursor_top_int, cursor_top. destruct (Z.ltb_spec (p c - 4) (start c)); [eauto 10 using confined_refl|].
    rewrite load_ok, bind_some by lia. eauto 10 using confined_refl.
  - apply Safe_ignore. intros [c mem] Hs Hb. pose proof Hs as [H1 H2 H3 H4]. cbn [fst snd] in *.
    unfold cursor_pop. destruct (Z.ltb_spec (p c - n) (start c)); [eauto 10 using confined_refl|].
    destruct (set_p_ok c mem (p c - n) Hs) as [? ?]; [lia|].
    cbn [set_p p]. rewrite load_ok, bind_some by lia. eauto 10.
  - intros [c mem] Hs Hb. pose proof Hs as [H1 H2 H3 H4]. cbn [fst snd] in *.
    apply Safe_deref; [done..|]. intros q. unfold index_cursor.
    pose proof (in_width_wrap 32 (size * i) ltac:(done)) as [? _]. case_match eqn:E; [done|]. intros [= <-]. lia.
  - apply Safe_ignore. destruct Ho. apply Safe_pull_into; [lia|done].
  - apply Safe_ignore, (Safe_Appends _ [u8 b] 0); [apply Appends_push_byte|done].
  - apply Safe_ignore, (Safe_Appends _ d 1); [apply Appends_push|done].
  - apply Safe_ignore, (Safe_Appends _ (store_le 4 i) 1); [apply (Appends_push (store_le 4 i))|done].
  - apply Safe_ignore, (Safe_Appends _ (store_le 2 i) 1); [apply (Appends_push (store_le 2 i))|done].
  - apply Safe_ignore, (Safe_Appends _ (str ++ [0]) 0); [by apply Appends_push_c_str|done].
Qed.

Lemma Safe_run_all os : Forall op_ok os -> Safe (run_all base os).
Proof.
  induction 1 as [|o os Ho _ IH]; [apply Safe_ret|]. apply Safe_bind; [by apply Safe_run|done].
Qed.
End traces.

(** ** Properties *)

(** C34: no sequence of cursor operations (allocation, pulling, popping, dropping,
    looking below [p], indexing, pushing) leaves the cursor's range: starting
    from a well-formed cursor of an object placed in the lower half of the
    address space, with sizes and counts that are not negative, products within
    [int] and allocations below 2^63, nothing is undefined, every access is
    inside the object, the three pointers stay ordered, [start] and [end] do not
    move, and no byte outside the range changes; operations that do not fit fail
    without an access. *)
Theorem cursor_trace_confined (base : Z) (os : list op) (s : state)
    (Hos : Forall op_ok os) (Hs : wf s) (Hb : placed base s) :
  exists s', run_all base os s = Some (tt, s') /\ wf s' /\ confined s s'.
Proof. destruct (Safe_run_all base os Hos s Hs Hb) as ([] & s' & ?). eauto. Qed.

Lemma cursor_trace_confined_witness :
  exists s', run_all 4294967296 [PushInt 7; Top 2 1; Slice 4; PushCStr [104; 105]; Index 2 4; Reset; PullInt;
    Malloc 9223372036854775807; Drop 2 1; Pop 9; PullInto 2 (make_cursor 0 2, [8; 8]); PullCStr]
    (make_cursor 2 14, repeat 9 16) = Some (tt, s') /\ wf s' /\ confined (make_cursor 2 14, repeat 9 16) s'.
Proof.
  apply cursor_trace_confined; [repeat constructor; vm_compute; congruence| |];
    split; vm_compute; congruence.
Defined.

(** The test [p + size > end] wraps: an allocation of 2^64 - k bytes succeeds on
    every cursor and moves [p] back by [k], below [start] for [k] large enough;
    so does the product of [cursor_dropn] leave [int]. *)
Theorem cursor_malloc_wraps (base k : Z) (c : cursor) (mem : list Z)
    (Hb : 0 <= base) (Hk : 0 < k <= p c) (Hm : base + p c < 2 ^ 64) (He : p c <= end_ c) :
  cursor_malloc base (2 ^ 64 - k) (c, mem) = Some (Some (p c), (set_p c (p c - k), mem)) /\
  cursor_dropn 65536 32768 (c, mem) = None.
Proof.
  split; [|done]. unfold cursor_malloc, ptr_add.
  replace (base + p c + (2 ^ 64 - k)) with (base + (p c - k) + 1 * 2 ^ 64) by lia.
  unfold wrap. rewrite Z.mod_add, Z.mod_small by lia.
  destruct (Z.ltb_spec (end_ c) (base + (p c - k) - base)); [lia|]. do 3 f_equal. unfold set_p. f_equal. lia.
Qed.

Lemma cursor_malloc_wraps_witness :
  cursor_malloc 4294967296 (2 ^ 64 - 8) (Cursor 4 8 16, repeat 0 16) =
    Some (Some 8, (set_p (Cursor 4 8 16) 0, repeat 0 16)) /\
  cursor_dropn 65536 32768 (Cursor 4 8 16, repeat 0 16) = None.
Proof. by apply (cursor_malloc_wraps 4294967296 8 (Cursor 4 8 16)). Defined.

(** What is pushed is read back: pushing [d] succeeds exactly when more than
    [len d] bytes are left, appends [d] to the text, popping it restores the
    position and rereading it from the old position returns it. *)
Theorem cursor_push_read (s : state) (d : list Z) (Hs : wf s) :
  if len d <? room s
  then cursor_push d (len d) s = Some (true, appended s d) /\ text (appended s d) = text s ++ d /\
    cursor_pop (len d) (appended s d) = Some (Some d, (s.1, (appended s d).2)) /\
    cursor_pull (len d) (set_p (appended s d).1 (p s.1), (appended s d).2) = Some (Some d, appended s d)
  else cursor_push d (len d) s = Some (false, s).
Proof.
  destruct (Z.ltb_spec (len d) (room s)) as [Hr|Hr].
  - pose proof (Appends_push d s Hs) as H. destruct (Z.leb_spec (len d + 1) (room s)); [|lia].
    split_and!; [done|apply text_appended; (done || lia)|apply pop_appended; (done || lia)
      |apply pull_pushed; (done || lia)].
  - destruct s as [c mem]. unfold cursor_push, room in *. cbn [fst] in *.
    by destruct (Z.leb_spec (end_ c) (p c + len d)); [|lia].
Qed.

Lemma cursor_push_read_witness :
  let s := (make_cursor 0 4, repeat 9 4) in
  cursor_push [1; 2; 3] 3 s = Some (true, appended s [1; 2; 3]) /\ text (appended s [1; 2; 3]) = text s ++ [1; 2; 3] /\
    cursor_pop 3 (appended s [1; 2; 3]) = Some (Some [1; 2; 3], (s.1, (appended s [1; 2; 3]).2)) /\
    cursor_pull 3 (set_p (appended s [1; 2; 3]).1 0, (appended s [1; 2; 3]).2) =
      Some (Some [1; 2; 3], appended s [1; 2; 3]).
Proof. apply (cursor_push_read (make_cursor 0 4, repeat 9 4) [1; 2; 3]). split; vm_compute; congruence. Defined.

(** The last byte of a cursor's range can be written by [cursor_push_byte]
    but never by [cursor_push], whose test is [>=]: data that exactly fills the
    range is refused. *)
Theorem cursor_push_leaves_last_byte (s : state) (d : list Z) (b : Z) (Hs : wf s)
    (Hd : len d = room s) (H1 : 0 < room s) :
  cursor_push d (len d) s = Some (false, s) /\
  exists s', cursor_push_byte b s = Some (true, s').
Proof.
  split.
  - destruct s as [c mem]. unfold cursor_push, room in *. cbn [fst] in *.
    by destruct (Z.leb_spec (end_ c) (p c + len d)); [|lia].
  - pose proof (Appends_push_byte b s Hs) as H. change (len [u8 b]) with 1 in H.
    destruct (Z.leb_spec (1 + 0) (room s)); [|lia]. eauto.
Qed.

Lemma cursor_push_leaves_last_byte_witness :
  cursor_push [1] 1 (make_cursor 0 1, [9]) = Some (false, (make_cursor 0 1, [9])) /\
  exists s', cursor_push_byte 1 (make_cursor 0 1, [9]) = Some (true, s').
Proof. apply (cursor_push_leaves_last_byte (make_cursor 0 1, [9]) [1]); [split; vm_compute; congruence|done..]. Defined.
