(* ===== verification/Event.v ===== *)
(** * Events: [gnostr.c] (serialisation, commitment, id, printing, tags)

    [struct nostr_event] with its tag array, the JSON writers on a cursor
    ([cursor_push_escaped_char] to [cursor_push_tags]), [event_commitment],
    [generate_event_id], [print_event] and [nostr_add_tag_n].

    The reference is the text itself: [json_string], [json_tags] and [nip01]
    are the NIP-01 serialisation, written without a cursor, and [unescape]
    reads a JSON string back.  Texts are lists of bytes.

    The code prints the time into [timebuf[16]], which cuts it to 15 characters
    ([gnostr.c:222]).  [commitment], the text the code hashes, is [nip01] for a
    time below 10^15 and the same text with a shortened time from there on. *)
From S2P Require Import Prelude Endian Hex Sha256Spec Sha256 Cursor.

(** ** Data *)

Definition MAX_TAGS : Z := 32.
Definition MAX_TAG_ELEMS : Z := 16.

(** [strs[0 .. num_elems-1]]; C strings are their bytes before the NUL. *)
Definition nostr_tag : Type := list (list Z).

Record nostr_event := Event {
  id : list Z;                       (* unsigned char[32] *)
  pubkey : list Z;                   (* unsigned char[32] *)
  sig : list Z;                      (* unsigned char[64] *)
  content : list Z;
  created_at : Z;                    (* uint64_t *)
  kind : Z;                          (* int *)
  explicit_tags : option (list Z);   (* NULL is [None] *)
  tags : list nostr_tag              (* tags[0 .. num_tags-1] *)
}.

Definition set_id (ev : nostr_event) (i : list Z) : nostr_event :=
  Event i (pubkey ev) (sig ev) (content ev) (created_at ev) (kind ev) (explicit_tags ev) (tags ev).
Definition set_tags (ev : nostr_event) (t : list nostr_tag) : nostr_event :=
  Event (id ev) (pubkey ev) (sig ev) (content ev) (created_at ev) (kind ev) (explicit_tags ev) t.

(** ** [snprintf] of integers *)

Fixpoint digits (fuel : nat) (n : Z) : list Z :=
  match fuel with
  | O => []
  | S fuel => if n <? 10 then [48 + n] else digits fuel (n / 10) ++ [48 + n mod 10]
  end.

(** [%PRIu64] and [%d]: 20 digits hold every [uint64_t], 10 every [int]. *)
Definition fmt_u64 (n : Z) : list Z := digits 20 n.
Definition fmt_int (n : Z) : list Z := if n <? 0 then 45 :: digits 10 (- n) else digits 10 n.

(** [snprintf(buf, size, ...)]: at most [size - 1] characters are kept. *)
Definition snprintf (size : Z) (text : list Z) : list Z := take (Z.to_nat (size - 1)) text.

(** ** JSON on a cursor *)

Definition quote : Z := 34.       (* the double quote *)
Definition backslash : Z := 92.   (* the backslash *)

Definition cursor_push_escaped_char (c : Z) : CM bool :=
  if c =? quote then cursor_push_str [backslash; quote]
  else if c =? backslash then cursor_push_str [backslash; backslash]
  else if c =? 8 then cursor_push_str (cs "\b")
  else if c =? 12 then cursor_push_str (cs "\f")
  else if c =? 10 then cursor_push_str (cs "\n")
  else if c =? 13 then cursor_push_str (cs "\r")
  else if c =? 9 then cursor_push_str (cs "\t")
  else cursor_push_byte c.

(** [for (i = 0; i < len; i++)], from [i] on. *)
Fixpoint jsonstr_loop (fuel : nat) (str : list Z) (l i : Z) : CM bool :=
  match fuel with
  | O => fun _ => None
  | S fuel =>
      if i <? l then cursor_push_escaped_char str.[i] AND jsonstr_loop fuel str l (i + 1)
      else ret true
  end.

Definition cursor_push_jsonstr (str : list Z) : CM bool :=
  let l := to_signed 32 (len str) in
  cursor_push_byte quote AND jsonstr_loop (S (length str)) str l 0 AND cursor_push_byte quote.

(** The loop over the elements of a tag, from [i] on: a comma after every
    element but the last. *)
Fixpoint tag_loop (fuel : nat) (tag : nostr_tag) (i : Z) : CM bool :=
  match fuel with
  | O => fun _ => None
  | S fuel =>
      if i <? len tag then
        cursor_push_jsonstr (nth (Z.to_nat i) tag [])
        AND (if i =? len tag - 1 then ret true else cursor_push_byte (cs ",").[0])
        AND tag_loop fuel tag (i + 1)
      else ret true
  end.

Definition cursor_push_tag (tag : nostr_tag) : CM bool :=
  cursor_push_byte (cs "[").[0] AND tag_loop (S (length tag)) tag 0 AND cursor_push_byte (cs "]").[0].

Fixpoint tags_loop (fuel : nat) (ts : list nostr_tag) (i : Z) : CM bool :=
  match fuel with
  | O => fun _ => None
  | S fuel =>
      if i <? len ts then
        cursor_push_tag (nth (Z.to_nat i) ts [])
        AND (if i =? len ts - 1 then ret true else cursor_push_str (cs ","))
        AND tags_loop fuel ts (i + 1)
      else ret true
  end.

Definition cursor_push_tags (ev : nostr_event) : CM bool :=
  match explicit_tags ev with
  | Some t => cursor_push_str t
  | None =>
      cursor_push_byte (cs "[").[0]
      AND tags_loop (S (length (tags ev))) (tags ev) 0
      AND cursor_push_byte (cs "]").[0]
  end.

(** ** Commitment, id and output *)

(** The C string [hex_encode] leaves in a [char[2 * n + 1]]; [None] is the
    failed assertion. *)
Definition hex_string (b : list Z) : option (list Z) :=
  '(ok, dest) ← hex_encode b (repeat 0 (2 * length b + 1));
  if ok =? 1 then Some (take (2 * length b) dest) else None.

(** The return value and the buffer. *)
Definition event_commitment (ev : nostr_event) (buf : list Z) : option (Z * list Z) :=
  pk ← hex_string (pubkey ev);
  let timebuf := snprintf 16 (fmt_u64 (created_at ev)) in
  let kindbuf := snprintf 16 (fmt_int (kind ev)) in
  '(ok, (c, buf)) ←
    (cursor_push_str (cs "[0," ++ [quote])
     AND cursor_push_str pk
     AND cursor_push_str ([quote] ++ cs ",")
     AND cursor_push_str timebuf
     AND cursor_push_str (cs ",")
     AND cursor_push_str kindbuf
     AND cursor_push_str (cs ",")
     AND cursor_push_tags ev
     AND cursor_push_str (cs ",")
     AND cursor_push_jsonstr (content ev)
     AND cursor_push_str (cs "]")) (make_cursor 0 (len buf), buf);
  if (ok : bool) then Some (to_signed 32 (p c - start c), buf) else Some (0, buf).

(** [buf] is the static buffer of 102400 bytes; the return value, the event with
    its id, and the buffer. *)
Definition generate_event_id (ev : nostr_event) (buf : list Z) : option (Z * nostr_event * list Z) :=
  '(l, buf) ← event_commitment ev buf;
  if l =? 0 then Some (0, ev, buf)
  else h ← sha256 (take (Z.to_nat l) buf); Some (1, set_id ev h, buf).

(** What [printf("%.*s", n, s)] prints of a buffer that holds no NUL. *)
Definition cursor_text (s : state) : list Z := slice (start s.1) (cursor_len s.1) s.2.

(** The return value and the text printed. *)
Definition print_event (ev : nostr_event) (envelope : bool) : option (Z * list Z) :=
  id_ ← hex_string (id ev);
  pk ← hex_string (pubkey ev);
  sg ← hex_string (sig ev);
  let buf := repeat 0 (Z.to_nat 102400) in
  '(ok, s) ← cursor_push_tags ev (make_cursor 0 (len buf), buf);
  if (ok : bool) then
    let out := if envelope then cs "[" ++ [quote] ++ cs "EVENT" ++ [quote] ++ cs "," else [] in
    let out := out ++ cs "{" ++ [quote] ++ cs "id" ++ [quote] ++ cs ": " ++ [quote] ++ id_ ++ [quote] ++ cs "," in
    let out := out ++ [quote] ++ cs "pubkey" ++ [quote] ++ cs ": " ++ [quote] ++ pk ++ [quote] ++ cs "," in
    let out := out ++ [quote] ++ cs "created_at" ++ [quote] ++ cs ": " ++ fmt_u64 (created_at ev) ++ cs "," in
    let out := out ++ [quote] ++ cs "kind" ++ [quote] ++ cs ": " ++ fmt_int (kind ev) ++ cs "," in
    let out := out ++ [quote] ++ cs "tags" ++ [quote] ++ cs ": " ++ cursor_text s ++ cs "," in
    let s := (reset_cursor s.1, s.2) in
    '(ok, s) ← cursor_push_jsonstr (content ev) s;
    if (ok : bool) then
      let out := out ++ [quote] ++ cs "content" ++ [quote] ++ cs ": " ++ cursor_text s ++ cs "," in
      let out := out ++ [quote] ++ cs "sig" ++ [quote] ++ cs ": " ++ [quote] ++ sg ++ [quote] ++ cs "}" in
      let out := if envelope then out ++ cs "]" else out in
      Some (1, out ++ [10])
    else Some (0, out)
  else Some (0, []).

(** ** Adding tags; [None] is a write past [strs[MAX_TAG_ELEMS]] *)

Definition nostr_add_tag_n (ev : nostr_event) (ts : list (list Z)) : option (Z * nostr_event) :=
  if MAX_TAGS <? len (tags ev) + 1 then Some (0, ev)
  else if len ts <=? MAX_TAG_ELEMS then Some (1, set_tags ev (tags ev ++ [ts])) else None.

Definition nostr_add_tag (ev : nostr_event) (t1 t2 : list Z) : option (Z * nostr_event) :=
  nostr_add_tag_n ev [t1; t2].

(** ** The reference serialisation *)

Definition json_char (c : Z) : list Z :=
  if c =? quote then [backslash; quote] else if c =? backslash then [backslash; backslash]
  else if c =? 8 then cs "\b" else if c =? 12 then cs "\f" else if c =? 10 then cs "\n"
  else if c =? 13 then cs "\r" else if c =? 9 then cs "\t" else [c].

Definition json_string (s : list Z) : list Z := [quote] ++ concat (map json_char s) ++ [quote].

Fixpoint join (l : list (list Z)) : list Z :=
  match l with [] => [] | [x] => x | x :: l => x ++ cs "," ++ join l end.

Definition json_array (l : list (list Z)) : list Z := cs "[" ++ join l ++ cs "]".
Definition json_tag (t : nostr_tag) : list Z := json_array (map json_string t).
Definition json_tags (ev : nostr_event) : list Z :=
  match explicit_tags ev with Some t => t | None => json_array (map json_tag (tags ev)) end.

(** The array of NIP-01 with the text [time] for the time. *)
Definition serialisation (ev : nostr_event) (time : list Z) : list Z :=
  (cs "[0," ++ [quote]) ++ hex_text (pubkey ev) ++ ([quote] ++ cs ",")
  ++ time ++ cs "," ++ fmt_int (kind ev) ++ cs ","
  ++ json_tags ev ++ cs "," ++ json_string (content ev) ++ cs "]".

Definition nip01 (ev : nostr_event) : list Z := serialisation ev (fmt_u64 (created_at ev)).

(** The same with the time cut to the characters that [timebuf] holds. *)
Definition truncated (ev : nostr_event) : list Z := serialisation ev (take 15 (fmt_u64 (created_at ev))).

Definition commitment (ev : nostr_event) : list Z :=
  if created_at ev <? 10 ^ 15 then nip01 ev else truncated ev.

(** A C string the program can hold. *)
Definition c_string (s : list Z) : Prop := Bytes s /\ len s < 2 ^ 31.

(** The invariant of an event: widths and lengths of its fields. *)
Record event_ok (ev : nostr_event) : Prop := {
  ok_id : Bytes (id ev) /\ length (id ev) = 32%nat;
  ok_pubkey : Bytes (pubkey ev) /\ length (pubkey ev) = 32%nat;
  ok_sig : Bytes (sig ev) /\ length (sig ev) = 64%nat;
  ok_content : c_string (content ev);
  ok_explicit : from_option c_string True (explicit_tags ev);
  ok_tags : Forall (Forall c_string) (tags ev);
  ok_created_at : in_width 64 (created_at ev);
  ok_kind : - 2 ^ 31 <= kind ev < 2 ^ 31;
}.

(** ** The writers write the reference *)

Lemma Appends_eq m m' t k : (forall s, m s = m' s) -> Appends m' t k -> Appends m t k.
Proof. intros E H s Hs. rewrite E. by apply H. Qed.

Lemma andM_assoc m1 m2 m3 s : ((m1 AND m2) AND m3) s = (m1 AND m2 AND m3) s.
Proof. unfold andM, bind. destruct (m1 s) as [[[] s']|]; done. Qed.

Lemma andM_true m s : (ret true AND m) s = m s.
Proof. done. Qed.

Lemma Appends_escaped c : is_byte c -> exists k, 0 <= k <= 1 /\ Appends (cursor_push_escaped_char c) (json_char c) k.
Proof.
  intros Hc. unfold cursor_push_escaped_char, json_char.
  repeat (case_match; [exists 1; split; [lia|by apply Appends_push_str]|]).
  exists 0. split; [lia|]. pose proof (Appends_push_byte c) as HA. by rewrite wrap_id in HA.
Qed.

Lemma drop_S_get (l : list Z) i : 0 <= i < len l -> drop (Z.to_nat i) l = l.[i] :: drop (Z.to_nat (i + 1)) l.
Proof.
  intros Hi. pose proof (get_lookup l i Hi) as H. replace (Z.to_nat (i + 1)) with (S (Z.to_nat i)) by lia.
  by apply drop_S.
Qed.

Lemma Appends_jsonstr_loop str m2 t2 k2 fuel i :
  Bytes str -> Appends m2 t2 k2 -> 0 <= k2 -> 1 <= len t2 + k2 ->
  0 <= i <= len str -> len str - i < Z.of_nat fuel ->
  Appends (jsonstr_loop fuel str (len str) i AND m2)
    (concat (map json_char (drop (Z.to_nat i) str)) ++ t2) k2.
Proof.
  intros Hb Hm Hk Ht. revert i. induction fuel as [|fuel IH]; intros i Hi Hf; [lia|].
  cbn [jsonstr_loop]. destruct (Z.ltb_spec i (len str)).
  - rewrite (drop_S_get str i) by lia. cbn [map concat]. rewrite <- app_assoc.
    destruct (Appends_escaped str.[i]) as (k & Hk1 & HA); [by apply Bytes_get|].
    eapply Appends_eq; [intros; apply andM_assoc|].
    apply (Appends_and _ _ k); [|lia..|done|apply IH; lia]. len_lia.
  - rewrite drop_ge by len_lia. cbn [map concat app].
    eapply Appends_eq; [intros; apply andM_true|]. done.
Qed.

Lemma Appends_jsonstr str : c_string str -> Appends (cursor_push_jsonstr str) (json_string str) 0.
Proof.
  intros [Hb Hl]. unfold cursor_push_jsonstr, json_string. cbv zeta.
  rewrite to_signed_id by (lia || (split; [len_lia|done])).
  apply (Appends_and _ _ 0); [len_lia|done|done|apply (Appends_push_byte quote)|].
  apply (Appends_jsonstr_loop str _ [quote] 0 (S (length str)) 0);
    [done|apply (Appends_push_byte quote)|done|done|split; len_lia|unfold len; lia].
Qed.

(** Both array loops: a comma after every element but the last. *)
Section ArrayLoop.
Context {A : Type} (w : A -> CM bool) (f : A -> list Z) (d : A) (comma : CM bool) (kc : Z).
Context (xs : list A) (L : nat -> Z -> CM bool).
Context (HL : forall fuel i, L (S fuel) i =
  if i <? len xs then
    w (nth (Z.to_nat i) xs d) AND (if i =? len xs - 1 then ret true else comma) AND L fuel (i + 1)
  else ret true).
Context (Hw : Forall (fun x => Appends (w x) (f x) 0) xs) (Hne : forall x, 1 <= len (f x)).
Context (Hcomma : Appends comma (cs ",") kc) (Hkc : 0 <= kc <= 1).

Lemma Appends_array_loop m2 t2 fuel i :
  Appends m2 t2 0 -> 1 <= len t2 -> 0 <= i <= len xs -> len xs - i < Z.of_nat fuel ->
  Appends (L fuel i AND m2) (join (map f (drop (Z.to_nat i) xs)) ++ t2) 0.
Proof using HL Hw Hcomma Hkc.
  intros Hm Ht. revert i. induction fuel as [|fuel IH]; intros i Hi Hf; [lia|].
  rewrite HL. destruct (Z.ltb_spec i (len xs)) as [Hlt|].
  - destruct (nth_lookup_or_length xs (Z.to_nat i) d) as [Hx|]; [|unfold len in *; lia].
    rewrite (drop_S _ _ _ Hx). cbn [map].
    pose proof (Forall_lookup_1 _ _ _ _ Hw Hx) as HA. cbv beta in HA.
    set (x := nth (Z.to_nat i) xs d) in *. specialize (IH (i + 1)).
    replace (Z.to_nat (i + 1)) with (S (Z.to_nat i)) in IH by lia.
    eapply Appends_eq; [intros; apply andM_assoc|].
    destruct (Z.eqb_spec i (len xs - 1)) as [Hlast|Hlast].
    + rewrite (drop_ge xs) by len_lia. rewrite (drop_ge xs) in IH by len_lia. cbn [map join] in *.
      apply (Appends_and _ _ 0); [len_lia|done|done|done|].
      eapply Appends_eq; [intros; apply andM_assoc|]. eapply Appends_eq; [intros; apply andM_true|].
      apply IH; lia.
    + destruct (drop (S (Z.to_nat i)) xs) as [|y r] eqn:Hy.
      { apply (f_equal length) in Hy. rewrite length_drop in Hy. unfold len in *. simpl in Hy. lia. }
      cbn [map]. change (join (f x :: f y :: map f r)) with (f x ++ cs "," ++ join (map f (y :: r))).
      rewrite <- !app_assoc. apply (Appends_and _ _ 0); [len_lia|done|done|done|].
      eapply Appends_eq; [intros; apply andM_assoc|].
      apply (Appends_and _ (cs ",") kc); [len_lia|lia|done|done|].
      apply IH; lia.
  - rewrite drop_ge by len_lia. cbn [map join app]. eapply Appends_eq; [intros; apply andM_true|]. done.
Qed.

(** The brackets around the loop. *)
Lemma Appends_array :
  Appends (cursor_push_byte (cs "[").[0] AND L (S (length xs)) 0 AND cursor_push_byte (cs "]").[0])
    (json_array (map f xs)) 0.
Proof using HL Hw Hcomma Hkc.
  unfold json_array. apply (Appends_and _ (cs "[") 0); [len_lia|done|done|apply (Appends_push_byte 91)|].
  apply (Appends_array_loop _ (cs "]") (S (length xs)) 0);
    [apply (Appends_push_byte 93)|done|split; len_lia|unfold len; lia].
Qed.
End ArrayLoop.

Lemma Appends_tag tag : Forall c_string tag -> Appends (cursor_push_tag tag) (json_tag tag) 0.
Proof.
  intros Ht. apply (Appends_array cursor_push_jsonstr json_string [] (cursor_push_byte 44) 0 tag
    (fun fuel i => tag_loop fuel tag i)); [done| |apply (Appends_push_byte 44)|done].
  eapply Forall_impl; [exact Ht|]. apply Appends_jsonstr.
Qed.

(** Explicit tags end with a string, the array with a bracket. *)
Definition tags_k (ev : nostr_event) : Z := match explicit_tags ev with Some _ => 1 | None => 0 end.

Lemma tags_k_range ev : 0 <= tags_k ev <= 1.
Proof. unfold tags_k. case_match; lia. Qed.

Lemma Appends_tags ev : event_ok ev -> Appends (cursor_push_tags ev) (json_tags ev) (tags_k ev).
Proof.
  intros Hev. unfold cursor_push_tags, json_tags, tags_k. pose proof (ok_explicit ev Hev) as He.
  destruct (explicit_tags ev) as [t|]; [by apply Appends_push_str; destruct He|].
  apply (Appends_array cursor_push_tag json_tag [] (cursor_push_str (cs ",")) 1 (tags ev)
    (fun fuel i => tags_loop fuel (tags ev) i)); [done| |by apply Appends_push_str|done].
  eapply Forall_impl; [apply (ok_tags ev Hev)|]. apply Appends_tag.
Qed.

(** ** Commitment *)

Lemma hex_string_text b : Bytes b -> (length b <= 64)%nat -> hex_string b = Some (hex_text b).
Proof.
  intros Hb Hl. unfold hex_string.
  rewrite hex_encode_text by (done || (unfold len; lia) || len_lia). rewrite bind_some.
  change (1 =? 1) with true. cbv iota. f_equal. by rewrite take_app_length' by by rewrite hex_text_length.
Qed.

Lemma digits_length fuel n : (length (digits fuel n) <= fuel)%nat.
Proof.
  revert n; induction fuel as [|fuel IH]; intros n; cbn [digits]; [done|].
  case_match; [simpl; lia|]. rewrite length_app. specialize (IH (n / 10)). simpl. lia.
Qed.

Lemma digits_short fuel k n : 0 <= n < 10 ^ Z.of_nat k -> (1 <= k)%nat -> (length (digits fuel n) <= k)%nat.
Proof.
  revert k n; induction fuel as [|fuel IH]; intros k n Hn Hk; cbn [digits]; [simpl; lia|].
  destruct (Z.ltb_spec n 10); [simpl; lia|]. rewrite length_app. simpl.
  destruct k as [|[|k]]; [lia|simpl in Hn; lia|].
  rewrite Nat2Z.inj_succ, Z.pow_succ_r in Hn by lia.
  specialize (IH (S k) (n / 10) ltac:(dlia) ltac:(lia)). lia.
Qed.

Lemma fmt_u64_short n : 0 <= n < 10 ^ 15 -> take 15 (fmt_u64 n) = fmt_u64 n.
Proof. intros. apply take_ge, (digits_short 20 15); [done|lia]. Qed.

Lemma fmt_int_length n : (length (fmt_int n) <= 11)%nat.
Proof.
  unfold fmt_int. case_match; cbn [length];
    match goal with |- context [digits 10 ?k] => pose proof (digits_length 10 k) end; lia.
Qed.

Lemma fmt_int_short n : - 2 ^ 31 <= n < 2 ^ 31 -> take 15 (fmt_int n) = fmt_int n.
Proof. intros _. apply take_ge. pose proof (fmt_int_length n). lia. Qed.

(** In the range of NIP-01 nothing is cut. *)
Lemma commitment_cut ev : 0 <= created_at ev -> commitment ev = truncated ev.
Proof.
  intros Ht. unfold commitment, nip01, truncated. destruct (Z.ltb_spec (created_at ev) (10 ^ 15)); [|done].
  by rewrite fmt_u64_short.
Qed.

Lemma Appends_commitment ev :
  event_ok ev ->
  Appends (cursor_push_str (cs "[0," ++ [quote])
     AND cursor_push_str (hex_text (pubkey ev))
     AND cursor_push_str ([quote] ++ cs ",")
     AND cursor_push_str (take 15 (fmt_u64 (created_at ev)))
     AND cursor_push_str (cs ",")
     AND cursor_push_str (take 15 (fmt_int (kind ev)))
     AND cursor_push_str (cs ",")
     AND cursor_push_tags ev
     AND cursor_push_str (cs ",")
     AND cursor_push_jsonstr (content ev)
     AND cursor_push_str (cs "]")) (commitment ev) 1.
Proof.
  intros Hev. pose proof (ok_pubkey ev Hev) as [_ Hpk]. pose proof (hex_text_length (pubkey ev)) as Hhl.
  rewrite commitment_cut, fmt_int_short by (apply (ok_kind ev Hev) || apply (ok_created_at ev Hev)).
  unfold truncated, serialisation. pose proof (fmt_int_length (kind ev)).
  do 7 (eapply (Appends_and _ _ 1); [len_lia|lia|lia|apply Appends_push_str; first [reflexivity|len_lia]|]).
  pose proof (tags_k_range ev).
  apply (Appends_and _ _ (tags_k ev)); [len_lia|lia|lia|by apply Appends_tags|].
  eapply (Appends_and _ _ 1); [len_lia|lia|lia|by apply Appends_push_str|].
  eapply (Appends_and _ _ 0); [len_lia|lia|lia|apply Appends_jsonstr, (ok_content ev Hev)|].
  by apply Appends_push_str.
Qed.

Lemma make_cursor_wf buf : wf (make_cursor 0 (len buf), buf).
Proof. split; cbn [fst snd make_cursor start p end_]; len_lia. Qed.

Lemma appended_fresh buf t :
  len t <= len buf ->
  appended (make_cursor 0 (len buf), buf) t =
  (Cursor 0 (len t) (len buf), t ++ drop (length t) buf).
Proof.
  intros. unfold appended, set_p, make_cursor. by cbn [fst snd start p end_].
Qed.

Lemma event_commitment_spec ev buf :
  event_ok ev -> len buf < 2 ^ 31 ->
  if len (commitment ev) <? len buf
  then event_commitment ev buf = Some (len (commitment ev), commitment ev ++ drop (length (commitment ev)) buf)
  else exists buf', event_commitment ev buf = Some (0, buf') /\ len buf' = len buf.
Proof.
  intros Hev Hbuf. unfold event_commitment.
  destruct (ok_pubkey ev Hev) as [Hpb Hpl].
  rewrite hex_string_text by (done || lia). rewrite bind_some. cbv zeta. unfold snprintf.
  change (Z.to_nat (16 - 1)) with 15%nat.
  pose proof (Appends_commitment ev Hev _ (make_cursor_wf buf)) as HA.
  set (m := cursor_push_str (cs "[0," ++ [quote]) AND _) in *. clearbody m.
  unfold room in HA. cbn [fst make_cursor p end_] in HA.
  destruct (Z.leb_spec (len (commitment ev) + 1) (len buf - 0));
    destruct (Z.ltb_spec (len (commitment ev)) (len buf)); try lia.
  - rewrite HA, appended_fresh, bind_some by lia. cbn [p start].
    rewrite Z.sub_0_r, to_signed_id by (lia || (split; [len_lia|]; len_lia)). done.
  - destruct HA as ([c buf'] & -> & _ & Hst). rewrite bind_some. exists buf'. split; [done|].
    apply (step_len _ _ Hst).
Qed.

(** ** Reading a JSON string back *)

Definition unescape_char (e : Z) : option Z :=
  if e =? quote then Some quote else if e =? backslash then Some backslash else if e =? 47 then Some 47
  else if e =? 98 then Some 8 else if e =? 102 then Some 12 else if e =? 110 then Some 10
  else if e =? 114 then Some 13 else if e =? 116 then Some 9 else None.

(** From after the opening quote: the string and what follows the closing one. *)
Fixpoint unescape (l : list Z) : option (list Z * list Z) :=
  match l with
  | [] => None
  | c :: l =>
      if c =? quote then Some ([], l)
      else if c =? backslash then
        match l with
        | [] => None
        | e :: l => c ← unescape_char e; '(s, r) ← unescape l; Some (c :: s, r)
        end
      else '(s, r) ← unescape l; Some (c :: s, r)
  end.

Definition read_string (l : list Z) : option (list Z * list Z) :=
  match l with c :: l => if c =? quote then unescape l else None | [] => None end.

Lemma unescape_json_char c l :
  unescape (json_char c ++ l) = '(s, r) ← unescape l; Some (c :: s, r).
Proof.
  unfold json_char.
  destruct (Z.eqb_spec c quote) as [->|Hq]; [reflexivity|].
  destruct (Z.eqb_spec c backslash) as [->|Hb]; [reflexivity|].
  apply Z.eqb_neq in Hq, Hb.
  do 5 (match goal with |- context [c =? ?k] => destruct (Z.eqb_spec c k) as [->|_]; [reflexivity|] end).
  cbn [app unescape]. by rewrite Hq, Hb.
Qed.

Lemma read_json_string s r : read_string (json_string s ++ r) = Some (s, r).
Proof.
  unfold json_string. rewrite <- !app_assoc. change (read_string ([quote] ++ ?l)) with (unescape l).
  induction s as [|c s IH]; [done|]. cbn [map concat]. rewrite <- app_assoc, unescape_json_char, IH.
  reflexivity.
Qed.

(** ** Texts that end where they end *)

(** [f] is self-delimiting on [P]: a text that starts with [f a] determines [a]
    and the rest. *)
Class SelfDelimiting {A} (P : A -> Prop) (f : A -> list Z) : Prop :=
  self_delimiting a b r s : P a -> P b -> f a ++ r = f b ++ s -> a = b /\ r = s.

#[export] Instance json_string_delimits : SelfDelimiting (fun _ => True) json_string.
Proof.
  intros a b r s _ _ H. apply (f_equal read_string) in H. rewrite !read_json_string in H. by simplify_eq.
Qed.

(** An array of self-delimiting elements that do not start like its end. *)
Lemma json_array_delimits {A} (P : A -> Prop) (f : A -> list Z) (h : Z) :
  SelfDelimiting P f -> h <> 93 -> (forall a, exists l, f a = h :: l) ->
  SelfDelimiting (Forall P) (fun xs => json_array (map f xs)).
Proof.
  intros Hf Hh Hhd xs ys r s Hxs. revert ys r s. unfold json_array. rewrite <- ?app_assoc.
  assert (G : forall ys r s, Forall P ys ->
    join (map f xs) ++ 93 :: r = join (map f ys) ++ 93 :: s -> xs = ys /\ r = s).
  2: { intros ys r s Hys H. rewrite <- !app_assoc in H. apply app_inv_head in H. by apply G. }
  induction Hxs as [|x xs Hx Hxs IH]; intros [|y ys] r s Hys H; cbn [map join app] in H.
  - by simplify_eq.
  - exfalso. destruct (Hhd y) as [l Hl]. destruct ys; cbn [map join] in H; rewrite Hl in H; simpl in H; congruence.
  - exfalso. destruct (Hhd x) as [l Hl]. destruct xs; cbn [map join] in H; rewrite Hl in H; simpl in H; congruence.
  - apply Forall_cons in Hys as [Hy Hys].
    destruct xs as [|x2 xs], ys as [|y2 ys]; cbn [map] in H, IH.
    + apply Hf in H as [-> H]; [|done..]. by simplify_eq.
    + rewrite <- app_assoc in H. apply Hf in H as [-> H]; [|done..]. exfalso. change (cs ",") with [44] in H. cbn [app] in H. congruence.
    + rewrite <- app_assoc in H. apply Hf in H as [-> H]; [|done..]. exfalso. change (cs ",") with [44] in H. cbn [app] in H. congruence.
    + rewrite <- !app_assoc in H. apply Hf in H as [-> H]; [|done..]. apply app_inv_head in H.
      destruct (IH (y2 :: ys) r s Hys H) as [E ->]. by rewrite E.
Qed.

#[export] Instance json_tag_delimits : SelfDelimiting (Forall (fun _ => True)) json_tag.
Proof. apply (json_array_delimits _ json_string quote); [apply _|done|]. intros a. by eexists. Qed.

Lemma json_tags_delimits : SelfDelimiting (Forall (Forall (fun _ => True))) (fun ts => json_array (map json_tag ts)).
Proof. apply (json_array_delimits _ json_tag 91); [apply _|done|]. intros a. by eexists. Qed.

(** A text without the character [c], up to the first [c]. *)
Lemma delimited_by (c : Z) (l1 l2 r1 r2 : list Z) :
  c ∉ l1 -> c ∉ l2 -> l1 ++ c :: r1 = l2 ++ c :: r2 -> l1 = l2 /\ r1 = r2.
Proof.
  revert l2; induction l1 as [|x l1 IH]; intros [|y l2] H1 H2 H; simpl in H; simplify_eq.
  - done.
  - exfalso. apply H2. left.
  - exfalso. apply H1. left.
  - apply not_elem_of_cons in H1 as [_ H1], H2 as [_ H2].
    destruct (IH l2) as [-> ->]; done.
Qed.

(** ** Decimal numbers *)

Definition undigits (l : list Z) : Z := foldl (fun a c => 10 * a + (c - 48)) 0 l.

Lemma undigits_digits fuel n : 0 <= n < 10 ^ Z.of_nat fuel -> undigits (digits fuel n) = n.
Proof.
  revert n; induction fuel as [|fuel IH]; intros n Hn; cbn [digits]; [change (10 ^ Z.of_nat 0) with 1 in Hn; unfold undigits; cbn [foldl]; lia|].
  destruct (Z.ltb_spec n 10); [unfold undigits; simpl; lia|].
  unfold undigits. rewrite foldl_app. fold (undigits (digits fuel (n / 10))).
  rewrite IH; [cbn [foldl]; dlia|]. rewrite Nat2Z.inj_succ, Z.pow_succ_r in Hn by lia. dlia.
Qed.

Lemma digits_chars fuel n : 0 <= n -> Forall (fun c => 48 <= c <= 57) (digits fuel n).
Proof.
  revert n; induction fuel as [|fuel IH]; intros n Hn; cbn [digits]; [constructor|].
  destruct (Z.ltb_spec n 10); [by repeat constructor; lia|].
  apply Forall_app. split; [apply IH; dlia|repeat constructor; dlia].
Qed.

Lemma fmt_u64_inj a b : 0 <= a < 2 ^ 64 -> 0 <= b < 2 ^ 64 -> fmt_u64 a = fmt_u64 b -> a = b.
Proof.
  intros Ha Hb H. apply (f_equal undigits) in H. unfold fmt_u64 in H.
  change (10 ^ Z.of_nat 20) with 100000000000000000000 in *.
  rewrite !undigits_digits in H by (change (10 ^ Z.of_nat 20) with 100000000000000000000; lia). done.
Qed.

Lemma fmt_int_inj a b : - 2 ^ 31 <= a < 2 ^ 31 -> - 2 ^ 31 <= b < 2 ^ 31 -> fmt_int a = fmt_int b -> a = b.
Proof.
  unfold fmt_int. intros Ha Hb.
  assert (Hd : forall n, 0 <= n < 10 ^ 10 -> undigits (digits 10 n) = n) by (intros; by apply undigits_digits).
  assert (Hne : forall n l, 0 <= n -> digits 10 n = 45 :: l -> False).
  { intros n l Hn E. pose proof (digits_chars 10 n Hn) as HF. rewrite E in HF.
    apply Forall_cons in HF as [? _]. lia. }
  destruct (Z.ltb_spec a 0), (Z.ltb_spec b 0); intros H1.
  - apply (f_equal (fun l => undigits (tail l))) in H1. cbn [tail] in H1. rewrite !Hd in H1 by lia. lia.
  - symmetry in H1. exfalso. by eapply Hne in H1.
  - exfalso. by eapply Hne in H1.
  - apply (f_equal undigits) in H1. rewrite !Hd in H1 by lia. done.
Qed.

Lemma comma_not_digits (l : list Z) : Forall (fun c => 48 <= c <= 57) l -> 44 ∉ l.
Proof. intros H Hin. rewrite Forall_forall in H. specialize (H _ Hin). cbv beta in H. lia. Qed.

Lemma comma_not_u64 n : 0 <= n -> 44 ∉ fmt_u64 n.
Proof. intros. apply comma_not_digits. by apply digits_chars. Qed.

Lemma comma_not_int n : 44 ∉ fmt_int n.
Proof.
  unfold fmt_int. destruct (Z.ltb_spec n 0).
  - apply not_elem_of_cons. split; [done|]. apply comma_not_digits, digits_chars. lia.
  - by apply comma_not_digits, digits_chars.
Qed.

Lemma hex_text_inj a b : Bytes a -> Bytes b -> length a = length b -> hex_text a = hex_text b -> a = b.
Proof.
  intros Ha Hb Hl H. pose proof (hex_decode_loop_text a []) as H1. pose proof (hex_decode_loop_text b []) as H2.
  rewrite H in H1. unfold len in *. rewrite Hl in *. rewrite H1 in H2 by done. specialize (H2 Hb). by simplify_eq.
Qed.

(** ** The texts are bytes *)

Lemma cs_Bytes s : Bytes (cs s).
Proof.
  unfold cs. apply Forall_map, Forall_true. intros a. unfold in_width.
  pose proof (Ascii.N_ascii_bounded a). change (2 ^ 8) with 256. lia.
Qed.

Lemma decimal_Bytes fuel n : 0 <= n -> Bytes (digits fuel n).
Proof.
  intros Hn. eapply Forall_impl; [by apply digits_chars|]. intros c Hc. cbv beta in Hc. unfold in_width. change (2 ^ 8) with 256. lia.
Qed.

Lemma json_char_Bytes c : is_byte c -> Bytes (json_char c).
Proof.
  intros Hc. unfold json_char. repeat (case_match; [by_compute|]). by repeat constructor; destruct Hc.
Qed.

Lemma json_string_Bytes s : Bytes s -> Bytes (json_string s).
Proof.
  intros Hs. unfold json_string. rewrite !Bytes_app. split_and!; [by_compute| |by_compute].
  apply Forall_concat, Forall_map. eapply Forall_impl; [exact Hs|]. apply json_char_Bytes.
Qed.

Lemma json_array_Bytes l : Forall Bytes l -> Bytes (json_array l).
Proof.
  intros H. unfold json_array. rewrite !Bytes_app. split_and!; [apply cs_Bytes| |apply cs_Bytes].
  induction H as [|x l Hx Hl IH]; [constructor|]. destruct l; [done|]. cbn [join] in *.
  rewrite !Bytes_app. split_and!; [done|apply cs_Bytes|done].
Qed.

Lemma json_tags_Bytes ev : event_ok ev -> Bytes (json_tags ev).
Proof.
  intros Hev. unfold json_tags. pose proof (ok_explicit ev Hev) as He.
  destruct (explicit_tags ev); [apply He|]. apply json_array_Bytes, Forall_map.
  eapply Forall_impl; [apply (ok_tags ev Hev)|]. intros t Ht. apply json_array_Bytes, Forall_map.
  eapply Forall_impl; [exact Ht|]. intros s [Hs _]. by apply json_string_Bytes.
Qed.

Lemma hex_text_Bytes b : Bytes b -> Bytes (hex_text b).
Proof.
  intros Hb. unfold hex_text. apply Forall_concat, Forall_map. eapply Forall_impl; [exact Hb|].
  intros x [? ?]. change (2 ^ 8) with 256 in *. unfold hex_digit.
  repeat apply Forall_cons_2; [..|constructor]; case_match; split; try dlia; change (2 ^ 8) with 256; dlia.
Qed.

Lemma fmt_int_Bytes n : Bytes (fmt_int n).
Proof.
  unfold fmt_int. destruct (Z.ltb_spec n 0); [constructor; [done|]|]; apply decimal_Bytes; lia.
Qed.

Lemma commitment_Bytes ev : event_ok ev -> Bytes (commitment ev).
Proof.
  intros Hev. rewrite commitment_cut by apply (ok_created_at ev Hev).
  unfold truncated, serialisation. rewrite !Bytes_app. assert (Bytes [quote]) by by_compute.
  repeat apply conj; try first [apply cs_Bytes|assumption].
  - apply hex_text_Bytes, (ok_pubkey ev Hev).
  - apply Forall_take, decimal_Bytes. by destruct (ok_created_at ev Hev).
  - apply fmt_int_Bytes.
  - by apply json_tags_Bytes.
  - apply json_string_Bytes, (ok_content ev Hev).
Qed.

(** ** More digits than the buffer holds *)

Lemma digits_fuel f f' n : 0 <= n < 10 ^ Z.of_nat f -> (f <= f')%nat -> (1 <= f)%nat -> digits f n = digits f' n.
Proof.
  revert f' n; induction f as [|f IH]; intros [|f'] n Hn Hf H1; try lia. cbn [digits].
  destruct (Z.ltb_spec n 10); [done|]. f_equal.
  destruct f as [|f]; [change (10 ^ Z.of_nat 1) with 10 in Hn; lia|].
  apply IH; [|lia..]. rewrite Nat2Z.inj_succ, Z.pow_succ_r in Hn by lia. dlia.
Qed.

Lemma digits_long f k n : 10 ^ Z.of_nat k <= n < 10 ^ Z.of_nat f -> (k < length (digits f n))%nat.
Proof.
  revert k n; induction f as [|f IH]; intros k n Hn; cbn [digits].
  - change (10 ^ Z.of_nat 0) with 1 in Hn. pose proof (Z.pow_pos_nonneg 10 (Z.of_nat k)). lia.
  - destruct (Z.ltb_spec n 10) as [H|H].
    + destruct k as [|k]; [simpl; lia|]. rewrite Nat2Z.inj_succ, Z.pow_succ_r in Hn by lia.
      pose proof (Z.pow_pos_nonneg 10 (Z.of_nat k)). lia.
    + rewrite length_app. simpl. destruct k as [|k]; [lia|].
      rewrite !Nat2Z.inj_succ, !Z.pow_succ_r in Hn by lia. specialize (IH k (n / 10) ltac:(dlia)). lia.
Qed.

Lemma timebuf_overflow t : 10 ^ 15 <= t < 2 ^ 64 -> take 15 (fmt_u64 t) = take 15 (fmt_u64 (t / 10)).
Proof.
  intros Ht. unfold fmt_u64. rewrite <- (digits_fuel 19 20 (t / 10)) by (lia || (simpl; dlia)).
  assert (H : digits 20 t = digits 19 (t / 10) ++ [48 + t mod 10]).
  { cbn [digits]. destruct (Z.ltb_spec t 10); [lia|done]. }
  rewrite H. apply take_app_le.
  pose proof (digits_long 19 14 (t / 10) ltac:(simpl; dlia)). lia.
Qed.

(** ** Output *)

Lemma cursor_text_fresh t buf :
  len t < 2 ^ 31 -> cursor_text (Cursor 0 (len t) (len buf), t ++ drop (length t) buf) = t.
Proof.
  intros Ht. unfold cursor_text, cursor_len. cbn [fst snd start p].
  rewrite Z.sub_0_r, to_signed_id by (lia || (split; [len_lia|done])).
  unfold slice. change (Z.to_nat 0) with 0%nat. replace (Z.to_nat (len t)) with (length t) by len_lia.
  by rewrite drop_0, take_app_length.
Qed.

(** A writer run on a cursor over the whole buffer. *)
Lemma run_fresh m t k buf :
  Appends m t k -> 0 <= k ->
  if len t + k <=? len buf
  then m (make_cursor 0 (len buf), buf) = Some (true, (Cursor 0 (len t) (len buf), t ++ drop (length t) buf))
  else exists s', m (make_cursor 0 (len buf), buf) = Some (false, s').
Proof.
  intros HA Hk. specialize (HA _ (make_cursor_wf buf)). unfold room in HA.
  cbn [fst make_cursor p end_] in HA. rewrite Z.sub_0_r in HA.
  destruct (Z.leb_spec (len t + k) (len buf)).
  - rewrite HA, appended_fresh; [done|lia].
  - destruct HA as (s' & -> & _). eauto.
Qed.

Definition json_field (name value : list Z) : list Z := [quote] ++ name ++ [quote] ++ cs ": " ++ value.
Definition quoted (t : list Z) : list Z := [quote] ++ t ++ [quote].

(** The JSON object of an event. *)
Definition event_json (ev : nostr_event) : list Z :=
  cs "{" ++ json_field (cs "id") (quoted (hex_text (id ev))) ++ cs ","
  ++ json_field (cs "pubkey") (quoted (hex_text (pubkey ev))) ++ cs ","
  ++ json_field (cs "created_at") (fmt_u64 (created_at ev)) ++ cs ","
  ++ json_field (cs "kind") (fmt_int (kind ev)) ++ cs ","
  ++ json_field (cs "tags") (json_tags ev) ++ cs ","
  ++ json_field (cs "content") (json_string (content ev)) ++ cs ","
  ++ json_field (cs "sig") (quoted (hex_text (sig ev))) ++ cs "}".

Definition event_message (ev : nostr_event) (envelope : bool) : list Z :=
  (if envelope then cs "[" ++ quoted (cs "EVENT") ++ cs "," ++ event_json ev ++ cs "]" else event_json ev)
  ++ [10].

(** Both texts fit the local buffer of [print_event]. *)
Definition printable (ev : nostr_event) : bool :=
  (len (json_tags ev) + tags_k ev <=? 102400) && (len (json_string (content ev)) <=? 102400).

Lemma serialisation_parts ev time :
  serialisation ev time = cs "[0," ++ [quote] ++ hex_text (pubkey ev) ++ [quote] ++ 44 :: time ++
    44 :: fmt_int (kind ev) ++ 44 :: json_tags ev ++ 44 :: json_string (content ev) ++ cs "]".
Proof. unfold serialisation. rewrite <- !app_assoc. reflexivity. Qed.

Lemma commitment_pos ev : 0 < len (commitment ev).
Proof. unfold commitment, nip01, truncated, serialisation. case_match; len_lia. Qed.

Lemma json_char_control c :
  is_byte c -> Exists (fun x => x < 32) (json_char c) <-> c < 32 /\ c ∉ [8; 9; 10; 12; 13].
Proof.
  intros Hc. eapply bool_decide_eq_true.
  refine (byte_forall (fun c => bool_decide
    (Exists (fun x => x < 32) (json_char c) <-> c < 32 /\ c ∉ [8; 9; 10; 12; 13])) _ c Hc). by vm_compute.
Qed.

Lemma json_string_control s :
  Bytes s -> Exists (fun x => x < 32) (json_string s) <-> Exists (fun c => c < 32 /\ c ∉ [8; 9; 10; 12; 13]) s.
Proof.
  intros Hs. unfold json_string. rewrite !Exists_app.
  assert (Hq : Exists (fun x => x < 32) [quote] <-> False).
  { rewrite Exists_cons, Exists_nil. unfold quote. lia. }
  rewrite !Hq. induction Hs as [|c s Hc Hs IH]; cbn [map concat].
  - rewrite !Exists_nil. tauto.
  - rewrite Exists_app, Exists_cons, json_char_control by done. tauto.
Qed.

Lemma generate_event_id_spec ev buf :
  event_ok ev -> len buf = 102400 ->
  exists buf', generate_event_id ev buf =
    (if len (commitment ev) <? 102400 then Some (1, set_id ev (Spec.sha256 (commitment ev)), buf')
     else Some (0, ev, buf')) /\ len buf' = 102400.
Proof.
  intros Hev Hbuf.
  pose proof (event_commitment_spec ev buf Hev ltac:(rewrite Hbuf; lia)) as H. rewrite Hbuf in H.
  unfold generate_event_id. pose proof (commitment_pos ev).
  destruct (Z.ltb_spec (len (commitment ev)) 102400) as [Hl|Hl].
  - rewrite H, bind_some. destruct (Z.eqb_spec (len (commitment ev)) 0); [lia|].
    replace (Z.to_nat (len (commitment ev))) with (length (commitment ev)) by len_lia.
    rewrite take_app_length, sha256_spec by (by apply commitment_Bytes || lia).
    rewrite bind_some. eexists. split; [done|]. len_lia.
  - destruct H as (buf' & -> & Hb'). rewrite bind_some. by exists buf'.
Qed.

Lemma print_event_spec ev envelope :
  event_ok ev ->
  if printable ev then print_event ev envelope = Some (1, event_message ev envelope)
  else exists out, print_event ev envelope = Some (0, out).
Proof.
  intros Hev.
  unfold print_event, printable. destruct (ok_id ev Hev), (ok_pubkey ev Hev), (ok_sig ev Hev).
  rewrite !hex_string_text, !bind_some by (done || lia). cbv zeta.
  set (buf := repeat 0 (Z.to_nat 102400)). assert (Hbuf : len buf = 102400) by (unfold buf; len_lia).
  clearbody buf. pose proof (tags_k_range ev).
  pose proof (run_fresh _ _ _ buf (Appends_tags ev Hev) ltac:(lia)) as HT. rewrite Hbuf in HT |- *.
  destruct (Z.leb_spec (len (json_tags ev) + tags_k ev) 102400) as [Hf|Hf]; cbn [andb].
  2: { destruct HT as [s' ->]. rewrite bind_some. eauto. }
  rewrite HT, bind_some. set (buf2 := json_tags ev ++ _) in *.
  assert (Hbuf2 : len buf2 = 102400) by (unfold buf2; len_lia).
  pose proof (cursor_text_fresh (json_tags ev) buf ltac:(lia)) as T1. fold buf2 in T1. rewrite Hbuf in T1. rewrite T1.
  unfold reset_cursor, set_p. cbn [fst snd start end_].
  pose proof (run_fresh _ _ _ buf2 (Appends_jsonstr (content ev) (ok_content ev Hev)) ltac:(lia)) as HC.
  unfold make_cursor in HC. rewrite Hbuf2, Z.add_0_r in HC. 
  destruct (Z.leb_spec (len (json_string (content ev))) 102400) as [Hg|Hg].
  2: { destruct HC as [s' ->]. rewrite bind_some. eauto. }
  rewrite HC, bind_some.
  pose proof (cursor_text_fresh (json_string (content ev)) buf2 ltac:(lia)) as T2. rewrite Hbuf2 in T2. rewrite T2.
  f_equal. f_equal. unfold event_message, event_json, json_field, quoted.
  by destruct envelope; rewrite <- ?app_assoc.
Qed.

Definition sample_event : nostr_event :=
  Event (repeat 0 32) (map Z.of_nat (seq 0 32)) (repeat 7 64) (cs "hello" ++ [10; quote]) 1700000000 1 None
    [[cs "e"; cs "00"]; [cs "p"]].

Lemma sample_event_ok : event_ok sample_event.
Proof. split; try by_compute; repeat split; by_compute. Qed.

(** ** Properties *)

(** C8: [event_commitment] writes the NIP-01 serialisation of the event, for a
    time of at most 15 digits, from the beginning of the buffer and returns its
    length; a longer time is written with its first 15 digits only, which is not
    the NIP-01 text.  It does so whenever the buffer is longer than the text, and
    otherwise returns 0; it never writes outside the buffer. *)
Theorem event_commitment_exact (ev : nostr_event) (buf : list Z) (Hev : event_ok ev) (Hbuf : len buf < 2 ^ 31) :
  let text := if created_at ev <? 10 ^ 15 then nip01 ev else serialisation ev (take 15 (fmt_u64 (created_at ev))) in
  if len text <? len buf
  then event_commitment ev buf = Some (len text, text ++ drop (length text) buf)
  else exists buf', event_commitment ev buf = Some (0, buf') /\ len buf' = len buf.
Proof. by apply event_commitment_spec. Qed.

Lemma event_commitment_exact_witness :
  if len (nip01 sample_event) <? 200
  then event_commitment sample_event (repeat 9 200) =
    Some (len (nip01 sample_event), nip01 sample_event ++ drop (length (nip01 sample_event)) (repeat 9 200))
  else exists buf', event_commitment sample_event (repeat 9 200) = Some (0, buf') /\ len buf' = 200.
Proof. apply (event_commitment_exact sample_event (repeat 9 200)); [apply sample_event_ok|done]. Defined.

Lemma commitment_determines (a b : nostr_event) (Ha : event_ok a) (Hb : event_ok b)
    (Ea : explicit_tags a = None) (Eb : explicit_tags b = None)
    (Ta : created_at a < 10 ^ 15) (Tb : created_at b < 10 ^ 15) (H : commitment a = commitment b) :
  pubkey a = pubkey b /\ created_at a = created_at b /\ kind a = kind b /\ tags a = tags b /\
  content a = content b.
Proof.
  destruct (ok_pubkey a Ha) as [Pa La], (ok_pubkey b Hb) as [Pb Lb].
  destruct (ok_created_at a Ha) as [Ca _], (ok_created_at b Hb) as [Cb _].
  unfold commitment in H. destruct (Z.ltb_spec (created_at a) (10 ^ 15)); [|lia].
  destruct (Z.ltb_spec (created_at b) (10 ^ 15)); [|lia]. unfold nip01 in H.
  rewrite !serialisation_parts in H. do 2 apply app_inv_head in H.
  apply app_inj_1 in H as [E1 H]; [|by rewrite !hex_text_length, La, Lb].
  apply hex_text_inj in E1; [|congruence..]. apply app_inv_head in H. apply (f_equal tail) in H. cbn [tail] in H.
  apply delimited_by in H as [E2 H]; [|by apply comma_not_u64..].
  apply delimited_by in H as [E3 H]; [|by apply comma_not_int..].
  apply fmt_u64_inj in E2; [|apply (ok_created_at _ Ha)|apply (ok_created_at _ Hb)].
  apply fmt_int_inj in E3; [|apply (ok_kind _ Ha)|apply (ok_kind _ Hb)].
  unfold json_tags in H. rewrite Ea, Eb in H.
  apply json_tags_delimits in H as [E4 H]; [|by apply Forall_true; intros; apply Forall_true..].
  apply (f_equal tail) in H. cbn [tail] in H. apply json_string_delimits in H as [E5 _]; done.
Qed.

(** What a run of [event_commitment] that succeeds has written. *)
Lemma event_commitment_wrote ev buf l buf' :
  event_ok ev -> len buf < 2 ^ 31 -> event_commitment ev buf = Some (l, buf') -> l <> 0 ->
  take (Z.to_nat l) buf' = commitment ev.
Proof.
  intros Hev Hb E Hl. pose proof (event_commitment_spec ev buf Hev Hb) as H.
  destruct (Z.ltb_spec (len (commitment ev)) (len buf)).
  - rewrite H in E. injection E as <- <-.
    replace (Z.to_nat (len (commitment ev))) with (length (commitment ev)) by len_lia. apply take_app_length.
  - destruct H as (? & E' & _). congruence.
Qed.

(** C7: what [event_commitment] writes determines the event: if it succeeds
    (returns a length other than 0) on two events whose tags are arrays (no
    explicit tags) and whose times have at most 15 digits, with buffers shorter
    than 2^31, and the two texts it leaves in the buffers are the same, then the
    events have the same public key, time, kind, tags and content. *)
Theorem commitment_injective (a b : nostr_event) (bufa bufb outa outb : list Z) (la lb : Z)
    (Ha : event_ok a) (Hb : event_ok b) (Ea : explicit_tags a = None) (Eb : explicit_tags b = None)
    (Ta : created_at a < 10 ^ 15) (Tb : created_at b < 10 ^ 15)
    (Ba : len bufa < 2 ^ 31) (Bb : len bufb < 2 ^ 31)
    (Ra : event_commitment a bufa = Some (la, outa)) (Na : la <> 0)
    (Rb : event_commitment b bufb = Some (lb, outb)) (Nb : lb <> 0)
    (H : take (Z.to_nat la) outa = take (Z.to_nat lb) outb) :
  pubkey a = pubkey b /\ created_at a = created_at b /\ kind a = kind b /\ tags a = tags b /\
  content a = content b.
Proof.
  apply commitment_determines; try done.
  by rewrite <- (event_commitment_wrote a bufa la outa), <- (event_commitment_wrote b bufb lb outb).
Qed.

Lemma commitment_injective_witness :
  let a := sample_event in let b := set_id sample_event (repeat 1 32) in
  exists out, event_commitment a (repeat 0 300) = Some (len (nip01 a), out) /\
    event_commitment b (repeat 0 300) = Some (len (nip01 a), out) /\ tags a = tags b.
Proof.
  cbv zeta.
  assert (Ea : event_commitment sample_event (repeat 0 300) = Some (len (nip01 sample_event),
    nip01 sample_event ++ drop (length (nip01 sample_event)) (repeat 0 300))) by (vm_compute; reflexivity).
  eexists. split; [exact Ea|]. split; [exact Ea|].
  refine (proj1 (proj2 (proj2 (proj2 (commitment_injective sample_event (set_id sample_event (repeat 1 32))
    (repeat 0 300) (repeat 0 300) _ _ _ _ _ _ _ _ _ _ _ _ Ea _ Ea _ _)))));
    [apply sample_event_ok|split; try by_compute; repeat split; by_compute|..];
    first [reflexivity|vm_compute; congruence].
Defined.

(** A time of 16 or more digits does not fit [timebuf]: its last digits are
    cut off, so the event has the commitment (and the id) of the event a tenth
    of its age. *)
Theorem commitment_time_truncated (ev : nostr_event) (Ht : 10 ^ 15 <= created_at ev < 2 ^ 64) :
  commitment ev =
  commitment (Event (id ev) (pubkey ev) (sig ev) (content ev) (created_at ev / 10) (kind ev) (explicit_tags ev) (tags ev)).
Proof.
  rewrite !commitment_cut by (cbn [created_at]; dlia). unfold truncated, serialisation.
  cbn [pubkey created_at kind content]. by rewrite timebuf_overflow.
Qed.

Lemma commitment_time_truncated_witness :
  let ev t := Event [] [] [] [] t 1 None [] in commitment (ev 1700000000000000) = commitment (ev 170000000000000).
Proof. apply (commitment_time_truncated (Event [] [] [] [] 1700000000000000 1 None [])). split; vm_compute; congruence. Defined.

(** The id is the SHA-256 digest of the commitment, for every event whose
    commitment is shorter than the buffer of 102400 bytes; otherwise the function
    returns 0 and leaves the event alone. *)
Theorem generate_event_id_exact (ev : nostr_event) (buf : list Z) (Hev : event_ok ev) (Hbuf : len buf = 102400) :
  exists buf', generate_event_id ev buf =
    (if len (commitment ev) <? 102400 then Some (1, set_id ev (Spec.sha256 (commitment ev)), buf')
     else Some (0, ev, buf')) /\ len buf' = 102400.
Proof. by apply generate_event_id_spec. Qed.

Lemma generate_event_id_exact_witness :
  exists buf', generate_event_id sample_event (repeat 0 (Z.to_nat 102400)) =
    (if len (commitment sample_event) <? 102400
     then Some (1, set_id sample_event (Spec.sha256 (commitment sample_event)), buf')
     else Some (0, sample_event, buf')) /\ len buf' = 102400.
Proof. apply generate_event_id_exact; [apply sample_event_ok|by rewrite len_repeat]. Defined.

(** [cursor_push_jsonstr] appends one JSON string, and reading that string
    back (undoing the escapes up to the first unescaped quote) gives the
    argument; it fails exactly when the text does not fit. *)
Theorem jsonstr_round_trip (str : list Z) (s : state) (Hstr : c_string str) (Hs : wf s) :
  if len (json_string str) <=? room s
  then cursor_push_jsonstr str s = Some (true, appended s (json_string str)) /\
       text (appended s (json_string str)) = text s ++ json_string str /\
       forall r, read_string (json_string str ++ r) = Some (str, r)
  else exists s', cursor_push_jsonstr str s = Some (false, s') /\ confined s s'.
Proof.
  pose proof (Appends_jsonstr str Hstr s Hs) as H. rewrite Z.add_0_r in H.
  destruct (Z.leb_spec (len (json_string str)) (room s)).
  - split_and!; [done|by apply text_appended|]. intros. apply read_json_string.
  - destruct H as (s' & ? & ? & ?). exists s'. eauto using step_confined.
Qed.

Lemma jsonstr_round_trip_witness :
  let str := cs "a" ++ [quote; backslash; 10] in let s := (make_cursor 0 20, repeat 0 20) in
  if len (json_string str) <=? room s
  then cursor_push_jsonstr str s = Some (true, appended s (json_string str)) /\
       text (appended s (json_string str)) = text s ++ json_string str /\
       forall r, read_string (json_string str ++ r) = Some (str, r)
  else exists s', cursor_push_jsonstr str s = Some (false, s') /\ confined s s'.
Proof.
  apply (jsonstr_round_trip (cs "a" ++ [quote; backslash; 10]) (make_cursor 0 20, repeat 0 20));
    [split; by_compute|split; vm_compute; congruence].
Defined.

(** The writer escapes only quote, backslash and the control characters with
    a letter: the JSON text holds a raw control character exactly when the string
    holds one of the others. *)
Theorem jsonstr_raw_control (str : list Z) (s : state) (Hstr : c_string str) (Hs : wf s)
    (Hr : len (json_string str) <= room s) :
  exists t, cursor_push_jsonstr str s = Some (true, appended s t) /\
    (Exists (fun x => x < 32) t <-> Exists (fun c => c < 32 /\ c ∉ [8; 9; 10; 12; 13]) str).
Proof.
  exists (json_string str). split; [|by apply json_string_control; destruct Hstr].
  pose proof (Appends_jsonstr str Hstr s Hs) as H. rewrite Z.add_0_r in H.
  by destruct (Z.leb_spec (len (json_string str)) (room s)); [|lia].
Qed.

Lemma jsonstr_raw_control_witness :
  let s := (make_cursor 0 9, repeat 0 9) in
  exists t, cursor_push_jsonstr [27; 10] s = Some (true, appended s t) /\
    (Exists (fun x => x < 32) t <-> Exists (fun c => c < 32 /\ c ∉ [8; 9; 10; 12; 13]) [27; 10]).
Proof.
  apply (jsonstr_raw_control [27; 10] (make_cursor 0 9, repeat 0 9));
    [split; by_compute|split; vm_compute; congruence|vm_compute; congruence].
Defined.

(** C32: [print_event] prints the event as one JSON object (in an EVENT envelope
    on demand) and a newline, and returns 1, when the tags and the content each
    fit the local buffer; otherwise it returns 0 without the closing brace. *)
Theorem print_event_exact (ev : nostr_event) (envelope : bool) (Hev : event_ok ev) :
  if printable ev then print_event ev envelope = Some (1, event_message ev envelope)
  else exists out, print_event ev envelope = Some (0, out).
Proof. by apply print_event_spec. Qed.

Lemma print_event_exact_witness :
  if printable sample_event then print_event sample_event true = Some (1, event_message sample_event true)
  else exists out, print_event sample_event true = Some (0, out).
Proof. apply (print_event_exact sample_event true), sample_event_ok. Defined.

(** A tag is refused, and the event unchanged, when 32 are present; otherwise
    a tag of at most 16 elements is appended, which keeps the event well-formed;
    more elements are written past the tag. *)
Theorem nostr_add_tag_n_exact (ev : nostr_event) (ts : list (list Z))
    (Hev : event_ok ev) (Hts : Forall c_string ts) (Hn : len (tags ev) <= MAX_TAGS) :
  match nostr_add_tag_n ev ts with
  | Some (r, ev') =>
      (if len (tags ev) <? MAX_TAGS then r = 1 /\ tags ev' = tags ev ++ [ts] else r = 0 /\ ev' = ev) /\
      event_ok ev' /\ len (tags ev') <= MAX_TAGS
  | None => len (tags ev) < MAX_TAGS /\ MAX_TAG_ELEMS < len ts
  end.
Proof.
  unfold nostr_add_tag_n, MAX_TAGS in *.
  destruct (Z.ltb_spec 32 (len (tags ev) + 1)), (Z.ltb_spec (len (tags ev)) 32); try lia; [done|].
  destruct (Z.leb_spec (len ts) MAX_TAG_ELEMS); [|lia].
  split_and!; [done|done| |cbn [set_tags tags]; len_lia].
  destruct Hev. split; try done. cbn [set_tags tags]. apply Forall_app. by split; [|constructor].
Qed.

Lemma nostr_add_tag_n_exact_witness :
  match nostr_add_tag_n sample_event [cs "t"; cs "x"] with
  | Some (r, ev') =>
      (if len (tags sample_event) <? MAX_TAGS then r = 1 /\ tags ev' = tags sample_event ++ [[cs "t"; cs "x"]]
       else r = 0 /\ ev' = sample_event) /\ event_ok ev' /\ len (tags ev') <= MAX_TAGS
  | None => len (tags sample_event) < MAX_TAGS /\ MAX_TAG_ELEMS < len [cs "t"; cs "x"]
  end.
Proof.
  apply (nostr_add_tag_n_exact sample_event [cs "t"; cs "x"]);
    [apply sample_event_ok|repeat constructor; by_compute|vm_compute; congruence].
Defined.
