(* ===== verification/Run.v ===== *)
(** * Computations of a C program

    The outcomes a C function can have besides returning, and the monad in which
    the programs are written: explicit passing of a state [W], which each
    program defines, with early ends as values. *)
From S2P Require Import Prelude.

Inductive outcome (A : Type) :=
| Returned (a : A)
| Exited (code : Z)                                      (* exit(code) *)
| Replaced (file : list Z) (argv : list (list Z))        (* execvp succeeded *)
| Aborted                                                (* a failed assertion *)
| Undefined                                              (* an access outside its object *)
| OutOfFuel.                                             (* still running *)
Arguments Returned {A} a.
Arguments Exited {A} code.
Arguments Replaced {A} file argv.
Arguments Aborted {A}.
Arguments Undefined {A}.
Arguments OutOfFuel {A}.

Definition prog (W A : Type) : Type := W -> outcome A * W.

#[export] Instance prog_ret {W} : MRet (prog W) := fun A a w => (Returned a, w).

#[export] Instance prog_bind {W} : MBind (prog W) := fun A B f m w =>
  match m w with
  | (Returned a, w') => f a w'
  | (Exited c, w') => (Exited c, w')
  | (Replaced file argv, w') => (Replaced file argv, w')
  | (Aborted, w') => (Aborted, w')
  | (Undefined, w') => (Undefined, w')
  | (OutOfFuel, w') => (OutOfFuel, w')
  end.

Section prog.
Context {W : Type}.

Definition read {A} (f : W -> A) : prog W A := fun w => (Returned (f w), w).
Definition modify (f : W -> W) : prog W unit := fun w => (Returned tt, f w).
Definition exit {A} (code : Z) : prog W A := fun w => (Exited code, w).
Definition undefined {A} : prog W A := fun w => (Undefined, w).
Definition out_of_fuel {A} : prog W A := fun w => (OutOfFuel, w).
Definition assert_ (b : bool) : prog W unit := fun w => if b then (Returned tt, w) else (Aborted, w).

(** A computation on memory; [None] is an access outside an object. *)
Definition lift {A} (o : option A) : prog W A := fun w =>
  match o with Some a => (Returned a, w) | None => (Undefined, w) end.

(** [e1 || e2] on the exit status of statements: only for its effects. *)
Definition when (b : bool) (m : prog W unit) : prog W unit := if b then m else mret tt.
End prog.

(** ** Running *)

Lemma bind_returned {W A B} (m : prog W A) (f : A -> prog W B) w a w' :
  m w = (Returned a, w') -> (m ≫= f) w = f a w'.
Proof. intros H. unfold mbind, prog_bind. by rewrite H. Qed.

Lemma ret_bind {W A B} (a : A) (f : A -> prog W B) w : (mret a ≫= f) w = f a w.
Proof. done. Qed.

Lemma lift_bind {W A B} (a : A) (f : A -> prog W B) w : (lift (Some a) ≫= f) w = f a w.
Proof. done. Qed.

Lemma bind_assoc {W A B C} (m : prog W A) (f : A -> prog W B) (g : B -> prog W C) w :
  ((m ≫= f) ≫= g) w = (m ≫= (fun a => f a ≫= g)) w.
Proof. unfold mbind, prog_bind. by destruct (m w) as [[] ?]. Qed.

(** What a returning [bind] went through. *)
Lemma bind_inv {W A B} (m : prog W A) (f : A -> prog W B) w b w' :
  (m ≫= f) w = (Returned b, w') -> exists a w1, m w = (Returned a, w1) /\ f a w1 = (Returned b, w').
Proof. unfold mbind, prog_bind. destruct (m w) as [[] ?]; [eauto|done..]. Qed.

Lemma when_bind {W A} b m (f : unit -> prog W A) w :
  (when b m ≫= f) w = if b then (m ≫= f) w else f tt w.
Proof. by destruct b. Qed.

(** ** Computations that end the program *)

Definition exits {W A} (code : Z) (m : prog W A) : Prop := forall w, exists w', m w = (Exited code, w').

Lemma exits_exit {W A} code : exits code (@exit W A code).
Proof. intros w. by exists w. Qed.

Lemma exits_bind {W A B} code (m : prog W A) (f : A -> prog W B) : exits code m -> exits code (m ≫= f).
Proof. intros Hm w. destruct (Hm w) as [w' E]. exists w'. unfold mbind, prog_bind. by rewrite E. Qed.

Lemma exits_stop {W A B} code (m : prog W A) (f : A -> prog W B) w :
  exits code m -> exists w', (m ≫= f) w = (Exited code, w').
Proof. intros Hm. by apply (exits_bind code m f). Qed.

Lemma exits_not {W A B} code (m : prog W A) (f : A -> prog W B) w b w' :
  exits code m -> (m ≫= f) w <> (Returned b, w').
Proof. intros Hm E. destruct (exits_bind code m f Hm w) as [w1 E1]. rewrite E1 in E. discriminate. Qed.
