(* ===== verification/Process.v ===== *)
(** * The process around the computation

    What a run of [gnostr.c] changes outside its memory: the text on the two
    streams, the shell commands and [errno].  The operating system is an interface:
    [OS] holds the answers of [time], [execvp] and the latitude of [strtol], and
    the world carries the answers of [getrandom] still to come.
    Also [strtol] itself, [include/random.h], [include/openssl_hash.h] and the
    two programs of [template/] that ask for the list of relays. *)
From S2P Require Export Run.
From S2P Require Import Prelude.

Inductive effect :=
| Stdout (text : list Z)
| Stderr (text : list Z)
| System (command : list Z)
| Mined (bits attempts : Z).   (* the report of generate_key on stderr, without its clock readings *)

Record world := World {
  errno : Z;
  entropy : list (option (list Z));   (* answers of getrandom; [None] is -1 *)
  log : list effect                   (* in the order they happen *)
}.

Abbreviation proc := (prog world).

Definition emit (e : effect) : proc unit := fun w =>
  (Returned tt, World (errno w) (entropy w) (log w ++ [e])).
Definition printf (text : list Z) : proc unit := emit (Stdout text).
Definition eprintf (text : list Z) : proc unit := emit (Stderr text).
Definition system (command : list Z) : proc unit := emit (System command).
Definition set_errno (e : Z) : proc unit := fun w => (Returned tt, World e (entropy w) (log w)).
Definition get_errno : proc Z := fun w => (Returned (errno w), w).

(** ** The operating system *)

Definition ERANGE : Z := 34.
Definition EINVAL : Z := 22.

Class OS := {
  time_now : Z;                                            (* time(NULL) *)
  os_execvp : list Z -> list (list Z) -> option Z;         (* [None]: the image is replaced; [Some e]: errno *)
  strtol_einval : bool                                     (* strtol sets EINVAL when there is no number *)
}.

Definition execvp `{OS} (file : list Z) (argv : list (list Z)) : proc unit := fun w =>
  match os_execvp file argv with
  | None => (Replaced file argv, w)
  | Some e => set_errno e w
  end.

(** [fill_random(data, size)]: the bytes of [data], or [None] for 0. *)
Definition fill_random (size : Z) : proc (option (list Z)) := fun w =>
  match entropy w with
  | Some d :: rest =>
      (Returned (if len d =? size then Some d else None), World (errno w) rest (log w))
  | None :: rest => (Returned None, World (errno w) rest (log w))
  | [] => (Returned None, w)
  end.

(** ** [strtol(s, NULL, 10)] *)

Definition is_space (c : Z) : bool := (c =? 32) || ((9 <=? c) && (c <=? 13)).
Definition is_digit (c : Z) : bool := (48 <=? c) && (c <=? 57).

Fixpoint skip_space (s : list Z) : list Z :=
  match s with c :: r => if is_space c then skip_space r else s | [] => [] end.

Fixpoint read_digits (acc : Z) (s : list Z) : Z :=
  match s with c :: r => if is_digit c then read_digits (10 * acc + (c - 48)) r else acc | [] => acc end.

Definition LONG_MAX : Z := 2 ^ 63 - 1.
Definition LONG_MIN : Z := - 2 ^ 63.

Definition strtol `{OS} (s : list Z) : proc Z :=
  let s := skip_space s in
  let '(neg, s) := match s with
    | c :: r => if c =? 45 then (true, r) else if c =? 43 then (false, r) else (false, s)
    | [] => (false, [])
    end in
  let no_number := match s with c :: _ => negb (is_digit c) | [] => true end in
  let v := if (neg : bool) then - read_digits 0 s else read_digits 0 s in
  if no_number then _ ← when strtol_einval (set_errno EINVAL); mret 0
  else if LONG_MAX <? v then _ ← set_errno ERANGE; mret LONG_MAX
  else if v <? LONG_MIN then _ ← set_errno ERANGE; mret LONG_MIN
  else mret v.

(** ** [include/openssl_hash.h] *)

(** [strcat] into an array of [size] bytes. *)
Definition strcat (size : Z) (dest src : list Z) : proc (list Z) :=
  if len dest + len src + 1 <=? size then mret (dest ++ src) else undefined.

Definition dgst : list Z := cs "openssl dgst -sha256 | sed 's/SHA2-256(stdin)= //g'".

(** [hash] is the argument, [None] the null pointer at the end of [argv]. *)
Definition openssl_hash (hash : option (list Z)) : proc unit :=
  match hash with
  | Some h =>
      command ← strcat 128 [] (cs "echo");
      command ← strcat 128 command (cs " ");
      command ← strcat 128 command h;
      command ← strcat 128 command (cs "|");
      command ← strcat 128 command dgst;
      _ ← system command; exit 0
  | None =>
      command ← strcat 128 [] (cs "0>/dev/null|" ++ dgst);
      _ ← system command; exit 0
  end.

(** ** [template/gnostr-get-relays.c], [template/gnostr-set-relays.c] *)

Module RelayList.

(** The two programs are the same. *)
Definition main : proc Z :=
  command ← strcat 128 [] (cs "curl  -sS 'https://api.nostr.watch/v1/online' ");
  _ ← system command; mret 0.

(** The command fits its array; its outcome is not looked at. *)
Lemma main_runs w :
  main w = (Returned 0, World (errno w) (entropy w) (log w ++ [System (cs "curl  -sS 'https://api.nostr.watch/v1/online' ")])).
Proof. reflexivity. Qed.
End RelayList.

(** The text a run has sent to standard output. *)
Definition stdout_of (l : list effect) : list Z :=
  concat (map (fun e => match e with Stdout t => t | _ => [] end) l).

(** What a program says of a secret: a computation that at most writes to the
    standard error. *)
Class Reporter (report : list Z -> proc unit) := {
  shown : list Z -> list effect;
  report_spec s w : report s w = (Returned tt, World (errno w) (entropy w) (log w ++ shown s));
  shown_stderr s : stdout_of (shown s) = []
}.

(** Nothing, as in [gnostr.c]. *)
Definition quiet : list Z -> proc unit := fun _ => mret tt.

#[export] Instance quiet_reporter : Reporter quiet.
Proof. refine {| shown := fun _ => [] |}; [|done]. intros s [e en l]. cbn. by rewrite app_nil_r. Defined.

(** ** The hash command *)

Lemma exits_printf {A} code t (m : proc A) : exits code m -> exits code (printf t ≫= fun _ => m).
Proof. intros Hm w. apply Hm. Qed.

Lemma strcat_spec {A} size dest src (f : list Z -> proc A) w :
  (strcat size dest src ≫= f) w = if len dest + len src + 1 <=? size then f (dest ++ src) w else (Undefined, w).
Proof. unfold strcat. by case_match. Qed.

Lemma openssl_hash_runs h w :
  openssl_hash (Some h) w =
  if len h <=? 70
  then (Exited 0, World (errno w) (entropy w) (log w ++ [System (cs "echo " ++ h ++ cs "|" ++ dgst)]))
  else (Undefined, w).
Proof.
  change (openssl_hash (Some h) w) with
    ((strcat 128 [] (cs "echo") ≫= fun c => strcat 128 c (cs " ") ≫= fun c => strcat 128 c h ≫= fun c =>
      strcat 128 c (cs "|") ≫= fun c => strcat 128 c dgst ≫= fun c => system c ≫= fun _ => @exit world unit 0) w).
  rewrite strcat_spec. change (len [] + len (cs "echo") + 1 <=? 128) with true.
  cbv iota. rewrite strcat_spec. change (len ([] ++ cs "echo") + len (cs " ") + 1 <=? 128) with true. cbv iota.
  rewrite strcat_spec. change (([] ++ cs "echo") ++ cs " ") with (cs "echo ").
  assert (Hd : len dgst = 51) by reflexivity. assert (He : len (cs "echo ") = 5) by reflexivity.
  assert (Hp : len (cs "|") = 1) by reflexivity. pose proof (len_nonneg h).
  destruct (Z.leb_spec (len h) 70), (Z.leb_spec (len (cs "echo ") + len h + 1) 128); try lia.
  - rewrite strcat_spec, !len_app, He, Hp. destruct (Z.leb_spec (5 + len h + 1 + 1) 128); [|lia].
    rewrite strcat_spec, !len_app, He, Hp, Hd. destruct (Z.leb_spec (5 + len h + 1 + 51 + 1) 128); [|lia].
    rewrite <- !app_assoc. reflexivity.
  - rewrite strcat_spec, !len_app, He, Hp. destruct (Z.leb_spec (5 + len h + 1 + 1) 128); [|done].
    rewrite strcat_spec, !len_app, He, Hp, Hd. destruct (Z.leb_spec (5 + len h + 1 + 51 + 1) 128); [lia|done].
  - done.
Qed.

(** [--hash value] hands the shell the text [echo value|openssl ...], with
    the value as it is, and ends the program, for values of at most 70
    characters; a longer value overflows the command array. *)
Theorem openssl_hash_exact (h : list Z) (w : world) :
  openssl_hash (Some h) w =
  if len h <=? 70
  then (Exited 0, World (errno w) (entropy w) (log w ++ [System (cs "echo " ++ h ++ cs "|" ++ dgst)]))
  else (Undefined, w).
Proof. apply openssl_hash_runs. Qed.
