(* ===== verification/Args.v ===== *)
(** * The command line: [gnostr.c], [include/struct_args.h]

    [my_to_base] and [print_base]; [about], [version] and [usage]; [parse_num],
    [parse_args] and [make_event_from_args].

    The reference is a list of options: [render] writes an option as arguments,
    [apply_opt] says what it does to the settings or that it is refused.
    [parse_args] accepts exactly the renderings of option lists that are
    applied without refusal and do not end with an option without argument. *)
From S2P Require Import Prelude Hex Event Process.

(** ** Numbers in a base *)

Definition TO_BASE_N : Z := 33.
Definition base_digits : list Z := cs "0123456789ABCDEFGHIJKLMNOPQRSTUVWXYZ".

(** The [do ... while] loop: the buffer and the position [s]. *)
Fixpoint to_base_loop (fuel : nat) (buf : list Z) (s i base : Z) : option (list Z * Z) :=
  match fuel with
  | O => None
  | S fuel =>
      let s := s - 1 in
      buf ← put s [base_digits.[i mod base]] buf;
      let i := i / base in
      if i =? 0 then Some (buf, s) else to_base_loop fuel buf s i base
  end.

(** The buffer and the offset of the text in it; [None] is the failed assertion
    or a write outside the buffer. *)
Definition my_to_base (buf : list Z) (i base : Z) : option (list Z * Z) :=
  if (2 <=? base) && (base <=? 36) then
    buf ← put (TO_BASE_N - 1) [0] buf;
    to_base_loop 32 buf (TO_BASE_N - 1) (u32 i) base
  else None.

(** The characters from an offset to the NUL. *)
Fixpoint until_nul (l : list Z) : list Z :=
  match l with c :: l => if c =? 0 then [] else c :: until_nul l | [] => [] end.
Definition c_str (mem : list Z) (off : Z) : list Z := until_nul (drop (Z.to_nat off) mem).

Definition TO_BASE (x b : Z) : proc (list Z) :=
  '(buf, s) ← lift (my_to_base (repeat 0 (Z.to_nat TO_BASE_N)) x b); mret (c_str buf s).

Definition print_base (input : Z) : proc Z :=
  let ip1 := 0x01020304 in
  let ip2 := 0x05060708 in
  a ← TO_BASE ip1 16; b ← TO_BASE ip2 16; _ ← printf (a ++ cs " " ++ b ++ [10]);
  a ← TO_BASE ip1 2; b ← TO_BASE ip2 2; _ ← printf (a ++ cs " " ++ b ++ [10]);
  a ← TO_BASE ip1 8; _ ← printf (a ++ [10]);
  a ← TO_BASE ip1 36; _ ← printf (a ++ [10]);
  a ← TO_BASE input 16; b ← TO_BASE input 16; _ ← printf (a ++ cs " " ++ b ++ [10]);
  a ← TO_BASE input 2; b ← TO_BASE input 2; _ ← printf (a ++ cs " " ++ b ++ [10]);
  a ← TO_BASE input 8; _ ← printf (a ++ [10]);
  a ← TO_BASE input 36; _ ← printf (a ++ [10]);
  mret 0.

(** ** Texts *)

Definition VERSION : list Z := cs "0.0.0".
Definition line (s : string) : proc unit := printf (cs s ++ [10]).

Definition about {A} : proc A := _ ← line "gnostr: a git nostr command line utility."; exit 0.
Definition version {A} : proc A := _ ← printf (VERSION ++ [10]); exit 0.

Definition usage {A} : proc A :=
  _ ← line "usage: gnostr [OPTIONS]";
  _ ← line "";
  _ ← line "  GIT OPTIONS";
  _ ← line "";
  _ ← line "";
  _ ← line "  RELAY OPTIONS";
  _ ← line "";
  _ ← line "";
  _ ← line "  NOSTR OPTIONS";
  _ ← line "";
  _ ← line "      --content <string>              the content of the note";
  _ ← line "      --dm <hex pubkey>               make an encrypted dm to said pubkey. sets kind and tags.";
  _ ← printf (cs "      --envelope                      wrap in [" ++ [quote] ++ cs "EVENT" ++ [quote]
             ++ cs ",...] for easy relaying" ++ [10]);
  _ ← line "      --kind <number>                 set kind";
  _ ← line "      --created-at <unix timestamp>   set a specific created-at time";
  _ ← line "      --sec <hex seckey>              set the secret key for signing, otherwise one will be randomly generated";
  _ ← line "      --pow <difficulty>              number of leading 0 bits of the id to mine";
  _ ← line "      --mine-pubkey                   mine a pubkey instead of id";
  _ ← line "      --tag <key> <value>             add a tag";
  _ ← line "";
  _ ← line "      --hash <value>                  return sha256 of <value>";
  _ ← line "";
  _ ← line "      -e <event_id>                   shorthand for --tag e <event_id>";
  _ ← line "      -p <pubkey>                     shorthand for --tag p <pubkey>";
  _ ← line "      -t <hashtag>                    shorthand for --tag t <hashtag>";
  exit 0.

(** ** Settings *)

Definition HAS_CREATED_AT : Z := 1 .<< 1.
Definition HAS_KIND : Z := 1 .<< 2.
Definition HAS_ENVELOPE : Z := 1 .<< 3.
Definition HAS_ENCRYPT : Z := 1 .<< 4.
Definition HAS_DIFFICULTY : Z := 1 .<< 5.
Definition HAS_MINE_PUBKEY : Z := 1 .<< 6.

(** The members [hash], [arg1], [arg2] and [xor_result] are only set on the way
    to [exit]; a null pointer is [None]. *)
Record args := Args {
  flags : Z;
  args_kind : Z;
  difficulty : Z;
  encrypt_to : list Z;             (* unsigned char[32] *)
  sec : option (list Z);
  args_tags : option (list Z);
  args_content : option (list Z);
  args_created_at : Z
}.

(** [struct args args = {0}] and [struct nostr_event ev = {0}]; [content] is
    set before it is read. *)
Definition args_zero : args := Args 0 0 0 (repeat 0 32) None None None 0.
Definition event_zero : nostr_event := Event (repeat 0 32) (repeat 0 32) (repeat 0 64) [] 0 0 None [].

Definition set_flag (a : args) (f : Z) : args :=
  Args (flags a .| f) (args_kind a) (difficulty a) (encrypt_to a) (sec a) (args_tags a) (args_content a) (args_created_at a).
Definition set_kind (a : args) (k : Z) : args :=
  Args (flags a) k (difficulty a) (encrypt_to a) (sec a) (args_tags a) (args_content a) (args_created_at a).
Definition set_difficulty (a : args) (d : Z) : args :=
  Args (flags a) (args_kind a) d (encrypt_to a) (sec a) (args_tags a) (args_content a) (args_created_at a).
Definition set_encrypt_to (a : args) (e : list Z) : args :=
  Args (flags a) (args_kind a) (difficulty a) e (sec a) (args_tags a) (args_content a) (args_created_at a).
Definition set_sec (a : args) (s : list Z) : args :=
  Args (flags a) (args_kind a) (difficulty a) (encrypt_to a) (Some s) (args_tags a) (args_content a) (args_created_at a).
Definition set_explicit (a : args) (t : list Z) : args :=
  Args (flags a) (args_kind a) (difficulty a) (encrypt_to a) (sec a) (Some t) (args_content a) (args_created_at a).
Definition set_content (a : args) (c : list Z) : args :=
  Args (flags a) (args_kind a) (difficulty a) (encrypt_to a) (sec a) (args_tags a) (Some c) (args_created_at a).
Definition set_created_at (a : args) (t : Z) : args :=
  Args (flags a) (args_kind a) (difficulty a) (encrypt_to a) (sec a) (args_tags a) (args_content a) t.

Definition has (a : args) (f : Z) : bool := negb (flags a .& f =? 0).

(** ** Parsing *)

(** [!strcmp(arg, s)] *)
Definition streq (arg : list Z) (s : string) : bool := bool_decide (arg = cs s).

(** Comparisons of literal words, decided. *)
Ltac decide_options :=
  repeat match goal with
  | |- context [streq (cs ?a) ?b] =>
      let v := eval vm_compute in (streq (cs a) b) in change (streq (cs a) b) with v
  end; cbn [orb when]; rewrite ?ret_bind.

Section Parsing.
Context `{OS}.

(** The return value and [*t]. *)
Definition parse_num (arg : list Z) : proc (Z * Z) :=
  t ← strtol arg;
  e ← get_errno;
  mret (Z.b2z (negb (e =? EINVAL)), u64 t).

(** The loop: [argv] holds the remaining [argc] arguments, after the null
    pointer [*argv] is [None].  The result is the return value, the settings and
    the event. *)
Fixpoint parse_loop (has_added_tags : bool) (args : args) (ev : nostr_event) (argv : list (list Z))
    : proc (Z * Args.args * nostr_event) :=
  match argv with
  | [] => mret (1, args, ev)
  | arg :: argv =>
      _ ← when (streq arg "--help" || streq arg "-h") usage;
      _ ← when (streq arg "--version" || streq arg "-v") version;
      _ ← when (streq arg "--about" || streq arg "-a") about;
      _ ← when (streq arg "--hash") (openssl_hash (head argv));
      match argv with
      | [] => _ ← eprintf (cs "expected argument: '" ++ arg ++ cs "'" ++ [10]); mret (0, args, ev)
      | next :: rest =>
          if streq arg "--sec" || streq arg "-s" then parse_loop has_added_tags (set_sec args next) ev rest
          else if streq arg "--created-at" then
            '(ok, t) ← parse_num next;
            let args := set_created_at args t in
            if ok =? 0 then _ ← eprintf (cs "created-at must be a unix timestamp" ++ [10]); mret (0, args, ev)
            else parse_loop has_added_tags (set_flag args HAS_CREATED_AT) ev rest
          else if streq arg "--kind" then
            '(ok, n) ← parse_num next;
            if ok =? 0 then
              _ ← eprintf (cs "kind should be a number, got '" ++ next ++ cs "'" ++ [10]); mret (0, args, ev)
            else parse_loop has_added_tags (set_flag (set_kind args (to_signed 32 n)) HAS_KIND) ev rest
          else if streq arg "--envelope" then parse_loop has_added_tags (set_flag args HAS_ENVELOPE) ev argv
          else if streq arg "--tags" then
            if has args HAS_DIFFICULTY then
              _ ← eprintf (cs "can't combine --tags and --pow (yet)" ++ [10]); mret (0, args, ev)
            else if has_added_tags then
              _ ← eprintf (cs "can't combine --tags and --tag (yet)"); mret (0, args, ev)
            else parse_loop has_added_tags (set_explicit args next) ev rest
          else if streq arg "-e" then
            '(ok, ev) ← lift (nostr_add_tag ev (cs "e") next);
            if ok =? 0 then _ ← eprintf (cs "couldn't add e tag"); mret (0, args, ev)
            else parse_loop true args ev rest
          else if streq arg "-p" then
            '(ok, ev) ← lift (nostr_add_tag ev (cs "p") next);
            if ok =? 0 then _ ← eprintf (cs "couldn't add p tag"); mret (0, args, ev)
            else parse_loop true args ev rest
          else if streq arg "-t" then
            '(ok, ev) ← lift (nostr_add_tag ev (cs "t") next);
            if ok =? 0 then _ ← eprintf (cs "couldn't add t tag"); mret (0, args, ev)
            else parse_loop true args ev rest
          else if streq arg "--tag" then
            if bool_decide (is_Some (args_tags args)) then
              _ ← eprintf (cs "can't combine --tag and --tags (yet)"); mret (0, args, ev)
            else
              match rest with
              | [] => _ ← eprintf (cs "expected two arguments to --tag" ++ [10]); mret (0, args, ev)
              | arg2 :: rest =>
                  '(ok, ev) ← lift (nostr_add_tag ev next arg2);
                  if ok =? 0 then
                    _ ← eprintf (cs "couldn't add tag '" ++ next ++ cs "' '" ++ arg2 ++ cs "'" ++ [10]);
                    mret (0, args, ev)
                  else parse_loop true args ev rest
              end
          else if streq arg "--mine-pubkey" then parse_loop has_added_tags (set_flag args HAS_MINE_PUBKEY) ev argv
          else if streq arg "--pow" then
            if bool_decide (is_Some (args_tags args)) then
              _ ← eprintf (cs "can't combine --tags and --pow (yet)" ++ [10]); mret (0, args, ev)
            else
              '(ok, n) ← parse_num next;
              if ok =? 0 then
                _ ← eprintf (cs "could not parse difficulty as number: '" ++ next ++ cs "'" ++ [10]);
                mret (0, args, ev)
              else parse_loop has_added_tags (set_flag (set_difficulty args (to_signed 32 n)) HAS_DIFFICULTY) ev rest
          else if streq arg "--dm" then
            let '(ok, to) := hex_decode next (encrypt_to args) in
            let args := set_encrypt_to args to in
            if ok =? 0 then _ ← eprintf (cs "could not decode encrypt-to pubkey"); mret (0, args, ev)
            else parse_loop has_added_tags (set_flag args HAS_ENCRYPT) ev rest
          else if streq arg "--content" then parse_loop has_added_tags (set_content args next) ev rest
          else
            _ ← eprintf (cs "unexpected argument '" ++ arg ++ cs "'" ++ [10]); mret (0, args, ev)
      end
  end.

(** [argv] with the program's name. *)
Definition parse_args (argv : list (list Z)) (args : args) (ev : nostr_event)
    : proc (Z * Args.args * nostr_event) :=
  '(ok, args, ev) ← parse_loop false args ev (tail argv);
  if ok =? 0 then mret (0, args, ev)
  else
    let args := match args_content args with None => set_content args [] | Some _ => args end in
    mret (1, args, ev).

Definition make_event_from_args (ev : nostr_event) (args : args) : nostr_event :=
  let created := if has args HAS_CREATED_AT then args_created_at args else time_now in
  let content := default [] (args_content args) in
  let kind := if has args HAS_KIND then args_kind args else 1 in
  Event (id ev) (pubkey ev) (sig ev) content created kind (explicit_tags ev) (tags ev).
End Parsing.

(** ** The reference: options *)

Inductive opt :=
| Sec (short : bool) (s : list Z)
| CreatedAt (n : list Z)
| Kind (n : list Z)
| Envelope
| Tags (t : list Z)
| TagE (v : list Z)
| TagP (v : list Z)
| TagT (v : list Z)
| Tag (k v : list Z)
| MinePubkey
| Pow (n : list Z)
| Dm (pk : list Z)
| Content (c : list Z).

Definition render (o : opt) : list (list Z) :=
  match o with
  | Sec short s => [if short then cs "-s" else cs "--sec"; s]
  | CreatedAt n => [cs "--created-at"; n]
  | Kind n => [cs "--kind"; n]
  | Envelope => [cs "--envelope"]
  | Tags t => [cs "--tags"; t]
  | TagE v => [cs "-e"; v]
  | TagP v => [cs "-p"; v]
  | TagT v => [cs "-t"; v]
  | Tag k v => [cs "--tag"; k; v]
  | MinePubkey => [cs "--mine-pubkey"]
  | Pow n => [cs "--pow"; n]
  | Dm pk => [cs "--dm"; pk]
  | Content c => [cs "--content"; c]
  end.

Definition takes_value (o : opt) : bool :=
  match o with Envelope | MinePubkey => false | _ => true end.

(** What the parser keeps: the local flag, the settings, the event, errno. *)
Record cfg := Cfg { c_added : bool; c_args : args; c_ev : nostr_event; c_errno : Z }.

Definition with_args (c : cfg) (a : args) : cfg := Cfg (c_added c) a (c_ev c) (c_errno c).

Section Reference.
Context `{OS}.

(** The number at the start of a text, and errno afterwards. *)
Definition number (s : list Z) : Z * option Z :=
  let s := skip_space s in
  let '(neg, s) := match s with
    | c :: r => if c =? 45 then (true, r) else if c =? 43 then (false, r) else (false, s)
    | [] => (false, [])
    end in
  match s with
  | c :: _ =>
      if is_digit c then
        let v := if (neg : bool) then - read_digits 0 s else read_digits 0 s in
        (Z.max LONG_MIN (Z.min LONG_MAX v), if (LONG_MAX <? v) || (v <? LONG_MIN) then Some ERANGE else None)
      else (0, if strtol_einval then Some EINVAL else None)
  | [] => (0, if strtol_einval then Some EINVAL else None)
  end.

(** A number option: refused when errno is EINVAL afterwards. *)
Definition apply_num (c : cfg) (s : list Z) (f : Z -> args) : option cfg :=
  let e := default (c_errno c) (number s).2 in
  if e =? EINVAL then None else Some (Cfg (c_added c) (f (u64 (number s).1)) (c_ev c) e).

Definition apply_tag (c : cfg) (k v : list Z) : option cfg :=
  if len (tags (c_ev c)) <? MAX_TAGS
  then Some (Cfg true (c_args c) (set_tags (c_ev c) (tags (c_ev c) ++ [[k; v]])) (c_errno c))
  else None.

Definition apply_opt (o : opt) (c : cfg) : option cfg :=
  let a := c_args c in
  match o with
  | Sec _ s => Some (with_args c (set_sec a s))
  | CreatedAt n => apply_num c n (fun t => set_flag (set_created_at a t) HAS_CREATED_AT)
  | Kind n => apply_num c n (fun k => set_flag (set_kind a (to_signed 32 k)) HAS_KIND)
  | Envelope => Some (with_args c (set_flag a HAS_ENVELOPE))
  | Tags t =>
      if has a HAS_DIFFICULTY || c_added c then None else Some (with_args c (set_explicit a t))
  | TagE v => apply_tag c (cs "e") v
  | TagP v => apply_tag c (cs "p") v
  | TagT v => apply_tag c (cs "t") v
  | Tag k v => if bool_decide (is_Some (args_tags a)) then None else apply_tag c k v
  | MinePubkey => Some (with_args c (set_flag a HAS_MINE_PUBKEY))
  | Pow n =>
      if bool_decide (is_Some (args_tags a)) then None
      else apply_num c n (fun d => set_flag (set_difficulty a (to_signed 32 d)) HAS_DIFFICULTY)
  | Dm pk =>
      if (hex_decode pk (encrypt_to a)).1 =? 0 then None
      else Some (with_args c (set_flag (set_encrypt_to a (hex_decode pk (encrypt_to a)).2) HAS_ENCRYPT))
  | Content t => Some (with_args c (set_content a t))
  end.

Fixpoint apply_all (os : list opt) (c : cfg) : option cfg :=
  match os with [] => Some c | o :: os => apply_opt o c ≫= apply_all os end.

Definition render_all (os : list opt) : list (list Z) := concat (map render os).

(** An option without argument is not the last. *)
Definition ends_with_value (os : list opt) : bool :=
  match last os with Some o => takes_value o | None => true end.

(** ** The parser step by step *)

Lemma strtol_number s w :
  strtol s w = (Returned (number s).1, World (default (errno w) (number s).2) (entropy w) (log w)).
Proof.
  unfold strtol, number. set (x := match skip_space s with [] => _ | _ => _ end).
  clearbody x. destruct x as [neg l]. destruct w as [e en lg].
  assert (Hm : LONG_MIN < LONG_MAX) by done.
  destruct l as [|c l]; [by destruct strtol_einval|].
  destruct (is_digit c); cbn [negb]; [|by destruct strtol_einval].
  set (v := if neg then _ else _). clearbody v.
  destruct (Z.ltb_spec LONG_MAX v); cbn [orb]; [by rewrite Z.min_l, Z.max_r by lia|].
  rewrite Z.min_r by lia.
  destruct (Z.ltb_spec v LONG_MIN); [by rewrite Z.max_l by lia|by rewrite Z.max_r by lia].
Qed.

Lemma parse_num_number s w :
  parse_num s w =
  (Returned (Z.b2z (negb (default (errno w) (number s).2 =? EINVAL)), u64 (number s).1),
   World (default (errno w) (number s).2) (entropy w) (log w)).
Proof. unfold parse_num. by rewrite (bind_returned _ _ w _ _ (strtol_number s w)). Qed.

Lemma nostr_add_tag_spec ev k v :
  nostr_add_tag ev k v =
  if len (tags ev) <? MAX_TAGS then Some (1, set_tags ev (tags ev ++ [[k; v]])) else Some (0, ev).
Proof.
  unfold nostr_add_tag, nostr_add_tag_n, MAX_TAGS.
  by destruct (Z.ltb_spec 32 (len (tags ev) + 1)), (Z.ltb_spec (len (tags ev)) 32); try lia.
Qed.

Lemma streq_true arg s : streq arg s = true -> arg = cs s.
Proof. unfold streq. apply bool_decide_eq_true. Qed.

Definition run_loop (c : cfg) (w : world) (argv : list (list Z)) :=
  parse_loop (c_added c) (c_args c) (c_ev c) argv (World (c_errno c) (entropy w) (log w)).

(** Return value 0. *)
Definition rejected {A B} (r : outcome (Z * A * B) * world) : Prop :=
  exists a b w, r = (Returned (0, a, b), w).

Lemma rejected_message {A B} m (a : A) (b : B) w : rejected ((eprintf m ≫= fun _ => mret (0, a, b)) w).
Proof. by repeat eexists. Qed.

Ltac number_option n :=
  rewrite (bind_returned _ _ _ _ _ (parse_num_number n _)); cbn [errno entropy log];
  destruct (default _ (number n).2 =? EINVAL); [apply rejected_message|done].

Ltac tag_option :=
  rewrite nostr_add_tag_spec; match goal with |- context [len ?l <? MAX_TAGS] => destruct (len l <? MAX_TAGS) end;
  [done|apply rejected_message].

(** An option: what [apply_opt] says, or a refusal. *)
Lemma parse_step o rest c w :
  takes_value o || bool_decide (rest <> []) = true ->
  match apply_opt o c with
  | Some c' => run_loop c w (render o ++ rest) = run_loop c' w rest
  | None => rejected (run_loop c w (render o ++ rest))
  end.
Proof.
  destruct c as [h a ev e]. unfold run_loop, apply_opt, apply_num, apply_tag, with_args.
  cbn [c_added c_args c_ev c_errno].
  destruct o as [[] s|n|n| |t|v|v|v|k v| |n|pk|t]; cbn [render app takes_value orb parse_loop]; intros Hr;
    decide_options; try reflexivity.
  - number_option n.
  - number_option n.
  - destruct rest; [done|]. reflexivity.
  - destruct (has a HAS_DIFFICULTY), h; cbn [orb]; try apply rejected_message. done.
  - tag_option.
  - tag_option.
  - tag_option.
  - destruct (bool_decide _); [apply rejected_message|].
    tag_option.
  - destruct rest; [done|]. reflexivity.
  - destruct (bool_decide _); [apply rejected_message|].
    number_option n.
  - destruct (hex_decode pk (encrypt_to a)) as [ok to]. cbn [fst snd].
    destruct (ok =? 0); [apply rejected_message|done].
Qed.

Lemma usage_exits {A} : exits 0 (@usage A).
Proof. unfold usage, line. repeat apply exits_printf. apply exits_exit. Qed.

Lemma version_exits {A} : exits 0 (@version A).
Proof. apply exits_printf, exits_exit. Qed.

Lemma about_exits {A} : exits 0 (@about A).
Proof. apply exits_printf, exits_exit. Qed.

(** The other ways a parse goes on from a list of arguments: refusal, exit, or
    the overflow of the hash command. *)
Definition stops {A B} (argv : list (list Z)) (r : outcome (Z * A * B) * world) : Prop :=
  rejected r \/ (exists w, r = (Exited 0, w)) \/
  (exists h rest w, argv = cs "--hash" :: h :: rest /\ 70 < len h /\ r = (Undefined, w)).

Lemma stops_hash {A B} (argv : list (list Z)) (f : unit -> proc (Z * A * B)) w :
  stops (cs "--hash" :: argv) ((openssl_hash (head argv) ≫= f) w).
Proof.
  destruct argv as [|h rest]; cbn [head].
  - right; left. by eexists.
  - pose proof (openssl_hash_runs h w) as E. destruct (Z.leb_spec (len h) 70).
    + right; left. eexists. unfold mbind, prog_bind. by rewrite E.
    + right; right. exists h, rest, w. split_and!; [done..|]. unfold mbind, prog_bind. by rewrite E.
Qed.

Ltac found o rest := right; left; exists o, rest; split; reflexivity.
Ltac refused := right; right; left; by repeat eexists.

Lemma parse_starts h a ev argv w :
  argv = [] \/
  (exists o rest, argv = render o ++ rest /\ takes_value o || bool_decide (rest <> []) = true) \/
  stops argv (parse_loop h a ev argv w).
Proof.
  destruct argv as [|arg argv]; [by left|]. cbn [parse_loop].
  rewrite when_bind. destruct (streq arg "--help" || streq arg "-h").
  { right; right; right; left. apply exits_stop, usage_exits. }
  rewrite when_bind. destruct (streq arg "--version" || streq arg "-v").
  { right; right; right; left. apply exits_stop, version_exits. }
  rewrite when_bind. destruct (streq arg "--about" || streq arg "-a").
  { right; right; right; left. apply exits_stop, about_exits. }
  rewrite when_bind. destruct (streq arg "--hash") eqn:Eh.
  { apply streq_true in Eh as ->. right; right. apply stops_hash. }
  destruct argv as [|next rest]; [refused|].
  destruct (streq arg "--sec") eqn:Es; [apply streq_true in Es as ->; found (Sec false next) rest|].
  cbn [orb].
  destruct (streq arg "-s") eqn:Es2; [apply streq_true in Es2 as ->; found (Sec true next) rest|].
  destruct (streq arg "--created-at") eqn:E1; [apply streq_true in E1 as ->; found (CreatedAt next) rest|].
  destruct (streq arg "--kind") eqn:E2; [apply streq_true in E2 as ->; found (Kind next) rest|].
  destruct (streq arg "--envelope") eqn:E3; [apply streq_true in E3 as ->; found Envelope (next :: rest)|].
  destruct (streq arg "--tags") eqn:E4; [apply streq_true in E4 as ->; found (Tags next) rest|].
  destruct (streq arg "-e") eqn:E5; [apply streq_true in E5 as ->; found (TagE next) rest|].
  destruct (streq arg "-p") eqn:E6; [apply streq_true in E6 as ->; found (TagP next) rest|].
  destruct (streq arg "-t") eqn:E7; [apply streq_true in E7 as ->; found (TagT next) rest|].
  destruct (streq arg "--tag") eqn:E8.
  { apply streq_true in E8 as ->. destruct (bool_decide _); [refused|].
    destruct rest as [|arg2 rest]; [refused|]. found (Tag next arg2) rest. }
  destruct (streq arg "--mine-pubkey") eqn:E9; [apply streq_true in E9 as ->; found MinePubkey (next :: rest)|].
  destruct (streq arg "--pow") eqn:E10; [apply streq_true in E10 as ->; found (Pow next) rest|].
  destruct (streq arg "--dm") eqn:E11; [apply streq_true in E11 as ->; found (Dm next) rest|].
  destruct (streq arg "--content") eqn:E12; [apply streq_true in E12 as ->; found (Content next) rest|].
  refused.
Qed.

(** ** Whole command lines *)

Lemma render_ne o : render o <> [].
Proof. by destruct o. Qed.

Lemma ends_cons o os :
  ends_with_value (o :: os) = true <->
  takes_value o || bool_decide (render_all os <> []) = true /\ ends_with_value os = true.
Proof.
  unfold ends_with_value. destruct os as [|o2 os].
  - cbn [last]. change (render_all []) with (@nil (list Z)). destruct (takes_value o); naive_solver.
  - rewrite last_cons_cons. assert (bool_decide (render_all (o2 :: os) <> []) = true) as ->.
    { apply bool_decide_eq_true. change (render_all (o2 :: os)) with (render o2 ++ render_all os).
      pose proof (render_ne o2). by destruct (render o2). }
    rewrite orb_true_r. naive_solver.
Qed.

(** Options that are applied are parsed. *)
Lemma parse_renders os c c' w :
  ends_with_value os = true -> apply_all os c = Some c' ->
  run_loop c w (render_all os) = (Returned (1, c_args c', c_ev c'), World (c_errno c') (entropy w) (log w)).
Proof.
  revert c; induction os as [|o os IH]; intros c He Ha; [by simplify_eq/=|].
  apply ends_cons in He as [Ho He]. cbn [apply_all] in Ha. apply bind_Some in Ha as (c1 & Ho1 & Ha).
  change (render_all (o :: os)) with (render o ++ render_all os).
  pose proof (parse_step o (render_all os) c w Ho) as Hs. rewrite Ho1 in Hs. rewrite Hs. by apply IH.
Qed.

(** Any command line: its options up to the first that is not accepted. *)
Lemma parse_decomposes argv c w :
  exists os rest, argv = render_all os ++ rest /\
  ((exists c', apply_all os c = Some c' /\ rest = [] /\ ends_with_value os = true) \/
   stops rest (run_loop c w argv) \/ rejected (run_loop c w argv)).
Proof.
  revert c. induction argv as [argv IH] using (induction_ltof1 _ length); intros c.
  destruct (parse_starts (c_added c) (c_args c) (c_ev c) argv (World (c_errno c) (entropy w) (log w)))
    as [->|[(o & rest & -> & Ho)|Hs]].
  - exists [], []. split; [done|left]. by exists c.
  - pose proof (parse_step o rest c w Ho) as Hs. destruct (apply_opt o c) as [c1|] eqn:E1.
    + destruct (IH rest) with (c := c1) as (os & rest' & -> & Hos).
      { unfold ltof. rewrite length_app. pose proof (render_ne o). destruct (render o); [done|simpl; lia]. }
      exists (o :: os), rest'. split; [by rewrite app_assoc|]. rewrite Hs.
      destruct Hos as [(c' & E2 & -> & He)|Hos]; [left|by right].
      exists c'. cbn [apply_all]. rewrite E1. rewrite app_nil_r in Ho. split_and!; [done..|].
      apply ends_cons. by split.
    + exists [], (render o ++ rest). split; [done|]. by right; right.
  - exists [], argv. split; [done|]. by right; left.
Qed.
End Reference.

(** ** The invariant of the settings *)

Record args_ok (a : args) : Prop := {
  ok_encrypt_to : Bytes (encrypt_to a) /\ length (encrypt_to a) = 32%nat;
  ok_numbers : - 2 ^ 31 <= args_kind a < 2 ^ 31 /\ - 2 ^ 31 <= difficulty a < 2 ^ 31 /\ in_width 64 (args_created_at a);
  ok_sec : from_option c_string True (sec a);
  ok_args_tags : from_option c_string True (args_tags a);
  ok_args_content : from_option c_string True (args_content a);
  ok_exclusive : is_Some (args_tags a) -> has a HAS_DIFFICULTY = false;
}.

(** The event under construction: pairs as tags, at most [MAX_TAGS] of them. *)
Record event_new (ev : nostr_event) : Prop := {
  new_ok : event_ok ev;
  new_tags : len (tags ev) <= MAX_TAGS;
  new_pairs : Forall (fun t => length t = 2%nat) (tags ev);
  new_explicit : explicit_tags ev = None;
}.

Definition cfg_ok (c : cfg) : Prop := args_ok (c_args c) /\ event_new (c_ev c).

Lemma has_set_flag a f g : has (set_flag a f) g = has a g || negb (f .& g =? 0).
Proof.
  unfold has, set_flag. cbn [flags]. rewrite Z.land_lor_distr_l, <- negb_andb. f_equal.
  apply eq_true_iff_eq. by rewrite andb_true_iff, !Z.eqb_eq, Z.lor_eq_0_iff.
Qed.

Lemma args_zero_ok : args_ok args_zero.
Proof. split; try done. split; [by_compute|done]. Qed.

Lemma event_zero_new : event_new event_zero.
Proof. split; try done. split; try done; split; try by_compute; done. Qed.

Lemma set_flag_ok a f : args_ok a -> (is_Some (args_tags a) -> f .& HAS_DIFFICULTY = 0) -> args_ok (set_flag a f).
Proof.
  intros [] Hf. split; try done. cbn [set_flag args_tags]. intros Ht. rewrite has_set_flag, Hf by done.
  by rewrite ok_exclusive0.
Qed.

Lemma cs_c_string s : (String.length s < 100)%nat -> c_string (cs s).
Proof.
  intros Hs. split; [apply cs_Bytes|]. unfold cs, len. rewrite length_map.
  assert (length (String.list_ascii_of_string s) = String.length s) as -> by (clear Hs; induction s as [|? s IH]; simpl; [done|by rewrite IH]).
  lia.
Qed.

Lemma event_tags_ok ev k v :
  event_new ev -> len (tags ev) < MAX_TAGS -> c_string k -> c_string v ->
  event_new (set_tags ev (tags ev ++ [[k; v]])).
Proof.
  intros [[] Hn Hp He] Hl Hk Hv. split; try done.
  - split; try done. cbn [set_tags tags]. apply Forall_app. split; [done|].
    by repeat (apply Forall_cons_2 || apply Forall_nil_2).
  - cbn [set_tags tags]. len_lia.
  - cbn [set_tags tags]. apply Forall_app. split; [done|].
    by repeat (apply Forall_cons_2 || apply Forall_nil_2).
Qed.

Section Invariant.
Context `{OS}.

Lemma apply_num_ok c s f c' :
  cfg_ok c -> (forall n, in_width 64 n -> args_ok (f n)) -> apply_num c s f = Some c' -> cfg_ok c'.
Proof.
  intros [Ha He] Hf. unfold apply_num. case_match; [done|]. intros. simplify_eq. split; [|done].
  apply Hf. by apply in_width_wrap.
Qed.

Lemma apply_tag_ok c k v c' :
  cfg_ok c -> c_string k -> c_string v -> apply_tag c k v = Some c' -> cfg_ok c'.
Proof.
  intros [Ha He] Hk Hv. unfold apply_tag. destruct (Z.ltb_spec (len (tags (c_ev c))) MAX_TAGS); [|done].
  intros. simplify_eq. split; [done|]. by apply event_tags_ok.
Qed.

Lemma apply_opt_ok o c c' : cfg_ok c -> Forall c_string (render o) -> apply_opt o c = Some c' -> cfg_ok c'.
Proof.
  intros Hc Hr. pose proof Hc as [Ha He]. unfold apply_opt.
  destruct o as [short s|n|n| |t|v|v|v|k v| |n|pk|t]; cbn [render] in Hr; decompose_Forall_hyps.
  - intros. simplify_eq. split; [|done]. by destruct Ha.
  - apply apply_num_ok; [done|]. intros t Ht. apply set_flag_ok; [|done]. by destruct Ha; split; naive_solver.
  - apply apply_num_ok; [done|]. intros t Ht. apply set_flag_ok; [|done].
    pose proof (to_signed_range 32 t ltac:(lia)). destruct Ha; split; naive_solver.
  - intros. simplify_eq. split; [|done]. by apply set_flag_ok.
  - destruct (has (c_args c) HAS_DIFFICULTY) eqn:E; [done|]. destruct (c_added c); [done|]. intros. simplify_eq/=.
    split; [|done]. by destruct Ha.
  - by apply apply_tag_ok; [|apply cs_c_string; simpl; lia|].
  - by apply apply_tag_ok; [|apply cs_c_string; simpl; lia|].
  - by apply apply_tag_ok; [|apply cs_c_string; simpl; lia|].
  - case_match; [done|]. by apply apply_tag_ok.
  - intros. simplify_eq. split; [|done]. by apply set_flag_ok.
  - destruct (bool_decide _) eqn:E; [done|]. apply bool_decide_eq_false in E.
    apply apply_num_ok; [done|]. intros d Hd.
    pose proof (to_signed_range 32 d ltac:(lia)). apply set_flag_ok; [|done]. destruct Ha; split; naive_solver.
  - destruct (_ =? 0); [done|]. intros. simplify_eq. split; [|done]. apply set_flag_ok; [|done].
    destruct Ha as [[Hb Hl] ? ? ? ? ?]. split; try done. cbn [set_encrypt_to encrypt_to].
    destruct (hex_decode_keeps pk _ Hb) as [? E]. by rewrite E.
  - intros. simplify_eq. split; [|done]. by destruct Ha.
Qed.

Lemma apply_all_ok os c c' : cfg_ok c -> Forall c_string (render_all os) -> apply_all os c = Some c' -> cfg_ok c'.
Proof.
  revert c; induction os as [|o os IH]; intros c Hc Hr Ha; [by simplify_eq/=|].
  apply Forall_app in Hr as [Ho Hr]. cbn [apply_all] in Ha. apply bind_Some in Ha as (c1 & H1 & Ha).
  eapply IH; [|done..]. by eapply apply_opt_ok.
Qed.

(** ** The whole parser *)


Definition with_content (a : args) : args :=
  match args_content a with None => set_content a [] | Some _ => a end.

Lemma parse_args_loop name argv a ev w :
  parse_args (name :: argv) a ev w =
  match run_loop (Cfg false a ev (errno w)) w argv with
  | (Returned (ok, a', ev'), w') => (Returned (if ok =? 0 then (0, a', ev') else (1, with_content a', ev')), w')
  | (Exited c, w') => (Exited c, w') | (Replaced f l, w') => (Replaced f l, w') | (Aborted, w') => (Aborted, w')
  | (Undefined, w') => (Undefined, w') | (OutOfFuel, w') => (OutOfFuel, w')
  end.
Proof.
  unfold parse_args, run_loop. cbn [tail c_added c_args c_ev c_errno]. destruct w as [e en lg]. cbn [errno entropy log].
  unfold mbind, prog_bind. destruct (parse_loop _ _ _ _ _) as [[[[ok a'] ev']| | | | |] w']; [|done..].
  destruct (ok =? 0); [done|]. unfold with_content. by destruct (args_content a').
Qed.

Lemma parse_args_spec (name : list Z) (argv : list (list Z)) (a a' : args) (ev ev' : nostr_event) (w w' : world) :
  parse_args (name :: argv) a ev w = (Returned (1, a', ev'), w') <->
  exists os c', argv = render_all os /\ ends_with_value os = true /\
    apply_all os (Cfg false a ev (errno w)) = Some c' /\
    a' = with_content (c_args c') /\ ev' = c_ev c' /\ w' = World (c_errno c') (entropy w) (log w).
Proof.
  rewrite parse_args_loop. split.
  - destruct (parse_decomposes argv (Cfg false a ev (errno w)) w)
      as (os & rest & -> & [(c' & Ha & -> & He)|[[Hs|[[? Hs]|(? & ? & ? & _ & _ & Hs)]]|Hs]]).
    + rewrite app_nil_r, (parse_renders os _ c') by done. intros. simplify_eq/=. by exists os, c'.
    + destruct Hs as (? & ? & ? & ->). intros. simplify_eq/=.
    + by rewrite Hs.
    + by rewrite Hs.
    + destruct Hs as (? & ? & ? & ->). intros. simplify_eq/=.
  - intros (os & c' & -> & He & Ha & -> & -> & ->). by rewrite (parse_renders os _ c').
Qed.

Lemma parse_args_flag name argv a a' ev ev' w w' r :
  parse_args (name :: argv) a ev w = (Returned (r, a', ev'), w') -> r = 0 \/ r = 1.
Proof.
  rewrite parse_args_loop. destruct (run_loop _ _ _) as [[[[ok a1] ev1]| | | | |] w1]; try done.
  destruct (ok =? 0); intros; simplify_eq; auto.
Qed.

Lemma parse_args_keeps name argv a a' ev ev' w w' :
  args_ok a -> event_new ev -> Forall c_string argv ->
  parse_args (name :: argv) a ev w = (Returned (1, a', ev'), w') ->
  args_ok a' /\ event_new ev' /\ is_Some (args_content a').
Proof.
  intros Ha He Hargv (os & c' & -> & _ & Hall & -> & -> & _)%parse_args_spec.
  assert (cfg_ok c') as [Ha' He'] by (eapply apply_all_ok; [|done..]; done).
  unfold with_content. destruct (args_content (c_args c')) eqn:E.
  - split_and!; [done..|]. by rewrite E.
  - split; [destruct Ha'; split; try done; by_compute|]. split; [done|by eexists].
Qed.
End Invariant.

(** ** Properties *)

(** C9: the parser refines the option list: it accepts a command line exactly
    when that is the rendering of options that are applied one after the other
    without refusal and do not end with an option without argument; the result
    is theirs, with an empty content by default, and nothing is printed. *)
Theorem parse_args_refines `{OS} (name : list Z) (argv : list (list Z)) (a a' : args) (ev ev' : nostr_event)
    (w w' : world) :
  parse_args (name :: argv) a ev w = (Returned (1, a', ev'), w') <->
  exists os c', argv = render_all os /\ ends_with_value os = true /\
    apply_all os (Cfg false a ev (errno w)) = Some c' /\
    a' = with_content (c_args c') /\ ev' = c_ev c' /\ w' = World (c_errno c') (entropy w) (log w).
Proof. apply parse_args_spec. Qed.

(** ** Numbers in a base *)

Definition undigit (c : Z) : Z := if c <=? 57 then c - 48 else c - 55.
Definition read_base (base : Z) (l : list Z) : Z := foldl (fun a c => a * base + undigit c) 0 l.

Lemma base_digit v : 0 <= v < 36 -> undigit base_digits.[v] = v /\ base_digits.[v] <> 0 /\ (base_digits.[v] = 48 -> v = 0).
Proof.
  intros Hv. assert (H : Forall (fun v => undigit base_digits.[v] = v /\ base_digits.[v] <> 0 /\ (base_digits.[v] = 48 -> v = 0))
    (map Z.of_nat (seq 0 36))) by by_compute.
  rewrite Forall_forall in H. apply H, list_elem_of_fmap. exists (Z.to_nat v). split; [lia|]. apply elem_of_seq. lia.
Qed.

Lemma to_base_loop_spec fuel x t i base :
  2 <= base <= 36 -> 0 <= i < base ^ Z.of_nat fuel -> (fuel <= length x)%nat -> (1 <= fuel)%nat ->
  exists x' d, to_base_loop fuel (x ++ t) (len x) i base = Some (x' ++ d ++ t, len x') /\
    length (x' ++ d) = length x /\ Forall (fun c => c <> 0) d /\ read_base base d = i /\
    exists c d', d = c :: d' /\ (c = 48 -> i = 0).
Proof.
  intros Hb. revert x t i. induction fuel as [|fuel IH]; intros x t i Hi Hx H1; [lia|].
  destruct x as [|y x _] using rev_ind; [simpl in Hx; lia|]. cbn [to_base_loop].
  rewrite length_app in Hx. simpl in Hx.
  replace (len (x ++ [y]) - 1) with (len x) by len_lia. rewrite <- app_assoc.
  rewrite put_app, bind_some, <- app_assoc by len_lia.
  destruct (base_digit (i mod base)) as (Hd & Hz & H0); [pose proof (Z.mod_pos_bound i base); lia|].
  set (c := base_digits.[i mod base]) in *. clearbody c.
  change (drop (length [c]) ([y] ++ t)) with t. change ([c] ++ t) with (c :: t).
  destruct (Z.eqb_spec (i / base) 0) as [E|E].
  - exists x, [c]. split_and!; [done|by rewrite !length_app|by repeat constructor| |].
    + unfold read_base. cbn [foldl]. rewrite Hd. pose proof (Z.div_mod i base). lia.
    + exists c, []. split; [done|]. intros Hc. apply H0 in Hc. pose proof (Z.div_mod i base). lia.
  - rewrite Nat2Z.inj_succ, Z.pow_succ_r in Hi by lia.
    assert (0 <= i / base < base ^ Z.of_nat fuel) as Hi'.
    { split; [apply Z.div_pos; lia|apply Z.div_lt_upper_bound; lia]. }
    destruct fuel as [|fuel]; [simpl in Hi'; lia|].
    destruct (IH x (c :: t) (i / base)) as (x' & d & Hr & Hl & Hnz & Hv & c0 & d0 & -> & Hc0); [done|lia..|].
    exists x', ((c0 :: d0) ++ [c]). rewrite Hr. split_and!.
    + by rewrite <- app_assoc.
    + rewrite app_assoc, !(length_app _ [_]), Hl. done.
    + apply Forall_app. split; [done|by repeat constructor].
    + unfold read_base in *. rewrite foldl_app, Hv. cbn [foldl]. rewrite Hd. pose proof (Z.div_mod i base). lia.
    + exists c0, (d0 ++ [c]). split; [done|]. intros Hc. apply Hc0 in Hc. lia.
Qed.

Lemma until_nul_app d r : Forall (fun c => c <> 0) d -> until_nul (d ++ 0 :: r) = d.
Proof.
  induction 1 as [|c d Hc _ IH]; [done|]. cbn [app until_nul]. apply Z.eqb_neq in Hc. by rewrite Hc, IH.
Qed.

(** In every base from 2 to 36 the buffer of 33 characters holds the text of
    any 32-bit number; the text stays inside the buffer, reads back as the
    number and has no leading zero; other bases fail the assertion. *)
Theorem my_to_base_reads (buf : list Z) (i base : Z) (Hbuf : len buf = TO_BASE_N) (Hi : in_width 32 i) :
  if (2 <=? base) && (base <=? 36) then
    exists buf' s, my_to_base buf i base = Some (buf', s) /\ 0 <= s < TO_BASE_N /\
      len buf' = TO_BASE_N /\ read_base base (c_str buf' s) = i /\
      exists c t, c_str buf' s = c :: t /\ (c = 48 -> i = 0)
  else my_to_base buf i base = None.
Proof.
  unfold my_to_base. destruct (Z.leb_spec 2 base), (Z.leb_spec base 36); try done. cbn [andb].
  rewrite wrap_id by done. unfold TO_BASE_N in *.
  destruct buf as [|y x _] using rev_ind; [done|]. assert (length x = 32%nat) as Hx by (revert Hbuf; len_lia).
  replace (33 - 1) with (len x) by (unfold len; lia).
  rewrite put_app, bind_some by done. change (drop (length [0]) [y]) with (@nil Z). rewrite app_nil_r.
  destruct (to_base_loop_spec 32 x [0] i base) as (x' & d & Hr & Hl & Hnz & Hv & Hc);
    [lia| |lia..|].
  { destruct Hi as [? Hi]. split; [done|]. eapply Z.lt_le_trans; [exact Hi|]. apply Z.pow_le_mono_l. lia. }
  assert (Hs : c_str (x' ++ d ++ [0]) (len x') = d).
  { unfold c_str. replace (Z.to_nat (len x')) with (length x') by len_lia. by rewrite drop_app_length, until_nul_app. }
  exists (x' ++ d ++ [0]), (len x'). split_and!; [exact Hr|len_lia| | | |].
  - rewrite length_app in Hl. destruct Hc as (c & d' & -> & _). simpl in Hl. len_lia.
  - rewrite app_assoc. unfold len in *. rewrite length_app, Hl. simpl. lia.
  - by rewrite Hs.
  - rewrite Hs. destruct Hc as (c & d' & -> & Hc). by exists c, d'.
Qed.

Lemma my_to_base_reads_witness :
  exists buf' s, my_to_base (repeat 0 33) 255 16 = Some (buf', s) /\ 0 <= s < TO_BASE_N /\
    len buf' = TO_BASE_N /\ read_base 16 (c_str buf' s) = 255 /\
    exists c t, c_str buf' s = c :: t /\ (c = 48 -> 255 = 0).
Proof. apply (my_to_base_reads (repeat 0 33) 255 16); by_compute. Defined.

(** Every accepted command line leaves the settings and the event
    well-formed: a 32-byte recipient, numbers in their widths, at most 32 tags,
    and never a difficulty together with explicit tags. *)
Theorem parse_args_invariant `{OS} (name : list Z) (argv : list (list Z)) (a a' : args) (ev ev' : nostr_event)
    (w w' : world) (Ha : args_ok a) (He : event_new ev) (Hargv : Forall c_string argv)
    (Hrun : parse_args (name :: argv) a ev w = (Returned (1, a', ev'), w')) :
  args_ok a' /\ event_new ev' /\ is_Some (args_content a').
Proof. by eapply parse_args_keeps. Qed.

(** No environment does anything: [execvp] fails, the time is fixed. *)
#[local] Instance test_os : OS := { time_now := 1700000000; os_execvp _ _ := Some 2; strtol_einval := false }.

Definition test_argv : list (list Z) := [cs "-t"; cs "x"; cs "--kind"; cs "30023"; cs "--envelope"; cs "--content"; cs "hi"].

Lemma parse_args_invariant_witness :
  let c := Args (HAS_KIND .| HAS_ENVELOPE) 30023 0 (repeat 0 32) None None (Some (cs "hi")) 0 in
  args_ok c /\ event_new (set_tags event_zero [[cs "t"; cs "x"]]) /\ is_Some (args_content c).
Proof.
  apply (parse_args_invariant (cs "gnostr") test_argv args_zero _ event_zero _ (World 0 [] []) (World 0 [] []));
    [apply args_zero_ok|apply event_zero_new|by_compute|reflexivity].
Defined.

(** Parsing always ends: with 0 or 1, with exit status 0 (help, version,
    about and the hash command), or in the overflow of the hash command, which
    needs [--hash] at an option's place with more than 70 characters. *)
Theorem parse_args_outcomes `{OS} (name : list Z) (argv : list (list Z)) (a : args) (ev : nostr_event) (w : world) :
  match (parse_args (name :: argv) a ev w).1 with
  | Returned (r, _, _) => r = 0 \/ r = 1
  | Exited code => code = 0
  | Undefined => exists os h rest, argv = render_all os ++ cs "--hash" :: h :: rest /\ 70 < len h
  | _ => False
  end.
Proof.
  rewrite parse_args_loop.
  destruct (parse_decomposes argv (Cfg false a ev (errno w)) w)
    as (os & rest & -> & [(c' & Ha & -> & Hend)|[[Hs|[[? Hs]|(h & rest' & ? & -> & Hh & Hs)]]|Hs]]).
  - rewrite app_nil_r, (parse_renders os _ c') by done. by right.
  - destruct Hs as (? & ? & ? & ->). by left.
  - by rewrite Hs.
  - rewrite Hs. by exists os, h, rest'.
  - destruct Hs as (? & ? & ? & ->). by left.
Qed.

