(* ===== verification/Keys.v ===== *)
(** * Keys and signatures: [gnostr.c], [include/struct_key.h], [include/random.h]

    [make_sig], [create_key], [decode_key], [xor_mix], [generate_key],
    [init_secp_context] and [sign_event].  libsecp256k1 is an interface: the
    class [Secp256k1] holds the functions the program calls, [Secp256k1Laws]
    what its documentation promises about them (sizes, signatures that verify,
    a shared secret both sides compute). *)
From S2P Require Import Prelude Hex ProofOfWork Event Process.

(** ** Showing a secret *)

(** [print_hex] of [src/nostril/random.h], with which nostril and the C++ library
    show a secret. *)
Definition print_hex (data : list Z) : proc unit := _ ← eprintf (hex_text data); eprintf [10].

#[export] Instance hex_reporter : Reporter print_hex.
Proof.
  refine {| shown := fun s => [Stderr (hex_text s); Stderr [10]] |}; [|done].
  intros s [e en l]. unfold print_hex, eprintf, emit, mbind, prog_bind. cbn. by rewrite <- app_assoc.
Defined.

(** ** The library as an interface *)

(** A function that returns 0 is [None]. *)
Class Secp256k1 := {
  keypair : Type;
  xonly_pubkey : Type;
  secp_pubkey : Type;
  keypair_create : list Z -> option keypair;
  keypair_xonly_pub : keypair -> option xonly_pubkey;
  xonly_pubkey_serialize : xonly_pubkey -> option (list Z);
  schnorrsig_sign32 : list Z -> keypair -> list Z -> option (list Z);      (* msg32, keypair, aux *)
  schnorrsig_verify : list Z -> list Z -> list Z -> bool;                  (* sig64, msg32, public key *)
  context_randomize : list Z -> bool;
  ec_seckey_verify : list Z -> bool;
  ec_pubkey_parse : list Z -> option secp_pubkey;
  (* the hash function, which gets the two coordinates, the point and the secret *)
  ecdh : (list Z -> list Z -> option (list Z)) -> secp_pubkey -> list Z -> option (list Z)
}.

(** The x coordinate of the shared point. *)
Definition shared_x `{Secp256k1} (pk : secp_pubkey) (secret : list Z) : option (list Z) :=
  ecdh (fun x y => Some x) pk secret.

(** The public key of a secret key, as [create_key] computes it. *)
Definition public_key `{Secp256k1} (secret : list Z) : option (list Z) :=
  kp ← keypair_create secret; x ← keypair_xonly_pub kp; xonly_pubkey_serialize x.

Class Secp256k1Laws `(Secp256k1) : Prop := {
  public_key_bytes secret pk : public_key secret = Some pk -> Bytes pk /\ length pk = 32%nat;
  sign_bytes msg kp aux sg : schnorrsig_sign32 msg kp aux = Some sg -> Bytes sg /\ length sg = 64%nat;
  sign_verifies secret kp pk msg aux sg :
    keypair_create secret = Some kp -> public_key secret = Some pk ->
    schnorrsig_sign32 msg kp aux = Some sg -> schnorrsig_verify sg msg pk = true;
  shared_x_bytes pk secret x : shared_x pk secret = Some x -> Bytes x /\ length x = 32%nat;
  (* both sides of an exchange compute the same x coordinate *)
  shared_x_agree s1 s2 p1 p2 q1 q2 :
    public_key s1 = Some p1 -> public_key s2 = Some p2 ->
    ec_pubkey_parse (2 :: p1) = Some q1 -> ec_pubkey_parse (2 :: p2) = Some q2 ->
    shared_x q2 s1 = shared_x q1 s2;
}.

(** ** [struct key] and its functions *)

Section Keys.
Context `{Secp256k1}.

(** The key pair is set by [create_key]. *)
Record key := Key { pair : option keypair; secret : list Z; key_pubkey : list Z }.

Definition make_sig (k : key) (id : list Z) : proc (option (list Z)) :=
  aux ← fill_random 32;
  match aux with
  | None => mret None
  | Some aux =>
      kp ← lift (pair k);
      mret (schnorrsig_sign32 id kp aux)
  end.

(** The return value and the key. *)
Definition create_key (k : key) : Z * key :=
  match keypair_create (secret k) with
  | None => (0, k)
  | Some kp =>
      let k := Key (Some kp) (secret k) (key_pubkey k) in
      match keypair_xonly_pub kp with
      | None => (0, k)
      | Some x =>
          match xonly_pubkey_serialize x with
          | None => (0, k)
          | Some pk => (1, Key (Some kp) (secret k) pk)
          end
      end
  end.

Definition decode_key (secstr : list Z) (k : key) : proc (Z * key) :=
  let '(ok, sec) := hex_decode secstr (secret k) in
  let k := Key (pair k) sec (key_pubkey k) in
  if ok =? 0 then _ ← eprintf (cs "could not hex decode secret key" ++ [10]); mret (0, k)
  else mret (create_key k).

(** [dest] may be [a] itself: position [i] is read before it is written. *)
Definition xor_mix (dest a b : list Z) (size : Z) : list Z :=
  zip_with Z.lxor (take (Z.to_nat size) a) (take (Z.to_nat size) b) ++ drop (Z.to_nat size) dest.

(** [while (1)] *)
Fixpoint generate_loop (fuel : nat) (k : key) (difficulty attempts : Z) : proc (Z * key) :=
  match fuel with
  | O => out_of_fuel
  | S fuel =>
      let '(ok, k) := create_key k in
      if ok =? 0 then mret (0, k)
      else
        let attempts := u64 (attempts + 1) in
        let bits := count_leading_zero_bits (key_pubkey k) in
        if difficulty <=? bits then _ ← emit (Mined bits attempts); mret (1, k)
        else generate_loop fuel (Key (pair k) (xor_mix (secret k) (secret k) (key_pubkey k) 32) (key_pubkey k)) difficulty attempts
  end.

(** [difficulty] is [None] for the null pointer. *)
Definition generate_key (fuel : nat) (k : key) (difficulty : option Z) : proc (Z * key) :=
  r ← fill_random 32;
  match r with
  | None => mret (0, k)
  | Some r =>
      let k := Key (pair k) r (key_pubkey k) in
      match difficulty with
      | None => mret (create_key k)
      | Some d => generate_loop fuel k d 0
      end
  end.

Definition init_secp_context : proc Z :=
  r ← fill_random 32;
  match r with None => mret 0 | Some randomize => mret (Z.b2z (context_randomize randomize)) end.

(** The return value and the event with its signature. *)
Definition set_sig (ev : nostr_event) (s : list Z) : nostr_event :=
  Event (id ev) (pubkey ev) s (content ev) (created_at ev) (kind ev) (explicit_tags ev) (tags ev).

Definition sign_event (k : key) (ev : nostr_event) : proc (Z * nostr_event) :=
  s ← make_sig k (id ev);
  match s with None => mret (0, ev) | Some s => mret (1, set_sig ev s) end.
End Keys.

(** ** The invariant of a key *)

Section Invariant.
Context `{Secp256k1Laws}.

(** A key whose parts belong together. *)
Definition key_ok (k : key) : Prop :=
  exists kp, pair k = Some kp /\ keypair_create (secret k) = Some kp /\
    public_key (secret k) = Some (key_pubkey k).

Lemma create_key_spec k :
  match public_key (secret k) with
  | Some pk => exists kp, keypair_create (secret k) = Some kp /\ create_key k = (1, Key (Some kp) (secret k) pk)
  | None => exists k', create_key k = (0, k')
  end.
Proof.
  unfold public_key, create_key. destruct (keypair_create (secret k)) as [kp|]; [|by eexists].
  rewrite bind_some. destruct (keypair_xonly_pub kp) as [x|]; [|by eexists].
  rewrite bind_some. destruct (xonly_pubkey_serialize x) as [pk|]; by eexists.
Qed.

Lemma create_key_ok k k' : create_key k = (1, k') -> key_ok k' /\ secret k' = secret k.
Proof.
  intros E. pose proof (create_key_spec k) as Hc. destruct (public_key (secret k)) as [pk|] eqn:Epk.
  - destruct Hc as (kp & Hkp & E'). rewrite E' in E. simplify_eq. split; [|done]. by exists kp.
  - destruct Hc as (k2 & E'). by rewrite E' in E.
Qed.

Lemma key_ok_bytes k : key_ok k -> Bytes (key_pubkey k) /\ length (key_pubkey k) = 32%nat.
Proof using H0. intros (kp & _ & _ & Hp). by eapply public_key_bytes. Qed.

(** The secret keys [generate_key] tries: each is the last one mixed with its
    public key. *)
Definition mixed (s pk : list Z) : list Z := xor_mix s s pk 32.

Fixpoint nth_secret (n : nat) (s : list Z) : option (list Z) :=
  match n with
  | O => Some s
  | S n => pk ← public_key s; nth_secret n (mixed s pk)
  end.

(** The public key of the [n]-th attempt has [d] leading zero bits. *)
Definition mined_at (s : list Z) (d : Z) (n : nat) : Prop :=
  exists sn pk, nth_secret n s = Some sn /\ public_key sn = Some pk /\ d <= count_leading_zero_bits pk.

Definition missed_at (s : list Z) (d : Z) (n : nat) : Prop :=
  exists sn pk, nth_secret n s = Some sn /\ public_key sn = Some pk /\ count_leading_zero_bits pk < d.

Lemma missed_step k d fuel attempts w :
  missed_at (secret k) d 0 -> exists pk kp, public_key (secret k) = Some pk /\
  generate_loop (S fuel) k d attempts w =
  generate_loop fuel (Key (Some kp) (mixed (secret k) pk) pk) d (u64 (attempts + 1)) w.
Proof.
  intros (s & pk & [= <-] & Hpk & Hd). pose proof (create_key_spec k) as Hc. rewrite Hpk in Hc.
  destruct Hc as (kp & _ & E). exists pk, kp. split; [done|]. cbn [generate_loop]. rewrite E.
  change (1 =? 0) with false. cbv iota. cbn [key_pubkey secret pair]. destruct (Z.leb_spec d (count_leading_zero_bits pk)); [lia|done].
Qed.

Lemma shift_at (P : list Z -> list Z -> Prop) s pk n :
  public_key s = Some pk ->
  (exists sn pkn, nth_secret (S n) s = Some sn /\ public_key sn = Some pkn /\ P sn pkn) <->
  (exists sn pkn, nth_secret n (mixed s pk) = Some sn /\ public_key sn = Some pkn /\ P sn pkn).
Proof. intros E. cbn [nth_secret]. by rewrite E, bind_some. Qed.

Lemma generate_loop_finds n k d fuel attempts w :
  (n < fuel)%nat -> (forall m, (m < n)%nat -> missed_at (secret k) d m) -> mined_at (secret k) d n ->
  exists k' w', generate_loop fuel k d attempts w = (Returned (1, k'), w') /\ key_ok k' /\
    nth_secret n (secret k) = Some (secret k') /\ d <= count_leading_zero_bits (key_pubkey k') /\
    entropy w' = entropy w /\ errno w' = errno w /\ stdout_of (log w') = stdout_of (log w).
Proof.
  revert k fuel attempts. induction n as [|n IH]; intros k [|fuel] attempts Hn Hmiss Hmine; try lia.
  - destruct Hmine as (s & pk & [= <-] & Hpk & Hd). pose proof (create_key_spec k) as Hc. rewrite Hpk in Hc.
    destruct Hc as (kp & Hkp & E). cbn [generate_loop]. rewrite E. change (1 =? 0) with false. cbv iota.
    cbn [key_pubkey]. destruct (Z.leb_spec d (count_leading_zero_bits pk)); [|lia].
    eexists _, _. split; [reflexivity|]. split_and!; try done; [by exists kp|].
    cbn [log]. unfold stdout_of. by rewrite map_app, concat_app, app_nil_r.
  - destruct (missed_step k d fuel attempts w (Hmiss O ltac:(lia))) as (pk & kp & Hpk & ->).
    destruct (IH (Key (Some kp) (mixed (secret k) pk) pk) fuel (u64 (attempts + 1))) as (k' & w' & Hr); [lia| | |].
    + intros m Hm. cbn [secret]. apply (shift_at _ _ pk m Hpk). apply Hmiss. lia.
    + by apply (shift_at _ _ pk n Hpk).
    + exists k', w'. cbn [nth_secret]. rewrite Hpk, bind_some. done.
Qed.

Lemma generate_loop_never k d fuel attempts w :
  (forall m, missed_at (secret k) d m) -> generate_loop fuel k d attempts w = (OutOfFuel, w).
Proof.
  revert k attempts. induction fuel as [|fuel IH]; intros k attempts Hmiss; [done|].
  destruct (missed_step k d fuel attempts w (Hmiss O)) as (pk & kp & Hpk & ->). apply IH.
  intros m. cbn [secret]. apply (shift_at _ _ pk m Hpk). apply Hmiss.
Qed.
End Invariant.

(** ** Signing *)

Section Signing.
Context `{Secp256k1Laws}.

Lemma fill_random_returns size w r w' :
  fill_random size w = (Returned r, w') ->
  errno w' = errno w /\ log w' = log w /\ from_option (fun d => len d = size) True r.
Proof.
  unfold fill_random. destruct (entropy w) as [|[d|] rest]; intros; simplify_eq; try done.
  destruct (Z.eqb_spec (len d) size); by simplify_eq.
Qed.

Lemma fill_random_total size w : exists r w', fill_random size w = (Returned r, w').
Proof. unfold fill_random. destruct (entropy w) as [|[d|] rest]; by repeat eexists. Qed.

Lemma sign_event_returns k ev w r ev' w' :
  key_ok k -> sign_event k ev w = (Returned (r, ev'), w') ->
  log w' = log w /\ (r = 0 \/ r = 1) /\
  (r = 1 -> exists sg, ev' = set_sig ev sg /\ Bytes sg /\ length sg = 64%nat /\
    schnorrsig_verify sg (id ev) (key_pubkey k) = true).
Proof using H0.
  intros (kp & Hp & Hkp & Hpk) E. unfold sign_event, make_sig in E.
  apply bind_inv in E as (s & w1 & E1 & E). apply bind_inv in E1 as (aux & w2 & E2 & E1).
  apply fill_random_returns in E2 as (_ & Hl & _). rewrite <- Hl.
  destruct aux as [aux|]; [|injection E1 as <- <-; injection E as <- <- <-; split_and!; [done|by left|done]].
  rewrite Hp in E1. injection E1 as <- <-.
  destruct (schnorrsig_sign32 (id ev) kp aux) as [sg|] eqn:Es; injection E as <- <- <-; [|split_and!; [done|by left|done]].
  split_and!; [done|by right|]. intros _. exists sg. destruct (sign_bytes _ _ _ _ Es).
  split_and!; try done. by eapply sign_verifies.
Qed.
End Signing.

(** ** A concrete library *)

Module Toy.

(** A library that satisfies the laws: the public key of a 32-byte secret is
    the secret rotated, a signature is the message and the key, a shared secret
    the exclusive or of the keys. *)
Definition rotate (s : list Z) : list Z := drop 1 s ++ take 1 s.
Definition valid (s : list Z) : bool := bool_decide (Bytes s /\ length s = 32%nat).

#[export] Instance lib : Secp256k1 := {
  keypair := list Z; xonly_pubkey := list Z; secp_pubkey := list Z;
  keypair_create s := if valid s then Some s else None;
  keypair_xonly_pub s := Some (rotate s);
  xonly_pubkey_serialize x := Some x;
  schnorrsig_sign32 msg kp aux := if valid msg && valid kp then Some (msg ++ rotate kp) else None;
  schnorrsig_verify sg msg pk := bool_decide (sg = msg ++ pk);
  context_randomize _ := true;
  ec_seckey_verify s := valid s;
  ec_pubkey_parse p := if valid (tail p) then Some (tail p) else None;
  ecdh f p s := if valid p && valid s then f (zip_with Z.lxor p (rotate s)) [] else None
}.

Lemma valid_spec s : valid s = true <-> Bytes s /\ length s = 32%nat.
Proof. apply bool_decide_eq_true. Qed.

Lemma rotate_ok s : Bytes s -> length s = 32%nat -> Bytes (rotate s) /\ length (rotate s) = 32%nat.
Proof.
  intros Hb Hl. split; [apply Bytes_app; split; [by apply Forall_drop|by apply Forall_take]|].
  unfold rotate. rewrite length_app, length_drop, length_take. lia.
Qed.

Lemma public_key_rotate s pk : public_key s = Some pk -> pk = rotate s /\ Bytes s /\ length s = 32%nat.
Proof.
  unfold public_key. cbn [keypair_create lib]. destruct (valid s) eqn:E; [|done].
  apply valid_spec in E. intros Hp. injection Hp as <-. tauto.
Qed.

#[export] Instance lib_laws : Secp256k1Laws lib.
Proof.
  split.
  - intros s pk (-> & Hb & Hl)%public_key_rotate. by apply rotate_ok.
  - intros msg kp aux sg. cbn [schnorrsig_sign32 lib]. destruct (valid msg && valid kp) eqn:E; [|done].
    apply andb_true_iff in E as [[Hb Hl]%valid_spec [Hb' Hl']%valid_spec]. intros Hs. injection Hs as <-.
    destruct (rotate_ok kp) as [? Hr]; [done..|]. split; [by apply Bytes_app|]. rewrite length_app. lia.
  - intros s kp pk msg aux sg Hk (-> & _)%public_key_rotate. cbn [keypair_create schnorrsig_sign32 schnorrsig_verify lib] in *.
    destruct (valid s); [|done]. injection Hk as <-. destruct (_ && _); [|done]. intros Hs. injection Hs as <-.
    by apply bool_decide_eq_true.
  - intros p s x. unfold shared_x. cbn [ecdh lib]. destruct (valid p && valid s) eqn:E; [|done].
    apply andb_true_iff in E as [[Hb Hl]%valid_spec [Hb' Hl']%valid_spec]. intros Hs. injection Hs as <-.
    destruct (rotate_ok s) as [Hr1 Hr2]; [done..|]. split; [|rewrite length_zip_with; lia].
    clear - Hb Hr1. revert Hb. induction Hr1 as [|y l Hy _ IH] in p |- *; intros Hb; destruct Hb as [|x p Hx Hb]; cbn; try constructor.
    + by apply in_width_lxor.
    + by apply IH.
  - intros s1 s2 p1 p2 q1 q2 (-> & Hb1 & Hl1)%public_key_rotate (-> & Hb2 & Hl2)%public_key_rotate.
    cbn [ec_pubkey_parse lib tail]. destruct (valid (rotate s1)) eqn:V1, (valid (rotate s2)) eqn:V2; try done.
    intros H1 H2. injection H1 as <-. injection H2 as <-. unfold shared_x. cbn [ecdh lib]. rewrite V1, V2.
    assert (valid s1 = true) as -> by by apply valid_spec. assert (valid s2 = true) as -> by by apply valid_spec.
    cbn [andb]. f_equal. rewrite <- (zip_with_flip _ (rotate s1) (rotate s2)). apply zip_with_ext; [|done..].
    intros. apply Z.lxor_comm.
Qed.
End Toy.

#[local] Existing Instance Toy.lib.
#[local] Existing Instance Toy.lib_laws.

(** ** Properties *)

(** Mining a key: when the [n]-th key of the chain that starts at the drawn
    secret is the first with [d] leading zero bits, [generate_key] stops with
    it (any fuel above [n]): the secret, the key pair and the public key belong
    together. *)
Theorem generate_key_finds `{Secp256k1Laws} (k : key) (d : Z) (n fuel : nat) (s : list Z) (w : world)
    (rest : list (option (list Z))) (Hw : entropy w = Some s :: rest) (Hs : length s = 32%nat) (Hfuel : (n < fuel)%nat)
    (Hmiss : forall m, (m < n)%nat -> missed_at s d m) (Hmine : mined_at s d n) :
  exists k' w', generate_key fuel k (Some d) w = (Returned (1, k'), w') /\ key_ok k' /\
    nth_secret n s = Some (secret k') /\ d <= count_leading_zero_bits (key_pubkey k') /\ entropy w' = rest.
Proof.
  destruct (generate_loop_finds n (Key (pair k) s (key_pubkey k)) d fuel 0 (World (errno w) rest (log w)))
    as (k' & w' & E & Hk & Hn & Hd & He & _); [done..|].
  exists k', w'. split_and!; try done. rewrite <- E. unfold generate_key, fill_random, mbind, prog_bind.
  rewrite Hw. assert ((len s =? 32) = true) as -> by (apply Z.eqb_eq; unfold len; lia). done.
Qed.

Lemma generate_key_finds_witness :
  let s := ([255; 3; 2] ++ repeat 7 29) in
  exists k' w', generate_key 5 (Key None [] []) (Some 7) (World 0 [Some s] []) = (Returned (1, k'), w') /\ key_ok k' /\
    nth_secret 1 s = Some (secret k') /\ 7 <= count_leading_zero_bits (key_pubkey k') /\ entropy w' = [].
Proof.
  apply (generate_key_finds (Key None [] []) 7 1 5 ([255; 3; 2] ++ repeat 7 29) (World 0 [Some ([255; 3; 2] ++ repeat 7 29)] []) []);
    [reflexivity|reflexivity|lia| |].
  - intros [|m] Hm; [|lia]. eexists _, _. split; [reflexivity|]. split; [reflexivity|]. vm_compute. reflexivity.
  - eexists _, _. split; [reflexivity|]. split; [reflexivity|]. vm_compute. discriminate.
Defined.

(** A public key has at most 256 leading zero bits, so with a higher
    difficulty [generate_key] runs for ever, as long as the chain goes on to
    valid keys. *)
Theorem generate_key_never `{Secp256k1Laws} (k : key) (d : Z) (fuel : nat) (s : list Z) (w : world)
    (rest : list (option (list Z))) (Hw : entropy w = Some s :: rest) (Hs : length s = 32%nat) (Hd : 256 < d)
    (Hchain : forall n, exists sn pk, nth_secret n s = Some sn /\ public_key sn = Some pk) :
  (generate_key fuel k (Some d) w).1 = OutOfFuel.
Proof.
  unfold generate_key, fill_random, mbind, prog_bind.
  rewrite Hw. assert ((len s =? 32) = true) as -> by (apply Z.eqb_eq; unfold len; lia).
  rewrite generate_loop_never; [done|]. intros m. cbn [secret].
  destruct (Hchain m) as (sn & pk & Hn & Hp). exists sn, pk. split_and!; try done.
  destruct (public_key_bytes _ _ Hp) as [Hb Hl]. pose proof (count_range pk Hb Hl). lia.
Qed.

Lemma generate_key_never_witness :
  (generate_key 5 (Key None [] []) (Some 257) (World 0 [Some (repeat 0 32)] [])).1 = OutOfFuel.
Proof.
  apply (generate_key_never (Key None [] []) 257 5 (repeat 0 32) (World 0 [Some (repeat 0 32)] []) []);
    [reflexivity|reflexivity|lia|].
  intros n. exists (repeat 0 32), (repeat 0 32). split; [|reflexivity].
  induction n as [|n IH]; [reflexivity|]. exact IH.
Defined.
