(* ===== verification/Mining.v ===== *)
(** * Mining an event id: [gnostr.c]

    [ensure_nonce_tag] and [mine_event].  The search loop has fuel; the theorems
    say which nonce it stops at, that it does stop there, and when it never
    does. *)
From S2P Require Import Prelude Hex ProofOfWork Sha256Spec Sha256 Cursor Event Process.

(** ** The nonce tag *)

(** The index of the first tag of two elements that starts with [nonce]. *)
Fixpoint find_nonce (ts : list nostr_tag) (i : Z) : option Z :=
  match ts with
  | [] => None
  | t :: ts => if (len t =? 2) && bool_decide (nth 0 t [] = cs "nonce") then Some i else find_nonce ts (i + 1)
  end.

(** The return value, the event and [*index]. *)
Definition ensure_nonce_tag (ev : nostr_event) (target : Z) : option (Z * nostr_event * Z) :=
  match find_nonce (tags ev) 0 with
  | Some i => Some (1, ev, i)
  | None =>
      let index := len (tags ev) in
      let str_target := snprintf 7 (fmt_int target) in
      '(ok, ev) ← nostr_add_tag_n ev [cs "nonce"; cs "0"; str_target];
      Some (ok, ev, index)
  end.

(** [tag->strs[1] = s] for the tag at [index]. *)
Definition set_str1 (ev : nostr_event) (index : Z) (s : list Z) : nostr_event :=
  set_tags ev (alter (fun t => <[1%nat := s]> t) (Z.to_nat index) (tags ev)).

(** ** The search *)

(** [for (nonce = 0;; nonce++)]: [strnonce] is the tag's second string, so
    printing into it changes the event.  [buf] is the static buffer of
    [generate_event_id]. *)
Fixpoint mine_loop (fuel : nat) (ev : nostr_event) (index nonce difficulty : Z) (buf : list Z)
    : proc (Z * nostr_event) :=
  match fuel with
  | O => out_of_fuel
  | S fuel =>
      let ev := set_str1 ev index (snprintf 32 (fmt_u64 nonce)) in
      '(ok, ev, buf) ← lift (generate_event_id ev buf);
      if ok =? 0 then mret (0, ev)
      else
        let res := count_leading_zero_bits (id ev) in
        if difficulty <=? res then _ ← eprintf (cs "mined " ++ fmt_int res ++ cs " bits" ++ [10]); mret (1, ev)
        else mine_loop fuel ev index (u64 (nonce + 1)) difficulty buf
  end.

Definition mine_event (fuel : nat) (ev : nostr_event) (difficulty : Z) (buf : list Z) : proc (Z * nostr_event) :=
  '(ok, ev, index) ← lift (ensure_nonce_tag ev difficulty);
  if ok =? 0 then mret (0, ev)
  else
    let tag := nth (Z.to_nat index) (tags ev) [] in
    _ ← assert_ (len tag =? 3);
    _ ← assert_ (bool_decide (nth 0 tag [] = cs "nonce"));
    mine_loop fuel ev index 0 difficulty buf.

(** ** Reference: the candidates *)

Definition nonce_tag (difficulty nonce : Z) : nostr_tag :=
  [cs "nonce"; fmt_u64 nonce; take 6 (fmt_int difficulty)].

(** The event with its nonce tag. *)
Definition candidate (ev : nostr_event) (difficulty nonce : Z) : nostr_event :=
  set_tags ev (tags ev ++ [nonce_tag difficulty nonce]).

Definition candidate_id (ev : nostr_event) (difficulty nonce : Z) : list Z :=
  Spec.sha256 (commitment (candidate ev difficulty nonce)).

(** The result of mining with a nonce. *)
Definition mined (ev : nostr_event) (difficulty nonce : Z) : nostr_event :=
  set_id (candidate ev difficulty nonce) (candidate_id ev difficulty nonce).

Definition fits (ev : nostr_event) (difficulty nonce : Z) : Prop :=
  len (commitment (candidate ev difficulty nonce)) < 102400.

#[export] Instance fits_dec ev difficulty nonce : Decision (fits ev difficulty nonce).
Proof. unfold fits. apply _. Defined.

(** ** Lemmas *)

Lemma fmt_u64_c_string n : 0 <= n -> c_string (fmt_u64 n).
Proof. intros Hn. split; [by apply decimal_Bytes|]. unfold fmt_u64, len. pose proof (digits_length 20 n). lia. Qed.

Lemma fmt_int_c_string n k : c_string (take k (fmt_int n)).
Proof.
  split; [apply Forall_take, fmt_int_Bytes|]. unfold len. rewrite length_take.
  assert (length (fmt_int n) <= 11)%nat; [|lia].
  unfold fmt_int. case_match; [cbn [length]|];
    match goal with |- context [digits 10 ?m] => pose proof (digits_length 10 m) end; lia.
Qed.

Lemma nonce_c_string s : s = "nonce"%string -> c_string (cs s).
Proof. intros ->. by_compute. Qed.

Lemma event_ok_tags ev ts : event_ok ev -> Forall (Forall c_string) ts -> event_ok (set_tags ev ts).
Proof. intros [] H. by split. Qed.

Lemma candidate_ok ev d n : event_ok ev -> 0 <= n -> event_ok (candidate ev d n).
Proof.
  intros Hev Hn. apply event_ok_tags; [done|]. apply Forall_app. split; [apply (ok_tags ev Hev)|].
  apply Forall_cons_2, Forall_nil_2.
  apply Forall_cons_2; [by apply nonce_c_string|]. apply Forall_cons_2; [by apply fmt_u64_c_string|].
  apply Forall_cons_2, Forall_nil_2. apply fmt_int_c_string.
Qed.

Lemma snprintf_nonce n : snprintf 32 (fmt_u64 n) = fmt_u64 n.
Proof.
  unfold snprintf. apply take_ge. change (Z.to_nat (32 - 1)) with 31%nat.
  unfold fmt_u64. pose proof (digits_length 20 n). lia.
Qed.

(** A candidate turns into the next by its nonce, whatever its id. *)
Lemma set_str1_candidate ev d i n x :
  set_str1 (set_id (candidate ev d i) x) (len (tags ev)) (snprintf 32 (fmt_u64 n)) = set_id (candidate ev d n) x.
Proof.
  rewrite snprintf_nonce. unfold set_str1, candidate, nonce_tag, set_id, set_tags.
  generalize (fmt_u64 n) (fmt_u64 i) (take 6 (fmt_int d)). intros s si t.
  cbn [id pubkey sig content created_at kind explicit_tags tags]. f_equal.
  unfold len. by rewrite Nat2Z.id, alter_app_r_alt, Nat.sub_diag by lia.
Qed.

Lemma mined_ok ev d n : event_ok ev -> 0 <= n -> event_ok (mined ev d n).
Proof.
  intros Hev Hn. destruct (candidate_ok ev d n Hev Hn). split; try done. apply sha256_digest.
Qed.

Lemma mine_step ev d i n x fuel buf w :
  event_ok ev -> Bytes x /\ length x = 32%nat -> 0 <= n -> len buf = 102400 -> fits ev d n ->
  exists buf', len buf' = 102400 /\
  mine_loop (S fuel) (set_id (candidate ev d i) x) (len (tags ev)) n d buf w =
  if d <=? count_leading_zero_bits (candidate_id ev d n)
  then (Returned (1, mined ev d n), World (errno w) (entropy w)
         (log w ++ [Stderr (cs "mined " ++ fmt_int (count_leading_zero_bits (candidate_id ev d n)) ++ cs " bits" ++ [10])]))
  else mine_loop fuel (mined ev d n) (len (tags ev)) (u64 (n + 1)) d buf' w.
Proof.
  intros Hev Hx Hn Hbuf Hfit. cbn [mine_loop]. rewrite set_str1_candidate.
  assert (Hc : event_ok (set_id (candidate ev d n) x)).
  { destruct (candidate_ok ev d n Hev Hn). by split. }
  destruct (generate_event_id_spec _ buf Hc Hbuf) as (buf' & E & Hb').
  change (commitment (set_id (candidate ev d n) x)) with (commitment (candidate ev d n)) in E.
  destruct (Z.ltb_spec (len (commitment (candidate ev d n))) 102400); [|unfold fits in Hfit; lia].
  exists buf'. split; [done|]. rewrite E. cbn [lift]. unfold lift, mbind, prog_bind at 1.
  change (1 =? 0) with false. cbv iota. change (id (set_id _ ?h)) with h.
  change (Spec.sha256 (commitment (candidate ev d n))) with (candidate_id ev d n).
  change (set_id (set_id (candidate ev d n) x) (candidate_id ev d n)) with (mined ev d n).
  generalize (candidate_id ev d n) (mined ev d n). intros h e.
  by destruct (d <=? count_leading_zero_bits h).
Qed.

(** The search from nonce [i] on. *)
Lemma mine_loop_finds ev d k i x fuel buf w j :
  event_ok ev -> Bytes x /\ length x = 32%nat -> len buf = 102400 -> 0 <= i -> i + Z.of_nat k < 2 ^ 64 ->
  (k < fuel)%nat -> (forall m, i <= m <= i + Z.of_nat k -> fits ev d m) ->
  (forall m, i <= m < i + Z.of_nat k -> count_leading_zero_bits (candidate_id ev d m) < d) ->
  d <= count_leading_zero_bits (candidate_id ev d (i + Z.of_nat k)) ->
  exists w', mine_loop fuel (set_id (candidate ev d j) x) (len (tags ev)) i d buf w =
    (Returned (1, mined ev d (i + Z.of_nat k)), w') /\
    errno w' = errno w /\ entropy w' = entropy w /\ stdout_of (log w') = stdout_of (log w).
Proof.
  intros Hev. revert i x fuel buf j. induction k as [|k IH]; intros i x [|fuel] buf j Hx Hbuf Hi Hk Hf Hfit Hmiss Hd; try lia.
  - rewrite Z.add_0_r in *. destruct (mine_step ev d j i x fuel buf w) as (buf' & _ & ->); [done..|apply Hfit; lia|].
    destruct (Z.leb_spec d (count_leading_zero_bits (candidate_id ev d i))); [|lia].
    eexists. split; [reflexivity|]. split_and!; try done. cbn [log].
    unfold stdout_of. by rewrite map_app, concat_app, app_nil_r.
  - destruct (mine_step ev d j i x fuel buf w) as (buf' & Hb' & ->); [done..|apply Hfit; lia|].
    pose proof (Hmiss i ltac:(lia)).
    destruct (Z.leb_spec d (count_leading_zero_bits (candidate_id ev d i))); [lia|].
    rewrite wrap_id by (split; lia).
    replace (i + Z.of_nat (S k)) with ((i + 1) + Z.of_nat k) in * by lia.
    apply IH; try done; try lia.
    + apply sha256_digest.
    + intros m Hm. apply Hfit. lia.
    + intros m Hm. apply Hmiss. lia.
Qed.

(** With a difficulty no digest has, the search goes on for ever. *)
Lemma mine_loop_never ev d i x fuel buf w j :
  event_ok ev -> Bytes x /\ length x = 32%nat -> len buf = 102400 -> in_width 64 i -> 256 < d ->
  (forall m, in_width 64 m -> fits ev d m) ->
  mine_loop fuel (set_id (candidate ev d j) x) (len (tags ev)) i d buf w = (OutOfFuel, w).
Proof.
  intros Hev. revert i x buf j. induction fuel as [|fuel IH]; intros i x buf j Hx Hbuf Hi Hd Hfit; [done|].
  destruct (mine_step ev d j i x fuel buf w) as (buf' & Hb' & ->); [done|done|by destruct Hi|done|by apply Hfit|].
  destruct (sha256_digest (commitment (candidate ev d i))) as [Hb Hl].
  pose proof (count_range (candidate_id ev d i) Hb Hl).
  destruct (Z.leb_spec d (count_leading_zero_bits (candidate_id ev d i))); [lia|].
  apply IH; [split; done|done|by apply in_width_wrap|done|done].
Qed.

(** ** The nonce tag *)

Lemma find_nonce_none ts i : Forall (fun t => len t = 2 -> nth 0 t [] <> cs "nonce") ts -> find_nonce ts i = None.
Proof.
  intros H. revert i. induction H as [|t ts Ht _ IH]; intros i; [done|]. cbn [find_nonce].
  destruct (Z.eqb_spec (len t) 2) as [E|E]; cbn [andb]; [|apply IH].
  rewrite bool_decide_eq_false_2 by auto. apply IH.
Qed.

Lemma find_nonce_some ts i j :
  find_nonce ts i = Some j -> exists k, j = i + Z.of_nat k /\ exists t, ts !! k = Some t /\ len t = 2.
Proof.
  revert i; induction ts as [|t ts IH]; intros i H; [done|]. cbn [find_nonce] in H.
  destruct (Z.eqb_spec (len t) 2) as [E|E]; cbn [andb] in H.
  - case_bool_decide.
    + injection H as <-. exists O. split; [lia|]. by exists t.
    + apply IH in H as (k & -> & Hk). exists (S k). split; [lia|done].
  - apply IH in H as (k & -> & Hk). exists (S k). split; [lia|done].
Qed.

(** No pair starts with [nonce]. *)
Definition no_nonce (ev : nostr_event) : Prop := find_nonce (tags ev) 0 = None.

Lemma mine_event_starts fuel ev d buf w :
  no_nonce ev -> len (tags ev) < MAX_TAGS ->
  mine_event fuel ev d buf w = mine_loop fuel (set_id (candidate ev d 0) (id ev)) (len (tags ev)) 0 d buf w.
Proof.
  intros Hno Hn. unfold mine_event.
  assert (ensure_nonce_tag ev d = Some (1, candidate ev d 0, len (tags ev))) as ->.
  { unfold ensure_nonce_tag, nostr_add_tag_n. rewrite Hno.
    destruct (Z.ltb_spec MAX_TAGS (len (tags ev) + 1)); [lia|].
    change (len [cs "nonce"; cs "0"; snprintf 7 (fmt_int d)] <=? MAX_TAG_ELEMS) with true. cbv iota. reflexivity. }
  unfold lift, mret, mbind, prog_bind, prog_ret. change (1 =? 0) with false. cbv iota.
  change (tags (candidate ev d 0)) with (tags ev ++ [nonce_tag d 0]).
  replace (nth (Z.to_nat (len (tags ev))) (tags ev ++ [nonce_tag d 0]) []) with (nonce_tag d 0); [done|].
  unfold len. by rewrite Nat2Z.id, app_nth2, Nat.sub_diag by lia.
Qed.

(** Mining ends with a well-formed event whose id is its own, whatever happens. *)
Lemma mine_loop_returns ev d i x fuel buf w j r ev' w' :
  event_ok ev -> Bytes x /\ length x = 32%nat -> len buf = 102400 -> in_width 64 i ->
  mine_loop fuel (set_id (candidate ev d j) x) (len (tags ev)) i d buf w = (Returned (r, ev'), w') ->
  stdout_of (log w') = stdout_of (log w) /\ (r = 0 \/ r = 1) /\
  (r = 1 -> exists n, in_width 64 n /\ fits ev d n /\ ev' = mined ev d n /\
     d <= count_leading_zero_bits (candidate_id ev d n)).
Proof.
  intros Hev. revert i x buf j. induction fuel as [|fuel IH]; intros i x buf j Hx Hbuf Hi E; [done|].
  destruct (decide (fits ev d i)) as [Hf|Hf].
  - destruct (mine_step ev d j i x fuel buf w) as (buf' & Hb' & Es); [done|done|by destruct Hi|done..|].
    rewrite Es in E. destruct (Z.leb_spec d (count_leading_zero_bits (candidate_id ev d i))).
    + injection E as <- <- <-. split_and!; [|by right|].
      * cbn [log]. unfold stdout_of. by rewrite map_app, concat_app, app_nil_r.
      * intros _. by exists i.
    + eapply IH in E; [done|apply sha256_digest|done|by apply in_width_wrap].
  - cbn [mine_loop] in E. rewrite set_str1_candidate in E.
    assert (Hc : event_ok (set_id (candidate ev d i) x)).
    { destruct Hi. destruct (candidate_ok ev d i Hev); [done|]. by split. }
    destruct (generate_event_id_spec _ buf Hc Hbuf) as (buf' & Eg & _).
    change (commitment (set_id (candidate ev d i) x)) with (commitment (candidate ev d i)) in Eg.
    destruct (Z.ltb_spec (len (commitment (candidate ev d i))) 102400) as [|_]; [done|].
    rewrite Eg in E. injection E as <- <- <-. split_and!; [done|by left|done].
Qed.

Lemma mine_event_stops ev d fuel buf w :
  (no_nonce ev -> MAX_TAGS <= len (tags ev) -> mine_event fuel ev d buf w = (Returned (0, ev), w)) /\
  (~ no_nonce ev -> mine_event fuel ev d buf w = (Aborted, w)).
Proof.
  unfold mine_event, ensure_nonce_tag, no_nonce, nostr_add_tag_n. split.
  - intros -> Hn. destruct (Z.ltb_spec MAX_TAGS (len (tags ev) + 1)); [done|lia].
  - intros Hno. destruct (find_nonce (tags ev) 0) as [j|] eqn:E; [|done].
    apply find_nonce_some in E as (k & -> & t & Ht & Hl).
    unfold lift, mret, mbind, prog_bind, prog_ret. change (1 =? 0) with false. cbv iota.
    replace (Z.to_nat (0 + Z.of_nat k)) with k by lia.
    rewrite (nth_lookup_Some _ _ _ _ Ht). unfold assert_. destruct (Z.eqb_spec (len t) 3); [lia|done].
Qed.

Lemma mine_loop_entropy fuel ev index n d buf w r w' :
  mine_loop fuel ev index n d buf w = (Returned r, w') -> entropy w' = entropy w.
Proof.
  revert ev n buf. induction fuel as [|fuel IH]; intros ev n buf E; [done|]. cbn [mine_loop] in E.
  apply bind_inv in E as ([[ok ev1] buf1] & w1 & E1 & E).
  assert (w1 = w) as -> by (unfold lift in E1; destruct (generate_event_id _ _); by simplify_eq).
  destruct (ok =? 0); [by injection E as <- <-|]. destruct (d <=? _); [by injection E as <- <-|by apply IH in E].
Qed.

#[export] Instance no_nonce_dec ev : Decision (no_nonce ev).
Proof. unfold no_nonce. apply _. Defined.

Definition nonce_free : nostr_event :=
  Event (repeat 0 32) (map Z.of_nat (seq 0 32)) (repeat 0 64) (cs "gm") 1700000005 1 None [[cs "t"; cs "x"]].

Lemma nonce_free_ok : event_ok nonce_free.
Proof. split; try by_compute; repeat split; by_compute. Qed.

Lemma json_string_length s : len (json_string s) <= 2 * len s + 2.
Proof.
  unfold json_string. rewrite !len_app. change (len [quote]) with 1.
  induction s as [|c s IH]; [done|]. cbn [map concat]. rewrite len_app, len_cons.
  assert (len (json_char c) <= 2); [|lia]. unfold json_char. repeat (case_match; [done|]). done.
Qed.

Lemma nonce_free_fits d n : fits nonce_free d n.
Proof.
  assert (Hn : len (json_string (fmt_u64 n)) <= 42).
  { pose proof (json_string_length (fmt_u64 n)). unfold fmt_u64, len in *. pose proof (digits_length 20 n). lia. }
  assert (Hd : len (json_string (take 6 (fmt_int d))) <= 14).
  { pose proof (json_string_length (take 6 (fmt_int d))). unfold len in *. rewrite length_take in *. lia. }
  unfold fits, commitment, nip01. change (created_at (candidate nonce_free d n) <? 10 ^ 15) with true. cbv iota.
  unfold serialisation.
  change (json_tags (candidate nonce_free d n)) with
    (cs "[" ++ (json_tag [cs "t"; cs "x"] ++ cs "," ++ cs "[" ++ (json_string (cs "nonce") ++ cs "," ++
       json_string (fmt_u64 n) ++ cs "," ++ json_string (take 6 (fmt_int d))) ++ cs "]") ++ cs "]").
  revert Hn Hd. generalize (json_string (fmt_u64 n)) (json_string (take 6 (fmt_int d))). intros x y Hx Hy.
  rewrite !len_app.
  repeat match goal with
  | |- context [len ?t] => lazymatch t with x => fail | y => fail | _ => let v := eval vm_compute in (len t) in change (len t) with v end
  end. lia.
Qed.

(** ** Properties *)

(** C37: mining ends at the first nonce that gives enough leading zero bits: if
    nonce [n] is the first whose candidate has an id with [d] leading zero bits
    and the candidates fit the buffer, [mine_event] returns 1 after at most
    [n + 1] rounds with that candidate and its id. *)
Theorem mine_event_finds (ev : nostr_event) (d : Z) (n fuel : nat) (buf : list Z) (w : world)
    (Hev : event_ok ev) (Hno : no_nonce ev) (Htags : len (tags ev) < MAX_TAGS) (Hbuf : len buf = 102400)
    (Hn : Z.of_nat n < 2 ^ 64) (Hfuel : (n < fuel)%nat)
    (Hfit : forall m, (m <= n)%nat -> fits ev d (Z.of_nat m))
    (Hmiss : forall m, (m < n)%nat -> count_leading_zero_bits (candidate_id ev d (Z.of_nat m)) < d)
    (Hhit : d <= count_leading_zero_bits (candidate_id ev d (Z.of_nat n))) :
  exists w', mine_event fuel ev d buf w = (Returned (1, mined ev d (Z.of_nat n)), w') /\
    stdout_of (log w') = stdout_of (log w).
Proof.
  rewrite mine_event_starts by done.
  destruct (mine_loop_finds ev d n 0 (id ev) fuel buf w 0) as (w' & E & _ & _ & Hs);
    [done|apply (ok_id ev Hev)|done|done|lia|done| | | |].
  - intros m Hm. replace m with (Z.of_nat (Z.to_nat m)) by lia. apply Hfit. lia.
  - intros m Hm. replace m with (Z.of_nat (Z.to_nat m)) by lia. apply Hmiss. lia.
  - by rewrite Z.add_0_l.
  - rewrite Z.add_0_l in E. by exists w'.
Qed.

Lemma mine_event_finds_witness :
  exists w', mine_event 10 nonce_free 2 (repeat 0 (Z.to_nat 102400)) (World 0 [] []) =
    (Returned (1, mined nonce_free 2 1), w') /\ stdout_of (log w') = [].
Proof.
  apply (mine_event_finds nonce_free 2 1 10 (repeat 0 (Z.to_nat 102400)) (World 0 [] []));
    [apply nonce_free_ok|reflexivity|reflexivity|by rewrite len_repeat|reflexivity|lia| | |vm_compute; discriminate].
  - intros m Hm. apply (bool_decide_unpack _). do 2 (destruct m as [|m]; [vm_compute; exact I|]). lia.
  - intros m Hm. destruct m as [|m]; [vm_compute; reflexivity|lia].
Defined.

(** A digest has 256 bits, so with a higher difficulty mining runs for ever. *)
Theorem mine_event_never (ev : nostr_event) (d : Z) (fuel : nat) (buf : list Z) (w : world)
    (Hev : event_ok ev) (Hno : no_nonce ev) (Htags : len (tags ev) < MAX_TAGS) (Hbuf : len buf = 102400)
    (Hd : 256 < d) (Hfit : forall n, in_width 64 n -> fits ev d n) :
  mine_event fuel ev d buf w = (OutOfFuel, w).
Proof.
  rewrite mine_event_starts by done.
  apply mine_loop_never; [done|apply (ok_id ev Hev)|done|done|done|done].
Qed.

Lemma mine_event_never_witness :
  mine_event 3 nonce_free 257 (repeat 0 (Z.to_nat 102400)) (World 0 [] []) = (OutOfFuel, World 0 [] []).
Proof.
  apply mine_event_never; [apply nonce_free_ok|reflexivity|reflexivity|by rewrite len_repeat|lia|].
  intros n Hn. apply nonce_free_fits.
Defined.

(** Mining refuses a full tag array, leaving the event alone, and stops at a
    failed assertion when the event has a pair that starts with [nonce]: the tag
    is accepted by [ensure_nonce_tag], which looks for two elements, and not by
    [mine_event], which asserts three. *)
Theorem mine_event_refuses (ev : nostr_event) (d : Z) (fuel : nat) (buf : list Z) (w : world) :
  (no_nonce ev -> MAX_TAGS <= len (tags ev) -> mine_event fuel ev d buf w = (Returned (0, ev), w)) /\
  (~ no_nonce ev -> mine_event fuel ev d buf w = (Aborted, w)).
Proof. apply mine_event_stops. Qed.
