(* ===== verification/Dm.v ===== *)
(** * Encrypted direct messages: [gnostr.c]

    [aes_encrypt], [copyx] and [make_encrypted_dm]: the content is padded,
    encrypted with AES-256-CBC under the shared secret, and stored as
    base64(ciphertext), the separator [?iv=], base64(vector).

    The reference is the recipient: [dm_read] takes the content apart and
    decrypts it.  Uninitialised memory holds an arbitrary byte [junk]. *)
From S2P Require Import Prelude Hex AesSpec Aes Base64 Cursor Event Process Args Keys.

(** [int] arithmetic: a result outside the type is undefined. *)
Definition int_ (z : Z) : proc Z := if (- 2 ^ 31 <=? z) && (z <? 2 ^ 31) then mret z else undefined.

Section Dm.
Context `{Secp256k1} (junk : Z).

(** Memory before it is written. *)
Definition uninit (n : Z) : list Z := repeat junk (Z.to_nat n).

(** ** [aes_encrypt] *)

Fixpoint push_padding (n : nat) (padding : Z) : CM bool :=
  match n with
  | O => Cursor.ret true
  | S n => cursor_push_byte padding AND push_padding n padding
  end.

(** [buf] is the object the pointer points into; the return value and the
    object. *)
Definition aes_encrypt (key iv buf : list Z) (buflen : Z) : proc (Z * list Z) :=
  let padding := u8 (16 - buflen mod 16) in
  let c := make_cursor 0 (buflen + padding) in
  let c := set_p c (buflen) in
  '(ok, (c, buf)) ← lift (push_padding (Z.to_nat padding) padding (c, buf));
  if (ok : bool) then
    _ ← assert_ (p c =? end_ c);
    _ ← assert_ ((p c - start c) mod 16 =? 0);
    let ctx := AES_init_ctx_iv (Ctx (uninit 240) (uninit 16)) key iv in
    '(_, buf) ← lift (AES_CBC_encrypt_buffer ctx buf (p c - start c));
    mret (to_signed 32 (p c - start c), buf)
  else mret (0, buf).

(** The hash function of the exchange: the x coordinate as it is. *)
Definition copyx (x32 y32 : list Z) : option (list Z) := Some x32.

(** [base64_encode] on memory, with the process's errno. *)
Definition base64_encode_at (mem : list Z) (off : Z) (src : list Z) : proc (Z * list Z) :=
  '(n, dest, e) ← lift (base64_encode (drop (Z.to_nat off) mem) src E0);
  _ ← when (bool_decide (e = EOVERFLOW)) (set_errno 75);
  mret (n, take (Z.to_nat off) mem ++ dest).

(** ** [make_encrypted_dm] *)

(** The text of the message in [buf], from [encbuf] and the vector: the cursor
    and the buffer, or [None] for a return of 0. *)
Definition dm_text (buf encrypted iv : list Z) : proc (option (cursor * list Z)) :=
  let c := make_cursor 0 (len buf) in
  '(enclen, buf) ← base64_encode_at buf (start c) encrypted;
  if enclen =? -1 then
    _ ← eprintf (cs "make_encrypted_dm: base64 encode of encrypted fata failed" ++ [10]); mret None
  else
    let c := set_p c (p c + enclen) in
    '(ok, (c, buf)) ← lift (cursor_push_str (cs "?iv=") (c, buf));
    if negb ok then _ ← eprintf (cs "make_encrypted_dm: buffer too small" ++ [10]); mret None
    else
      '(enclen, buf) ← base64_encode_at buf (p c) iv;
      if enclen =? -1 then
        _ ← eprintf (cs "make_encrypted_dm: base64 encode of iv failed" ++ [10]); mret None
      else
        let c := set_p c (p c + enclen) in
        '(ok, (c, buf)) ← lift (cursor_push_byte 0 (c, buf));
        if negb ok then _ ← eprintf (cs "make_encrypted_dm: out of memory by 1 byte!" ++ [10]); mret None
        else mret (Some (c, buf)).

Definition set_message (ev : nostr_event) (t : list Z) (k : Z) : nostr_event :=
  Event (id ev) (pubkey ev) (sig ev) t (created_at ev) k (explicit_tags ev) (tags ev).

(** After the text: content, kind and the [p] tag, whose string follows the
    text in [buf]. *)
Definition dm_finish (ev : nostr_event) (nostr_pubkey : list Z) (kind_ : Z) (c : cursor) (buf : list Z)
    : proc (Z * nostr_event) :=
  '(ok, dest) ← lift (hex_encode nostr_pubkey (drop (Z.to_nat (p c)) buf));
  let buf := take (Z.to_nat (p c)) buf ++ dest in
  let ev := set_message ev (c_str buf (start c)) kind_ in
  if ok =? 0 then mret (0, ev)
  else
    '(ok, ev) ← lift (nostr_add_tag ev (cs "p") (c_str buf (p c)));
    if ok =? 0 then _ ← eprintf (cs "too many tags" ++ [10]); mret (0, ev)
    else mret (1, ev).

(** [report] is what is said of the shared secret: nothing in [gnostr.c]; its
    text on standard error in the copy of nostril. *)
Definition make_encrypted_dm (report : list Z -> proc unit) (k : key) (ev : nostr_event) (nostr_pubkey : list Z) (kind_ : Z)
    : proc (Z * nostr_event) :=
  let inl := len (content ev) in
  let enclen := to_signed 32 (inl + 16) in
  triple ← int_ (enclen * 3);
  buflen ← int_ (triple + 65 * 10);
  let buf := uninit buflen in
  let content_len := to_signed 32 inl in
  let encbuf := uninit (content_len + Z.rem content_len 16 + 1) in
  let compressed_pubkey := 2 :: nostr_pubkey in
  if negb (ec_seckey_verify (secret k)) then
    _ ← eprintf (cs "make_encrypted_dm: ec_seckey_verify failed" ++ [10]); mret (0, ev)
  else
    match ec_pubkey_parse compressed_pubkey with
    | None => _ ← eprintf (cs "make_encrypted_dm: ec_pubkey_parse failed" ++ [10]); mret (0, ev)
    | Some pubkey =>
        match ecdh copyx pubkey (secret k) with
        | None => _ ← eprintf (cs "make_encrypted_dm: secp256k1_ecdh failed" ++ [10]); mret (0, ev)
        | Some shared_secret =>
            iv ← fill_random 16;
            match iv with
            | None => _ ← eprintf (cs "make_encrypted_dm: fill_random failed" ++ [10]); mret (0, ev)
            | Some iv =>
                _ ← report shared_secret;
                encbuf ← lift (put 0 (content ev) encbuf);
                '(enclen, encbuf) ← aes_encrypt shared_secret iv encbuf inl;
                if enclen =? 0 then
                  _ ← eprintf (cs "make_encrypted_dm: aes_encrypt failed" ++ [10]); mret (0, ev)
                else
                  r ← dm_text buf (take (Z.to_nat enclen) encbuf) iv;
                  match r with
                  | None => mret (0, ev)
                  | Some (c, buf) => dm_finish ev nostr_pubkey kind_ c buf
                  end
            end
        end
    end.
End Dm.

(** ** Reference: padding and the recipient *)

Definition padded (t : list Z) : list Z :=
  let n := 16 - len t mod 16 in t ++ repeat n (Z.to_nat n).

(** The blocks of a text whose length is a multiple of 16. *)
Fixpoint blocks (n : nat) (l : list Z) : list (list Z) :=
  match n with O => [] | S n => take 16 l :: blocks n (drop 16 l) end.

Definition encrypted (shared iv t : list Z) : list Z :=
  concat (Fips.cbc (Fips.key_expansion shared) iv (blocks (Z.to_nat (len (padded t) / 16)) (padded t))).

Definition dm_content (shared iv t : list Z) : list Z :=
  text64 (encrypted shared iv t) ++ cs "?iv=" ++ text64 iv.

(** Why a message is refused: the secret key or the recipient's key is none, no
    secret is shared, there are no random bytes for the vector, or the event has
    no room for the recipient's tag. *)
Definition dm_refused `{Secp256k1} (k : key) (ev : nostr_event) (pk : list Z) (w : world) : Prop :=
  ec_seckey_verify (secret k) = false \/
  from_option (fun q => ecdh copyx q (secret k) = None) True (ec_pubkey_parse (2 :: pk)) \/
  (exists w', fill_random 16 w = (Returned None, w')) \/
  MAX_TAGS <= len (tags ev).

(** The part before the question mark and the part after [?iv=]. *)
Fixpoint split_iv (l : list Z) : list Z * list Z :=
  match l with
  | [] => ([], [])
  | c :: l => if c =? 63 then ([], drop 3 l) else let '(a, b) := split_iv l in (c :: a, b)
  end.

(** What a recipient does with the shared secret: decode both parts, decrypt in
    CBC mode, drop as many bytes as the last byte says. *)
Definition dm_read (shared t : list Z) : option (list Z) :=
  let '(a, b) := split_iv t in
  '(n, enc, _) ← base64_decode (repeat 0 (length a)) a E0;
  '(_, iv, _) ← base64_decode (repeat 0 (length b)) b E0;
  '(_, dec) ← AES_CBC_decrypt_buffer
    (AES_init_ctx_iv (Ctx (repeat 0 240) (repeat 0 16)) shared (take 16 iv)) (take (Z.to_nat n) enc) n;
  Some (take (Z.to_nat (n - dec.[n - 1])) dec).

(** ** Writing at a position *)

Lemma write_at m t k s e pre rest :
  Appends m t k -> 0 <= s <= len pre -> 0 <= k -> len pre + len t + k <= e -> e <= len pre + len rest ->
  m (Cursor s (len pre) e, pre ++ rest) =
  Some (true, (Cursor s (len pre + len t) e, pre ++ t ++ drop (length t) rest)).
Proof.
  intros HA Hs Hk Hr He. pose proof (len_nonneg t). specialize (HA (Cursor s (len pre) e, pre ++ rest)).
  assert (Hwf : wf (Cursor s (len pre) e, pre ++ rest)) by (split; cbn [fst snd start p end_]; len_lia).
  specialize (HA Hwf). unfold room in HA. cbn [fst p end_] in HA.
  destruct (Z.leb_spec (len t + k) (e - len pre)); [|lia]. rewrite HA. unfold appended, set_p. cbn [fst snd start p end_].
  do 3 f_equal. rewrite <- (take_drop (length t) rest) at 1. apply splice_at; [done|].
  rewrite length_take. unfold len in *. lia.
Qed.

(** ** [aes_encrypt] *)

Lemma push_padding_ok n v s e pre rest :
  is_byte v -> 0 <= s <= len pre -> len pre + Z.of_nat n <= e -> e <= len pre + len rest ->
  push_padding n v (Cursor s (len pre) e, pre ++ rest) =
  Some (true, (Cursor s (len pre + Z.of_nat n) e, pre ++ repeat v n ++ drop n rest)).
Proof.
  intros Hv. revert pre rest. induction n as [|n IH]; intros pre rest Hs He Hr.
  - cbn. by rewrite Z.add_0_r.
  - cbn [push_padding]. unfold andM, bind.
    rewrite (write_at _ _ 0 s e pre rest (Appends_push_byte v)) by (change (len [u8 v]) with 1; lia).
    rewrite bind_some, wrap_id by done. change (len [v]) with 1.
    replace (len pre + 1) with (len (pre ++ [v])) by len_lia.
    replace (pre ++ [v] ++ drop (length [v]) rest) with ((pre ++ [v]) ++ drop 1 rest) by by rewrite <- app_assoc.
    rewrite IH by len_lia. do 3 f_equal; [f_equal; len_lia|].
    cbn [repeat]. rewrite drop_drop, <- app_assoc. done.
Qed.

(** Padding that does not fit the object is written outside it. *)
Lemma push_padding_overrun n v s e pre rest :
  is_byte v -> 0 <= s <= len pre -> len pre + Z.of_nat n <= e -> (length rest < n)%nat ->
  push_padding n v (Cursor s (len pre) e, pre ++ rest) = None.
Proof.
  intros Hv. revert pre rest. induction n as [|n IH]; intros pre rest Hs He Hr; [lia|].
  cbn [push_padding]. unfold andM, bind. destruct rest as [|x rest].
  - unfold cursor_push_byte. cbn [end_ p]. destruct (Z.ltb_spec e (len pre + 1)); [lia|].
    rewrite app_nil_r. unfold put. change (len [u8 v]) with 1.
    destruct (Z.leb_spec (len pre + 1) (len pre)); [lia|]. by rewrite andb_false_r.
  - assert (cursor_push_byte v (Cursor s (len pre) e, pre ++ x :: rest) =
      Some (true, (Cursor s (len pre + 1) e, pre ++ [v] ++ rest))) as ->.
    { unfold cursor_push_byte. cbn [end_ p]. destruct (Z.ltb_spec e (len pre + 1)); [lia|].
      rewrite put_app, bind_some, wrap_id by (done || (change (len [u8 v]) with 1; len_lia)).
      unfold set_p. cbn [start end_]. by rewrite <- app_assoc. }
    rewrite bind_some. replace (len pre + 1) with (len (pre ++ [v])) by len_lia. rewrite app_assoc.
    apply IH; [len_lia|len_lia|]. simpl in Hr. lia.
Qed.

Lemma padding_range n : let k := 16 - n mod 16 in 1 <= k <= 16 /\ u8 k = k.
Proof. cbv zeta. split; [dlia|]. apply wrap_id. unfold in_width. change (2 ^ 8) with 256. dlia. Qed.

Lemma padded_length t : len (padded t) = len t + (16 - len t mod 16) /\ len (padded t) mod 16 = 0.
Proof.
  unfold padded. cbv zeta. rewrite len_app, len_repeat. destruct (padding_range (len t)) as [? _]. split; dlia.
Qed.

Lemma padded_Bytes t : Bytes t -> Bytes (padded t).
Proof.
  intros Ht. unfold padded. cbv zeta. apply Bytes_app. split; [done|]. apply List.Forall_forall.
  intros x ->%repeat_spec. destruct (padding_range (len t)) as [? _].
  unfold in_width. change (2 ^ 8) with 256. lia.
Qed.

Lemma blocks_spec n l :
  Bytes l -> length l = (16 * n)%nat -> concat (blocks n l) = l /\ Forall block16 (blocks n l) /\ len (blocks n l) = Z.of_nat n.
Proof.
  revert l. induction n as [|n IH]; intros l Hb Hl; cbn [blocks concat].
  - apply nil_length_inv in Hl. by subst.
  - destruct (IH (drop 16 l)) as (H1 & H2 & H3); [by apply Forall_drop|rewrite length_drop; lia|].
    split_and!; [by rewrite H1, take_drop| |rewrite len_cons; lia].
    constructor; [|done]. split; [by apply Forall_take|]. rewrite length_take. lia.
Qed.

Lemma padded_blocks t :
  Bytes t -> let bs := blocks (Z.to_nat (len (padded t) / 16)) (padded t) in
  concat bs = padded t /\ Forall block16 bs /\ 16 * len bs = len (padded t).
Proof.
  intros Ht bs. destruct (padded_length t) as [Hl Hm]. pose proof (len_nonneg t). destruct (padding_range (len t)) as [? _].
  destruct (blocks_spec (Z.to_nat (len (padded t) / 16)) (padded t)) as (H1 & H2 & H3);
    [by apply padded_Bytes|unfold len in *; dlia|]. unfold bs. split_and!; [done..|]. rewrite H3. dlia.
Qed.

Lemma encrypted_ok shared iv t :
  Bytes shared /\ length shared = 32%nat -> block16 iv -> Bytes t ->
  Bytes (encrypted shared iv t) /\ len (encrypted shared iv t) = len (padded t).
Proof.
  intros [Hs Hl] Hiv Ht. destruct (padded_blocks t Ht) as (_ & Hb & Hn). unfold encrypted.
  destruct (init_ctx_iv_ok (Ctx (repeat 0 240) (repeat 0 16)) shared iv) as [_ Hr]; [done..|].
  set (cs := Fips.cbc _ _ _). assert (Hcs : Forall block16 cs) by by apply cbc_blocks. split.
  - apply Forall_concat. eapply Forall_impl; [exact Hcs|]. by intros b [? _].
  - rewrite concat_blocks by done. unfold cs, len in *. by rewrite cbc_length.
Qed.

Lemma aes_encrypt_spec junk key iv t rest w :
  Bytes key /\ length key = 32%nat -> block16 iv -> Bytes t -> len (padded t) < 2 ^ 31 ->
  16 - len t mod 16 <= len rest ->
  aes_encrypt junk key iv (t ++ rest) (len t) w =
  (Returned (len (padded t), encrypted key iv t ++ drop (Z.to_nat (16 - len t mod 16)) rest), w).
Proof.
  intros [Hk Hkl] Hiv Ht Hsz Hr. unfold aes_encrypt. destruct (padding_range (len t)) as [Hp Hu]. cbv zeta.
  rewrite Hu. set (k := 16 - len t mod 16) in *. pose proof (len_nonneg t).
  unfold make_cursor, set_p. cbn [start end_].
  rewrite (push_padding_ok (Z.to_nat k) k 0 (len t + k) t rest)
    by (try lia; unfold in_width; change (2 ^ 8) with 256; lia).
  rewrite Z2Nat.id by lia. unfold lift, mbind, prog_bind. cbn [option_bind p end_ start].
  rewrite Z.eqb_refl. unfold assert_. destruct (padded_length t) as [Hpl Hpm]. fold k in Hpl. rewrite Z.sub_0_r, <- Hpl, Hpm.
  change (0 =? 0) with true. cbv iota.
  destruct (init_ctx_iv_ok (Ctx (uninit junk 240) (uninit junk 16)) key iv) as [-> Hrk];
    [apply repeat_length|apply repeat_length|done..|].
  destruct (padded_blocks t Ht) as (Hc & Hb & Hn). unfold encrypted.
  generalize dependent (Fips.key_expansion key). intros rk Hrk.
  rewrite app_assoc. change (t ++ repeat k (Z.to_nat k)) with (padded t).
  generalize dependent (blocks (Z.to_nat (len (padded t) / 16)) (padded t)). intros bs Hc Hb Hn.
  pose proof (cbc_encrypt_spec (Ctx rk iv) bs (drop (Z.to_nat k) rest) (len (padded t)) Hrk Hiv Hb) as HE.
  rewrite Hc in HE. rewrite HE by (unfold covers; lia).
  unfold mret, prog_ret. by rewrite to_signed_id by (done || split; lia).
Qed.

Lemma aes_encrypt_overrun junk key iv t rest w :
  len rest < 16 - len t mod 16 -> aes_encrypt junk key iv (t ++ rest) (len t) w = (Undefined, w).
Proof.
  intros Hr. unfold aes_encrypt. destruct (padding_range (len t)) as [Hp Hu]. cbv zeta. rewrite Hu.
  set (k := 16 - len t mod 16) in *. pose proof (len_nonneg t). unfold make_cursor, set_p. cbn [start end_].
  rewrite push_padding_overrun; [done|unfold in_width; change (2 ^ 8) with 256; lia|lia|lia|unfold len in *; lia].
Qed.

(** ** The text of a message *)

Lemma base64_encode_at_spec mem_l mem_r src w :
  Bytes src -> len src < 2 ^ 62 -> len (text64 src) <= len mem_r ->
  base64_encode_at (mem_l ++ mem_r) (len mem_l) src w =
  (Returned (len (text64 src), mem_l ++ text64 src ++ repeat 0 (length mem_r - length (text64 src))), w).
Proof.
  intros Hb Hl Hr. unfold base64_encode_at. replace (Z.to_nat (len mem_l)) with (length mem_l) by len_lia.
  rewrite drop_app_length, take_app_length. unfold base64_encode. rewrite encode_spec by (done || lia).
  destruct (Z.ltb_spec (len mem_r) (len (text64 src))); [lia|]. done.
Qed.

(** Strings of the program: no NUL in the message text. *)
Lemma text64_nonzero l : Bytes l -> Forall (fun c => c <> 0) (text64 l).
Proof.
  intros Hb. eapply Forall_impl; [by apply text64_chars|]. intros c Hc ->.
  revert Hc. apply (bool_decide_unpack _). vm_compute. exact I.
Qed.

Lemma hex_text_nonzero b : Bytes b -> Forall (fun c => c <> 0) (hex_text b).
Proof.
  intros Hb. unfold hex_text. apply Forall_concat, Forall_map. eapply Forall_impl; [exact Hb|].
  intros x [? ?]. unfold hex_digit. repeat apply Forall_cons_2; [..|constructor]; case_match; dlia.
Qed.

Definition message_text (enc iv : list Z) : list Z := text64 enc ++ cs "?iv=" ++ text64 iv.

Lemma message_text_nonzero enc iv : Bytes enc -> Bytes iv -> Forall (fun c => c <> 0) (message_text enc iv).
Proof.
  intros. unfold message_text. rewrite !Forall_app. split_and!; [by apply text64_nonzero|by_compute|by apply text64_nonzero].
Qed.

Lemma dm_text_spec buf enc iv w :
  Bytes enc -> Bytes iv -> len enc < 2 ^ 30 -> len iv < 2 ^ 30 -> len buf < 2 ^ 31 ->
  len (message_text enc iv) + 1 <= len buf ->
  exists rest, dm_text buf enc iv w =
    (Returned (Some (Cursor 0 (len (message_text enc iv) + 1) (len buf), message_text enc iv ++ 0 :: rest)), w) /\
    len (message_text enc iv ++ 0 :: rest) = len buf.
Proof.
  intros He Hi Hle Hli Hlb Hb. unfold dm_text, message_text in *. set (t1 := text64 enc) in *. set (t2 := text64 iv) in *.
  rewrite !len_app in Hb. change (len (cs "?iv=")) with 4 in *.
  pose proof (len_nonneg t1). pose proof (len_nonneg t2).
  cbn [start make_cursor]. pose proof (base64_encode_at_spec [] buf enc w He ltac:(lia) ltac:(fold t1; lia)) as E1.
  change (len []) with 0 in E1. cbn [app] in E1. fold t1 in E1. rewrite (bind_returned _ _ w _ w E1). cbv beta iota.
  destruct (Z.eqb_spec (len t1) (-1)); [lia|].
  set (r1 := repeat 0 (length buf - length t1)). assert (Hr1 : len r1 = len buf - len t1) by (unfold r1, len in *; rewrite repeat_length; lia).
  unfold set_p. cbn [start p end_ make_cursor]. rewrite Z.add_0_l.
  rewrite (write_at _ _ 1 0 (len buf) t1 r1 (Appends_push_str (cs "?iv=") eq_refl)) by (try change (len (cs "?iv=")) with 4; lia).
  rewrite lift_bind. cbn [negb].
  change (len (cs "?iv=")) with 4. set (r2 := drop (length (cs "?iv=")) r1).
  assert (Hr2 : len r2 = len buf - len t1 - 4) by (unfold r2, len in *; rewrite length_drop; simpl; lia).
  rewrite app_assoc. cbn [p]. replace (len t1 + 4) with (len (t1 ++ cs "?iv=")) by (rewrite len_app; done).
  pose proof (base64_encode_at_spec (t1 ++ cs "?iv=") r2 iv w Hi ltac:(lia) ltac:(fold t2; lia)) as E2. fold t2 in E2.
  rewrite (bind_returned _ _ w _ w E2). cbv beta iota. destruct (Z.eqb_spec (len t2) (-1)); [lia|].
  set (r3 := repeat 0 (length r2 - length t2)).
  assert (Hr3 : len r3 = len buf - len t1 - 4 - len t2) by (unfold r3, len in *; rewrite repeat_length; lia).
  cbn [start p end_]. rewrite app_assoc. replace (len (t1 ++ cs "?iv=") + len t2) with (len ((t1 ++ cs "?iv=") ++ t2)) by (by rewrite !len_app).
  rewrite (write_at _ _ 0 0 (len buf) ((t1 ++ cs "?iv=") ++ t2) r3 (Appends_push_byte 0))
    by (rewrite ?len_app; change (len (cs "?iv=")) with 4; change (len [u8 0]) with 1; lia).
  rewrite lift_bind. cbn [negb]. exists (drop 1 r3). split.
  - unfold mret, prog_ret. rewrite <- !app_assoc. change (len [u8 0]) with 1. do 5 f_equal.
  - rewrite !len_app, len_cons. unfold len in *. rewrite length_drop. simpl. lia.
Qed.

Lemma c_str_app pre t rest : Forall (fun c => c <> 0) t -> c_str (pre ++ t ++ 0 :: rest) (len pre) = t.
Proof.
  intros Ht. unfold c_str. replace (Z.to_nat (len pre)) with (length pre) by len_lia.
  by rewrite drop_app_length, until_nul_app.
Qed.

Lemma dm_finish_spec ev pk k t rest e w :
  Bytes pk /\ length pk = 32%nat -> Forall (fun c => c <> 0) t -> 65 <= len rest ->
  dm_finish ev pk k (Cursor 0 (len t + 1) e) (t ++ 0 :: rest) w =
  if len (tags ev) <? MAX_TAGS
  then (Returned (1, set_tags (set_message ev t k) (tags ev ++ [[cs "p"; hex_text pk]])), w)
  else (Returned (0, set_message ev t k), World (errno w) (entropy w) (log w ++ [Stderr (cs "too many tags" ++ [10])])).
Proof.
  intros [Hpk Hl] Ht Hr. unfold dm_finish. cbn [p start].
  replace (Z.to_nat (len t + 1)) with (length (t ++ [0])) by (rewrite length_app; simpl; len_lia).
  replace (t ++ 0 :: rest) with ((t ++ [0]) ++ rest) by by rewrite <- app_assoc.
  rewrite drop_app_length, take_app_length, hex_encode_text by (done || (unfold len in *; lia)).
  rewrite lift_bind. change (1 =? 0) with false. cbv iota.
  set (rest' := drop _ rest).
  pose proof (c_str_app [] t (hex_text pk ++ 0 :: rest') Ht) as E1. cbn [app] in E1. change (len []) with 0 in E1.
  replace ((t ++ [0]) ++ hex_text pk ++ 0 :: rest') with (t ++ 0 :: hex_text pk ++ 0 :: rest') at 1 by by rewrite <- app_assoc.
  rewrite E1. replace (len t + 1) with (len (t ++ [0])) by len_lia.
  rewrite c_str_app by by apply hex_text_nonzero. rewrite nostr_add_tag_spec.
  change (tags (set_message ev t k)) with (tags ev). by destruct (len (tags ev) <? MAX_TAGS).
Qed.

(** ** Both ends *)

Lemma split_iv_spec a b : 63 ∉ a -> split_iv (a ++ cs "?iv=" ++ b) = (a, b).
Proof.
  induction a as [|c a IH]; intros Ha; [done|]. apply not_elem_of_cons in Ha as [Hc Ha].
  cbn [app split_iv]. destruct (Z.eqb_spec c 63); [congruence|]. by rewrite IH.
Qed.

Lemma no_question l : Bytes l -> 63 ∉ text64 l.
Proof.
  intros Hb Hin. pose proof (text64_chars l Hb) as HF. rewrite Forall_forall in HF. specialize (HF 63 Hin).
  revert HF. apply (bool_decide_unpack _). vm_compute. exact I.
Qed.

Lemma dm_read_content shared iv t :
  Bytes shared /\ length shared = 32%nat -> block16 iv -> Bytes t -> len t < 2 ^ 30 ->
  dm_read shared (dm_content shared iv t) = Some t.
Proof.
  intros Hs Hiv Ht Hlt. destruct (encrypted_ok shared iv t Hs Hiv Ht) as [He Hel].
  destruct (padded_length t) as [Hpl Hpm]. destruct (padding_range (len t)) as [Hp _]. pose proof (len_nonneg t).
  unfold dm_read, dm_content. rewrite split_iv_spec by by apply no_question.
  pose proof (b64_text_length base64_maps_rfc4648 (encrypted shared iv t)) as L1.
  pose proof (b64_text_length base64_maps_rfc4648 iv) as L2. destruct Hiv as [Hib Hil].
  assert (len iv = 16) as Hil' by (unfold len; lia).
  rewrite decode_text64 by (done || (try rewrite len_repeat; unfold len in *; dlia)).
  rewrite decode_text64 by (done || (try rewrite len_repeat; unfold len in *; dlia)). rewrite !bind_some.
  replace (take 16 (iv ++ _)) with iv by (rewrite <- Hil; by rewrite take_app_length).
  replace (Z.to_nat (len (encrypted shared iv t))) with (length (encrypted shared iv t)) by len_lia.
  rewrite take_app_length. rewrite Hel. clear L1 L2. unfold encrypted.
  destruct Hs as [Hsb Hsl]. destruct (init_ctx_iv_ok (Ctx (repeat 0 240) (repeat 0 16)) shared iv) as [-> Hrk]; [done..|].
  destruct (padded_blocks t Ht) as (Hc & Hb & Hn).
  generalize dependent (Fips.key_expansion shared). intros rk Hrk.
  set (bs := blocks _ _) in *. clearbody bs. unfold AES_CBC_decrypt_buffer.
  pose proof (cbc_decrypt_loop_spec rk [] bs [] iv (S (Z.to_nat (len (padded t)))) (len (padded t)) Hrk (conj Hib Hil) Hb) as HD.
  cbn [app] in HD. rewrite !app_nil_r in HD. change (len []) with 0 in HD.
  rewrite HD by (unfold len in *; lia). rewrite bind_some, Hc. f_equal.
  set (k := 16 - len t mod 16) in *.
  assert ((padded t).[len (padded t) - 1] = k) as ->.
  { rewrite Hpl. unfold padded. fold k. rewrite get_app_r by lia. unfold get. rewrite nth_repeat_lt; [done|]. unfold len in *; lia. }
  replace (Z.to_nat (len (padded t) - k)) with (length t) by len_lia. unfold padded. by rewrite take_app_length.
Qed.

(** ** The whole function *)

Lemma drop_repeat {A} (x : A) k n : drop k (repeat x n) = repeat x (n - k).
Proof. revert k; induction n as [|n IH]; intros [|k]; simpl; try done. Qed.

Section Whole.
Context `{Secp256k1Laws} (junk : Z) (report : list Z -> proc unit) `{HR : Reporter report}.

(** What has to succeed before the encryption: the secret key is valid, the
    recipient's key is on the curve, a secret is shared, a vector is drawn. *)
Record dm_ready (k : key) (pk sh iv : list Z) (w : world) (rest : list (option (list Z))) : Prop := {
  ready_secret : ec_seckey_verify (secret k) = true;
  ready_pubkey : exists q, ec_pubkey_parse (2 :: pk) = Some q /\ shared_x q (secret k) = Some sh;
  ready_iv : entropy w = Some iv :: rest /\ block16 iv;
}.

Lemma put_whole d n : len d <= n -> put 0 d (uninit junk n) = Some (d ++ uninit junk (n - len d)).
Proof using Type.
  intros Hd. pose proof (len_nonneg d). pose proof (put_app [] d (uninit junk n)) as E. cbn [app] in E. change (len []) with 0 in E.
  unfold uninit in *. rewrite E by (rewrite len_repeat; lia). f_equal. f_equal. rewrite drop_repeat. f_equal. len_lia.
Qed.

Lemma stdout_shown l t : stdout_of (l ++ shown t) = stdout_of l.
Proof using Type. pose proof (shown_stderr t) as Ht. unfold stdout_of in *. by rewrite map_app, concat_app, Ht, app_nil_r. Qed.

Lemma make_dm_head k ev pk kind_ w :
  3 * (len (content ev) + 16) + 650 < 2 ^ 31 ->
  let inl := len (content ev) in
  make_encrypted_dm junk report k ev pk kind_ w =
  (if negb (ec_seckey_verify (secret k)) then
    _ ← eprintf (cs "make_encrypted_dm: ec_seckey_verify failed" ++ [10]); mret (0, ev)
  else
    match ec_pubkey_parse (2 :: pk) with
    | None => _ ← eprintf (cs "make_encrypted_dm: ec_pubkey_parse failed" ++ [10]); mret (0, ev)
    | Some q =>
        match ecdh copyx q (secret k) with
        | None => _ ← eprintf (cs "make_encrypted_dm: secp256k1_ecdh failed" ++ [10]); mret (0, ev)
        | Some sh =>
            iv ← fill_random 16;
            match iv with
            | None => _ ← eprintf (cs "make_encrypted_dm: fill_random failed" ++ [10]); mret (0, ev)
            | Some iv =>
                _ ← report sh;
                '(enclen, encbuf) ← aes_encrypt junk sh iv (content ev ++ uninit junk (inl mod 16 + 1)) inl;
                if enclen =? 0 then
                  _ ← eprintf (cs "make_encrypted_dm: aes_encrypt failed" ++ [10]); mret (0, ev)
                else
                  r ← dm_text (uninit junk (3 * (inl + 16) + 650)) (take (Z.to_nat enclen) encbuf) iv;
                  match r with
                  | None => mret (0, ev)
                  | Some (c, buf) => dm_finish ev pk kind_ c buf
                  end
            end
        end
    end) w.
Proof using Type.
  intros Hl inl. unfold make_encrypted_dm. pose proof (len_nonneg (content ev)) as Hge.
  cbv zeta. fold inl in Hl, Hge |- *. rewrite !to_signed_id by (lia || split; lia).
  unfold int_. destruct (Z.leb_spec (- 2 ^ 31) ((inl + 16) * 3)), (Z.ltb_spec ((inl + 16) * 3) (2 ^ 31)); try lia.
  cbn [andb]. rewrite ret_bind.
  destruct (Z.leb_spec (- 2 ^ 31) ((inl + 16) * 3 + 65 * 10)), (Z.ltb_spec ((inl + 16) * 3 + 65 * 10) (2 ^ 31)); try lia.
  cbn [andb]. rewrite ret_bind. rewrite Z.rem_mod_nonneg, put_whole by dlia. fold inl.
  replace (inl + inl mod 16 + 1 - inl) with (inl mod 16 + 1) by lia.
  replace ((inl + 16) * 3 + 65 * 10) with (3 * (inl + 16) + 650) by lia. done.
Qed.

Lemma make_dm_too_long k ev pk kind_ w :
  c_string (content ev) -> 2 ^ 31 <= 3 * (len (content ev) + 16) + 650 -> make_encrypted_dm junk report k ev pk kind_ w = (Undefined, w).
Proof using Type.
  intros [_ Hl] Hb. unfold make_encrypted_dm. cbv zeta. set (inl := len (content ev)) in *.
  unfold int_, to_signed, wrap. cbv zeta. change (32 - 1) with 31.
  set (e := if (inl + 16) mod 2 ^ 32 <? 2 ^ 31 then _ else _).
  assert (He : e = inl + 16 \/ e < - 2 ^ 30).
  { unfold e. rewrite Z.mod_small by lia. destruct (Z.ltb_spec (inl + 16) (2 ^ 31)); lia. }
  destruct (Z.leb_spec (- 2 ^ 31) (e * 3)), (Z.ltb_spec (e * 3) (2 ^ 31)); cbn [andb]; try done.
  rewrite ret_bind.
  destruct (Z.leb_spec (- 2 ^ 31) (e * 3 + 65 * 10)), (Z.ltb_spec (e * 3 + 65 * 10) (2 ^ 31)); cbn [andb]; try done. lia.
Qed.

Lemma make_dm_encrypts k ev pk kind_ sh iv w rest :
  dm_ready k pk sh iv w rest -> 3 * (len (content ev) + 16) + 650 < 2 ^ 31 ->
  let inl := len (content ev) in
  make_encrypted_dm junk report k ev pk kind_ w =
  (aes_encrypt junk sh iv (content ev ++ uninit junk (inl mod 16 + 1)) inl ≫= fun '(enclen, encbuf) =>
     if enclen =? 0 then
       _ ← eprintf (cs "make_encrypted_dm: aes_encrypt failed" ++ [10]); mret (0, ev)
     else
       r ← dm_text (uninit junk (3 * (inl + 16) + 650)) (take (Z.to_nat enclen) encbuf) iv;
       match r with
       | None => mret (0, ev)
       | Some (c, buf) => dm_finish ev pk kind_ c buf
       end) (World (errno w) rest (log w ++ shown sh)).
Proof using HR.
  intros [Hs (q & Hq & Hsh) [Hw Hiv]] Hl inl. rewrite make_dm_head by done. cbv zeta. rewrite Hs, Hq. cbn [negb].
  unfold shared_x in Hsh. change (ecdh copyx q (secret k)) with (ecdh (fun x _ => Some x) q (secret k)). rewrite Hsh.
  assert (fill_random 16 w = (Returned (Some iv), World (errno w) rest (log w))) as E.
  { unfold fill_random. rewrite Hw. destruct Hiv as [_ Hil]. replace (len iv) with 16 by (unfold len; lia). done. }
  rewrite (bind_returned _ _ _ _ _ E). by rewrite (bind_returned _ _ _ _ _ (report_spec _ _)).
Qed.

(** The two ways it ends once the padding fits. *)
Lemma make_dm_spec k ev pk kind_ sh iv w rest :
  dm_ready k pk sh iv w rest -> Bytes pk /\ length pk = 32%nat -> event_ok ev ->
  3 * (len (content ev) + 16) + 650 < 2 ^ 31 -> 8 <= len (content ev) mod 16 ->
  let ev' := set_message ev (dm_content sh iv (content ev)) kind_ in
  make_encrypted_dm junk report k ev pk kind_ w =
  if len (tags ev) <? MAX_TAGS
  then (Returned (1, set_tags ev' (tags ev ++ [[cs "p"; hex_text pk]])), World (errno w) rest (log w ++ shown sh))
  else (Returned (0, ev'), World (errno w) rest ((log w ++ shown sh) ++ [Stderr (cs "too many tags" ++ [10])])).
Proof using All.
  intros Hr Hpk Hev Hl Hmod ev'. rewrite (make_dm_encrypts k ev pk kind_ sh iv w rest) by done. cbv zeta. subst ev'.
  destruct Hr as [_ (q & _ & Hsh) [_ Hiv]]. pose proof (shared_x_bytes _ _ _ Hsh) as Hshb.
  set (t := content ev) in *. pose proof (proj1 (ok_content ev Hev)) as Ht. fold t in Ht. pose proof (len_nonneg t).
  destruct (padded_length t) as [Hpl Hpm]. destruct (padding_range (len t)) as [Hp _].
  destruct (encrypted_ok sh iv t Hshb Hiv Ht) as [He Hel].
  pose proof (aes_encrypt_spec junk sh iv t (uninit junk (len t mod 16 + 1)) (World (errno w) rest (log w ++ shown sh))
    Hshb Hiv Ht ltac:(lia) ltac:(unfold uninit; rewrite len_repeat; lia)) as EA.
  rewrite (bind_returned _ _ _ _ _ EA). destruct (Z.eqb_spec (len (padded t)) 0); [lia|].
  rewrite <- Hel. replace (Z.to_nat (len (encrypted sh iv t))) with (length (encrypted sh iv t)) by len_lia.
  rewrite take_app_length. destruct Hiv as [Hib Hil].
  assert (Hmt : len (message_text (encrypted sh iv t) iv) = (len t + (16 - len t mod 16) + 2) / 3 * 4 + 28).
  { unfold message_text. rewrite !len_app, !b64_text_length, Hel, Hpl. change (len (cs "?iv=")) with 4.
    replace (len iv) with 16 by (unfold len; lia). change ((16 + 2) / 3 * 4) with 24. lia. }
  destruct (dm_text_spec (uninit junk (3 * (len t + 16) + 650)) (encrypted sh iv t) iv (World (errno w) rest (log w ++ shown sh)))
    as (rest' & ED & Hlen); [done|done|lia|unfold len; lia| | |].
  { unfold uninit. rewrite len_repeat. lia. }
  { unfold uninit. rewrite len_repeat, Hmt. dlia. }
  rewrite (bind_returned _ _ _ _ _ ED). rewrite dm_finish_spec; [done|done|by apply message_text_nonzero|].
  rewrite len_app, len_cons, Hmt in Hlen. unfold uninit in Hlen. rewrite len_repeat in Hlen. dlia.
Qed.

Lemma dm_content_c_string sh iv t :
  Bytes sh /\ length sh = 32%nat -> block16 iv -> Bytes t -> 3 * (len t + 16) + 650 < 2 ^ 31 ->
  c_string (dm_content sh iv t).
Proof using Type.
  intros Hs Hiv Ht Hl. destruct (encrypted_ok sh iv t Hs Hiv Ht) as [He Hel]. destruct (padded_length t) as [Hpl _].
  pose proof (len_nonneg t). destruct (padding_range (len t)) as [? _].
  assert (Hb : forall l, Bytes l -> Bytes (text64 l)).
  { intros l Hb. eapply Forall_impl; [by apply text64_chars|]. intros c Hc. revert c Hc. rewrite <- Forall_forall. by_compute. }
  unfold dm_content. destruct Hiv as [Hib Hil]. split.
  - rewrite !Bytes_app. split_and!; [by apply Hb|by_compute|by apply Hb].
  - rewrite !len_app, !b64_text_length, Hel, Hpl. change (len (cs "?iv=")) with 4. replace (len iv) with 16 by (unfold len; lia).
    change ((16 + 2) / 3 * 4) with 24. dlia.
Qed.

(** The answers of the system are bytes. *)
Definition entropy_ok (w : world) : Prop := Forall (fun o => from_option Bytes True o) (entropy w).

Lemma fill_random_entropy size w r w' :
  entropy_ok w -> fill_random size w = (Returned r, w') -> entropy_ok w' /\ from_option Bytes True r.
Proof using Type.
  unfold entropy_ok, fill_random. destruct (entropy w) as [|[d|] rest] eqn:E; intros Hw Hr; simplify_eq; cbn [entropy].
  - by rewrite E.
  - apply Forall_cons in Hw as [? ?]. by destruct (len d =? size).
  - by apply Forall_cons in Hw as [? ?].
Qed.

(** What a returning call did. *)
Lemma make_dm_returns k ev pk kind_ w r ev' w' :
  Bytes pk /\ length pk = 32%nat -> event_ok ev -> entropy_ok w ->
  make_encrypted_dm junk report k ev pk kind_ w = (Returned (r, ev'), w') ->
  entropy_ok w' /\ stdout_of (log w') = stdout_of (log w) /\ (r = 0 \/ r = 1) /\
  (r = 1 -> exists sh iv, Bytes sh /\ length sh = 32%nat /\ block16 iv /\ 3 * (len (content ev) + 16) + 650 < 2 ^ 31 /\
     len (tags ev) < MAX_TAGS /\
     ev' = set_tags (set_message ev (dm_content sh iv (content ev)) kind_) (tags ev ++ [[cs "p"; hex_text pk]])) /\
  (r = 0 -> dm_refused k ev pk w).
Proof using All.
  intros Hpk Hev Hw E. pose proof (len_nonneg (content ev)) as Hge.
  match goal with |- ?G => assert (Hmsg : forall m w1 (e : nostr_event), dm_refused k ev pk w -> entropy_ok w1 -> log w1 = log w ->
    (eprintf m ≫= fun _ => mret (0, e)) w1 = (Returned (r, ev'), w') -> G) end.
  { intros m w1 e Href Hw1 Hl Em. injection Em as <- <- <-. split_and!; try done; [|by left].
    cbn [log]. unfold stdout_of. by rewrite Hl, map_app, concat_app, app_nil_r. }
  destruct (decide (3 * (len (content ev) + 16) + 650 < 2 ^ 31)) as [Hl|Hl].
  2: { rewrite make_dm_too_long in E; [done|apply (ok_content ev Hev)|lia]. }
  pose proof E as E0. rewrite make_dm_head in E0 by lia.
  destruct (ec_seckey_verify (secret k)) eqn:Hs; cbn [negb] in E0; [|by eapply Hmsg; [unfold dm_refused; rewrite ?Hq; cbn [from_option]; auto|done|done|exact E0]].
  destruct (ec_pubkey_parse (2 :: pk)) as [q|] eqn:Hq; [|by eapply Hmsg; [unfold dm_refused; rewrite ?Hq; cbn [from_option]; auto|done|done|exact E0]].
  destruct (ecdh copyx q (secret k)) as [sh|] eqn:Hsh; [|by eapply Hmsg; [unfold dm_refused; rewrite ?Hq; cbn [from_option]; auto|done|done|exact E0]].
  apply bind_inv in E0 as (iv & w1 & Ef & E0). pose proof (fill_random_entropy _ _ _ _ Hw Ef) as [Hw1 Hib].
  pose proof (fill_random_returns _ _ _ _ Ef) as (_ & Hlog & Hil).
  destruct iv as [iv|]; [|by eapply Hmsg; [unfold dm_refused; eauto|done|done|exact E0]]. clear E0.
  cbn [from_option] in Hib, Hil. destruct (entropy w) as [|[d|] rest] eqn:Een; unfold fill_random in Ef; rewrite Een in Ef; try done.
  destruct (Z.eqb_spec (len d) 16); [|done]. injection Ef as -> <-.
  assert (Hr : dm_ready k pk sh iv w rest).
  { split; [done|by exists q|]. split; [done|]. split; [done|]. unfold len in *. lia. }
  destruct (decide (8 <= len (content ev) mod 16)) as [Hm|Hm].
  - rewrite (make_dm_spec k ev pk kind_ sh iv w rest) in E by (done || lia). cbv zeta in E.
    destruct (Z.ltb_spec (len (tags ev)) MAX_TAGS); injection E as <- <- <-.
    + split_and!; [done|cbn [log]; apply stdout_shown|by right| |done]. intros _. exists sh, iv.
      destruct (shared_x_bytes _ _ _ Hsh). destruct Hr as [_ _ [_ ?]]. done.
    + split_and!; [done| |by left|done|unfold dm_refused; auto]. cbn [log]. rewrite <- (stdout_shown (log w) sh). unfold stdout_of. by rewrite map_app, concat_app, app_nil_r.
  - exfalso. rewrite (make_dm_encrypts k ev pk kind_ sh iv w rest) in E by (done || lia). cbv zeta in E.
    apply bind_inv in E as (? & ? & E & _). rewrite aes_encrypt_overrun in E; [done|].
    unfold uninit. rewrite len_repeat by dlia. lia.
Qed.
End Whole.

(** ** A concrete exchange *)

#[local] Existing Instance Toy.lib.
#[local] Existing Instance Toy.lib_laws.

Definition alice : list Z := repeat 3 32.
Definition bob : list Z := map Z.of_nat (seq 1 32).
Definition alice_key : key := Key (Some alice) alice (Toy.rotate alice).
Definition bob_pub : list Z := Toy.rotate bob.
Definition secret_xor : list Z := zip_with Z.lxor bob_pub (Toy.rotate alice).
Definition hello : nostr_event :=
  Event (repeat 0 32) (repeat 0 32) (repeat 0 64) (cs "hello hello") 1700000000 1 None [].

Lemma hello_ok : event_ok hello.
Proof. split; try by_compute; repeat split; by_compute. Qed.

Lemma alice_ready : dm_ready alice_key bob_pub secret_xor (repeat 9 16) (World 0 [Some (repeat 9 16)] []) [].
Proof. split; [reflexivity|exists bob_pub; split; reflexivity|split; [reflexivity|by_compute]]. Qed.

(** ** Properties *)

(** C10: an encrypted message whose length leaves 8 or more modulo 16 (and is
    below 2^28) arrives, when the event has room for one more tag, the secret is
    shared and random bytes come for the vector: [make_encrypted_dm] sets the
    kind, adds the recipient as [p] tag, and leaves a content from which the
    recipient, with the secret it computes from its own key and the sender's
    public key, reads the plaintext.  The other half of the lengths overruns the
    array of the padded content ([dm_overruns]). *)
Theorem dm_delivers `{Secp256k1Laws} (junk : Z) (k : key) (ev : nostr_event) (s2 p2 iv sh : list Z) (q1 : secp_pubkey)
    (kind_ : Z) (w : world) (rest : list (option (list Z)))
    (Hk : key_ok k) (Hp2 : public_key s2 = Some p2) (Hq1 : ec_pubkey_parse (2 :: key_pubkey k) = Some q1)
    (Hready : dm_ready k p2 sh iv w rest) (Hev : event_ok ev) (Hl : len (content ev) < 2 ^ 28)
    (Hmod : 8 <= len (content ev) mod 16) (Hn : len (tags ev) < MAX_TAGS) :
  exists ev' w', make_encrypted_dm junk quiet k ev p2 kind_ w = (Returned (1, ev'), w') /\
    kind ev' = kind_ /\ tags ev' = tags ev ++ [[cs "p"; hex_text p2]] /\
    exists sh', shared_x q1 s2 = Some sh' /\ dm_read sh' (content ev') = Some (content ev).
Proof.
  eexists _, _. split.
  { rewrite (make_dm_spec junk quiet k ev p2 kind_ sh iv w rest); [|done|by eapply public_key_bytes|done|lia|done].
    cbv zeta. by destruct (Z.ltb_spec (len (tags ev)) MAX_TAGS); [|lia]. }
  split; [done|]. split; [done|]. destruct Hready as [_ (q2 & Hq2 & Hsh) [_ Hiv]]. destruct Hk as (kp & _ & _ & Hp1).
  exists sh. split.
  - rewrite <- Hsh. symmetry. by eapply shared_x_agree.
  - cbn [content set_message set_tags]. apply dm_read_content; [by eapply shared_x_bytes|done|apply (ok_content ev Hev)|lia].
Qed.

Lemma dm_delivers_witness :
  exists ev' w', make_encrypted_dm 0 quiet alice_key hello bob_pub 4 (World 0 [Some (repeat 9 16)] []) = (Returned (1, ev'), w') /\
    kind ev' = 4 /\ tags ev' = [] ++ [[cs "p"; hex_text bob_pub]] /\
    exists sh', shared_x (Toy.rotate alice) bob = Some sh' /\ dm_read sh' (content ev') = Some (cs "hello hello").
Proof.
  apply (dm_delivers 0 alice_key hello bob bob_pub (repeat 9 16) secret_xor (Toy.rotate alice) 4
    (World 0 [Some (repeat 9 16)] []) []); [|reflexivity|reflexivity|apply alice_ready|apply hello_ok|reflexivity| |reflexivity].
  - exists alice. split_and!; reflexivity.
  - vm_compute. discriminate.
Defined.

(** C40: the array for the padded content has [len mod 16 + 1] bytes more than
    the content, the padding [16 - len mod 16]: for a remainder below 8, the
    empty content included, the padding is written outside the array. *)
Theorem dm_overruns `{Secp256k1} (junk : Z) (k : key) (ev : nostr_event) (pk iv sh : list Z)
    (kind_ : Z) (w : world) (rest : list (option (list Z)))
    (Hready : dm_ready k pk sh iv w rest) (Hl : len (content ev) < 2 ^ 28) (Hmod : len (content ev) mod 16 < 8) :
  (make_encrypted_dm junk quiet k ev pk kind_ w).1 = Undefined.
Proof.
  rewrite (make_dm_encrypts junk quiet k ev pk kind_ sh iv w rest) by (done || lia). cbv zeta. pose proof (len_nonneg (content ev)).
  unfold mbind, prog_bind. rewrite aes_encrypt_overrun; [done|]. unfold uninit. rewrite len_repeat by dlia. lia.
Qed.

Lemma dm_overruns_witness :
  (make_encrypted_dm 0 quiet alice_key (set_message hello (cs "hi") 1) bob_pub 4 (World 0 [Some (repeat 9 16)] [])).1 = Undefined.
Proof.
  apply (dm_overruns 0 alice_key (set_message hello (cs "hi") 1) bob_pub (repeat 9 16) secret_xor 4
    (World 0 [Some (repeat 9 16)] []) []); [apply alice_ready|reflexivity|reflexivity].
Defined.
