(* ===== verification/Gnostr.v ===== *)
(** * The program: [gnostr.c]

    [try_subcommand] and [main], composed of the argument parser, the keys, the
    encrypted message, mining, the event id, the signature and the printing of
    the event.  The theorem of the whole program: what [main] prints with exit
    status 0 is one event with the requested fields, whose id is the digest of
    its serialisation and whose signature verifies. *)
From S2P Require Import Prelude Hex AesSpec Aes Base64 ProofOfWork Sha256Spec Sha256 Cursor Event Process Args Keys Mining Dm.

Section Gnostr.
Context `{OS} `{Secp256k1} (junk : Z).

Definition try_subcommand (argv : list (list Z)) : proc unit :=
  let sub := nth 1 argv [] in
  when ((1 <=? len sub) && negb (sub.[0] =? 45)) (execvp (snprintf 127 (cs "gnostr-" ++ sub)) (tail argv)).

Definition set_explicit_tags (ev : nostr_event) (t : option (list Z)) : nostr_event :=
  Event (id ev) (pubkey ev) (sig ev) (content ev) (created_at ev) (kind ev) t (tags ev).
Definition set_pubkey (ev : nostr_event) (pk : list Z) : nostr_event :=
  Event (id ev) pk (sig ev) (content ev) (created_at ev) (kind ev) (explicit_tags ev) (tags ev).

(** The event before keys come in. *)
Definition make_event (a : args) (ev : nostr_event) : nostr_event :=
  let ev := match args_tags a with Some t => set_explicit_tags ev (Some t) | None => ev end in
  make_event_from_args ev a.

(** [args.sec] or a generated key; 8 and 4 are the exit codes of a failure;
    [report] is what is said of a generated secret key. *)
Definition main_key (report : list Z -> proc unit) (fuel : nat) (a : args) : proc (Z * key) :=
  let k := Key None (uninit junk 32) (uninit junk 32) in
  match sec a with
  | Some s => '(ok, k) ← decode_key s k; mret (if ok =? 0 then 8 else 0, k)
  | None =>
      let d := if has a HAS_DIFFICULTY && has a HAS_MINE_PUBKEY then Some (difficulty a) else None in
      '(ok, k) ← generate_key fuel k d;
      if ok =? 0 then _ ← eprintf (cs "could not generate key" ++ [10]); mret (4, k)
      else _ ← eprintf (cs "secret_key "); _ ← report (secret k); _ ← eprintf [10]; mret (0, k)
  end.

(** Mining or a plain id; the exit codes are 22 and 5. *)
Definition main_id (fuel : nat) (a : args) (ev : nostr_event) : proc (Z * nostr_event) :=
  let buf := repeat 0 (Z.to_nat 102400) in
  if has a HAS_DIFFICULTY && negb (has a HAS_MINE_PUBKEY) then
    '(ok, ev) ← mine_event fuel ev (difficulty a) buf;
    if ok =? 0 then _ ← eprintf (cs "error when mining id" ++ [10]); mret (22, ev) else mret (0, ev)
  else
    '(ok, ev, _) ← lift (generate_event_id ev buf);
    if ok =? 0 then _ ← eprintf (cs "could not generate event id" ++ [10]); mret (5, ev) else mret (0, ev).

(** From the key to the signature; without an event, the exit code; [report] is
    what is said of a shared secret. *)
Definition main_signed (report : list Z -> proc unit) (fuel : nat) (a : args) (k : key) (ev : nostr_event) : proc (Z + nostr_event) :=
  '(ok, ev) ←
    (if has a HAS_ENCRYPT then
       let kind := if has a HAS_KIND then args_kind a else 4 in
       make_encrypted_dm junk report k ev (encrypt_to a) kind
     else mret (1, ev));
  if ok =? 0 then _ ← eprintf (cs "error making encrypted dm" ++ [10]); mret (inl 0)
  else
    let ev := set_pubkey ev (key_pubkey k) in
    '(code, ev) ← main_id fuel a ev;
    if negb (code =? 0) then mret (inl code)
    else
      '(ok, ev) ← sign_event k ev;
      if ok =? 0 then _ ← eprintf (cs "could not sign event" ++ [10]); mret (inl 6) else mret (inr ev).

Definition main_event (fuel : nat) (a : args) (k : key) (ev : nostr_event) : proc Z :=
  r ← main_signed quiet fuel a k ev;
  match r with
  | inl code => mret code
  | inr ev =>
      '(ok, out) ← lift (print_event ev (has a HAS_ENVELOPE));
      _ ← printf out;
      if ok =? 0 then _ ← eprintf (cs "buffer too small" ++ [10]); mret 88 else mret 0
  end.

Definition main (fuel : nat) (argv : list (list Z)) : proc Z :=
  _ ← when (len argv <? 2) usage;
  ok ← init_secp_context;
  if ok =? 0 then mret 2
  else
    _ ← try_subcommand argv;
    '(ok, a, ev) ← parse_args argv args_zero event_zero;
    if ok =? 0 then _ ← @usage unit; mret 10
    else
      let ev := make_event a ev in
      '(code, k) ← main_key quiet fuel a;
      if negb (code =? 0) then mret code else main_event fuel a k ev.
End Gnostr.

(** ** Reference: the requested event *)

(** An event that can be published: well-formed, its id the digest of its NIP-01
    serialisation, signed by its key.  A time of more than 15 digits is cut to 15
    by the code, and the id is the digest of the cut text: such an event is
    signed, but NIP-01 gives it another id. *)
Definition valid_event `{Secp256k1} (ev : nostr_event) : Prop :=
  event_ok ev /\
  id ev = Spec.sha256 (if created_at ev <? 10 ^ 15 then nip01 ev else truncated ev) /\
  schnorrsig_verify (sig ev) (id ev) (pubkey ev) = true.

(** The encryption that was asked for was refused, for a cause found in [w], and
    standard error ends with the message. *)
Definition not_encrypted `{Secp256k1} (a : args) (k : key) (ev : nostr_event) (w w' : world) : Prop :=
  has a HAS_ENCRYPT = true /\ dm_refused k ev (encrypt_to a) w /\
  exists lg, log w' = lg ++ [Stderr (cs "error making encrypted dm" ++ [10])].

(** [ev] is what the settings ask for: time and explicit tags always; content
    and kind unless the content is encrypted; the tags but for the nonce and the
    recipient; the difficulty where mining is asked. *)
Record requested `{OS} (a : args) (ev0 ev : nostr_event) : Prop := {
  req_created_at : created_at ev = created_at (make_event a ev0);
  req_explicit : explicit_tags ev = explicit_tags (make_event a ev0);
  req_plain : has a HAS_ENCRYPT = false -> content ev = content (make_event a ev0) /\ kind ev = kind (make_event a ev0);
  req_recipient : has a HAS_ENCRYPT = true ->
    kind ev = (if has a HAS_KIND then args_kind a else 4) /\ [cs "p"; hex_text (encrypt_to a)] ∈ tags ev;
  req_tags : exists l, tags ev = tags ev0 ++ l /\
    (has a HAS_ENCRYPT = false -> has a HAS_DIFFICULTY && negb (has a HAS_MINE_PUBKEY) = false -> l = []);
  req_mined : has a HAS_DIFFICULTY && negb (has a HAS_MINE_PUBKEY) = true ->
    difficulty a <= count_leading_zero_bits (id ev);
}.

(** ** The parts of [main] *)

Section Parts.
Context `{OS} `{Secp256k1Laws} (junk : Z).

(** What a part of the program leaves for the next. *)
Definition keeps (w w' : world) : Prop := entropy_ok w' /\ stdout_of (log w') = stdout_of (log w).

Lemma keeps_trans w1 w2 w3 : keeps w1 w2 -> keeps w2 w3 -> keeps w1 w3.
Proof using Type. intros [? E1] [? E2]. split; congruence. Qed.

Lemma keeps_refl w : entropy_ok w -> keeps w w.
Proof using Type. by split. Qed.

Lemma keeps_stderr w t : entropy_ok w -> keeps w (World (errno w) (entropy w) (log w ++ [Stderr t])).
Proof using Type. intros Hw. split; [done|]. cbn [log]. unfold stdout_of. by rewrite map_app, concat_app, app_nil_r. Qed.

Lemma fill_random_keeps size w r w' : entropy_ok w -> fill_random size w = (Returned r, w') -> keeps w w'.
Proof using Type.
  intros Hw E. split; [by eapply fill_random_entropy|]. apply fill_random_returns in E as (_ & -> & _). done.
Qed.

Lemma init_keeps w r w' : entropy_ok w -> init_secp_context w = (Returned r, w') -> keeps w w'.
Proof using Type.
  intros Hw E. unfold init_secp_context in E. apply bind_inv in E as (x & w1 & E1 & E).
  apply fill_random_keeps in E1; [|done]. by destruct x; injection E as <- <-.
Qed.

(** A subcommand that is not run. *)
Lemma execvp_keeps b file argv w r w' :
  entropy_ok w -> when b (execvp file argv) w = (Returned r, w') -> keeps w w'.
Proof using Type.
  intros Hw E. unfold when in E. destruct b; [|injection E as <- <-; by apply keeps_refl].
  unfold execvp in E. destruct (os_execvp _ _); [|done]. injection E as <- <-. by split.
Qed.

Lemma try_subcommand_keeps argv w r w' : entropy_ok w -> try_subcommand argv w = (Returned r, w') -> keeps w w'.
Proof using Type. apply execvp_keeps. Qed.

Lemma generate_loop_keeps fuel k d attempts w r k' w' :
  entropy_ok w -> generate_loop fuel k d attempts w = (Returned (r, k'), w') ->
  keeps w w' /\ (r = 0 \/ r = 1) /\ (r = 1 -> key_ok k').
Proof using Type.
  intros Hw. revert k attempts. induction fuel as [|fuel IH]; intros k attempts E; [done|].
  cbn [generate_loop] in E. destruct (create_key k) as [ok k1] eqn:Ec.
  assert (Hok : ok = 0 \/ ok = 1).
  { pose proof (create_key_spec k) as Hc. destruct (public_key (secret k)); [destruct Hc as (? & _ & Hc)|destruct Hc as (? & Hc)];
      rewrite Hc in Ec; injection Ec as <- <-; auto. }
  destruct Hok as [->| ->].
  - injection E as <- <- <-. split_and!; [by apply keeps_refl|by left|done].
  - change (1 =? 0) with false in E. cbv iota in E. destruct (_ <=? _).
    + injection E as <- <- <-. split_and!; [|by right|intros _; by eapply create_key_ok].
      split; [done|]. cbn [log]. unfold stdout_of. by rewrite map_app, concat_app, app_nil_r.
    + by apply IH in E.
Qed.

Lemma main_key_keeps report `{Reporter report} fuel a w code k w' :
  entropy_ok w -> main_key junk report fuel a w = (Returned (code, k), w') -> keeps w w' /\ (code = 0 -> key_ok k).
Proof using Type.
  intros Hw E. unfold main_key in E. destruct (sec a) as [s|].
  - apply bind_inv in E as ([ok k1] & w1 & E1 & E). injection E as <- <- <-. unfold decode_key in E1.
    destruct (hex_decode s _) as [okh h]. destruct (okh =? 0).
    + injection E1 as <- <- <-. by split; [apply keeps_stderr|].
    + injection E1 as E1 <-. split; [by apply keeps_refl|]. destruct (Z.eqb_spec ok 0); [done|]. intros _.
      pose proof (create_key_spec (Key None h (uninit junk 32))) as Hc.
      destruct (public_key _); [destruct Hc as (? & _ & Hc)|destruct Hc as (? & Hc)]; cbn [pair key_pubkey] in E1; rewrite E1 in Hc;
        injection Hc as -> ->; [|done]. by eapply create_key_ok.
  - apply bind_inv in E as ([ok k1] & w1 & E1 & E). unfold generate_key in E1.
    apply bind_inv in E1 as (s & w2 & Ef & E1). apply fill_random_keeps in Ef; [|done].
    assert (Hk1 : keeps w w1 /\ (ok = 0 \/ ok = 1) /\ (ok = 1 -> key_ok k1)).
    { destruct s as [s|]; [|injection E1 as <- <- <-; split_and!; [done|by left|done]].
      destruct (if _ && _ then _ else _) as [d|].
      - destruct (generate_loop_keeps _ _ _ _ _ _ _ _ (proj1 Ef) E1) as (? & ? & ?). split_and!; [by eapply keeps_trans|done..].
      - injection E1 as E1 <-. split; [done|].
        pose proof (create_key_spec (Key None s (uninit junk 32))) as Hc. cbn [pair key_pubkey] in E1. 
        destruct (public_key _); [destruct Hc as (? & _ & Hc)|destruct Hc as (? & Hc)]; rewrite E1 in Hc; injection Hc as -> ->;
          [split; [by right|]; intros _; by eapply create_key_ok|split; [by left|done]]. }
    destruct Hk1 as (Hw1 & Hok & Hk). destruct Hok as [->| ->].
    + injection E as <- <- <-. split; [|done]. eapply keeps_trans; [exact Hw1|]. by apply (keeps_stderr w1), Hw1.
    + apply bind_inv in E as ([] & w3 & E3 & E). injection E3 as <-.
      rewrite (bind_returned _ _ _ _ _ (report_spec _ _)) in E. injection E as <- <- <-.
      split; [|by auto]. eapply keeps_trans; [exact Hw1|]. split; [apply Hw1|].
      cbn [log errno entropy]. pose proof (shown_stderr (secret k1)) as Hs. unfold stdout_of in *.
      by rewrite !map_app, !concat_app, Hs, !app_nil_r.
Qed.

(** The id and what else mining changes. *)
Lemma main_id_keeps fuel a ev w code ev' w' :
  event_ok ev -> entropy_ok w -> main_id fuel a ev w = (Returned (code, ev'), w') ->
  keeps w w' /\ (code = 0 -> exists l, ev' = set_id (set_tags ev (tags ev ++ l)) (id ev') /\ event_ok ev' /\
    id ev' = Spec.sha256 (commitment ev') /\
    (if has a HAS_DIFFICULTY && negb (has a HAS_MINE_PUBKEY)
     then difficulty a <= count_leading_zero_bits (id ev') else l = [])).
Proof using Type.
  intros Hev Hw E. unfold main_id in E. cbv zeta in E.
  assert (Hbuf : len (repeat 0 (Z.to_nat 102400)) = 102400) by by rewrite len_repeat.
  set (buf := repeat 0 (Z.to_nat 102400)) in *. clearbody buf.
  destruct (has a HAS_DIFFICULTY && negb (has a HAS_MINE_PUBKEY)).
  - apply bind_inv in E as ([ok ev1] & w1 & E1 & E).
    assert (Hm : keeps w w1 /\ (ok = 0 \/ ok = 1) /\ (ok = 1 -> exists n, in_width 64 n /\ ev1 = mined ev (difficulty a) n /\
       difficulty a <= count_leading_zero_bits (candidate_id ev (difficulty a) n))).
    { destruct (decide (no_nonce ev)) as [Hno|Hno]; [destruct (decide (len (tags ev) < MAX_TAGS)) as [Hn|Hn]|].
      - rewrite mine_event_starts in E1 by done.
        pose proof (mine_loop_returns ev (difficulty a) 0 (id ev) fuel buf w 0 ok ev1 w1 Hev (ok_id ev Hev) Hbuf ltac:(done) E1)
          as (Hs & Hok & Hr). split_and!; [|done|].
        + split; [|done]. unfold entropy_ok. by rewrite (mine_loop_entropy _ _ _ _ _ _ _ _ _ E1).
        + intros Hok1. destruct (Hr Hok1) as (n & ? & _ & ? & ?). by exists n.
      - rewrite (proj1 (mine_event_stops ev _ _ _ _)) in E1 by (done || lia). injection E1 as <- <- <-.
        split_and!; [by apply keeps_refl|by left|done].
      - by rewrite (proj2 (mine_event_stops ev _ _ _ _)) in E1 by done. }
    destruct Hm as (Hk & Hok & Hm). destruct Hok as [->| ->]; injection E as <- <- <-.
    + split; [|done]. eapply keeps_trans; [exact Hk|]. by apply (keeps_stderr w1), Hk.
    + split; [done|]. intros _. destruct (Hm eq_refl) as (n & Hn & -> & Hd). exists [nonce_tag (difficulty a) n].
      split; [done|]. split; [|done]. apply mined_ok; [done|]. apply Hn.
  - destruct (generate_event_id_spec ev buf Hev Hbuf) as (buf' & Eg & _). 
    destruct (len (commitment ev) <? 102400); rewrite Eg in E; injection E as <- <- <-.
    + split; [by apply keeps_refl|]. intros _. exists []. rewrite app_nil_r. split; [done|]. split; [|done].
      destruct Hev. split; try done. apply sha256_digest.
    + split; [|done]. by apply keeps_stderr.
Qed.
End Parts.

(** ** The whole program *)

Section Whole.
Context `{OS} `{Secp256k1Laws} (junk : Z).

Lemma set_message_ok ev t k :
  event_ok ev -> c_string t -> - 2 ^ 31 <= k < 2 ^ 31 -> event_ok (set_message ev t k).
Proof using Type. intros [] ? ?. by split. Qed.

Lemma set_pubkey_ok ev pk : event_ok ev -> Bytes pk /\ length pk = 32%nat -> event_ok (set_pubkey ev pk).
Proof using Type. intros [] ?. by split. Qed.

Lemma set_sig_ok ev s : event_ok ev -> Bytes s /\ length s = 64%nat -> event_ok (set_sig ev s).
Proof using Type. intros [] ?. by split. Qed.

Lemma make_event_ok a ev :
  args_ok a -> event_new ev -> in_width 64 time_now -> event_ok (make_event a ev) /\ tags (make_event a ev) = tags ev.
Proof using Type.
  intros Ha [[] _ _ Hx] Ht. destruct (ok_numbers a Ha) as (Hk & _ & Hc).
  assert (Hcs : c_string []) by by_compute.
  unfold make_event, make_event_from_args. destruct Ha as [_ _ _ Htags Hcont _].
  destruct (args_tags a) as [t|], (args_content a) as [c|]; (split; [split; try done|done]); cbn;
    rewrite ?Hx; try done; by destruct (has a _).
Qed.

(** The event after the encryption, if any. *)
Definition after_dm (a : args) (ev ev1 : nostr_event) : Prop :=
  if has a HAS_ENCRYPT
  then exists t, c_string t /\
    ev1 = set_tags (set_message ev t (if has a HAS_KIND then args_kind a else 4))
            (tags ev ++ [[cs "p"; hex_text (encrypt_to a)]])
  else ev1 = ev.

Lemma after_dm_ok a ev ev1 : args_ok a -> event_ok ev -> after_dm a ev ev1 -> event_ok ev1.
Proof using Type.
  intros Ha Hev Hd. unfold after_dm in Hd. destruct (has a HAS_ENCRYPT); [|by subst].
  destruct Hd as (t & Ht & ->). destruct (ok_numbers a Ha) as (Hk & _). destruct (ok_encrypt_to a Ha) as [Hb Hl].
  apply event_ok_tags; [apply set_message_ok; [done|done|by destruct (has a HAS_KIND)]|].
  apply Forall_app. split; [apply (ok_tags ev Hev)|]. repeat apply Forall_cons_2; try apply Forall_nil_2.
  - by apply cs_c_string; simpl; lia.
  - split; [by apply hex_text_Bytes|]. unfold len. rewrite hex_text_length. lia.
Qed.

Lemma main_dm_returns report `{Reporter report} a k ev w ok ev1 w1 :
  args_ok a -> event_ok ev -> entropy_ok w ->
  (if has a HAS_ENCRYPT then make_encrypted_dm junk report k ev (encrypt_to a) (if has a HAS_KIND then args_kind a else 4)
   else mret (1, ev)) w = (Returned (ok, ev1), w1) ->
  keeps w w1 /\
  (ok = 0 /\ has a HAS_ENCRYPT = true /\ dm_refused k ev (encrypt_to a) w \/ ok = 1 /\ after_dm a ev ev1).
Proof using All.
  intros Ha Hev Hw E. unfold after_dm. destruct (has a HAS_ENCRYPT).
  - destruct (make_dm_returns junk report k ev (encrypt_to a) _ w ok ev1 w1 (ok_encrypt_to a Ha) Hev Hw E) as (Hw1 & Hs & Hok & Hr & Href).
    split; [done|]. destruct Hok as [->| ->]; [left; auto|right]. split; [done|].
    destruct (Hr eq_refl) as (sh & iv & ? & ? & ? & ? & _ & ->). exists (dm_content sh iv (content ev)). split; [|done].
    apply dm_content_c_string; [done|done|apply (ok_content ev Hev)|done].
  - injection E as <- <- <-. split; [by apply keeps_refl|]. by right.
Qed.

(** The signed event, as the settings want it. *)
Record signed (a : args) (k : key) (ev ev1 ev' : nostr_event) (l : list nostr_tag) : Prop := {
  signed_valid : valid_event ev';
  signed_dm : after_dm a ev ev1;
  signed_event : ev' = set_sig (set_id (set_tags (set_pubkey ev1 (key_pubkey k)) (tags ev1 ++ l)) (id ev')) (sig ev');
  signed_tags : if has a HAS_DIFFICULTY && negb (has a HAS_MINE_PUBKEY)
    then difficulty a <= count_leading_zero_bits (id ev') else l = []
}.

Lemma main_signed_returns report `{Reporter report} fuel a k ev w r w' :
  args_ok a -> key_ok k -> event_ok ev -> entropy_ok w -> main_signed junk report fuel a k ev w = (Returned r, w') ->
  stdout_of (log w') = stdout_of (log w) /\
  match r with
  | inl code => code = 0 -> not_encrypted a k ev w w'
  | inr ev' => exists ev1 l, signed a k ev ev1 ev' l
  end.
Proof using All.
  intros Ha Hk Hev Hw E. unfold main_signed in E.
  apply bind_inv in E as ([ok ev1] & w1 & E1 & E).
  destruct (main_dm_returns report a k ev w ok ev1 w1 Ha Hev Hw E1) as ([Hw1 Hs1] & [(-> & Henc & Href)|[-> Hdm]]).
  { injection E as <- <-. split; [|intros _; split; [done|split; [done|by eexists]]]. cbn [log]. unfold stdout_of in *. by rewrite map_app, concat_app, app_nil_r. }
  pose proof (after_dm_ok a ev ev1 Ha Hev Hdm) as Hev1. change (1 =? 0) with false in E. cbv iota zeta in E.
  pose proof (key_ok_bytes k Hk) as Hpk. pose proof (set_pubkey_ok ev1 _ Hev1 Hpk) as Hev2.
  apply bind_inv in E as ([code ev3] & w2 & E2 & E).
  destruct (main_id_keeps fuel a (set_pubkey ev1 (key_pubkey k)) w1 code ev3 w2 Hev2 Hw1 E2) as ([Hw2 Hs2] & Hid).
  destruct (Z.eqb_spec code 0) as [->|Hc]; cbn [negb] in E; [|injection E as <- <-; split; [congruence|done]].
  destruct (Hid eq_refl) as (l & Hl & Hev3 & Hcid & Hpow).
  apply bind_inv in E as ([ok4 ev4] & w3 & E3 & E).
  destruct (sign_event_returns k ev3 w2 ok4 ev4 w3 Hk E3) as (Hlog3 & Hok4 & Hsig).
  destruct Hok4 as [->| ->]; injection E as <- <-.
  { split; [|done]. cbn [log]. unfold stdout_of in *. rewrite map_app, concat_app, Hlog3. cbn. rewrite app_nil_r. congruence. }
  split; [congruence|]. destruct (Hsig eq_refl) as (sg & -> & Hsb & Hsl & Hver).
  exists ev1, l. split; [|done| |done].
  - split; [apply (set_sig_ok ev3 sg Hev3 (conj Hsb Hsl))|]. split; [done|]. cbn [sig id set_sig pubkey].
    replace (pubkey ev3) with (key_pubkey k); [done|]. by rewrite Hl.
  - rewrite Hl at 1. done.
Qed.

Lemma main_event_prints fuel a k ev w w' :
  args_ok a -> key_ok k -> event_ok ev -> entropy_ok w -> main_event junk fuel a k ev w = (Returned 0, w') ->
  (not_encrypted a k ev w w' /\ stdout_of (log w') = stdout_of (log w)) \/
  exists ev1 l ev',
    stdout_of (log w') = stdout_of (log w) ++ event_message ev' (has a HAS_ENVELOPE) /\ signed a k ev ev1 ev' l.
Proof using All.
  intros Ha Hk Hev Hw E. unfold main_event in E. apply bind_inv in E as (r & w1 & E1 & E).
  destruct (main_signed_returns quiet fuel a k ev w r w1 Ha Hk Hev Hw E1) as [Hs1 Hr].
  destruct r as [code|ev']; [injection E as -> <-; left; auto|]. right. destruct Hr as (ev1 & l & Hr).
  pose proof (print_event_spec ev' (has a HAS_ENVELOPE) (proj1 (signed_valid _ _ _ _ _ _ Hr))) as Hp.
  destruct (printable ev'); [rewrite Hp in E|destruct Hp as [out Hp]; rewrite Hp in E].
  2: { injection E as E _. discriminate. }
  injection E as <-. exists ev1, l, ev'. split; [|done].
  cbn [log]. unfold stdout_of in *. rewrite map_app, concat_app, Hs1. cbn. by rewrite app_nil_r.
Qed.
End Whole.

Lemma requested_intro `{OS} `{Secp256k1} (a : args) (ev0 ev ev1 : nostr_event) (k : key) (l : list nostr_tag) :
  tags (make_event a ev0) = tags ev0 -> signed a k (make_event a ev0) ev1 ev l -> requested a ev0 ev.
Proof.
  intros Htags [_ Hdm He Hp].
  assert (Hc : created_at ev = created_at ev1) by exact (f_equal created_at He).
  assert (Hx : explicit_tags ev = explicit_tags ev1) by exact (f_equal explicit_tags He).
  assert (Ht : content ev = content ev1) by exact (f_equal content He).
  assert (Hk : kind ev = kind ev1) by exact (f_equal kind He).
  assert (Hl : tags ev = tags ev1 ++ l) by exact (f_equal tags He). clear He.
  unfold after_dm in Hdm. rewrite Htags in Hdm. set (e := make_event a ev0) in *.
  destruct (has a HAS_ENCRYPT) eqn:Henc.
  - destruct Hdm as (t & _ & E).
    assert (Et : tags ev1 = tags ev0 ++ [[cs "p"; hex_text (encrypt_to a)]]) by exact (f_equal tags E).
    split.
    + rewrite Hc. exact (f_equal created_at E).
    + rewrite Hx. exact (f_equal explicit_tags E).
    + intros; congruence.
    + intros _. rewrite Hk, Hl, Et. split; [exact (f_equal kind E)|].
      apply elem_of_app. left. apply elem_of_app. right. apply list_elem_of_here.
    + exists ([[cs "p"; hex_text (encrypt_to a)]] ++ l). rewrite Hl, Et, <- app_assoc. split; [done|intros; congruence].
    + intros Hm. by rewrite Hm in Hp.
  - subst ev1. split; [done|done|done|intros; congruence| |].
    + exists l. rewrite Hl, Htags. split; [done|]. intros _ Hm. by rewrite Hm in Hp.
    + intros Hm. by rewrite Hm in Hp.
Qed.


#[local] Opaque usage parse_args main_key main_signed main_event.

(** A run of [main] that returns 0 went through all its parts. *)
Lemma main_steps `{OS} `{Secp256k1} junk fuel name argv w w' :
  2 <= len (name :: argv) -> main junk fuel (name :: argv) w = (Returned 0, w') ->
  exists ok w1 w2 a ev0 w3 k w4, init_secp_context w = (Returned ok, w1) /\
    try_subcommand (name :: argv) w1 = (Returned tt, w2) /\
    parse_args (name :: argv) args_zero event_zero w2 = (Returned (1, a, ev0), w3) /\
    main_key junk quiet fuel a w3 = (Returned (0, k), w4) /\
    main_event junk fuel a k (make_event a ev0) w4 = (Returned 0, w').
Proof.
  intros Hargc Hmain. unfold main, when in Hmain. destruct (Z.ltb_spec (len (name :: argv)) 2); [lia|].
  rewrite ret_bind in Hmain. apply bind_inv in Hmain as (ok & w1 & E1 & E).
  destruct (ok =? 0); [by injection E|].
  apply bind_inv in E as ([] & w2 & E2 & E).
  apply bind_inv in E as ([[ok3 a] ev0] & w3 & E3 & E).
  assert (ok3 = 0 \/ ok3 = 1) as [->| ->] by by eapply parse_args_flag.
  { exfalso. revert E. change (0 =? 0) with true. cbv iota. apply (exits_not 0), usage_exits. }
  apply bind_inv in E as ([code k] & w4 & E4 & E). 
  destruct (Z.eqb_spec code 0) as [->|Hc]; cbn [negb] in E; [|injection E as Ec _; congruence].
  by exists ok, w1, w2, a, ev0, w3, k, w4.
Qed.

(** What a run with status 0 printed. *)
Lemma main_prints_spec `{OS} `{Secp256k1Laws} (junk : Z) (fuel : nat) (argv : list (list Z)) (w w' : world)
    (Htime : in_width 64 time_now) (Hargv : Forall c_string argv) (Hargc : 2 <= len argv) (Hw : entropy_ok w)
    (Hmain : main junk fuel argv w = (Returned 0, w')) :
  exists a ev0 k w1 w2 w3, parse_args argv args_zero event_zero w1 = (Returned (1, a, ev0), w2) /\
    main_key junk quiet fuel a w2 = (Returned (0, k), w3) /\
    ((not_encrypted a k (make_event a ev0) w3 w' /\ stdout_of (log w') = stdout_of (log w)) \/
     exists ev, stdout_of (log w') = stdout_of (log w) ++ event_message ev (has a HAS_ENVELOPE) /\
       valid_event ev /\ pubkey ev = key_pubkey k /\ requested a ev0 ev).
Proof.
  destruct argv as [|name argv]; [exfalso; clear - Hargc; done|].
  destruct (main_steps junk fuel name argv w w' Hargc Hmain) as (ok & w1 & w2 & a & ev0 & w3 & k & w4 & E1 & E2 & E3 & E4 & E5).
  apply init_keeps in E1 as [Hw1 Hs1]; [|done]. apply try_subcommand_keeps in E2 as [Hw2 Hs2]; [|done].
  apply Forall_cons in Hargv as [_ Hargv].
  exists a, ev0, k, w2, w3, w4. split; [done|]. split; [done|].
  destruct (parse_args_keeps _ _ _ _ _ _ _ _ args_zero_ok event_zero_new Hargv E3) as (Ha & Hev0 & _).
  apply parse_args_spec in E3 as (_ & c' & _ & _ & _ & _ & _ & ->).
  apply (main_key_keeps junk quiet) in E4 as ([Hw4 Hs4] & Hk); [|done]. cbn [log] in Hs4.
  destruct (make_event_ok a ev0 Ha Hev0 Htime) as [Hev Htags].
  destruct (main_event_prints junk fuel a k _ _ _ Ha (Hk eq_refl) Hev Hw4 E5) as [[? Hs]|(ev1 & l & ev & Hs & Hv)].
  - left. split; [done|]. congruence.
  - right. exists ev. split; [congruence|]. split; [by eapply signed_valid|].
    split; [exact (f_equal pubkey (signed_event _ _ _ _ _ _ Hv))|by eapply requested_intro].
Qed.

(** ** Properties *)

(** C1: whatever the arguments, the random bytes and the signature library do
    (within its documentation): when [main] returns 0, the arguments were
    accepted and a key was read or generated, and standard output received
    exactly one event of that key with the requested time, tags, content, kind
    and difficulty, whose signature verifies and whose id is the SHA-256 digest
    of its NIP-01 serialisation for a time of at most 15 digits (for a longer
    time, of the text whose time is cut to 15 digits); or, when encryption was
    asked for and refused for one of the causes of [dm_refused], standard output
    received nothing and standard error ends with the message of the failure. *)
Theorem main_prints_valid_event `{OS} `{Secp256k1Laws} (junk : Z) (fuel : nat) (argv : list (list Z)) (w w' : world)
    (Htime : in_width 64 time_now) (Hargv : Forall c_string argv) (Hargc : 2 <= len argv) (Hw : entropy_ok w)
    (Hmain : main junk fuel argv w = (Returned 0, w')) :
  exists a ev0 k w1 w2 w3, parse_args argv args_zero event_zero w1 = (Returned (1, a, ev0), w2) /\
    main_key junk quiet fuel a w2 = (Returned (0, k), w3) /\
    ((not_encrypted a k (make_event a ev0) w3 w' /\ stdout_of (log w') = stdout_of (log w)) \/
     exists ev, stdout_of (log w') = stdout_of (log w) ++ event_message ev (has a HAS_ENVELOPE) /\
       valid_event ev /\ pubkey ev = key_pubkey k /\ requested a ev0 ev).
Proof. by eapply main_prints_spec. Qed.

#[local] Existing Instance Toy.lib.
#[local] Existing Instance Toy.lib_laws.
#[local] Existing Instance test_os.

Definition run_argv : list (list Z) :=
  [cs "gnostr"; cs "--sec"; hex_text alice; cs "--envelope"; cs "-t"; cs "x"; cs "--content"; cs "hello"].
Definition run_world : world := World 0 [Some (repeat 1 32); Some (repeat 2 32)] [].

Lemma main_prints_valid_event_witness :
  let w' := (main 0 3 run_argv run_world).2 in
  exists a ev0 k w1 w2 w3, parse_args run_argv args_zero event_zero w1 = (Returned (1, a, ev0), w2) /\
    main_key 0 quiet 3 a w2 = (Returned (0, k), w3) /\
    ((not_encrypted a k (make_event a ev0) w3 w' /\ stdout_of (log w') = []) \/
     exists ev, stdout_of (log w') = [] ++ event_message ev (has a HAS_ENVELOPE) /\
       valid_event ev /\ pubkey ev = key_pubkey k /\ requested a ev0 ev).
Proof.
  apply (main_prints_valid_event 0 3 run_argv run_world (main 0 3 run_argv run_world).2);
    [by_compute|by_compute|vm_compute; discriminate| |vm_compute; reflexivity].
  repeat apply Forall_cons_2; [cbn [from_option]; by_compute..|constructor].
Defined.
