(* ===== verification/Xor.v ===== *)
(** * The xor utility ([sources/gnostr-xor.c])

    Its own options and [main]; the rest of the file repeats functions of
    [gnostr.c], of which only [try_subcommand] is called.  The function
    [hash_xor] is never called.  Also [include/xor_hash.h], which the file
    includes and does not call either. *)
From S2P Require Import Prelude Event Process Args Gnostr.

Section Xor.
Context `{OS}.

Definition about {A} : proc A := _ ← line "gnostr-xor: the gnostr xor utility."; exit 0.

Definition version {A} : proc A := _ ← printf (VERSION ++ [10]); exit 0.

Definition usage {A} : proc A :=
  _ ← line "usage: gnostr-xor [OPTIONS]";
  _ ← line "";
  _ ← line "  XOR OPTIONS";
  _ ← line "";
  _ ← line "      --help                          ";
  _ ← line "      --about                         ";
  _ ← line "      --xor <value> <value>           return xor of <value>";
  _ ← line "";
  exit 0.

(** [argv] with the name of the program.  The loop is never entered twice: each
    of its branches ends the program. *)
Definition parse_args (argv : list (list Z)) (ev : nostr_event) (a : args) : proc (Z * args * nostr_event) :=
  match tail argv with
  | [] => mret (1, a, ev)
  | arg :: rest =>
      _ ← when (bool_decide (arg = cs "--help") || bool_decide (arg = cs "-h")) usage;
      _ ← when (bool_decide (arg = cs "--about") || bool_decide (arg = cs "-a")) about;
      _ ← when (bool_decide (arg = cs "--hash")) (openssl_hash (head rest));
      _ ← when (bool_decide (arg = cs "--xor")) (openssl_hash (Some arg));
      exit 0
  end.

Definition main (argv : list (list Z)) : proc Z :=
  _ ← when (len argv <? 2) usage;
  _ ← try_subcommand argv;
  '(ok, _, _) ← parse_args argv event_zero args_zero;
  if ok =? 0 then _ ← @usage unit; mret 10 else mret 0.

(** [xor_hash] of [include/xor_hash.h]: [openssl_hash] without the settings. *)
Definition xor_hash (argv : option (list Z)) : proc unit := openssl_hash argv.

(** [--xor] does not compute anything from its operands: whatever they are,
    the program hands the shell the digest of its own option and ends. *)
Theorem xor_ignores_operands (program : list Z) (operands : list (list Z)) (w : world) :
  main (program :: cs "--xor" :: operands) w =
  (Exited 0, World (errno w) (entropy w) (log w ++ [System (cs "echo --xor|" ++ dgst)])).
Proof.
  unfold main, parse_args. rewrite !len_cons.
  destruct (Z.ltb_spec (len operands + 1 + 1) 2); [pose proof (len_nonneg operands); lia|].
  cbn [when]. rewrite ret_bind. unfold try_subcommand. cbn [nth].
  change ((1 <=? len (cs "--xor")) && negb ((cs "--xor").[0] =? 45)) with false. cbn [when]. rewrite ret_bind.
  cbn [tail].
  change (bool_decide (cs "--xor" = cs "--help")) with false.
  change (bool_decide (cs "--xor" = cs "-h")) with false.
  change (bool_decide (cs "--xor" = cs "--about")) with false.
  change (bool_decide (cs "--xor" = cs "-a")) with false.
  change (bool_decide (cs "--xor" = cs "--hash")) with false.
  change (bool_decide (cs "--xor" = cs "--xor")) with true.
  cbn [orb when].
  unfold mret, prog_ret, mbind, prog_bind. rewrite openssl_hash_runs. done.
Qed.
End Xor.
