(* ===== verification/Nostril.v ===== *)
(** * The nostril program ([src/nostril/nostril.c], [src/nostril/nostri.c])

    The program gnostr grew from, kept in the repository with its functions in a
    library, [nostri.c], for the desktop client.  The library repeats the
    functions of [gnostr.c] for events, keys, mining and encrypted messages
    (modelled in [Event], [Keys], [Mining], [Dm], and [Gnostr] for the steps of
    [main] up to the signature) except [print_event], and shows the secrets it
    makes; it adds [make_message].  The program has its own option loop and its
    own [main].

    The theorems compare both: what [print_event] prints when its arrays are
    large enough, that the option loops agree on the common options and that
    what nostril accepts gnostr accepts, and from there that nostril prints
    valid events. *)
From S2P Require Import Prelude Hex Cursor Event Process Args Keys Mining Dm Gnostr.

Section Nostril.
Context `{OS} `{Secp256k1} (junk : Z).

(** ** [nostril.c] *)

Definition usage {A} : proc A :=
  _ ← line "usage: nostril [OPTIONS]";
  _ ← line "";
  _ ← line "  OPTIONS";
  _ ← line "";
  _ ← line "      --content <string>              the content of the note";
  _ ← line "      --dm <hex pubkey>               make an encrypted dm to said pubkey. sets kind and tags.";
  _ ← printf (cs "      --envelope                      wrap in [" ++ [quote] ++ cs "EVENT" ++ [quote] ++
              cs ",...] for easy relaying" ++ [10]);
  _ ← line "      --kind <number>                 set kind";
  _ ← line "      --created-at <unix timestamp>   set a specific created-at time";
  _ ← line "      --sec <hex seckey>              set the secret key for signing, otherwise one will be randomly generated";
  _ ← line "      --pow <difficulty>              number of leading 0 bits of the id to mine";
  _ ← line "      --mine-pubkey                   mine a pubkey instead of id";
  _ ← line "      --tag <key> <value>             add a tag";
  _ ← line "      -e <event_id>                   shorthand for --tag e <event_id>";
  _ ← line "      -p <pubkey>                     shorthand for --tag p <pubkey>";
  _ ← line "      -t <hashtag>                    shorthand for --tag t <hashtag>";
  exit 1.

Definition try_subcommand (argv : list (list Z)) : proc unit :=
  let sub := nth 1 argv [] in
  when ((1 <=? len sub) && negb (sub.[0] =? 45)) (execvp (snprintf 127 (cs "nostril-" ++ sub)) (tail argv)).

Fixpoint parse_loop (has_added_tags : bool) (args : args) (ev : nostr_event) (argv : list (list Z))
    : proc (Z * Args.args * nostr_event) :=
  match argv with
  | [] => mret (1, args, ev)
  | arg :: argv =>
      _ ← when (streq arg "--help") usage;
      match argv with
      | [] => _ ← eprintf (cs "expected argument: '" ++ arg ++ cs "'" ++ [10]); mret (0, args, ev)
      | next :: rest =>
          if streq arg "--sec" then parse_loop has_added_tags (set_sec args next) ev rest
          else if streq arg "--created-at" then
            '(ok, t) ← parse_num next;
            let args := set_created_at args t in
            if ok =? 0 then _ ← eprintf (cs "created-at must be a unix timestamp" ++ [10]); mret (0, args, ev)
            else parse_loop has_added_tags (set_flag args HAS_CREATED_AT) ev rest
          else if streq arg "--kind" then
            '(ok, n) ← parse_num next;
            if ok =? 0 then
              _ ← eprintf (cs "kind should be a number, got '" ++ next ++ cs "'" ++ [10]); mret (0, args, ev)
            else parse_loop has_added_tags (set_flag (set_kind args (to_signed 32 n)) HAS_KIND) ev rest
          else if streq arg "--envelope" then parse_loop has_added_tags (set_flag args HAS_ENVELOPE) ev argv
          else if streq arg "--tags" then
            if has args HAS_DIFFICULTY then
              _ ← eprintf (cs "can't combine --tags and --pow (yet)" ++ [10]); mret (0, args, ev)
            else if has_added_tags then
              _ ← eprintf (cs "can't combine --tags and --tag (yet)"); mret (0, args, ev)
            else parse_loop has_added_tags (set_explicit args next) ev rest
          else if streq arg "-e" then
            '(ok, ev) ← lift (nostr_add_tag ev (cs "e") next);
            if ok =? 0 then _ ← eprintf (cs "couldn't add e tag"); mret (0, args, ev)
            else parse_loop true args ev rest
          else if streq arg "-p" then
            '(ok, ev) ← lift (nostr_add_tag ev (cs "p") next);
            if ok =? 0 then _ ← eprintf (cs "couldn't add p tag"); mret (0, args, ev)
            else parse_loop true args ev rest
          else if streq arg "-t" then
            '(ok, ev) ← lift (nostr_add_tag ev (cs "t") next);
            if ok =? 0 then _ ← eprintf (cs "couldn't add t tag"); mret (0, args, ev)
            else parse_loop true args ev rest
          else if streq arg "--tag" then
            if bool_decide (is_Some (args_tags args)) then
              _ ← eprintf (cs "can't combine --tag and --tags (yet)"); mret (0, args, ev)
            else
              match rest with
              | [] => _ ← eprintf (cs "expected two arguments to --tag" ++ [10]); mret (0, args, ev)
              | arg2 :: rest =>
                  '(ok, ev) ← lift (nostr_add_tag ev next arg2);
                  if ok =? 0 then
                    _ ← eprintf (cs "couldn't add tag '" ++ next ++ cs "' '" ++ arg2 ++ cs "'" ++ [10]);
                    mret (0, args, ev)
                  else parse_loop true args ev rest
              end
          else if streq arg "--mine-pubkey" then parse_loop has_added_tags (set_flag args HAS_MINE_PUBKEY) ev argv
          else if streq arg "--pow" then
            if bool_decide (is_Some (args_tags args)) then
              _ ← eprintf (cs "can't combine --tags and --pow (yet)" ++ [10]); mret (0, args, ev)
            else
              '(ok, n) ← parse_num next;
              if ok =? 0 then
                _ ← eprintf (cs "could not parse difficulty as number: '" ++ next ++ cs "'" ++ [10]);
                mret (0, args, ev)
              else parse_loop has_added_tags (set_flag (set_difficulty args (to_signed 32 n)) HAS_DIFFICULTY) ev rest
          else if streq arg "--dm" then
            let '(ok, to) := hex_decode next (encrypt_to args) in
            let args := set_encrypt_to args to in
            if ok =? 0 then _ ← eprintf (cs "could not decode encrypt-to pubkey"); mret (0, args, ev)
            else parse_loop has_added_tags (set_flag args HAS_ENCRYPT) ev rest
          else if streq arg "--content" then parse_loop has_added_tags (set_content args next) ev rest
          else
            _ ← eprintf (cs "unexpected argument '" ++ arg ++ cs "'" ++ [10]); mret (0, args, ev)
      end
  end.

(** [argv] with the program's name. *)
Definition parse_args (argv : list (list Z)) (args : args) (ev : nostr_event)
    : proc (Z * Args.args * nostr_event) :=
  '(ok, args, ev) ← parse_loop false args ev (tail argv);
  if ok =? 0 then mret (0, args, ev)
  else
    let args := match args_content args with None => set_content args [] | Some _ => args end in
    mret (1, args, ev).

(** ** [nostri.c] *)

(** After a shared secret is computed. *)
Definition print_shared (shared_secret : list Z) : proc unit := _ ← eprintf (cs "shared_secret "); print_hex shared_secret.

#[export] Instance shared_reporter : Reporter print_shared.
Proof.
  refine {| shown := fun s => [Stderr (cs "shared_secret "); Stderr (hex_text s); Stderr [10]] |}; [|done].
  intros s [e en l]. unfold print_shared, print_hex, eprintf, emit, mbind, prog_bind. cbn. by rewrite <- !app_assoc.
Defined.

(** [sprintf] into [str] and [strcat] to [out]. *)
Definition piece (out text : list Z) : option (list Z) :=
  if (len text + 1 <=? 1024) && (len out + len text + 1 <=? 102400) then Some (out ++ text) else None.

(** The return value and the text of the event; [None] when a text overflows
    its array. *)
Definition print_text (ev : nostr_event) : option (Z * list Z) :=
  id_ ← hex_string (id ev);
  pk ← hex_string (pubkey ev);
  sg ← hex_string (sig ev);
  let buf := repeat 0 (Z.to_nat 102400) in
  '(ok, s) ← cursor_push_tags ev (make_cursor 0 (len buf), buf);
  if (ok : bool) then
    out ← piece [] (cs "[" ++ [quote] ++ cs "EVENT" ++ [quote] ++ cs ",");
    out ← piece out (cs "{" ++ [quote] ++ cs "id" ++ [quote] ++ cs ": " ++ [quote] ++ id_ ++ [quote] ++ cs ",");
    out ← piece out ([quote] ++ cs "pubkey" ++ [quote] ++ cs ": " ++ [quote] ++ pk ++ [quote] ++ cs ",");
    out ← piece out ([quote] ++ cs "created_at" ++ [quote] ++ cs ": " ++ fmt_u64 (created_at ev) ++ cs ",");
    out ← piece out ([quote] ++ cs "kind" ++ [quote] ++ cs ": " ++ fmt_int (kind ev) ++ cs ",");
    out ← piece out ([quote] ++ cs "tags" ++ [quote] ++ cs ": " ++ cursor_text s ++ cs ",");
    let s := (reset_cursor s.1, s.2) in
    '(ok, s) ← cursor_push_jsonstr (content ev) s;
    if (ok : bool) then
      out ← piece out ([quote] ++ cs "content" ++ [quote] ++ cs ": " ++ cursor_text s ++ cs ",");
      out ← piece out ([quote] ++ cs "sig" ++ [quote] ++ cs ": " ++ [quote] ++ sg ++ [quote] ++ cs "}");
      out ← piece out (cs "]" ++ [10]);
      Some (1, out)
    else Some (0, out)
  else Some (0, []).

(** The text goes to standard error and to the caller's buffer. *)
Definition print_event (ev : nostr_event) : proc (Z * list Z) :=
  '(ok, out) ← lift (print_text ev);
  if ok =? 0 then mret (0, []) else _ ← eprintf out; mret (1, out).

(** From the key to the text: the common end of [make_message] and [main]. *)
Definition finish (fuel : nat) (a : args) (k : key) (ev : nostr_event) : proc (Z * option (list Z)) :=
  r ← main_signed junk print_shared fuel a k ev;
  match r with
  | inl code => mret (code, None)
  | inr ev =>
      '(ok, json) ← print_event ev;
      if ok =? 0 then _ ← eprintf (cs "buffer too small" ++ [10]); mret (88, None) else mret (0, Some json)
  end.

(** The exit code, and the text when the caller's buffer is written. *)
Definition make_message (fuel : nat) (a : args) (ev : nostr_event) : proc (Z * option (list Z)) :=
  ok ← init_secp_context;
  if ok =? 0 then mret (2, None)
  else
    let a := set_flag a HAS_ENVELOPE in
    let ev := make_event a ev in
    '(code, k) ← main_key junk print_hex fuel a;
    if negb (code =? 0) then mret (code, None) else finish fuel a k ev.

Definition main (fuel : nat) (argv : list (list Z)) : proc Z :=
  _ ← when (len argv <? 2) usage;
  ok ← init_secp_context;
  if ok =? 0 then mret 2
  else
    _ ← try_subcommand argv;
    '(ok, a, ev) ← parse_args argv args_zero event_zero;
    if ok =? 0 then _ ← @usage unit; mret 10
    else
      let ev := make_event a ev in
      '(code, k) ← main_key junk print_hex fuel a;
      if negb (code =? 0) then mret code
      else '(code, json) ← finish fuel a k ev; _ ← match json with Some json => eprintf json | None => mret tt end; mret code.
End Nostril.

(** ** The text of an event *)

Lemma piece_spec out text :
  len out <= 100000 -> piece out text = if len text <=? 1023 then Some (out ++ text) else None.
Proof.
  intros Ho. pose proof (len_nonneg text). unfold piece.
  destruct (Z.leb_spec (len text) 1023), (Z.leb_spec (len text + 1) 1024); try lia; [|done].
  by destruct (Z.leb_spec (len out + len text + 1) 102400); [|lia].
Qed.

Lemma fmt_u64_length n : len (fmt_u64 n) <= 20.
Proof. unfold fmt_u64, len. pose proof (digits_length 20 n). lia. Qed.

Lemma hex_length l : len (hex_text l) = 2 * len l.
Proof. unfold len. rewrite hex_text_length. lia. Qed.

(** The length of a text made of literals and measured parts. *)
Local Ltac text_len :=
  rewrite ?len_app, ?hex_length;
  repeat match goal with
  | |- context [len (cs ?s)] => let v := eval vm_compute in (len (cs s)) in change (len (cs s)) with v
  | |- context [len [?c]] => change (len [c]) with 1
  | |- context [len []] => change (len []) with 0
  end.

(** A piece that fits, in front of the rest of the text; [o] is the text so far. *)
Local Ltac append o :=
  match goal with
  | |- context [piece ?x ?t] =>
      let Hp := fresh in let Hl := fresh in
      assert (Hp : piece x t = Some (x ++ t) /\ len (x ++ t) <= len x + 1023);
      [assert (Hl : len t <= 1023) by (text_len; lia);
       rewrite piece_spec by (text_len; lia); destruct (Z.leb_spec (len t) 1023); [rewrite (len_app x t); split; [done|lia]|lia]
      |destruct Hp as [-> Hp]; rewrite bind_some; set (o := x ++ t) in *]
  end.

(** The text of an event in nostril: what gnostr prints with an envelope, when
    the texts of the tags and of the content fit [str]. *)
Lemma print_text_spec ev :
  event_ok ev ->
  if 102400 <? len (json_tags ev) + tags_k ev then print_text ev = Some (0, [])
  else if 1014 <? len (json_tags ev) then print_text ev = None
  else if 102400 <? len (json_string (content ev)) then exists out, print_text ev = Some (0, out)
  else if 1011 <? len (json_string (content ev)) then print_text ev = None
  else print_text ev = Some (1, event_message ev true).
Proof.
  intros Hev. destruct (ok_id ev Hev) as [Hi1 Hi2], (ok_pubkey ev Hev) as [Hp1 Hp2], (ok_sig ev Hev) as [Hs1 Hs2].
  assert (Hli : len (id ev) = 32) by (unfold len; lia). assert (Hlp : len (pubkey ev) = 32) by (unfold len; lia).
  assert (Hls : len (sig ev) = 64) by (unfold len; lia).
  unfold print_text. rewrite !hex_string_text, !bind_some by (done || lia). cbv zeta.
  set (buf := repeat 0 (Z.to_nat 102400)). assert (Hbuf : len buf = 102400) by (unfold buf; len_lia).
  clearbody buf. pose proof (tags_k_range ev). pose proof (len_nonneg (json_tags ev)).
  pose proof (len_nonneg (json_string (content ev))).
  pose proof (run_fresh _ _ _ buf (Appends_tags ev Hev) ltac:(lia)) as HT. rewrite Hbuf in HT |- *.
  destruct (Z.ltb_spec 102400 (len (json_tags ev) + tags_k ev)) as [Hf|Hf];
    destruct (Z.leb_spec (len (json_tags ev) + tags_k ev) 102400); try lia.
  { destruct HT as [s' ->]. rewrite bind_some. done. }
  rewrite HT, bind_some. set (buf2 := json_tags ev ++ _) in *.
  assert (Hbuf2 : len buf2 = 102400) by (unfold buf2; len_lia).
  pose proof (cursor_text_fresh (json_tags ev) buf ltac:(lia)) as T1. fold buf2 in T1. rewrite Hbuf in T1. rewrite T1.
  unfold reset_cursor, set_p. cbn [fst snd start end_].
  pose proof (fmt_u64_length (created_at ev)). assert (len (fmt_int (kind ev)) <= 11) by (unfold len; pose proof (fmt_int_length (kind ev)); lia).
  append o1. change (len []) with 0 in *. append o2. append o3. append o4. append o5.
  rewrite piece_spec by lia. text_len.
  destruct (Z.ltb_spec 1014 (len (json_tags ev))) as [Hg|Hg];
    destruct (Z.leb_spec (1 + (4 + (1 + (2 + (len (json_tags ev) + 1))))) 1023); try lia; [done|].
  rewrite bind_some. set (o6 := o5 ++ _). assert (len o6 <= len o5 + 1023) by (unfold o6; text_len; lia).
  pose proof (run_fresh _ _ _ buf2 (Appends_jsonstr (content ev) (ok_content ev Hev)) ltac:(lia)) as HC.
  unfold make_cursor in HC. rewrite Hbuf2, Z.add_0_r in HC.
  destruct (Z.ltb_spec 102400 (len (json_string (content ev)))) as [Hg'|Hg'];
    destruct (Z.leb_spec (len (json_string (content ev))) 102400); try lia.
  { destruct HC as [s' ->]. rewrite bind_some. eauto. }
  rewrite HC, bind_some.
  pose proof (cursor_text_fresh (json_string (content ev)) buf2 ltac:(lia)) as T2. rewrite Hbuf2 in T2. rewrite T2.
  rewrite piece_spec by lia. text_len.
  destruct (Z.ltb_spec 1011 (len (json_string (content ev)))) as [Hh|Hh];
    destruct (Z.leb_spec (1 + (7 + (1 + (2 + (len (json_string (content ev)) + 1))))) 1023); try lia; [done|].
  rewrite bind_some. set (o7 := o6 ++ _). assert (len o7 <= len o6 + 1023) by (unfold o7; text_len; lia).
  append o8. append o9.
  unfold o9, o8, o7, o6, o5, o4, o3, o2, o1, event_message, event_json, json_field, quoted.
  by rewrite <- !app_assoc.
Qed.

(** Nostril prints the event as gnostr does with [--envelope], on standard
    error, when the text of the tags has at most 1014 characters and that of the
    content at most 1011; beyond, it writes outside an array, up to the sizes
    from which on its cursor refuses the tags or the content. *)
Theorem nostril_print_exact (ev : nostr_event) (w : world) :
  event_ok ev ->
  let tags_ := len (json_tags ev) in
  let content_ := len (json_string (content ev)) in
  print_event ev w =
  if 102400 <? tags_ + tags_k ev then (Returned (0, []), w)
  else if 1014 <? tags_ then (Undefined, w)
  else if 102400 <? content_ then (Returned (0, []), w)
  else if 1011 <? content_ then (Undefined, w)
  else (Returned (1, event_message ev true),
        World (errno w) (entropy w) (log w ++ [Stderr (event_message ev true)])).
Proof.
  intros Hev. cbv zeta. pose proof (print_text_spec ev Hev) as E. revert E. unfold print_event.
  destruct (102400 <? _ + _); [by intros ->|]. destruct (1014 <? _); [by intros ->|].
  destruct (102400 <? _); [by intros [out ->]|]. destruct (1011 <? _); [by intros ->|]. by intros ->.
Qed.

Lemma nostril_print_exact_witness :
  let w := World 0 [] [] in
  event_ok sample_event /\
  print_event sample_event w =
  (Returned (1, event_message sample_event true), World 0 [] [Stderr (event_message sample_event true)]).
Proof. split; [apply sample_event_ok|]. apply (nostril_print_exact sample_event (World 0 [] []) sample_event_ok). Defined.

(** ** The common options *)

Section Parsing.
Context `{OS}.

(** The words that are options of gnostr only, and the one that ends both
    programs with different texts and codes. *)
Definition gnostr_only : list (list Z) :=
  [cs "--help"; cs "-h"; cs "--version"; cs "-v"; cs "--about"; cs "-a"; cs "--hash"; cs "-s"].

Definition common (argv : list (list Z)) : Prop := Forall (fun arg => arg ∉ gnostr_only) argv.

Lemma streq_only arg s : arg ∉ gnostr_only -> cs s ∈ gnostr_only -> streq arg s = false.
Proof. intros Ha Hs. unfold streq. apply bool_decide_eq_false. by intros ->. Qed.

(** The loop of nostril on a common argument is that of gnostr. *)
Lemma parse_loop_common n : forall argv h a ev w,
  (length argv <= n)%nat -> common argv ->
  parse_loop h a ev argv w = Args.parse_loop h a ev argv w.
Proof.
  induction n as [|n IH]; intros argv h a ev w Hn Hc; [by destruct argv; [|cbn in Hn; lia]|].
  destruct argv as [|arg argv]; [done|]. inversion Hc as [|? ? Harg Hc']; subst. cbn [length] in Hn.
  cbn [parse_loop Args.parse_loop].
  assert (Ho : forall s, bool_decide (cs s ∈ gnostr_only) = true -> streq arg s = false)
    by (intros s Hs%bool_decide_eq_true; by apply streq_only).
  rewrite (Ho "--help"%string), (Ho "-h"%string), (Ho "--version"%string), (Ho "-v"%string),
    (Ho "--about"%string), (Ho "-a"%string), (Ho "--hash"%string), (Ho "-s"%string) by (vm_compute; done).
  rewrite orb_false_r. cbn [orb when]. rewrite !ret_bind.
  destruct argv as [|next rest]; [done|]. inversion Hc' as [|? ? _ Hc'']; subst. cbn [length] in Hn.
  assert (Hnext : forall h a ev w, parse_loop h a ev (next :: rest) w = Args.parse_loop h a ev (next :: rest) w)
    by (intros; apply IH; [cbn [length]; lia|done]).
  assert (Hrest : forall h a ev w, parse_loop h a ev rest w = Args.parse_loop h a ev rest w)
    by (intros; apply IH; [lia|done]).
  assert (Htag : forall h a ev w arg2 rest2, rest = arg2 :: rest2 ->
    parse_loop h a ev rest2 w = Args.parse_loop h a ev rest2 w).
  { intros h' a' ev' w' arg2 rest2 ->. apply IH; [cbn in Hn; lia|by inversion Hc'']. }
  clear IH Ho. unfold mbind, prog_bind.
  repeat (case_match; try reflexivity); first [apply Hnext | apply Hrest | by eapply Htag].
Qed.

(** On command lines without the words that only gnostr knows, both programs
    parse alike: same result, same settings and event, same messages. *)
Theorem parse_args_common (argv : list (list Z)) (a : args) (ev : nostr_event) (w : world) :
  common (tail argv) -> parse_args argv a ev w = Args.parse_args argv a ev w.
Proof.
  intros Hc. unfold parse_args, Args.parse_args, mbind, prog_bind.
  by rewrite (parse_loop_common (length (tail argv)) (tail argv)).
Qed.
End Parsing.

Lemma parse_args_common_witness :
  let argv := [cs "nostril"; cs "--kind"; cs "7"; cs "--tag"; cs "e"; cs "00"; cs "--content"; cs "+"] in
  common (tail argv) /\
  @parse_args test_os argv args_zero event_zero (World 0 [] []) =
  @Args.parse_args test_os argv args_zero event_zero (World 0 [] []).
Proof.
  assert (Hc : common (tail [cs "nostril"; cs "--kind"; cs "7"; cs "--tag"; cs "e"; cs "00"; cs "--content"; cs "+"]))
    by (unfold common; by_compute).
  split; [exact Hc|]. by apply (@parse_args_common test_os).
Defined.

(** ** Whole runs *)

Section Accepts.
Context `{OS}.

(** What the first parse accepts, the second accepts with the same result. *)
Definition accepted_too (r1 r2 : outcome (Z * args * nostr_event) * world) : Prop :=
  forall ok a ev w, ok <> 0 -> r1 = (Returned (ok, a, ev), w) -> r2 = (Returned (ok, a, ev), w).

Lemma accepted_refl r : accepted_too r r.
Proof. by intros ????. Qed.

(** The loop of nostril accepts no word that only gnostr knows. *)
Lemma gnostr_only_refused h a ev arg argv w r : arg ∈ gnostr_only -> accepted_too (parse_loop h a ev (arg :: argv) w) r.
Proof.
  intros Harg ok a' ev' w' Hok E. exfalso. revert E. cbn [parse_loop]. rewrite when_bind.
  assert (Ho : forall s, bool_decide (cs s ∉ gnostr_only) = true -> streq arg s = false).
  { intros s Hs%bool_decide_eq_true. unfold streq. apply bool_decide_eq_false. by intros ->. }
  destruct (streq arg "--help").
  { apply (exits_not 1). unfold usage, line. repeat apply exits_printf. apply exits_exit. }
  destruct argv as [|next rest]; [intros E; injection E; intros; by destruct Hok|].
  rewrite (Ho "--sec"%string), (Ho "--created-at"%string), (Ho "--kind"%string), (Ho "--envelope"%string), (Ho "--tags"%string),
    (Ho "-e"%string), (Ho "-p"%string), (Ho "-t"%string), (Ho "--tag"%string), (Ho "--mine-pubkey"%string), (Ho "--pow"%string),
    (Ho "--dm"%string), (Ho "--content"%string) by (vm_compute; reflexivity).
  intros E. injection E. intros. by destruct Hok.
Qed.

Lemma parse_loop_accepts n : forall argv h a ev w,
  (length argv <= n)%nat -> accepted_too (parse_loop h a ev argv w) (Args.parse_loop h a ev argv w).
Proof.
  induction n as [|n IH]; intros argv h a ev w Hn; [destruct argv; [by intros ????|cbn in Hn; lia]|].
  destruct argv as [|arg argv]; [by intros ????|]. cbn [length] in Hn.
  destruct (decide (arg ∈ gnostr_only)) as [Harg|Harg]; [by apply gnostr_only_refused|].
  cbn [parse_loop Args.parse_loop].
  assert (Ho : forall s, bool_decide (cs s ∈ gnostr_only) = true -> streq arg s = false)
    by (intros s Hs%bool_decide_eq_true; by apply streq_only).
  rewrite (Ho "--help"%string), (Ho "-h"%string), (Ho "--version"%string), (Ho "-v"%string),
    (Ho "--about"%string), (Ho "-a"%string), (Ho "--hash"%string), (Ho "-s"%string) by (vm_compute; done).
  rewrite orb_false_r. cbn [orb when]. rewrite !ret_bind.
  destruct argv as [|next rest]; [exact (accepted_refl _)|]. cbn [length] in Hn.
  assert (Hnext : forall h a ev w, accepted_too (parse_loop h a ev (next :: rest) w) (Args.parse_loop h a ev (next :: rest) w))
    by (intros; apply IH; cbn [length]; lia).
  assert (Hrest : forall h a ev w, accepted_too (parse_loop h a ev rest w) (Args.parse_loop h a ev rest w))
    by (intros; apply IH; lia).
  assert (Htag : forall h a ev w arg2 rest2, rest = arg2 :: rest2 ->
    accepted_too (parse_loop h a ev rest2 w) (Args.parse_loop h a ev rest2 w)).
  { intros h' a' ev' w' arg2 rest2 ->. apply IH. cbn in Hn. lia. }
  clear IH Ho. unfold mbind, prog_bind.
  repeat lazymatch goal with
  | |- accepted_too ?x ?x => apply accepted_refl
  | |- accepted_too (parse_loop _ _ _ _ _) _ => first [apply Hnext | apply Hrest | by eapply Htag]
  | _ => case_match
  end.
Qed.

Lemma parse_args_accepts argv a ev w : accepted_too (parse_args argv a ev w) (Args.parse_args argv a ev w).
Proof.
  intros ok a' ev' w' Hok. unfold parse_args, Args.parse_args. intros ([[ok1 a1] ev1] & w1 & E & Er)%bind_inv.
  destruct (Z.eqb_spec ok1 0) as [->|Hn]; [injection Er; congruence|].
  apply (parse_loop_accepts _ (tail argv) _ _ _ _ (le_n _)) in E; [|done].
  rewrite (bind_returned _ _ _ _ _ E). by destruct (Z.eqb_spec ok1 0).
Qed.
End Accepts.

Section Whole.
Context `{OS} `{Secp256k1Laws} (junk : Z).

(** The event that [finish] has written to standard error and returns. *)
Lemma finish_spec fuel a k ev w json w' :
  args_ok a -> key_ok k -> event_ok ev -> entropy_ok w -> finish junk fuel a k ev w = (Returned (0, json), w') ->
  stdout_of (log w') = stdout_of (log w) /\
  match json with
  | None => not_encrypted a k ev w w'
  | Some json => exists ev1 l ev' lg, json = event_message ev' true /\ log w' = lg ++ [Stderr json] /\ signed a k ev ev1 ev' l
  end.
Proof using All.
  intros Ha Hk Hev Hw E. unfold finish in E. apply bind_inv in E as (r & w1 & E1 & E).
  destruct (main_signed_returns junk print_shared fuel a k ev w r w1 Ha Hk Hev Hw E1) as [Hs1 Hr].
  destruct r as [code|ev']; [injection E as -> <- <-; split; [done|by apply Hr]|]. destruct Hr as (ev1 & l & Hr).
  unfold print_event in E. pose proof (print_text_spec ev' (proj1 (signed_valid _ _ _ _ _ _ Hr))) as Hp. revert E Hp.
  destruct (102400 <? _ + _); [intros E Hp; rewrite Hp in E; injection E; discriminate|].
  destruct (1014 <? _); [intros E Hp; by rewrite Hp in E|].
  destruct (102400 <? _); [intros E [out Hp]; rewrite Hp in E; injection E; discriminate|].
  destruct (1011 <? _); intros E Hp; rewrite Hp in E; [done|]. injection E as <- <-. cbn [log]. split.
  - unfold stdout_of in *. by rewrite map_app, concat_app, Hs1, app_nil_r.
  - by exists ev1, l, ev', (log w1).
Qed.

Lemma make_message_spec fuel a ev0 w json w' :
  in_width 64 time_now -> args_ok a -> event_new ev0 -> entropy_ok w ->
  make_message junk fuel a ev0 w = (Returned (0, Some json), w') ->
  exists ev, json = event_message ev true /\ valid_event ev /\ requested (set_flag a HAS_ENVELOPE) ev0 ev.
Proof using All.
  intros Htime Ha Hev0 Hw E. unfold make_message in E. apply bind_inv in E as (ok & w1 & E1 & E).
  apply init_keeps in E1 as [Hw1 _]; [|done]. destruct (ok =? 0); [done|].
  assert (Ha' : args_ok (set_flag a HAS_ENVELOPE)) by by apply set_flag_ok.
  destruct (make_event_ok _ ev0 Ha' Hev0 Htime) as [Hev Htags].
  apply bind_inv in E as ([code k] & w2 & E2 & E). apply (main_key_keeps junk print_hex) in E2 as ([Hw2 _] & Hk); [|done].
  destruct (Z.eqb_spec code 0) as [->|Hc]; cbn [negb] in E; [|injection E; congruence].
  destruct (finish_spec _ _ _ _ _ _ _ Ha' (Hk eq_refl) Hev Hw2 E) as (_ & ev1 & l & ev & lg & -> & _ & Hs).
  exists ev. split; [done|]. split; [by eapply signed_valid|by eapply requested_intro].
Qed.

(** A text comes with status 0. *)
Lemma make_message_code fuel a ev0 w code json w' :
  make_message junk fuel a ev0 w = (Returned (code, Some json), w') -> code = 0.
Proof using Type.
  intros E. unfold make_message in E. apply bind_inv in E as (ok & w1 & _ & E). destruct (ok =? 0); [done|].
  apply bind_inv in E as ([c k] & w2 & _ & E). destruct (negb (c =? 0)); [done|].
  unfold finish in E. apply bind_inv in E as ([c2|ev] & w3 & _ & E); [done|].
  apply bind_inv in E as ([ok2 j] & w4 & _ & E). destruct (ok2 =? 0); injection E; congruence.
Qed.

(** Nostril from its accepted arguments on. *)
Lemma nostril_steps fuel name argv w w' :
  2 <= len (name :: argv) -> main junk fuel (name :: argv) w = (Returned 0, w') ->
  exists ok w1 w2 a ev0 w3 k w4 json w5, init_secp_context w = (Returned ok, w1) /\
    try_subcommand (name :: argv) w1 = (Returned tt, w2) /\
    Args.parse_args (name :: argv) args_zero event_zero w2 = (Returned (1, a, ev0), w3) /\
    main_key junk print_hex fuel a w3 = (Returned (0, k), w4) /\
    finish junk fuel a k (make_event a ev0) w4 = (Returned (0, json), w5) /\
    log w' = log w5 ++ match json with Some json => [Stderr json] | None => [] end.
Proof using Type.
  intros Hargc Hmain. unfold main in Hmain. rewrite when_bind in Hmain. destruct (Z.ltb_spec (len (name :: argv)) 2); [lia|].
  apply bind_inv in Hmain as (ok & w1 & E1 & E). destruct (ok =? 0); [by injection E|].
  apply bind_inv in E as ([] & w2 & E2 & E). apply bind_inv in E as ([[ok3 a] ev0] & w3 & E3 & E).
  destruct (Z.eqb_spec ok3 0) as [->|Hn].
  { exfalso. revert E. apply (exits_not 1). unfold usage, line. repeat apply exits_printf. apply exits_exit. }
  apply parse_args_accepts in E3; [|done].
  destruct (parse_args_flag _ _ _ _ _ _ _ _ _ E3) as [->| ->]; [done|].
  apply bind_inv in E as ([code k] & w4 & E4 & E).
  destruct (Z.eqb_spec code 0) as [->|Hc]; cbn [negb] in E; [|injection E; congruence].
  apply bind_inv in E as ([code json] & w5 & E5 & E).
  exists ok, w1, w2, a, ev0, w3, k, w4, json, w5. destruct json as [json|]; injection E as -> <-; cbn [log]; rewrite ?app_nil_r; done.
Qed.
End Whole.

(** C15: nostril does what gnostr does, on the other stream: when [main] returns
    0, gnostr's parser accepts the arguments too, nothing was written to
    standard output, and the last two texts on standard error are the same
    event of the key that was read or generated, in an EVENT envelope whether
    [--envelope] was given or not, with the requested fields, a signature that
    verifies, and as id the digest of its NIP-01 serialisation for a time of at
    most 15 digits (of the text with the cut time beyond); or, when encryption
    was asked for and refused for one of the causes of [dm_refused], there is no
    event and standard error ends with the message of the failure. *)
Theorem nostril_prints_valid_event `{OS} `{Secp256k1Laws} (junk : Z) (fuel : nat) (argv : list (list Z)) (w w' : world)
    (Htime : in_width 64 time_now) (Hargv : Forall c_string argv) (Hargc : 2 <= len argv) (Hw : entropy_ok w)
    (Hmain : main junk fuel argv w = (Returned 0, w')) :
  stdout_of (log w') = stdout_of (log w) /\
  exists a ev0 k w1 w2 w3, Args.parse_args argv args_zero event_zero w1 = (Returned (1, a, ev0), w2) /\
    main_key junk print_hex fuel a w2 = (Returned (0, k), w3) /\
    (not_encrypted a k (make_event a ev0) w3 w' \/
     exists ev lg, log w' = lg ++ [Stderr (event_message ev true); Stderr (event_message ev true)] /\
       valid_event ev /\ pubkey ev = key_pubkey k /\ requested a ev0 ev).
Proof.
  destruct argv as [|name argv]; [exfalso; clear - Hargc; done|].
  destruct (nostril_steps junk fuel name argv w w' Hargc Hmain)
    as (ok & w1 & w2 & a & ev0 & w3 & k & w4 & json & w5 & E1 & E2 & E3 & E4 & E5 & Hlog).
  apply init_keeps in E1 as [Hw1 Hs1]; [|done]. apply execvp_keeps in E2 as [Hw2 Hs2]; [|done].
  apply Forall_cons in Hargv as [_ Hargv].
  destruct (parse_args_keeps _ _ _ _ _ _ _ _ args_zero_ok event_zero_new Hargv E3) as (Ha & Hev0 & _).
  pose proof E3 as (_ & c' & _ & _ & _ & _ & _ & Ew3)%parse_args_spec. 
  pose proof E4 as ([Hw4 Hs4] & Hk)%(main_key_keeps junk print_hex); [|by rewrite Ew3]. rewrite Ew3 in Hs4. cbn [log] in Hs4.
  destruct (make_event_ok a ev0 Ha Hev0 Htime) as [Hev Htags].
  destruct (finish_spec junk fuel a k _ _ _ _ Ha (Hk eq_refl) Hev Hw4 E5) as [Hs5 Hj].
  split.
  - rewrite Hlog. unfold stdout_of in *. rewrite map_app, concat_app, Hs5, Hs4, Hs2, Hs1. destruct json; by rewrite app_nil_r.
  - exists a, ev0, k, w2, w3, w4. split; [done|]. split; [done|].
    destruct json as [json|]; [right|left; unfold not_encrypted in *; by rewrite Hlog, app_nil_r].
    destruct Hj as (ev1 & l & ev & lg & -> & Hlg & Hs). exists ev, lg. rewrite Hlog, Hlg, <- app_assoc.
    split; [done|]. split; [by eapply signed_valid|].
    split; [exact (f_equal pubkey (signed_event _ _ _ _ _ _ Hs))|by eapply requested_intro].
Qed.

#[local] Existing Instance Toy.lib.
#[local] Existing Instance Toy.lib_laws.
#[local] Existing Instance test_os.

Definition nostril_argv : list (list Z) := [cs "nostril"; cs "--sec"; hex_text alice; cs "-t"; cs "x"; cs "--content"; cs "hello"].

Lemma nostril_prints_valid_event_witness :
  let w' := (main 0 3 nostril_argv run_world).2 in
  stdout_of (log w') = [] /\
  exists a ev0 k w1 w2 w3, Args.parse_args nostril_argv args_zero event_zero w1 = (Returned (1, a, ev0), w2) /\
    main_key 0 print_hex 3 a w2 = (Returned (0, k), w3) /\
    (not_encrypted a k (make_event a ev0) w3 w' \/
     exists ev lg, log w' = lg ++ [Stderr (event_message ev true); Stderr (event_message ev true)] /\
       valid_event ev /\ pubkey ev = key_pubkey k /\ requested a ev0 ev).
Proof.
  apply (nostril_prints_valid_event 0 3 nostril_argv run_world (main 0 3 nostril_argv run_world).2);
    [by_compute|by_compute|vm_compute; discriminate| |vm_compute; reflexivity].
  repeat apply Forall_cons_2; [cbn [from_option]; by_compute..|constructor].
Defined.

(** What [make_message] leaves in the buffer of its caller, when it returns
    0 and writes one, is an enveloped event that can be published. *)
Theorem make_message_publishes `{OS} `{Secp256k1Laws} (junk : Z) (fuel : nat) (a : args) (ev0 : nostr_event)
    (w w' : world) (json : list Z)
    (Htime : in_width 64 time_now) (Ha : args_ok a) (Hev : event_new ev0) (Hw : entropy_ok w)
    (Hmake : make_message junk fuel a ev0 w = (Returned (0, Some json), w')) :
  exists ev, json = event_message ev true /\ valid_event ev /\ requested (set_flag a HAS_ENVELOPE) ev0 ev.
Proof. by eapply make_message_spec. Qed.
