(* ===== verification/Jsmin.v ===== *)
(** * The JavaScript minifier ([template/gnostr-jsmin.c])

    The state is the five static variables of the program, the rest of standard
    input and the text on the two output streams; one definition per function,
    [action] cut at its three fall-through labels.  Loops take fuel: every turn
    of every loop reads a character or ends, so the length of the input plus two
    is enough for each of them.

    The specification reads the input as tokens: characters, string and regular
    expression literals, comments.  [tokens] says which list of tokens a text is,
    at most one; [minified] is what is printed of them, token by token: literals
    and other characters as they are, no comments, and between two tokens the
    whitespace that [gap] says.  The program prints exactly that for a text that
    has tokens, and stops with an error for every other. *)
From S2P Require Import Prelude Run.

Definition EOF : Z := -1.

Record jstate := JState {
  the_a : Z; the_b : Z; look_ahead : Z; the_x : Z; the_y : Z;
  input : list Z;                    (* what getc(stdin) has not read yet *)
  out : list Z;                      (* stdout *)
  err : list Z                       (* stderr *)
}.

(** The static variables before [main]. *)
Definition jsmin_start (stdin : list Z) : jstate := JState 0 0 EOF EOF EOF stdin [] [].

Abbreviation js := (prog jstate).

Definition with_a (c : Z) (s : jstate) : jstate :=
  JState c (the_b s) (look_ahead s) (the_x s) (the_y s) (input s) (out s) (err s).
Definition with_b (c : Z) (s : jstate) : jstate :=
  JState (the_a s) c (look_ahead s) (the_x s) (the_y s) (input s) (out s) (err s).
Definition with_look (c : Z) (s : jstate) : jstate :=
  JState (the_a s) (the_b s) c (the_x s) (the_y s) (input s) (out s) (err s).
Definition with_xy (x y : Z) (s : jstate) : jstate :=
  JState (the_a s) (the_b s) (look_ahead s) x y (input s) (out s) (err s).
Definition with_out (w : list Z) (s : jstate) : jstate :=
  JState (the_a s) (the_b s) (look_ahead s) (the_x s) (the_y s) (input s) (out s ++ w) (err s).

Definition set_a (c : Z) : js unit := modify (with_a c).
Definition set_b (c : Z) : js unit := modify (with_b c).
Definition set_look (c : Z) : js unit := modify (with_look c).
Definition set_xy (x y : Z) : js unit := modify (with_xy x y).
Definition fputs (text : list Z) : js unit := modify (with_out text).
Definition putc (c : Z) : js unit := fputs [u8 c].

Definition getc : js Z := fun s =>
  match input s with
  | c :: r => (Returned c, JState (the_a s) (the_b s) (look_ahead s) (the_x s) (the_y s) r (out s) (err s))
  | [] => (Returned EOF, s)
  end.

Definition error {A} (string : list Z) : js A := fun s =>
  (Exited 1, JState (the_a s) (the_b s) (look_ahead s) (the_x s) (the_y s) (input s) (out s)
    (err s ++ cs "JSMIN Error: " ++ string ++ [10])).

Definition is_alphanum (codeunit : Z) : bool :=
  ((97 <=? codeunit) && (codeunit <=? 122)) || ((48 <=? codeunit) && (codeunit <=? 57))
  || ((65 <=? codeunit) && (codeunit <=? 90)) || (codeunit =? 95) || (codeunit =? 36)
  || (codeunit =? 92) || (126 <? codeunit).

Definition get : js Z :=
  codeunit ← read look_ahead;
  _ ← set_look EOF;
  codeunit ← (if codeunit =? EOF then getc else mret codeunit);
  if (32 <=? codeunit) || (codeunit =? 10) || (codeunit =? EOF) then mret codeunit
  else if codeunit =? 13 then mret 10 else mret 32.

Definition peek : js Z := c ← get; _ ← set_look c; read look_ahead.

(** [//]: to the end of the line. *)
Fixpoint line_loop (fuel : nat) : js Z :=
  match fuel with
  | O => out_of_fuel
  | S fuel => codeunit ← get; if codeunit <=? 10 then mret codeunit else line_loop fuel
  end.

(** [/*]: to the end of the comment, which reads as a space. *)
Fixpoint block_loop (fuel : nat) : js Z :=
  match fuel with
  | O => out_of_fuel
  | S fuel =>
      c ← get;
      if c =? 42 then
        p ← peek;
        if p =? 47 then _ ← get; mret 32 else block_loop fuel
      else if c =? EOF then error (cs "Unterminated comment.")
      else block_loop fuel
  end.

(** After a slash. *)
Definition skip_comment (fuel : nat) : js Z :=
  p ← peek;
  if p =? 47 then line_loop fuel
  else if p =? 42 then _ ← get; block_loop fuel
  else mret 47.

Definition next (fuel : nat) : js Z :=
  codeunit ← get;
  codeunit ← (if codeunit =? 47 then skip_comment fuel else mret codeunit);
  x ← read the_x;
  _ ← set_xy codeunit x;
  mret codeunit.

(** [strchr(set, c) != 0]: membership in the characters of a condition. *)
Definition one_of (set : string) (c : Z) : bool := existsb (Z.eqb c) (cs set).

Definition is_quote (c : Z) : bool := (c =? 39) || (c =? 34) || (c =? 96).
Definition is_operator (c : Z) : bool := one_of "+-*/" c.

(** A backslash is output, the character after it is next. *)
Definition escape : js unit :=
  a ← read the_a;
  if a =? 92 then _ ← putc a; c ← get; set_a c else mret tt.

Fixpoint string_loop (fuel : nat) : js unit :=
  match fuel with
  | O => out_of_fuel
  | S fuel =>
      a ← read the_a; _ ← putc a;
      a ← get; _ ← set_a a;
      b ← read the_b;
      if a =? b then mret tt else
      _ ← escape;
      a ← read the_a;
      if a =? EOF then error (cs "Unterminated string literal.") else string_loop fuel
  end.

Fixpoint set_loop (fuel : nat) : js unit :=
  match fuel with
  | O => out_of_fuel
  | S fuel =>
      a ← read the_a; _ ← putc a;
      a ← get; _ ← set_a a;
      if a =? 93 then mret tt else
      _ ← escape;
      a ← read the_a;
      if a =? EOF then error (cs "Unterminated set in Regular Expression literal.") else set_loop fuel
  end.

Fixpoint regex_loop (fuel : nat) : js unit :=
  match fuel with
  | O => out_of_fuel
  | S fuel' =>
      a ← get; _ ← set_a a;
      if a =? 47 then
        p ← peek;
        if (p =? 47) || (p =? 42) then error (cs "Unterminated set in Regular Expression literal.")
        else mret tt
      else
      _ ← (if a =? 91 then set_loop fuel else escape);
      a ← read the_a;
      if a =? EOF then error (cs "Unterminated Regular Expression literal.") else
      _ ← putc a; regex_loop fuel'
  end.

(** [case 1]: output A. *)
Definition action_output : js unit :=
  a ← read the_a; b ← read the_b; y ← read the_y;
  _ ← putc a;
  if ((y =? 10) || (y =? 32)) && is_operator a && is_operator b then putc y else mret tt.

(** [case 2]: copy B to A; a string literal is copied to the output. *)
Definition action_copy (fuel : nat) : js unit :=
  b ← read the_b; _ ← set_a b;
  if is_quote b then string_loop fuel else mret tt.

(** What makes a slash the start of a regular expression. *)
Definition regex_context (c : Z) : bool := one_of "(,=:[!&|?+-~*/{};" c.

(** [case 3]: get the next B; a regular expression is copied to the output. *)
Definition action_next (fuel : nat) : js unit :=
  _ ← (c ← next fuel; set_b c);
  a ← read the_a; b ← read the_b;
  if (b =? 47) && regex_context a then
    _ ← putc a;
    _ ← (if (a =? 47) || (a =? 42) then putc 32 else mret tt);
    _ ← putc b;
    _ ← regex_loop fuel;
    c ← next fuel; set_b c
  else mret tt.

Definition action (fuel : nat) (determined : Z) : js unit :=
  if determined =? 1 then _ ← action_output; _ ← action_copy fuel; action_next fuel
  else if determined =? 2 then _ ← action_copy fuel; action_next fuel
  else if determined =? 3 then action_next fuel
  else mret tt.

(** The argument of [action] for the two characters in hand. *)
Definition choice (a b : Z) : Z :=
  if a =? 32 then if is_alphanum b then 1 else 2
  else if a =? 10 then
    if one_of "{[(+-!~" b then 1
    else if b =? 32 then 3
    else if is_alphanum b then 1 else 2
  else if b =? 32 then if is_alphanum a then 1 else 3
  else if b =? 10 then
    if one_of "}])+-'`" a || (a =? 34) then 1
    else if is_alphanum a then 1 else 3
  else 1.

Fixpoint jsmin_loop (fuel : nat) (turns : nat) : js unit :=
  match turns with
  | O => out_of_fuel
  | S turns =>
      a ← read the_a;
      if a =? EOF then mret tt else
      b ← read the_b;
      _ ← action fuel (choice a b); jsmin_loop fuel turns
  end.

Definition jsmin (fuel : nat) : js unit :=
  p ← peek;
  _ ← (if p =? 239 then _ ← get; _ ← get; _ ← get; mret tt else mret tt);
  _ ← set_a 10;
  _ ← action fuel 3;
  jsmin_loop fuel fuel.

Fixpoint arg_comments (argv : list (list Z)) : js unit :=
  match argv with
  | [] => mret tt
  | arg :: argv => _ ← fputs (cs "// " ++ arg ++ [10]); arg_comments argv
  end.

(** [argv] without the program's name. *)
Definition main (fuel : nat) (argv : list (list Z)) : js Z :=
  _ ← arg_comments argv; _ ← jsmin fuel; mret 0.

Definition run_jsmin (argv : list (list Z)) (stdin : list Z) : outcome Z * jstate :=
  main (length stdin + 2) argv (jsmin_start stdin).

Example run_1 : let '(o, s) := run_jsmin [cs "x"]
  (cs "var  a = 'b  c' ; // gone" ++ [10] ++ cs "  return /* c */ a + + /[/'] /.test(b)  ;") in
  (o, out s) = (Returned 0, cs "// x" ++ [10; 10] ++ cs "var a='b  c';return a+ +/[/'] /.test(b);").
Proof. vm_compute. reflexivity. Qed.

(** ** Specification: tokens *)

Definition translate (c : Z) : Z :=
  if (32 <=? c) || (c =? 10) then c else if c =? 13 then 10 else 32.

Definition white (c : Z) : bool := (c =? 32) || (c =? 10).

Inductive token :=
| Char (c : Z)                 (* any character outside literals and comments *)
| Str (q : Z) (body : list Z)  (* between two quotes *)
| Regex (body : list Z)        (* between two slashes *)
| Line (body : list Z)         (* after two slashes, up to the end of the line *)
| Block (body : list Z).       (* between the two ends of a block comment *)

Definition text (t : token) : list Z :=
  match t with
  | Char c => [c]
  | Str q body => q :: body ++ [q]
  | Regex body => 47 :: body ++ [47]
  | Line body => 47 :: 47 :: body
  | Block body => 47 :: 42 :: body ++ [42; 47]
  end.

Definition texts (ts : list token) : list Z := concat (map text ts).

(** No quote [q] but after a backslash. *)
Fixpoint str_body (q : Z) (body : list Z) : bool :=
  match body with
  | [] => true
  | c :: rest =>
      if c =? 92 then match rest with _ :: rest => str_body q rest | [] => false end
      else negb (c =? q) && str_body q rest
  end.

(** No slash but after a backslash or in a set. *)
Fixpoint regex_body (in_set : bool) (body : list Z) : bool :=
  match body with
  | [] => negb in_set
  | c :: rest =>
      if c =? 92 then match rest with _ :: rest => regex_body in_set rest | [] => false end
      else if in_set then regex_body (negb (c =? 93)) rest
      else negb (c =? 47) && regex_body (c =? 91) rest
  end.

(** The end of a block comment occurs in [body]. *)
Fixpoint closed (body : list Z) : bool :=
  match body with
  | c :: rest => ((c =? 42) && match rest with d :: _ => d =? 47 | [] => false end) || closed rest
  | [] => false
  end.

Definition token_ok (t : token) : bool :=
  match t with
  | Char _ => true
  | Str q body => is_quote q && str_body q body
  | Regex body => regex_body false body
  | Line body => forallb (fun c => 10 <? c) body
  | Block body => negb (closed body)
  end.

(** *** Where a token stands: the character that the last token before it ends with,
    [10] at the start of the text, and the whitespace since, where a block
    comment counts as a space. *)
Abbreviation place := (Z * list Z)%type.

Definition origin : place := (10, []).

Definition moved (p : place) (t : token) : place :=
  match t with
  | Char c => if white c then (p.1, p.2 ++ [c]) else (c, [])
  | Str q _ => (q, [])
  | Regex _ => (47, [])
  | Line _ => p
  | Block _ => (p.1, p.2 ++ [32])
  end.

Definition newline_in (ws : list Z) : bool := existsb (Z.eqb 10) ws.

(** The characters after which a new line is kept, and those before which it is. *)
Definition ender (c : Z) : bool := one_of "}])+-'`" c || (c =? 34).
Definition starter (c : Z) : bool := one_of "{[(+-!~" c || is_alphanum c.

(** A slash starts a regular expression after certain characters, but not on a
    new line after a character that keeps the new line. *)
Definition slash_regex (p : place) : bool := regex_context p.1 && negb (newline_in p.2 && ender p.1).

Definition head_of (l : list Z) : Z := match l with c :: _ => c | [] => EOF end.

(** [t] is the token at the place [p] in front of the text [rest]: a quote and a
    slash are characters only where no literal and no comment can start, and a
    comment extends to the end of its line. *)
Definition lexed (p : place) (t : token) (rest : list Z) : bool :=
  token_ok t &&
  match t with
  | Char c => negb (is_quote c) && (negb (c =? 47) || negb (one_of "/*" (head_of rest)) && negb (slash_regex p))
  | Regex body => slash_regex p && negb (one_of "/*" (head_of (body ++ [47]))) && negb (one_of "/*" (head_of rest))
  | Line _ => match rest with c :: _ => c =? 10 | [] => true end
  | Str _ _ | Block _ => true
  end.

Fixpoint lexes (p : place) (ts : list token) (rest : list Z) : bool :=
  match ts with
  | [] => true
  | t :: ts => lexed p t (texts ts ++ rest) && lexes (moved p t) ts rest
  end.

(** The tokens of a text; there is one way at most to read it ([tokens_unique]). *)
Definition tokens (source : list Z) (ts : list token) : Prop := texts ts = source /\ lexes origin ts [] = true.

(** *** What is left of the whitespace [p.2] in front of the character [b]: a new
    line where it may end a statement, a space between two words, the last of it
    between two operators. *)
Definition gap (p : place) (b : Z) : list Z :=
  let '(a, ws) := p in
  if a =? 10 then if starter b then [10] else []
  else match last ws with
  | None => []
  | Some w =>
      if newline_in ws && (is_alphanum a || ender a) then if starter b then [10] else []
      else if is_alphanum a then if is_alphanum b then [32] else []
      else if is_operator a && is_operator b then [w] else []
  end.

(** What is printed of a token: a literal as it is, and a space between a slash or a
    star and a regular expression. *)
Definition shown (p : place) (t : token) : list Z :=
  match t with
  | Char c => if white c then [] else gap p c ++ [c]
  | Str q _ => gap p q ++ text t
  | Regex _ => (if (p.1 =? 47) || (p.1 =? 42) then [32] else []) ++ text t
  | Line _ | Block _ => []
  end.

Fixpoint minified (p : place) (ts : list token) : list Z :=
  match ts with [] => [] | t :: ts => shown p t ++ minified (moved p t) ts end.

(** The text without the byte-order mark: three characters that start with 0xEF. *)
Definition without_bom (l : list Z) : list Z :=
  match l with c :: _ => if c =? 239 then drop 3 l else l | [] => [] end.

(** ** Reasoning: total correctness of computations that read characters *)

Definition chr (c : Z) : list Z := if c =? EOF then [] else [c].

(** The characters still to come, as [get] returns them. *)
Definition chars (s : jstate) : list Z := chr (look_ahead s) ++ map translate (input s).

Definition good (c : Z) : Prop := is_byte c /\ translate c = c.
Definition sane (s : jstate) : Prop := (look_ahead s = EOF \/ good (look_ahead s)) /\ Bytes (input s).

(** [m] returns a value with [Q], or stops with status 1, a message, and blame on the source. *)
Definition wp (blame : Prop) {A} (Q : A -> jstate -> Prop) (m : js A) (s : jstate) : Prop :=
  match m s with
  | (Returned a, s') => Q a s'
  | (Exited c, s') => c = 1 /\ err s' <> [] /\ blame
  | _ => False
  end.

(** Reading leaves everything but the input and [the_y] alone. *)
Record frame (s s' : jstate) : Prop := {
  frame_a : the_a s' = the_a s;
  frame_b : the_b s' = the_b s;
  frame_x : the_x s' = the_x s;
  frame_out : out s' = out s;
  frame_err : err s' = err s
}.

(** [get] took [c]. *)
Record took (s : jstate) (c : Z) (s' : jstate) : Prop := {
  took_chars : chars s = chr c ++ chars s';
  took_end : c = EOF -> chars s' = [];
  took_good : c = EOF \/ good c;
  took_look : look_ahead s' = EOF;
  took_sane : sane s';
  took_frame : frame s s'
}.

Section wp.
Context (blame : Prop).
Local Abbreviation wp := (wp blame).

Lemma wp_ret {A} (Q : A -> jstate -> Prop) a s : Q a s -> wp Q (mret a) s.
Proof. done. Qed.

Lemma wp_bind {A B} (Q : B -> jstate -> Prop) (m : js A) (f : A -> js B) s :
  wp (fun a s' => wp Q (f a) s') m s -> wp Q (m ≫= f) s.
Proof. unfold Jsmin.wp, mbind, prog_bind. by destruct (m s) as [[] s']. Qed.

Lemma wp_mono {A} (Q Q' : A -> jstate -> Prop) (m : js A) s :
  (forall a s', Q a s' -> Q' a s') -> wp Q m s -> wp Q' m s.
Proof. unfold Jsmin.wp. destruct (m s) as [[] s']; auto. Qed.

Lemma wp_read {A} (Q : A -> jstate -> Prop) f s : Q (f s) s -> wp Q (read f) s.
Proof. done. Qed.

Lemma wp_error {A} (Q : A -> jstate -> Prop) msg s : blame -> wp Q (error msg) s.
Proof. intros. unfold Jsmin.wp, error. split_and!; try done. cbn. by destruct (err s). Qed.

Lemma translate_idemp c : translate (translate c) = translate c.
Proof. unfold translate. repeat case_match; lia. Qed.

Lemma good_translate c : is_byte c -> good (translate c).
Proof.
  intros [??]. split; [|apply translate_idemp]. unfold translate; repeat case_match; split; lia.
Qed.

Lemma good_range c : good c -> 0 <= c < 256 /\ (c = 10 \/ 32 <= c).
Proof. intros [[? ?] Ht]. change (2 ^ 8) with 256 in *. unfold translate in Ht. repeat case_match; lia. Qed.

Lemma good_not_EOF c : good c -> c <> EOF.
Proof. intros Hc%good_range. unfold EOF. lia. Qed.

Lemma chr_good c : good c -> chr c = [c].
Proof. intros H%good_range. unfold chr, EOF. case_match; [lia|done]. Qed.

Lemma chr_EOF : chr EOF = [].
Proof. done. Qed.

Lemma wp_get (Q : Z -> jstate -> Prop) s :
  sane s -> (forall c s', took s c s' -> Q c s') -> wp Q get s.
Proof.
  destruct s as [a b l x y i o e]. intros [Hl Hi] HQ. cbn in Hl, Hi.
  unfold get. apply wp_bind, wp_read. apply wp_bind. cbn. destruct (Z.eqb_spec l EOF) as [->|Hne].
  - destruct i as [|c i]; cbn.
    + apply HQ. split; try done; by left.
    + assert (Hc : is_byte c /\ Bytes i) by by inversion Hi. destruct Hc as [Hc Hi'].
      assert (Hg := good_translate c Hc).
      assert (HQ' : Q (translate c) (JState a b EOF x y i o e)).
      { apply HQ. split; try done.
        - unfold chars. cbn. by rewrite chr_good.
        - intros Hx. by apply good_not_EOF in Hg.
        - by right. }
      assert (c <> EOF) by (intros ->; by destruct Hc).
      apply wp_bind. red. cbn. unfold translate in HQ'.
      destruct (32 <=? c), (c =? 10), (Z.eqb_spec c EOF), (c =? 13); done.
  - destruct Hl as [?|Hg]; [done|]. assert (Hr := good_range _ Hg).
    assert (HQ' : Q l (JState a b EOF x y i o e)).
    { apply HQ. split; try done; [by right|split; [by left|done]]. }
    apply wp_bind, wp_ret. red. cbn. destruct (Z.leb_spec 32 l), (Z.eqb_spec l 10); done || lia.
Qed.

Lemma took_head s c s' : took s c s' -> c = head_of (chars s).
Proof.
  intros [Hc He [->|Hg] _ _ _]; rewrite Hc; [by rewrite He|].
  by rewrite chr_good.
Qed.

Lemma took_length s c s' : took s c s' -> c <> EOF -> length (chars s) = S (length (chars s')).
Proof. intros [Hc _ [->|Hg] _ _ _] ?; [done|]. by rewrite Hc, chr_good. Qed.

Lemma frame_trans s1 s2 s3 : frame s1 s2 -> frame s2 s3 -> frame s1 s3.
Proof. intros [] []. split; congruence. Qed.

Lemma wp_peek (Q : Z -> jstate -> Prop) s :
  sane s ->
  (forall s', chars s' = chars s -> sane s' -> frame s s' -> Q (head_of (chars s)) s') -> wp Q peek s.
Proof.
  intros Hs HQ. unfold peek. apply wp_bind, wp_get; [done|]. intros c s' Ht.
  assert (Hh := took_head _ _ _ Ht). destruct Ht as [Hc He Hg Hl [_ Hi] [?????]].
  apply wp_bind, wp_read. cbn [look_ahead]. rewrite Hh at 1. apply HQ; [|by split|done].
  rewrite Hc. unfold chars. cbn. by rewrite Hl.
Qed.

Lemma wp_modify (Q : unit -> jstate -> Prop) f s : Q tt (f s) -> wp Q (modify f) s.
Proof. done. Qed.

Lemma took_some s c s' : took s c s' -> c <> EOF -> good c /\ chars s = c :: chars s'.
Proof. intros [Hc _ [->|Hg] _ _ _] ?; [done|]. by rewrite Hc, chr_good. Qed.

(** To the end of the line: what is read, and the line end or the end of the input. *)
Lemma wp_line_loop fuel : forall (Q : Z -> jstate -> Prop) s,
  sane s -> (length (chars s) < fuel)%nat ->
  (forall body c s', chars s = body ++ chr c ++ chars s' -> forallb (fun x => 10 <? x) body = true ->
    c = EOF /\ chars s' = [] \/ c = 10 -> sane s' -> frame s s' -> Q c s') ->
  wp Q (line_loop fuel) s.
Proof.
  induction fuel as [|fuel IH]; intros Q s Hs Hf HQ; [lia|].
  apply wp_bind, wp_get; [done|]. intros c s1 Ht. assert (Hfr := took_frame _ _ _ Ht).
  assert (Hs1 := took_sane _ _ _ Ht). destruct (Z.leb_spec c 10) as [Hle|Hgt].
  - apply wp_ret, (HQ []); [apply Ht|done| |done|done].
    destruct Ht as [_ He [->|Hg] _ _ _]; [left; auto|right]. apply good_range in Hg. lia.
  - destruct (took_some _ _ _ Ht) as [Hg Hc]; [unfold EOF; lia|].
    apply IH; [done|rewrite Hc in Hf; cbn in Hf; lia|]. intros body d s2 Hb Hall Hd Hs2 Hf2.
    apply (HQ (c :: body)); [by rewrite Hc, Hb|cbn; by rewrite Hall, (proj2 (Z.ltb_lt 10 c))|done|done|].
    by eapply frame_trans.
Qed.

(** To the end of the block comment. *)
Definition open_comment (l : list Z) : Prop := forall body rest, l = body ++ 42 :: 47 :: rest -> closed body = true.

Lemma wp_block_loop fuel : forall (Q : Z -> jstate -> Prop) s,
  (open_comment (chars s) -> blame) -> sane s -> (length (chars s) < fuel)%nat ->
  (forall body s', chars s = body ++ 42 :: 47 :: chars s' -> closed body = false ->
    sane s' -> frame s s' -> Q 32 s') ->
  wp Q (block_loop fuel) s.
Proof.
  induction fuel as [|fuel IH]; intros Q s Hbl Hs Hf HQ; [lia|].
  apply wp_bind, wp_get; [done|]. intros c s1 Ht. assert (Hfr := took_frame _ _ _ Ht).
  assert (Hs1 := took_sane _ _ _ Ht). destruct (Z.eqb_spec c 42) as [->|H42].
  - destruct (took_some _ _ _ Ht) as [Hg Hc]; [done|]. rewrite Hc in Hf; cbn in Hf.
    apply wp_bind, wp_peek; [done|]. intros s2 Hc2 Hs2 Hf2. rewrite <- Hc2.
    destruct (Z.eqb_spec (head_of (chars s2)) 47) as [Hp|Hp].
    + apply wp_bind, wp_get; [done|]. intros d s3 Ht3. rewrite <- (took_head _ _ _ Ht3) in Hp. subst d.
      destruct (took_some _ _ _ Ht3) as [_ Hc3]; [done|].
      apply wp_ret, (HQ []); [by rewrite Hc, <- Hc2, Hc3|done|apply Ht3|].
      eapply frame_trans; [|apply Ht3]. by eapply frame_trans.
    + apply IH; [|done|rewrite Hc2; lia|].
      { intros Ho. apply Hbl. intros [|x body] rest E; rewrite Hc, <- Hc2 in E; [injection E as E|injection E as Ex E].
        - by rewrite E in Hp.
        - cbn [closed]. by rewrite (Ho body rest E), orb_true_r. }
      intros body s3 Hb Hcl Hs3 Hf3.
      apply (HQ (42 :: body)); [by rewrite Hc, <- Hc2, Hb| |done|].
      * cbn [closed]. rewrite Hcl. rewrite Hb in Hp. destruct body as [|d body]; [done|].
        cbn in Hp. by rewrite (proj2 (Z.eqb_neq d 47)), orb_false_r.
      * eapply frame_trans, Hf3. by eapply frame_trans.
  - destruct (Z.eqb_spec c EOF) as [->|Hne].
    { apply wp_error, Hbl. intros body rest. rewrite (took_chars _ _ _ Ht), (took_end _ _ _ Ht) by done. by destruct body. }
    destruct (took_some _ _ _ Ht) as [Hg Hc]; [done|]. rewrite Hc in Hf; cbn in Hf.
    apply IH; [|done|lia|].
    { intros Ho. apply Hbl. intros [|x body] rest E; rewrite Hc in E; injection E as Ex E; [done|].
      cbn [closed]. by rewrite (Ho body rest E), orb_true_r. }
    intros body s3 Hb Hcl Hs3 Hf3.
    apply (HQ (c :: body)); [by rewrite Hc, Hb| |done|by eapply frame_trans].
    cbn [closed]. by rewrite Hcl, (proj2 (Z.eqb_neq c 42)).
Qed.

Lemma took_lt s c s' n :
  took s c s' -> c <> EOF -> (length (chars s) < S n)%nat -> (length (chars s') < n)%nat.
Proof. intros Ht Hc. rewrite (took_length _ _ _ Ht Hc). lia. Qed.

Lemma wp_putc (Q : unit -> jstate -> Prop) c s : good c -> Q tt (with_out [c] s) -> wp Q (putc c) s.
Proof. intros [Hc _] HQ. apply wp_modify. by rewrite wrap_id. Qed.

(** Output and input of a literal: [w] was written, [r] was read, [the_b] is untouched. *)
Record copied (s : jstate) (r w : list Z) (s' : jstate) : Prop := {
  copied_chars : chars s = r ++ chars s';
  copied_out : out s' = out s ++ w;
  copied_b : the_b s' = the_b s;
  copied_x : the_x s' = the_x s;
  copied_err : err s' = err s;
  copied_sane : sane s'
}.

Lemma copied_trans s1 r1 w1 s2 r2 w2 s3 :
  copied s1 r1 w1 s2 -> copied s2 r2 w2 s3 -> copied s1 (r1 ++ r2) (w1 ++ w2) s3.
Proof.
  intros [H1 H2 H3 H4 H5 H6] [K1 K2 K3 K4 K5 K6].
  split; [by rewrite H1, K1, app_assoc|by rewrite K2, H2, app_assoc|congruence..|done].
Qed.

(** One turn of a loop over a literal: output a character, read the next. *)
Lemma copied_turn s x c s' :
  sane s -> took (with_out [x] s) c s' -> c <> EOF ->
  good c /\ copied s [c] [x] (with_a c s') /\
  forall n, (length (chars s) < S n)%nat -> (length (chars (with_a c s')) < n)%nat.
Proof.
  intros Hs Ht Hc. destruct (took_some _ _ _ Ht Hc) as [Hg Hr].
  assert (Hl := took_length _ _ _ Ht Hc).
  change (chars (with_out [x] s)) with (chars s) in *.
  destruct Ht as [_ _ _ _ Hs' [_ Hb Hx Ho He]]. split_and!; [done|by split|intros n ?].
  change (chars (with_a c s')) with (chars s'). lia.
Qed.

Lemma wp_escape (Q : unit -> jstate -> Prop) s :
  sane s ->
  (the_a s <> 92 -> Q tt s) ->
  (the_a s = 92 -> forall c s', took (with_out [92] s) c s' -> Q tt (with_a c s')) ->
  wp Q escape s.
Proof.
  intros Hs H1 H2. apply wp_bind, wp_read. destruct (Z.eqb_spec (the_a s) 92) as [E|?]; [|by apply wp_ret, H1].
  rewrite E. apply wp_bind, wp_putc; [done|]. apply wp_bind, wp_get; [done|].
  intros c s' Ht. by apply wp_modify, H2.
Qed.

(** A string literal, after its opening quote. *)
Definition open_string (q : Z) (l : list Z) : Prop := forall body rest, l = body ++ q :: rest -> str_body q body = false.

Lemma open_string_cons q c l : c <> q -> c <> 92 -> open_string q l -> open_string q (c :: l).
Proof.
  intros Hq H92 Ho [|x body] rest E; injection E as <- E; [done|]. cbn [str_body].
  by rewrite (proj2 (Z.eqb_neq _ _) H92), (Ho body rest E), andb_false_r.
Qed.

Lemma open_string_escape q d l : q <> 92 -> open_string q l -> open_string q (92 :: d :: l).
Proof. intros Hq Ho [|x [|y body]] rest E; simplify_eq/=; [done|]. by apply (Ho body rest). Qed.

(** At the end of the text nothing is closed. *)
Lemma took_end_open s s' q : took s EOF s' -> open_string q (chars s).
Proof. intros Ht body rest. rewrite (took_chars _ _ _ Ht), (took_end _ _ _ Ht) by done. by destruct body. Qed.

Lemma wp_string_loop q fuel : forall (Q : unit -> jstate -> Prop) s,
  (open_string q (chars s) -> blame) -> is_quote q = true -> sane s -> (length (chars s) < fuel)%nat ->
  the_b s = q -> good (the_a s) ->
  (forall body s', copied s (body ++ [q]) (the_a s :: body) s' -> str_body q body = true ->
    the_a s' = q -> Q tt s') ->
  wp Q (string_loop fuel) s.
Proof.
  induction fuel as [|fuel IH]; intros Q s Hbl Hq Hs Hf Hb Hg HQ; [lia|].
  apply wp_bind, wp_read, wp_bind, wp_putc; [done|]. apply wp_bind, wp_get; [done|]. intros c s1 Ht.
  assert (Hs1 := took_sane _ _ _ Ht).
  apply wp_bind, wp_modify, wp_bind, wp_read. assert (the_b (with_a c s1) = q) as ->.
  { etrans; [apply Ht|done]. }
  destruct (Z.eqb_spec c q) as [->|Hcq].
  { destruct (copied_turn _ _ _ _ Hs Ht) as (_ & Hc & _); [by intros ->|]. by apply wp_ret, (HQ []). }
  assert (Hq92 : q <> 92) by (intros ->; done). change (chars (with_out [the_a s] s)) with (chars s) in *.
  apply wp_bind, wp_escape; [done|intros H92|intros H92 d s2 Ht2]; cbn in H92; apply wp_bind, wp_read; cbn.
  - destruct (Z.eqb_spec c EOF) as [->|Hne]; [by apply wp_error, Hbl, (took_end_open (with_out [the_a s] s) s1)|].
    destruct (copied_turn _ _ _ _ Hs Ht Hne) as (Hgc & Hc & Hl).
    apply IH; [|done|done|by apply Hl|etrans; [apply Ht|done]|done|].
    { intros Ho. apply Hbl. rewrite (copied_chars _ _ _ _ Hc). by apply open_string_cons. }
    intros body s2 Hc2 Hbody Ha. apply (HQ (c :: body)); [by apply (copied_trans _ _ _ _ _ _ _ Hc Hc2)|cbn|done].
    by rewrite Hbody, (proj2 (Z.eqb_neq _ _) H92), (proj2 (Z.eqb_neq _ _) Hcq).
  - subst c. destruct (copied_turn _ _ _ _ Hs Ht) as (_ & Hc & Hl); [done|].
    destruct (Z.eqb_spec d EOF) as [->|Hne].
    { apply wp_error, Hbl. rewrite (copied_chars _ _ _ _ Hc). change (chars (with_a 92 s1)) with (chars (with_out [92] (with_a 92 s1))).
      rewrite (took_chars _ _ _ Ht2), (took_end _ _ _ Ht2) by done. intros [|x [|y body]] rest E; injection E as <- E; by destruct (Hq92). }
    destruct (copied_turn (with_a 92 s1) _ _ _ Hs1 Ht2 Hne) as (Hgd & Hc2 & Hl2).
    apply IH; [|done|apply Ht2|by apply Hl2, Nat.lt_lt_succ_r, Hl
      |etrans; [apply Ht2|etrans; [apply Ht|done]]|done|].
    { intros Ho. apply Hbl. rewrite (copied_chars _ _ _ _ Hc), (copied_chars _ _ _ _ Hc2). by apply open_string_escape. }
    intros body s3 Hc3 Hbody Ha. apply (HQ (92 :: d :: body)); [|done|done].
    apply (copied_trans _ _ _ _ _ _ _ Hc (copied_trans _ _ _ _ _ _ _ Hc2 Hc3)).
Qed.

(** A regular expression that does not end in [l], or only in front of a slash or
    a star. *)
Definition open_regex (in_set : bool) (l : list Z) : Prop :=
  forall body rest, l = body ++ 47 :: rest -> regex_body in_set body = true -> one_of "/*" (head_of rest) = true.

Lemma open_regex_cons b b' c l :
  b = true \/ c <> 47 -> (forall body, regex_body b (c :: body) = regex_body b' body) -> open_regex b' l -> open_regex b (c :: l).
Proof.
  intros Hc Hb Ho [|x body] rest E Hbody; simplify_eq/=; [by destruct Hc as [->|]|].
  apply (Ho body rest); [done|]. by rewrite <- Hb.
Qed.

Lemma open_regex_escape b d l : open_regex b l -> open_regex b (92 :: d :: l).
Proof. intros Ho [|x [|y body]] rest E Hbody; simplify_eq/=. by apply (Ho body rest). Qed.

Lemma took_end_regex s s' b : took s EOF s' -> open_regex b (chars s) /\ open_regex b (92 :: chars s).
Proof.
  intros Ht. rewrite (took_chars _ _ _ Ht), (took_end _ _ _ Ht) by done. split; [by intros [] ? ?|].
  intros [|x [|y body]] rest E Hb; simplify_eq/=.
Qed.

(** A set of a regular expression, after its opening bracket. *)
Lemma wp_set_loop fuel : forall (Q : unit -> jstate -> Prop) s,
  (open_regex true (chars s) -> blame) -> sane s -> (length (chars s) < fuel)%nat -> good (the_a s) ->
  (forall body s', copied s (body ++ [93]) (the_a s :: body) s' ->
    (forall rest, regex_body true (body ++ 93 :: rest) = regex_body false rest) ->
    (open_regex false (chars s') -> blame) -> the_a s' = 93 -> Q tt s') ->
  wp Q (set_loop fuel) s.
Proof.
  induction fuel as [|fuel IH]; intros Q s Hbl Hs Hf Hg HQ; [lia|].
  apply wp_bind, wp_read, wp_bind, wp_putc; [done|]. apply wp_bind, wp_get; [done|]. intros c s1 Ht.
  assert (Hs1 := took_sane _ _ _ Ht). apply wp_bind, wp_modify.
  destruct (Z.eqb_spec c 93) as [->|Hcq].
  { destruct (copied_turn _ _ _ _ Hs Ht) as (_ & Hc & _); [done|]. apply wp_ret, (HQ []); [done|done| |done].
    intros Ho. apply Hbl. rewrite (copied_chars _ _ _ _ Hc). apply (open_regex_cons true false); [by left|done|exact Ho]. }
  apply wp_bind, wp_escape; [done|intros H92|intros H92 d s2 Ht2]; cbn in H92; apply wp_bind, wp_read; cbn.
  - destruct (Z.eqb_spec c EOF) as [->|Hne]; [by apply wp_error, Hbl, (took_end_regex _ _ true Ht)|].
    destruct (copied_turn _ _ _ _ Hs Ht Hne) as (Hgc & Hc & Hl).
    assert (Hstep : forall rest, regex_body true (c :: rest) = regex_body true rest).
    { intros rest. cbn. by rewrite (proj2 (Z.eqb_neq _ _) H92), (proj2 (Z.eqb_neq _ _) Hcq). }
    apply IH; [|done|by apply Hl|done|].
    { intros Ho. apply Hbl. rewrite (copied_chars _ _ _ _ Hc). apply (open_regex_cons true true); [by left|done|exact Ho]. }
    intros body s2 Hc2 Hbody Hb2 Ha. apply (HQ (c :: body)); [by apply (copied_trans _ _ _ _ _ _ _ Hc Hc2)| |done|done].
    intros rest. cbn [app]. by rewrite Hstep.
  - subst c. destruct (copied_turn _ _ _ _ Hs Ht) as (_ & Hc & Hl); [done|].
    destruct (Z.eqb_spec d EOF) as [->|Hne].
    { apply wp_error, Hbl. rewrite (copied_chars _ _ _ _ Hc). apply (took_end_regex _ _ true Ht2). }
    destruct (copied_turn (with_a 92 s1) _ _ _ Hs1 Ht2 Hne) as (Hgd & Hc2 & Hl2).
    apply IH; [|apply Ht2|by apply Hl2, Nat.lt_lt_succ_r, Hl|done|].
    { intros Ho. apply Hbl. rewrite (copied_chars _ _ _ _ Hc), (copied_chars _ _ _ _ Hc2). by apply open_regex_escape. }
    intros body s3 Hc3 Hbody Hb3 Ha. apply (HQ (92 :: d :: body)); [|done|done|done].
    apply (copied_trans _ _ _ _ _ _ _ Hc (copied_trans _ _ _ _ _ _ _ Hc2 Hc3)).
Qed.

Lemma copied_take s c s' : took s c s' -> c <> EOF -> copied s [c] [] (with_a c s').
Proof.
  intros Ht Hc. destruct (took_some _ _ _ Ht Hc) as [_ Hr].
  destruct Ht as [_ _ _ _ Hs [_ Hb Hx Ho He]]. by split; rewrite ?app_nil_r.
Qed.

Lemma copied_put s c : sane s -> copied s [] [c] (with_out [c] s).
Proof. by split. Qed.

Lemma copied_frame s r w s' s'' :
  copied s r w s' -> chars s'' = chars s' -> sane s'' -> frame s' s'' -> copied s r w s''.
Proof. intros [H1 H2 H3 H4 H5 H6] ? ? [K1 K2 K3 K4 K5]. split; congruence. Qed.

Lemma copied_length s r w s' : copied s r w s' -> length (chars s) = (length r + length (chars s'))%nat.
Proof. intros [-> _ _ _ _ _]. apply length_app. Qed.

(** A regular expression, after its first slash. *)
Lemma wp_regex_loop fuel : forall (Q : unit -> jstate -> Prop) s,
  (open_regex false (chars s) -> blame) -> sane s -> (length (chars s) < fuel)%nat ->
  (forall body s', copied s (body ++ [47]) body s' -> regex_body false body = true ->
    one_of "/*" (head_of (chars s')) = false -> the_a s' = 47 -> Q tt s') ->
  wp Q (regex_loop fuel) s.
Proof.
  induction fuel as [|fuel IH]; intros Q s Hbl Hs Hf HQ; [lia|].
  apply wp_bind, wp_get; [done|]. intros c s1 Ht. assert (Hs1 := took_sane _ _ _ Ht).
  apply wp_bind, wp_modify. destruct (Z.eqb_spec c 47) as [->|H47].
  { assert (Hc := copied_take _ _ _ Ht ltac:(done)). apply wp_bind, wp_peek; [done|]. intros s2 Hc2 Hs2 Hf2.
    assert (Hone : (head_of (chars (with_a 47 s1)) =? 47) || (head_of (chars (with_a 47 s1)) =? 42) = one_of "/*" (head_of (chars s2))).
    { rewrite Hc2. cbn. by rewrite orb_false_r. }
    rewrite Hone. destruct (one_of "/*" (head_of (chars s2))) eqn:Eo.
    - apply wp_error, Hbl. rewrite (copied_chars _ _ _ _ Hc), <- Hc2. intros [|x body] rest E Hb; by simplify_eq/=.
    - apply wp_ret, (HQ []); [|done|done|by rewrite (frame_a _ _ Hf2)]. by apply (copied_frame _ _ _ _ _ Hc). }
  apply wp_bind. destruct (Z.eqb_spec c 91) as [->|H91].
  - assert (Hc := copied_take _ _ _ Ht ltac:(done)). assert (Hl := copied_length _ _ _ _ Hc). cbn [length] in Hl.
    apply wp_set_loop; [|done|lia|done|].
    { intros Ho. apply Hbl. rewrite (copied_chars _ _ _ _ Hc). apply (open_regex_cons false true); [by right|done|exact Ho]. }
    intros body s2 Hc2 Hbody Hb2 Ha.
    apply wp_bind, wp_read. rewrite Ha. apply wp_bind, wp_putc; [done|].
    assert (Hl2 := copied_length _ _ _ _ Hc2). rewrite length_app in Hl2.
    assert (Hs2 := copied_sane _ _ _ _ Hc2).
    apply IH; [done|done|change (chars (with_out [93] s2)) with (chars s2); lia|].
    intros body' s3 Hc3 Hbody' Hn3 Ha3. apply (HQ (91 :: body ++ 93 :: body')); [|cbn; by rewrite Hbody|done|done].
    assert (Hc4 := copied_trans _ _ _ _ _ _ _ Hc (copied_trans _ _ _ _ _ _ _ Hc2
      (copied_trans _ _ _ _ _ _ _ (copied_put s2 93 Hs2) Hc3))).
    cbn in Hc4 |- *. rewrite <- !app_assoc in Hc4 |- *. exact Hc4.
  - apply wp_escape; [done|intros H92|intros H92 d s2 Ht2]; cbn in H92; apply wp_bind, wp_read; cbn.
    + destruct (Z.eqb_spec c EOF) as [->|Hne]; [by apply wp_error, Hbl, (took_end_regex _ _ false Ht)|].
      assert (Hc := copied_take _ _ _ Ht Hne). assert (Hl := copied_length _ _ _ _ Hc). cbn [length] in Hl.
      assert (Hstep : forall body, regex_body false (c :: body) = regex_body false body).
      { intros body. cbn. by rewrite (proj2 (Z.eqb_neq _ _) H92), (proj2 (Z.eqb_neq _ _) H47), (proj2 (Z.eqb_neq _ _) H91). }
      apply wp_bind, wp_putc; [by apply (took_some _ _ _ Ht)|].
      apply IH; [|done|change (chars (with_out [c] (with_a c s1))) with (chars (with_a c s1)); lia|].
      { intros Ho. apply Hbl. rewrite (copied_chars _ _ _ _ Hc). apply (open_regex_cons false false); [by right|done|exact Ho]. }
      intros body s2 Hc2 Hbody Hn2 Ha. apply (HQ (c :: body)); [|by rewrite Hstep|done|done].
      apply (copied_trans _ _ _ _ _ _ _ Hc (copied_trans _ _ _ _ _ _ _ (copied_put (with_a c s1) c Hs1) Hc2)).
    + subst c. assert (Hc := copied_take _ _ _ Ht ltac:(done)). assert (Hl := copied_length _ _ _ _ Hc). cbn [length] in Hl.
      destruct (Z.eqb_spec d EOF) as [->|Hne].
      { apply wp_error, Hbl. rewrite (took_chars _ _ _ Ht). apply (took_end_regex _ _ false Ht2). }
      destruct (copied_turn (with_a 92 s1) 92 d s2 Hs1 Ht2 Hne) as (Hgd & Hc2 & Hl2).
      assert (Hs2 : sane (with_a d s2)) by apply Ht2.
      apply wp_bind, wp_putc; [done|].
      apply IH; [|done|change (chars (with_out [d] (with_a d s2))) with (chars (with_a d s2))|].
      { intros Ho. apply Hbl. rewrite (copied_chars _ _ _ _ Hc), (copied_chars _ _ _ _ Hc2). by apply open_regex_escape. }
      { assert (Hx := Hl2 (length (chars s)) ltac:(lia)). lia. }
      intros body s3 Hc3 Hbody Hn3 Ha. apply (HQ (92 :: d :: body)); [|done|done|done].
      apply (copied_trans _ _ _ _ _ _ _ Hc (copied_trans _ _ _ _ _ _ _ Hc2
        (copied_trans _ _ _ _ _ _ _ (copied_put (with_a d s2) d Hs2) Hc3))).
Qed.

End wp.

(** ** A text has one reading at most *)

Lemma str_body_unique q b1 b2 r1 r2 :
  q <> 92 -> str_body q b1 = true -> str_body q b2 = true -> b1 ++ q :: r1 = b2 ++ q :: r2 -> b1 = b2.
Proof.
  intros Hq. remember (length b1) as n eqn:Hn. revert b1 b2 Hn.
  induction (Nat.lt_wf_0 n) as [n _ IH]; intros b1 b2 -> H1 H2 E.
  assert (Hqq : forall b, str_body q (q :: b) = false) by (intros b; cbn; by rewrite (proj2 (Z.eqb_neq _ _) Hq), Z.eqb_refl).
  destruct b1 as [|c b1], b2 as [|d b2]; simplify_eq/=; [done|by rewrite Hqq in H2|by rewrite Hqq in H1|].
  destruct (Z.eqb_spec d 92) as [->|Hd].
  - destruct b1 as [|x b1], b2 as [|y b2]; try done. simplify_eq/=. do 2 f_equal. by apply (IH (length b1)); [lia|..].
  - apply andb_prop in H1 as [_ H1]. apply andb_prop in H2 as [_ H2]. f_equal. by apply (IH (length b1)); [lia|..].
Qed.

Lemma regex_body_unique b b1 b2 r1 r2 :
  regex_body b b1 = true -> regex_body b b2 = true -> b1 ++ 47 :: r1 = b2 ++ 47 :: r2 -> b1 = b2.
Proof.
  remember (length b1) as n eqn:Hn. revert b b1 b2 Hn.
  induction (Nat.lt_wf_0 n) as [n _ IH]; intros b b1 b2 -> H1 H2 E.
  assert (Hslash : forall l, regex_body b [] = true -> regex_body b (47 :: l) = false) by by destruct b.
  destruct b1 as [|c b1], b2 as [|d b2]; simplify_eq/=; [done|by rewrite (Hslash b2) in H2|by rewrite (Hslash b1) in H1|].
  destruct (Z.eqb_spec d 92) as [->|Hd].
  - destruct b1 as [|x b1], b2 as [|y b2]; try done. simplify_eq/=. do 2 f_equal. by apply (IH (length b1) ltac:(lia) b).
  - destruct b; [f_equal; by apply (IH (length b1) ltac:(lia) (negb (d =? 93)))|].
    apply andb_prop in H1 as [_ H1]. apply andb_prop in H2 as [_ H2]. f_equal. by apply (IH (length b1) ltac:(lia) (d =? 91)).
Qed.

Lemma closed_unique b1 : forall b2 r1 r2,
  closed b1 = false -> closed b2 = false -> b1 ++ 42 :: 47 :: r1 = b2 ++ 42 :: 47 :: r2 -> b1 = b2.
Proof.
  induction b1 as [|c b1 IH]; intros [|d b2] r1 r2 H1 H2 E; [done|destruct b2; by simplify_eq/=|destruct b1; by simplify_eq/=|].
  simplify_eq/=. apply orb_false_elim in H1 as [_ H1]. apply orb_false_elim in H2 as [_ H2]. f_equal. by apply (IH b2 r1 r2).
Qed.

Lemma line_unique b1 : forall b2 r1 r2,
  forallb (fun c => 10 <? c) b1 = true -> forallb (fun c => 10 <? c) b2 = true ->
  match r1 with c :: _ => c =? 10 | [] => true end = true -> match r2 with c :: _ => c =? 10 | [] => true end = true ->
  b1 ++ r1 = b2 ++ r2 -> b1 = b2.
Proof.
  induction b1 as [|c b1 IH]; intros [|d b2] r1 r2 H1 H2 E1 E2 E; [done|..]; cbn in H1, H2, E.
  - subst r1. apply andb_prop in H2 as [H2 _]. lia.
  - subst r2. apply andb_prop in H1 as [H1 _]. lia.
  - injection E as -> E. apply andb_prop in H1 as [_ H1]. apply andb_prop in H2 as [_ H2]. f_equal. by apply (IH b2 r1 r2).
Qed.

(** What the first character of a token excludes. *)
Lemma lexed_char_slash p rest : lexed p (Char 47) rest = true -> one_of "/*" (head_of rest) = false /\ slash_regex p = false.
Proof. unfold lexed. cbn [token_ok]. intros H. destruct (one_of "/*" (head_of rest)), (slash_regex p); done. Qed.

Lemma lexed_regex p body rest : lexed p (Regex body) rest = true ->
  regex_body false body = true /\ slash_regex p = true /\ one_of "/*" (head_of rest) = false /\
  exists c b, body = c :: b /\ one_of "/*" c = false.
Proof.
  unfold lexed. cbn [token_ok]. intros [Hb [[Hs H1%negb_true_iff]%andb_prop H2%negb_true_iff]%andb_prop]%andb_prop.
  split_and!; [done..|]. destruct body as [|c b]; [done|]. by exists c, b.
Qed.

Lemma lexed_char_quote p c rest : lexed p (Char c) rest = true -> is_quote c = false.
Proof. unfold lexed. cbn [token_ok]. by destruct (is_quote c). Qed.

(** The tokens that start with a slash. *)
Lemma lexed_slash p t1 t2 l1 l2 r1 r2 :
  lexed p t1 r1 = true -> lexed p t2 r2 = true -> text t1 = 47 :: l1 -> text t2 = 47 :: l2 -> l1 ++ r1 = l2 ++ r2 -> t1 = t2.
Proof.
  intros H1 H2 T1 T2 E.
  assert (Hq : forall q, is_quote q = true -> q <> 47) by (intros q; unfold is_quote; lia).
  destruct t1 as [c|q b1|b1|b1|b1], t2 as [d|q' b2|b2|b2|b2]; simplify_eq/=; try done;
    try (by apply andb_prop in H1 as [[Hx _]%andb_prop _]; destruct (Hq _ Hx));
    try (by apply andb_prop in H2 as [[Hx _]%andb_prop _]; destruct (Hq _ Hx)).
  - apply lexed_char_slash in H1 as [_ H1]. apply lexed_regex in H2 as (_ & H2 & _). congruence.
  - apply lexed_char_slash in H2 as [_ H2]. apply lexed_regex in H1 as (_ & H1 & _). congruence.
  - apply lexed_regex in H1 as (H1 & _). apply lexed_regex in H2 as (H2 & _). f_equal.
    rewrite <- !app_assoc in E. by apply (regex_body_unique false b1 b2 r1 r2).
  - apply lexed_regex in H1 as (_ & _ & _ & c & b & -> & Hc). by simplify_eq/=.
  - apply lexed_regex in H1 as (_ & _ & _ & c & b & -> & Hc). by simplify_eq/=.
  - apply lexed_regex in H2 as (_ & _ & _ & c & b & -> & Hc). by simplify_eq/=.
  - apply andb_prop in H1 as [H1 L1]. apply andb_prop in H2 as [H2 L2]. f_equal. by apply (line_unique b1 b2 r1 r2).
  - apply lexed_regex in H2 as (_ & _ & _ & c & b & -> & Hc). by simplify_eq/=.
  - apply andb_prop in H1 as [H1%negb_true_iff _]. apply andb_prop in H2 as [H2%negb_true_iff _]. f_equal.
    rewrite <- !app_assoc in E. by apply (closed_unique b1 b2 r1 r2).
Qed.

Lemma lexed_unique p t1 t2 r1 r2 :
  lexed p t1 r1 = true -> lexed p t2 r2 = true -> text t1 ++ r1 = text t2 ++ r2 -> t1 = t2.
Proof.
  intros H1 H2 E.
  assert (Hf : forall t, exists c l, text t = c :: l /\ (c = 47 \/ (exists q b, t = Str q b) \/ t = Char c)).
  { intros [c|q b|b|b|b]; cbn; eauto 10. }
  destruct (Hf t1) as (c & l1 & T1 & K1), (Hf t2) as (d & l2 & T2 & K2).
  assert (c = d /\ l1 ++ r1 = l2 ++ r2) as [<- El] by (rewrite T1, T2 in E; by injection E).
  destruct (decide (c = 47)) as [->|Hc]; [by apply (lexed_slash p t1 t2 l1 l2 r1 r2)|].
  destruct K1 as [?|[(q & b1 & ->)| ->]]; [done|..]; (destruct K2 as [?|[(q' & b2 & ->)| ->]]; [done|..]); simplify_eq/=; [| | |done].
  - apply andb_prop in H1 as [[Hq H1]%andb_prop _]. apply andb_prop in H2 as [[_ H2]%andb_prop _]. f_equal.
    rewrite <- !app_assoc in El. apply (str_body_unique c b1 b2 r1 r2); [by intros ->|done..].
  - apply lexed_char_quote in H2. apply andb_prop in H1 as [[H1 _]%andb_prop _]. congruence.
  - apply lexed_char_quote in H1. apply andb_prop in H2 as [[H2 _]%andb_prop _]. congruence.
Qed.

Lemma text_not_nil t : text t <> [].
Proof. by destruct t. Qed.

(** A reading extends every beginning of one. *)
Lemma lexes_extends seen : forall p r ts,
  lexes p seen r = true -> lexes p ts [] = true -> texts ts = texts seen ++ r ->
  exists more, ts = seen ++ more /\ texts more = r /\ lexes (foldl moved p seen) more [] = true.
Proof.
  induction seen as [|t seen IH]; intros p r ts H1 H2 E; [by exists ts|].
  destruct ts as [|u ts].
  { exfalso. unfold texts in E. cbn in E. destruct (text t) eqn:Et; [by apply (text_not_nil t)|done]. }
  cbn [lexes] in H1, H2. apply andb_prop in H1 as [H1 L1]. apply andb_prop in H2 as [H2 L2].
  assert (E' : text t ++ (texts seen ++ r) = text u ++ (texts ts ++ [])).
  { rewrite app_nil_r. unfold texts in *. cbn in E. by rewrite <- app_assoc in E. }
  assert (t = u) as <- by by apply (lexed_unique p t u _ _ H1 H2). apply app_inv_head in E'. rewrite app_nil_r in E'.
  destruct (IH (moved p t) r ts L1 L2 (eq_sym E')) as (more & -> & Hm & Hl). by exists more.
Qed.

(** The tokens of a text are unique. *)
Lemma tokens_unique source ts1 ts2 : tokens source ts1 -> tokens source ts2 -> ts1 = ts2.
Proof.
  intros [T1 L1] [T2 L2]. destruct (lexes_extends ts1 origin [] ts2 L1 L2) as (more & -> & Hm & _); [by rewrite app_nil_r, T1|].
  destruct more as [|t more]; [by rewrite app_nil_r|]. exfalso. unfold texts in Hm. cbn in Hm.
  apply app_eq_nil in Hm as [Hm _]. by apply (text_not_nil t).
Qed.

(** A text without a reading. *)
Lemma stuck source seen r :
  source = texts seen ++ r -> lexes origin seen r = true -> r <> [] ->
  (forall t rest, r = text t ++ rest -> lexed (foldl moved origin seen) t rest = false) -> forall ts, ~ tokens source ts.
Proof.
  intros -> Hl Hr Hs ts [T L]. destruct (lexes_extends seen origin r ts Hl L T) as ([|t more] & -> & Hm & Hmore).
  - by destruct Hr.
  - cbn [lexes] in Hmore. apply andb_prop in Hmore as [Hmore _]. rewrite app_nil_r in Hmore.
    rewrite (Hs t (texts more)) in Hmore; [done|]. by rewrite <- Hm.
Qed.

Lemma texts_app l1 l2 : texts (l1 ++ l2) = texts l1 ++ texts l2.
Proof. unfold texts. by rewrite map_app, concat_app. Qed.

Lemma lexes_app ts1 ts2 : forall p r,
  lexes p (ts1 ++ ts2) r = lexes p ts1 (texts ts2 ++ r) && lexes (foldl moved p ts1) ts2 r.
Proof.
  induction ts1 as [|t ts1 IH]; intros p r; cbn [app lexes foldl]; [done|].
  by rewrite IH, texts_app, <- app_assoc, andb_assoc.
Qed.

Lemma minified_app ts1 ts2 : forall p, minified p (ts1 ++ ts2) = minified p ts1 ++ minified (foldl moved p ts1) ts2.
Proof. induction ts1 as [|t ts1 IH]; intros p; cbn [app minified foldl]; [done|]. by rewrite IH, app_assoc. Qed.

(** ** The characters in hand and their tokens *)

(** The character in [the_b], in front of [r], and the token that starts with it;
    a block comment reads as a space. *)
Inductive ahead (r : list Z) : Z -> list token -> Prop :=
| ahead_end : ahead r EOF []
| ahead_char c : good c -> (c = 47 -> one_of "/*" (head_of r) = false) -> ahead r c [Char c]
| ahead_gap body : closed body = false -> ahead r 32 [Block body].

(** Tokens in front of [r] that leave no trace. *)
Definition skipped (toks : list token) (r : list Z) : Prop :=
  forall p, lexes p toks r = true /\ foldl moved p toks = p /\ minified p toks = [].

Definition alive (c : Z) : nat := if c =? EOF then 0%nat else 1%nat.

(** Reading one character: [toks] are skipped, [c] starts the tokens [tb]. *)
Record nexted (before : list Z) (c : Z) (toks tb : list token) (s' : jstate) : Prop := {
  nexted_chars : before = texts toks ++ texts tb ++ chars s';
  nexted_skipped : skipped toks (texts tb ++ chars s');
  nexted_ahead : ahead (chars s') c tb;
  nexted_sane : sane s';
  nexted_end : c = EOF -> chars s' = [];
  nexted_slash : c = 47 -> head_of before = 47;
  nexted_length : (length (chars s') + alive c <= length before)%nat
}.

(** [next] returned [c] and keeps the one before it. *)
Record turned (s : jstate) (c : Z) (s' : jstate) : Prop := {
  turned_a : the_a s' = the_a s;
  turned_b : the_b s' = the_b s;
  turned_x : the_x s' = c;
  turned_y : the_y s' = the_x s;
  turned_out : out s' = out s;
  turned_err : err s' = err s
}.

Lemma skipped_nil r : skipped [] r.
Proof. done. Qed.

Lemma skipped_line body r :
  forallb (fun c => 10 <? c) body = true -> match r with c :: _ => c =? 10 | [] => true end = true -> skipped [Line body] r.
Proof.
  intros Hb Hr p. split; [|done]. cbn [lexes]. unfold lexed. cbn [token_ok texts map concat app]. by rewrite Hb, Hr.
Qed.

Section Next.
Context (blame : Prop).
Local Abbreviation wp := (Jsmin.wp blame).

Lemma wp_skip_comment fuel (Q : Z -> jstate -> Prop) s :
  (forall l, chars s = 42 :: l -> open_comment l -> blame) -> sane s -> (length (chars s) < fuel)%nat ->
  (forall c toks tb s', nexted (47 :: chars s) c toks tb s' -> frame s s' -> Q c s') ->
  wp Q (skip_comment fuel) s.
Proof.
  intros Hbl Hs Hf HQ. apply wp_bind, wp_peek; [done|]. intros s2 Hc2 Hs2 Hf2.
  rewrite <- Hc2 in *.
  destruct (Z.eqb_spec (head_of (chars s2)) 47) as [Hp|Hp47]; [|destruct (Z.eqb_spec (head_of (chars s2)) 42) as [Hp|Hp42]].
  - apply wp_line_loop; [done|lia|]. intros body d s3 Hb3 Hall Hd Hs3 Hf3.
    destruct body as [|x body].
    { exfalso. rewrite Hb3 in Hp. cbn in Hp. destruct Hd as [[-> Hd]| ->]; [by rewrite Hd in Hp|done]. }
    rewrite Hb3 in Hp. cbn in Hp. subst x. cbn in Hall.
    apply (HQ d [Line body] (if d =? EOF then [] else [Char d])); [split|by eapply frame_trans].
    + rewrite Hb3. unfold chr, texts. case_match; cbn; by rewrite ?app_nil_r.
    + apply skipped_line; [done|]. destruct Hd as [[-> Hd]| ->]; [|done]. cbn. by rewrite Hd.
    + destruct Hd as [[-> _]| ->]; constructor; [by split|done].
    + done.
    + intros ->. by destruct Hd as [[_ ?]|?].
    + done.
    + rewrite Hb3. unfold alive, chr. case_match; cbn; rewrite length_app; cbn; lia.
  - apply wp_bind, wp_get; [done|]. intros d s3 Ht3. assert (Hd := took_head _ _ _ Ht3). rewrite Hp in Hd. subst d.
    destruct (took_some _ _ _ Ht3) as [_ Hc3]; [done|].
    apply wp_block_loop; [intros Ho; by apply (Hbl (chars s3))|apply Ht3|rewrite Hc3 in Hf; cbn in Hf; lia|].
    intros body s4 Hb4 Hcl Hs4 Hf4.
    apply (HQ 32 [] [Block body]); [split; [| |by constructor|done|done|done|]|].
    + rewrite Hc3, Hb4. unfold texts. cbn. rewrite app_nil_r. by rewrite <- !app_assoc.
    + apply skipped_nil.
    + rewrite Hc3, Hb4. cbn. rewrite length_app. cbn. lia.
    + eapply frame_trans, Hf4. eapply frame_trans, (took_frame _ _ _ Ht3). done.
  - apply wp_ret, (HQ 47 [] [Char 47]); [|done]. split; try done; [|cbn; lia]. constructor; [by split|]. intros _.
    unfold one_of. change (cs "/*") with [47; 42]. cbn [existsb].
    by rewrite (proj2 (Z.eqb_neq _ _) Hp47), (proj2 (Z.eqb_neq _ _) Hp42).
Qed.

Lemma wp_next fuel (Q : Z -> jstate -> Prop) s :
  sane s -> (length (chars s) < fuel)%nat -> (forall l, chars s = 47 :: 42 :: l -> open_comment l -> blame) ->
  (forall c toks tb s', nexted (chars s) c toks tb s' -> turned s c s' -> Q c s') -> wp Q (next fuel) s.
Proof.
  intros Hs Hf Hbl HQ. apply wp_bind, wp_get; [done|]. intros c s1 Ht. apply wp_bind.
  apply (wp_mono _ (fun c s' => exists toks tb, nexted (chars s) c toks tb s' /\ frame s s')).
  { intros d s' (toks & tb & [H1 H2 H3 H4 H5 H6 H7] & []). apply wp_bind, wp_read, wp_bind, wp_modify, wp_ret.
    by apply (HQ d toks tb). }
  assert (Hs1 := took_sane _ _ _ Ht). assert (Hf1 := took_frame _ _ _ Ht).
  destruct (Z.eqb_spec c 47) as [->|H47].
  - destruct (took_some _ _ _ Ht) as [Hg Hc]; [done|]. rewrite Hc in *.
    apply wp_skip_comment; [intros l El; apply Hbl; by rewrite El|done|cbn in Hf; lia|].
    intros d toks tb s' Hn Hfr. exists toks, tb. split; [done|]. by eapply frame_trans.
  - apply wp_ret. destruct (decide (c = EOF)) as [->|Hne].
    + exists [], []. split; [|done]. destruct Ht as [Hc He _ _ _ _]. split; try done; [constructor|]. rewrite Hc, He; done.
    + exists [], [Char c]. split; [|done]. destruct (took_some _ _ _ Ht Hne) as [Hg Hc]. split; try done; [by constructor|].
      rewrite Hc. unfold alive. case_match; cbn; lia.
Qed.
End Next.

(** ** The character in [the_a] and the place *)

(** The last character of a token, or a whitespace that may yet be printed. *)
Definition hand (p : place) : Z :=
  let '(a, ws) := p in
  if a =? 10 then 10
  else match last ws with
  | None => a
  | Some _ => if newline_in ws && (is_alphanum a || ender a) then 10 else if is_alphanum a then 32 else a
  end.

Definition place_ok (p : place) : Prop := (p.1 = 10 \/ white p.1 = false /\ good p.1) /\ forallb white p.2 = true.

Lemma newline_in_snoc ws b : newline_in (ws ++ [b]) = newline_in ws || (b =? 10).
Proof. unfold newline_in. rewrite existsb_app. cbn. by rewrite orb_false_r, (Z.eqb_sym b 10). Qed.

Lemma alphanum_black c : is_alphanum c = true -> regex_context c = false /\ is_operator c = false /\ white c = false.
Proof.
  intros Hc. assert (H : forall set, forallb (fun x => negb (is_alphanum x)) (cs set) = true -> one_of set c = false).
  { intros set Hs. destruct (one_of set c) eqn:E; [|done]. apply existsb_exists in E as (x & Hx & <-%Z.eqb_eq).
    rewrite forallb_forall in Hs. specialize (Hs c Hx). by rewrite Hc in Hs. }
  split_and!; [by apply H..|]. unfold white. destruct (Z.eqb_spec c 32) as [->|]; [done|]. by destruct (Z.eqb_spec c 10) as [->|].
Qed.

Lemma white_facts c : white c = true -> regex_context c = false /\ is_operator c = false /\ is_alphanum c = false /\ is_quote c = false /\ c <> 47 /\ c <> EOF.
Proof.
  unfold white, EOF. destruct (Z.eqb_spec c 32) as [->|]; [done|]. by destruct (Z.eqb_spec c 10) as [->|].
Qed.

Lemma hand_ok p : place_ok p -> good (hand p) /\ (white (hand p) = false -> hand p = p.1).
Proof.
  destruct p as [a ws]. intros [[Ha|[Hw Hg]] _]; cbn in *.
  - subst a. by split; [split|].
  - destruct (Z.eqb_spec a 10) as [->|]; [done|]. destruct (last ws); [|done]. repeat case_match; by split; try by split.
Qed.

Lemma hand_regex p : regex_context (hand p) = slash_regex p.
Proof.
  destruct p as [a ws]. unfold slash_regex, hand. cbn [fst snd]. destruct (Z.eqb_spec a 10) as [->|]; [done|].
  destruct (last ws) as [w|] eqn:El.
  - pose proof (alphanum_black a) as Ha. destruct (is_alphanum a).
    + destruct (Ha eq_refl) as (-> & _). rewrite orb_true_l, andb_true_r. by destruct (newline_in ws).
    + rewrite orb_false_l. destruct (newline_in ws && ender a); by rewrite ?andb_false_r, ?andb_true_r.
  - apply last_None in El as ->. by rewrite andb_true_r.
Qed.

Lemma gap_end p : gap p EOF = [].
Proof. destruct p as [a ws]. unfold gap. destruct (a =? 10); [done|]. destruct (last ws); [|done]. repeat case_match; try done.
  by rewrite andb_false_r in *. Qed.

(** The choice on a line of its own, after a space, and after anything else. *)
Lemma choice_newline b : choice 10 b = if b =? 32 then 3 else if starter b then 1 else 2.
Proof.
  unfold choice, starter. destruct (Z.eqb_spec b 32) as [->|]; [done|]. change (10 =? 32) with false. change (10 =? 10) with true. cbv iota.
  by destruct (one_of _ b), (is_alphanum b).
Qed.

Lemma choice_space b : choice 32 b = if is_alphanum b then 1 else 2.
Proof. done. Qed.

Lemma choice_other a b : white a = false ->
  choice a b = if b =? 32 then if is_alphanum a then 1 else 3
               else if b =? 10 then if is_alphanum a || ender a then 1 else 3 else 1.
Proof.
  unfold white, choice, ender. intros [-> ->]%orb_false_elim. destruct (b =? 32); [done|]. destruct (b =? 10); [|done].
  by destruct (one_of _ a || (a =? 34)), (is_alphanum a).
Qed.

(** What an action does with whitespace. *)
Lemma choice_white p b : place_ok p -> white b = true ->
  choice (hand p) b = 1 /\ white (hand p) = false /\ hand (p.1, p.2 ++ [b]) = b \/
  choice (hand p) b = 2 /\ white (hand p) = true /\ hand (p.1, p.2 ++ [b]) = b \/
  choice (hand p) b = 3 /\ hand (p.1, p.2 ++ [b]) = hand p.
Proof.
  destruct p as [a ws]. intros [Ha _] Hb. cbn [fst snd] in *. unfold hand. rewrite last_snoc, newline_in_snoc.
  assert (Hb' : b = 32 \/ b = 10) by (unfold white in Hb; lia).
  destruct (Z.eqb_spec a 10) as [->|Hne].
  { rewrite choice_newline. destruct Hb' as [->| ->]; [by right; right|by right; left]. }
  assert (Hwa : white a = false) by (destruct Ha as [?|[? _]]; done).
  assert (Hn : last ws = None -> newline_in ws = false) by by intros ->%last_None.
  destruct (last ws) as [w|] eqn:El; [clear Hn|rewrite (Hn eq_refl)].
  - destruct (newline_in ws && (is_alphanum a || ender a)) eqn:E.
    { apply andb_prop in E as [-> ->]. rewrite choice_newline. destruct Hb' as [->| ->]; [by right; right|by right; left]. }
    destruct (is_alphanum a) eqn:Eal.
    + rewrite choice_space. rewrite orb_true_l, andb_true_r in E |- *. rewrite E. destruct Hb' as [->| ->]; by right; left.
    + rewrite (choice_other a b Hwa), Eal. rewrite orb_false_l in E |- *.
      destruct Hb' as [->| ->]; cbn [Z.eqb Pos.eqb orb]; rewrite ?orb_false_r, ?orb_true_r, ?E; [by right; right|].
      destruct (ender a); [by left|by right; right].
  - rewrite (choice_other a b Hwa). destruct Hb' as [->| ->]; cbn [Z.eqb Pos.eqb orb andb].
    + destruct (is_alphanum a); [by left|by right; right].
    + destruct (is_alphanum a || ender a) eqn:E; [by left|]. apply orb_false_elim in E as [-> _]. by right; right.
Qed.

(** What an action prints in front of anything else. *)
Lemma choice_black p b : place_ok p -> white b = false ->
  choice (hand p) b = 1 /\
    gap p b = (if white (hand p) then [hand p] else []) ++
      (match last p.2 with Some w => if is_operator (hand p) && is_operator b then [w] else [] | None => [] end) \/
  choice (hand p) b = 2 /\ white (hand p) = true /\ gap p b = [].
Proof.
  destruct p as [a ws]. intros [Ha _] Hb. cbn [fst snd] in *. unfold hand, gap. cbn [fst snd].
  assert (Hb' : (b =? 32) = false /\ (b =? 10) = false) by by apply orb_false_elim. destruct Hb' as [H32 H10].
  assert (Hop : forall w, (if is_operator 10 && is_operator b then [w] else []) = @nil Z) by done.
  destruct (Z.eqb_spec a 10) as [->|Hne].
  { rewrite choice_newline, H32. destruct (starter b); [left; by destruct (last ws)|by right]. }
  assert (Hwa : white a = false) by (destruct Ha as [?|[? _]]; done).
  destruct (last ws) as [w|].
  - destruct (newline_in ws && (is_alphanum a || ender a)).
    { rewrite choice_newline, H32. destruct (starter b); [by left|by right]. }
    destruct (is_alphanum a); [rewrite choice_space; destruct (is_alphanum b); [by left|by right]|].
    rewrite (choice_other a b Hwa), H32, H10, Hwa. by left.
  - rewrite (choice_other a b Hwa), H32, H10, Hwa. by left.
Qed.

(** ** The invariant of the main loop *)

Section Program.
Context (source header : list Z).
Local Abbreviation blame := (forall ts, ~ tokens source ts).
Local Abbreviation wp := (Jsmin.wp blame).

Definition place_of (seen : list token) : place := foldl moved origin seen.

(** [seen] are the first tokens of the source, [r] is the text after them. *)
Definition reading (seen : list token) (r : list Z) : Prop :=
  source = texts seen ++ r /\ lexes origin seen r = true /\ place_ok (place_of seen).

Lemma reading_token seen t r :
  reading seen (text t ++ r) -> lexed (place_of seen) t r = true -> place_ok (moved (place_of seen) t) ->
  reading (seen ++ [t]) r /\ place_of (seen ++ [t]) = moved (place_of seen) t /\
  minified origin (seen ++ [t]) = minified origin seen ++ shown (place_of seen) t.
Proof.
  intros (Hs & Hl & _) Ht Hp. assert (Hpl : place_of (seen ++ [t]) = moved (place_of seen) t) by (unfold place_of; by rewrite foldl_app).
  assert (Htx : texts [t] = text t) by (unfold texts; cbn; by rewrite app_nil_r).
  split; [split; [|split]|split; [done|by rewrite minified_app; cbn; rewrite app_nil_r]].
  - by rewrite texts_app, Hs, Htx, <- app_assoc.
  - rewrite lexes_app, Htx, Hl. cbn [lexes texts map concat app]. unfold place_of in Ht. by rewrite Ht.
  - by rewrite Hpl.
Qed.

Lemma reading_skipped seen toks r :
  reading seen (texts toks ++ r) -> skipped toks r ->
  reading (seen ++ toks) r /\ place_of (seen ++ toks) = place_of seen /\ minified origin (seen ++ toks) = minified origin seen.
Proof.
  intros (Hs & Hl & Hp) Ht. destruct (Ht (place_of seen)) as (H1 & H2 & H3). unfold place_of in *.
  split; [split; [by rewrite texts_app, Hs, <- app_assoc|split; [by rewrite lexes_app, Hl, H1|]]|split].
  - unfold place_of. by rewrite foldl_app, H2.
  - by rewrite foldl_app.
  - by rewrite minified_app, H3, app_nil_r.
Qed.

(** Whitespace in hand. *)
Lemma reading_white seen b tb r :
  reading seen (texts tb ++ r) -> ahead r b tb -> white b = true ->
  let p := place_of seen in
  reading (seen ++ tb) r /\ place_of (seen ++ tb) = (p.1, p.2 ++ [b]) /\ minified origin (seen ++ tb) = minified origin seen.
Proof.
  intros Hr Hah Hw p.
  assert (Ht : exists t, tb = [t] /\ moved p t = (p.1, p.2 ++ [b]) /\ shown p t = [] /\ lexed p t r = true).
  { inversion Hah as [E|c Hg E|body Hc E]; subst; [done|exists (Char b)|exists (Block body)].
    - cbn [moved shown]. rewrite Hw. split_and!; [done..|]. unfold lexed. cbn.
      destruct (white_facts b Hw) as (_ & _ & _ & -> & H47 & _). by rewrite (proj2 (Z.eqb_neq _ _) H47).
    - split_and!; [done..|]. unfold lexed. cbn. by rewrite Hc. }
  destruct Ht as (t & -> & Hm & Hs & Hl). unfold texts in Hr. cbn in Hr. rewrite app_nil_r in Hr.
  destruct (reading_token seen t r Hr Hl) as (H1 & H2 & H3).
  { unfold p in Hm. rewrite Hm. destruct Hr as (_ & _ & [Hp Hws]). split; [done|]. cbn [snd]. rewrite forallb_app. by rewrite Hws; cbn; rewrite Hw. }
  rewrite H2, H3. unfold p in *. by rewrite Hm, Hs, app_nil_r.
Qed.

(** What is not printed yet of the character in [the_a]. *)
Definition pending (c : Z) : list Z := if white c || (c =? EOF) then [] else [c].

(** The character that [next] returned last. *)
Definition last_read (p : place) (x : Z) : Prop := match last p.2 with Some w => x = w | None => white x = false end.

(** The state between two actions: everything up to [the_a] is read, and printed but
    for [the_a] itself. *)
Record held (seen : list token) (r : list Z) (s : jstate) : Prop := {
  held_reading : reading seen r;
  held_a : the_a s = EOF \/ the_a s = hand (place_of seen);
  held_out : out s ++ pending (the_a s) = header ++ minified origin seen;
  held_err : err s = [];
  held_sane : sane s
}.

(** Before [the_b] is read. *)
Definition ready (s : jstate) : Prop :=
  (the_a s = EOF -> chars s = []) /\
  exists seen, held seen (chars s) s /\ (the_a s <> EOF -> last_read (place_of seen) (the_x s)).

Definition inv (s : jstate) : Prop :=
  (the_a s = EOF -> the_b s = EOF) /\ (the_b s = EOF -> chars s = []) /\ the_x s = the_b s /\
  exists seen tb, held seen (texts tb ++ chars s) s /\ ahead (chars s) (the_b s) tb /\
    (the_a s <> EOF -> last_read (place_of seen) (the_y s)).

(** A slash in [the_b] does not start a regular expression. *)
Definition settled (s : jstate) : Prop := inv s /\ (the_b s = 47 -> regex_context (the_a s) = false).

(** A comment that does not end. *)
Lemma blame_comment seen l : reading seen (47 :: 42 :: l) -> open_comment l -> blame.
Proof.
  intros (Hs & Hl & _) Ho. apply (stuck source seen _ Hs Hl); [done|]. intros t rest E. apply not_true_is_false. intros Hx.
  destruct t as [c|q b|b|b|b]; cbn in E; simplify_eq/=.
  - apply lexed_regex in Hx as (_ & _ & _ & c & b' & -> & Hc). by simplify_eq/=.
  - apply andb_prop in Hx as [Hx _]. cbn in Hx. rewrite (Ho b rest) in Hx; [done|]. by rewrite <- app_assoc.
Qed.

(** A string that does not end. *)
Lemma blame_string seen q l : is_quote q = true -> reading seen (q :: l) -> open_string q l -> blame.
Proof.
  intros Hq (Hs & Hl & _) Ho. apply (stuck source seen _ Hs Hl); [done|]. intros t rest E. apply not_true_is_false. intros Hx.
  destruct t as [c|q' b|b|b|b]; cbn in E; simplify_eq/=.
  - apply lexed_char_quote in Hx. congruence.
  - apply andb_prop in Hx as [[_ Hx]%andb_prop _]. rewrite (Ho b rest) in Hx; [done|]. by rewrite <- app_assoc.
Qed.

(** A regular expression that does not end. *)
Lemma blame_regex seen l :
  slash_regex (place_of seen) = true -> one_of "/*" (head_of l) = false -> reading seen (47 :: l) -> open_regex false l -> blame.
Proof.
  intros Hp Hh (Hs & Hl & _) Ho. apply (stuck source seen _ Hs Hl); [done|]. intros t rest E. apply not_true_is_false. intros Hx.
  destruct t as [c|q b|b|b|b]; cbn in E; simplify_eq/=.
  - apply lexed_char_slash in Hx as [_ Hx]. unfold place_of in Hp. congruence.
  - apply lexed_regex in Hx as (Hb & _ & Hr & _). rewrite (Ho b rest) in Hr; [done| |done]. by rewrite <- app_assoc.
Qed.

(** The end of [action_next]: the next character goes to [the_b]. *)
Lemma wp_load fuel (Q : unit -> jstate -> Prop) s :
  ready s -> (length (chars s) < fuel)%nat ->
  (forall s', inv s' -> the_a s' = the_a s ->
    (length (chars s') + alive (the_b s') <= length (chars s))%nat -> (the_b s' = 47 -> head_of (chars s) = 47) -> Q tt s') ->
  wp Q (c ← next fuel; set_b c) s.
Proof.
  intros (Ha & seen & [Hrd Hha Hho Hhe Hhs] & Hlast) Hf HQ.
  apply wp_bind, wp_next; [done|done|intros l El; rewrite El in Hrd; by apply (blame_comment seen)|].
  intros c toks tb s' [Hc Hsk Hah Hs' Hend Hsl Hlen] [Hta _ Htx Hty Hto Hte]. rewrite Hc in Hrd.
  apply wp_modify, HQ; [|done|done|done]. split; [|split; [done|split; [done|]]].
  - intros Hx. cbn in Hx. rewrite Hta in Hx. apply Ha in Hx. rewrite Hx in Hlen. cbn.
    unfold alive in Hlen. destruct (Z.eqb_spec c EOF); [done|cbn in Hlen; lia].
  - destruct (reading_skipped _ _ _ Hrd Hsk) as (Hrd' & Hpl & Hmin). exists (seen ++ toks), tb. split; [|split; [done|]].
    + split; cbn; rewrite ?Hta, ?Hto, ?Hte, ?Hpl, ?Hmin; done.
    + cbn. by rewrite Hta, Hty, Hpl.
Qed.

(** [the_a] and the whitespace in front of [the_b] are printed. *)
Lemma held_flushed seen r s : held seen r s -> the_a s <> EOF ->
  the_a s = hand (place_of seen) /\ good (the_a s) /\
  out s ++ [the_a s] = header ++ minified origin seen ++ (if white (the_a s) then [the_a s] else []).
Proof.
  intros [(_ & _ & Hp) [?|Ha] Ho _ _] Hne; [done|]. split; [done|]. split; [rewrite Ha; by apply hand_ok|].
  unfold pending in Ho. rewrite (proj2 (Z.eqb_neq _ _) Hne), orb_false_r in Ho.
  destruct (white (the_a s)); [rewrite app_nil_r in Ho; by rewrite Ho, <- app_assoc|by rewrite Ho, app_nil_r].
Qed.

(** A literal that was copied up to its last character is in hand. *)
Lemma hold_literal seen t q r s' :
  reading seen (text t ++ r) -> lexed (place_of seen) t r = true -> moved (place_of seen) t = (q, []) ->
  white q = false -> good q -> the_a s' = q -> out s' ++ [q] = header ++ minified origin seen ++ shown (place_of seen) t ->
  err s' = [] -> sane s' -> chars s' = r -> white (the_x s') = false -> ready s'.
Proof.
  intros Hr Hl Hm Hq Hg Ha Ho He Hs <- Hx. assert (Hne := good_not_EOF q Hg). split; [by rewrite Ha|]. exists (seen ++ [t]).
  destruct (reading_token seen t (chars s') Hr Hl) as (H1 & H2 & H3).
  { rewrite Hm. split; [right; by split|done]. }
  rewrite Hm in H2. split; [|intros _; unfold last_read; by rewrite H2].
  split; try done.
  - right. rewrite H2, Ha. unfold hand. by destruct (Z.eqb_spec q 10) as [->|].
  - rewrite H3, Ha. unfold pending. by rewrite Hq, (proj2 (Z.eqb_neq _ _) Hne).
Qed.

Lemma hold_char seen c s' :
  reading seen (c :: chars s') -> white c = false -> is_quote c = false -> good c ->
  (c = 47 -> one_of "/*" (head_of (chars s')) = false) -> (c = 47 -> slash_regex (place_of seen) = false) ->
  the_a s' = c -> out s' = header ++ minified origin seen ++ gap (place_of seen) c -> err s' = [] -> sane s' -> the_x s' = c -> ready s'.
Proof.
  intros Hr Hw Hq Hg Hc Hsl Ha Ho He Hs Hx. apply (hold_literal seen (Char c) c (chars s')); try done.
  - unfold lexed. cbn [token_ok]. rewrite Hq. destruct (Z.eqb_spec c 47) as [->|]; [|done]. by rewrite Hc, Hsl.
  - cbn [moved]. by rewrite Hw.
  - cbn [shown]. rewrite Hw, Ho. by rewrite <- !app_assoc.
  - by rewrite Hx.
Qed.

Definition turns (s : jstate) : nat := (length (chars s) + alive (the_b s) + alive (the_a s))%nat.

Lemma wp_action_next fuel (Q : unit -> jstate -> Prop) s :
  ready s -> (length (chars s) < fuel)%nat ->
  (forall s', settled s' -> (turns s' <= length (chars s) + alive (the_a s))%nat -> Q tt s') ->
  wp Q (action_next fuel) s.
Proof.
  intros Hr Hf HQ. apply wp_bind, wp_load; [done|done|]. intros s1 Hi Ha Hlen _.
  apply wp_bind, wp_read, wp_bind, wp_read.
  destruct ((the_b s1 =? 47) && regex_context (the_a s1)) eqn:E.
  2: { apply wp_ret, HQ; [|unfold turns; rewrite Ha; lia]. split; [done|]. intros Hb. by rewrite Hb in E. }
  apply andb_prop in E as [Hb%Z.eqb_eq Hc]. rewrite Hb in *.
  destruct Hi as (_ & _ & Hx & seen & tb & Hh & Hah & _). rewrite Hb in Hah, Hx.
  assert (the_a s1 <> EOF) as Hne by (intros Hx'; by rewrite Hx' in Hc).
  destruct (held_flushed _ _ _ Hh Hne) as (Hhand & Hg & Ho). destruct Hh as [Hrd _ _ He Hs].
  assert (tb = [Char 47] /\ one_of "/*" (head_of (chars s1)) = false) as [-> Hhd] by (inversion Hah; subst; auto).
  assert (Hsl : slash_regex (place_of seen) = true) by (rewrite <- hand_regex; congruence).
  assert (Hw : white (the_a s1) = false).
  { destruct (white (the_a s1)) eqn:Ew; [|done]. apply white_facts in Ew as [Ew _]. congruence. }
  assert (Hp1 : the_a s1 = (place_of seen).1) by (rewrite Hhand; apply hand_ok; [apply Hrd|congruence]).
  rewrite Hw, app_nil_r in Ho. apply wp_bind, wp_putc; [done|]. apply wp_bind.
  set (sp := if (the_a s1 =? 47) || (the_a s1 =? 42) then [32] else []).
  apply (wp_mono _ (fun _ s2 => s2 = with_out sp (with_out [the_a s1] s1))).
  2: { unfold sp. destruct (_ || _); [by apply wp_putc|]. apply wp_ret. destruct s1. unfold with_out. cbn. by rewrite app_nil_r. }
  intros _ s2 ->. apply wp_bind, wp_putc; [done|]. apply wp_bind. set (s2 := with_out [47] _).
  change (chars s1) with (chars s2) in *. change (sane s1) with (sane s2) in Hs.
  apply wp_regex_loop; [intros Hop; by apply (blame_regex seen (chars s2))|done|lia|].
  intros body s3 Hcp Hbody Hafter Ha3. assert (Hlen3 := copied_length _ _ _ _ Hcp). rewrite length_app in Hlen3. cbn in Hlen3.
  destruct Hcp as [Hch Hout _ Hx3 Herr Hs3].
  apply wp_load; [|lia|].
  - apply (hold_literal seen (Regex body) 47 (chars s3)); try done.
    + rewrite Hch in Hrd. exact Hrd.
    + unfold lexed. cbn [token_ok]. rewrite Hbody, Hsl, Hafter. rewrite Hch, <- app_assoc in Hhd. by destruct body; cbn in Hhd |- *; rewrite Hhd.
    + rewrite Hout. unfold s2, with_out. cbn [out shown text]. rewrite Ho, <- Hp1. fold sp. by rewrite <- !app_assoc.
    + by rewrite Herr.
    + rewrite Hx3. unfold s2, with_out. cbn [the_x]. by rewrite Hx.
  - intros s4 Hi4 Ha4 Hl4 Hb4. apply HQ.
    + split; [done|]. intros Hb4'. by rewrite (Hb4 Hb4') in Hafter.
    + unfold turns. rewrite Ha4, Ha3. rewrite <- Ha. unfold alive at 2 3. cbn. destruct (Z.eqb_spec (the_a s1) EOF); [done|]. lia.
Qed.

Lemma wp_action_copy fuel (Q : unit -> jstate -> Prop) s seen tb extra : let p := place_of seen in
  reading seen (texts tb ++ chars s) -> out s = header ++ minified origin seen ++ extra -> err s = [] -> sane s ->
  ahead (chars s) (the_b s) tb -> (the_b s = EOF -> chars s = []) -> the_x s = the_b s ->
  (the_b s = 47 -> slash_regex p = false) ->
  (if white (the_b s) then extra = [] /\ hand (p.1, p.2 ++ [the_b s]) = the_b s else extra = gap p (the_b s)) ->
  (length (chars s) < fuel)%nat ->
  (forall s', ready s' -> (length (chars s') + alive (the_a s') <= length (chars s) + alive (the_b s))%nat -> Q tt s') ->
  wp Q (action_copy fuel) s.
Proof.
  intros p Hrd Ho He Hs Hah Hend Hx Hslash Hextra Hf HQ. apply wp_bind, wp_read, wp_bind, wp_modify.
  destruct (is_quote (the_b s)) eqn:Eq.
  - assert (the_b s <> EOF) as Hne by (intros Hx'; by rewrite Hx' in Eq).
    assert (good (the_b s) /\ tb = [Char (the_b s)]) as [Hg ->] by (revert Eq; by inversion Hah).
    assert (Hw : white (the_b s) = false) by (unfold is_quote in Eq; unfold white; lia). rewrite Hw in Hextra.
    apply (wp_string_loop _ (the_b s)); [intros Hop; by apply (blame_string seen (the_b s) (chars s))|done|done|done|done|done|].
    intros body s' [Hch Ho' _ Hx' He' Hs'] Hbody Ha. cbn in Ho', Hch, He', Hx'.
    change (chars (with_a (the_b s) s)) with (chars s) in *. apply HQ.
    + apply (hold_literal seen (Str (the_b s) body) (the_b s) (chars s')); try done.
      * rewrite Hch in Hrd. exact Hrd.
      * unfold lexed. cbn. by rewrite Eq, Hbody.
      * rewrite Ho', Ho, Hextra. cbn [shown text]. by rewrite <- !app_assoc.
      * by rewrite He'.
      * by rewrite Hx', Hx.
    + rewrite Hch, Ha, !length_app. cbn. lia.
  - apply wp_ret, HQ; [|cbn; unfold chars; cbn; lia]. change (chars s) with (chars (with_a (the_b s) s)) in *.
    destruct (white (the_b s)) eqn:Ew.
    + destruct Hextra as [-> Hhand]. destruct (reading_white seen _ tb _ Hrd Hah Ew) as (H1 & H2 & H3). rewrite app_nil_r in Ho.
      split; [done|]. exists (seen ++ tb). split; [|intros _; unfold last_read; rewrite H2; cbn [snd]; by rewrite last_snoc].
      split; [done|right; rewrite H2; by symmetry| |done|done]. rewrite H3. cbn. unfold pending. by rewrite Ew, app_nil_r.
    + destruct (decide (the_b s = EOF)) as [E|Hne].
      * assert (tb = []) as ->.
        { inversion Hah as [E'|c Hg _ E'|b Hb E']; [done| |]; [|by rewrite <- E' in E]. exfalso. apply good_not_EOF in Hg. congruence. }
        rewrite E, gap_end in Hextra. subst extra. rewrite app_nil_r in Ho. split; [done|]. exists seen. split; [|by cbn; rewrite E].
        split; [done|by left| |done|done]. cbn. unfold pending. rewrite E. cbn. by rewrite app_nil_r.
      * assert (Hc : tb = [Char (the_b s)] /\ good (the_b s) /\ (the_b s = 47 -> one_of "/*" (head_of (chars s)) = false)).
        { inversion Hah as [E'|c Hg Hc E'|b Hb E']; [by destruct Hne|done|]. by rewrite <- E' in Ew. }
        destruct Hc as (-> & Hg & Hc). apply (hold_char seen (the_b s)); try done. cbn [with_a out]. by rewrite Ho, Hextra.
Qed.

Lemma turns_lt s s' n :
  the_a s <> EOF -> (turns s' <= n)%nat -> (n <= length (chars s) + alive (the_b s))%nat ->
  (turns s' < turns s)%nat.
Proof. intros Ha ? ?. unfold turns at 2. unfold alive at 2. case_match; lia. Qed.

(** What [action_output] prints. *)
Lemma wp_action_output (Q : unit -> jstate -> Prop) s p :
  place_ok p -> good (the_a s) -> last_read p (the_y s) ->
  (forall w, (w = match last p.2 with Some w => if is_operator (the_a s) && is_operator (the_b s) then [w] else [] | None => [] end) ->
    Q tt (with_out w (with_out [the_a s] s))) ->
  wp Q action_output s.
Proof.
  intros [_ Hws] Hg Hy HQ. apply wp_bind, wp_read, wp_bind, wp_read, wp_bind, wp_read, wp_bind, wp_putc; [done|].
  assert (Hnil : with_out [the_a s] s = with_out [] (with_out [the_a s] s)) by (unfold with_out; cbn; by rewrite app_nil_r).
  unfold last_read in Hy. destruct (last p.2) as [w|] eqn:El.
  - assert (Hw : white w = true).
    { apply last_Some in El as [l El]. rewrite El, forallb_app in Hws. apply andb_prop in Hws as [_ Hws]. cbn in Hws. by rewrite andb_true_r in Hws. }
    rewrite Hy. replace ((w =? 10) || (w =? 32)) with true by (unfold white in Hw; by rewrite orb_comm).
    cbn [andb]. destruct (is_operator (the_a s) && is_operator (the_b s)); [|apply wp_ret; rewrite Hnil; by apply HQ].
    apply wp_putc; [|by apply HQ]. unfold white in Hw. apply orb_prop in Hw as [->%Z.eqb_eq| ->%Z.eqb_eq]; by split.
  - replace ((the_y s =? 10) || (the_y s =? 32)) with false by (unfold white in Hy; by rewrite orb_comm).
    apply wp_ret. rewrite Hnil. by apply HQ.
Qed.

Lemma wp_action fuel (Q : unit -> jstate -> Prop) s :
  settled s -> the_a s <> EOF -> (length (chars s) < fuel)%nat ->
  (forall s', settled s' -> (turns s' < turns s)%nat -> Q tt s') ->
  wp Q (action fuel (choice (the_a s) (the_b s))) s.
Proof.
  intros [(_ & Hend & Hx & seen & tb & Hh & Hah & Hlast) Hset] Ha Hf HQ. specialize (Hlast Ha).
  destruct (held_flushed _ _ _ Hh Ha) as (Hhand & Hg & Ho). destruct Hh as [Hrd _ Hho He Hs].
  assert (Hp : place_ok (place_of seen)) by apply Hrd. rewrite Hhand, hand_regex in Hset.
  assert (Hnext : forall s1, ready s1 -> (length (chars s1) < fuel)%nat ->
    (length (chars s1) + alive (the_a s1) <= length (chars s) + alive (the_b s))%nat -> wp Q (action_next fuel) s1).
  { intros s1 Hr Hl1 Hl. apply wp_action_next; [done|done|]. intros s' Hi Ht. by apply HQ, (turns_lt _ _ _ Ha Ht). }
  assert (Hcopy : forall w, 
    (if white (the_b s) then w = [] /\ hand ((place_of seen).1, (place_of seen).2 ++ [the_b s]) = the_b s else w = gap (place_of seen) (the_b s)) ->
    forall s1, out s1 = header ++ minified origin seen ++ w -> the_b s1 = the_b s -> chars s1 = chars s -> the_x s1 = the_x s ->
      err s1 = [] -> sane s1 -> wp Q (_ ← action_copy fuel; action_next fuel) s1).
  { intros w Hw s1 Ho1 Hb1 Hc1 Hx1 He1 Hs1. rewrite <- Hb1, <- Hc1 in *. rewrite <- Hx1 in Hx.
    apply wp_bind, (wp_action_copy _ _ _ seen tb w); try done. intros s2 Hr Hl.
    apply Hnext; [done| |done]. destruct Hr as [Hr _]. revert Hl.
    unfold alive. destruct (Z.eqb_spec (the_a s2) EOF) as [E|]; [rewrite (Hr E)|destruct (the_b s1 =? EOF)]; cbn; lia. }
  rewrite Hhand. unfold action.
  assert (Hout : forall w s1, s1 = with_out w (with_out [the_a s] s) ->
    out s1 = header ++ minified origin seen ++ (if white (the_a s) then [the_a s] else []) ++ w).
  { intros w s1 ->. cbn [with_out out]. rewrite Ho. by rewrite <- !app_assoc. }
  destruct (white (the_b s)) eqn:Ew.
  - destruct (choice_white _ _ Hp Ew) as [(-> & Hwa & Hhb)|[(-> & Hwa & Hhb)|(-> & Hhb)]]; rewrite <- ?Hhand in *; cbn [Z.eqb Pos.eqb].
    + apply wp_bind, (wp_action_output _ _ (place_of seen)); [done|done|done|]. intros w Hw. specialize (Hout w _ eq_refl).
      destruct (white_facts _ Ew) as (_ & Hob & _). rewrite Hob, andb_false_r in Hw.
      assert (w = []) as -> by by destruct (last _). rewrite Hwa in Hout. by apply (Hcopy []).
    + apply (Hcopy []); try done. rewrite app_nil_r. unfold pending in Hho. rewrite Hwa in Hho. cbn in Hho. by rewrite app_nil_r in Hho.
    + destruct (reading_white seen _ tb _ Hrd Hah Ew) as (H1 & H2 & H3). apply Hnext; [|done|].
      * split; [done|]. exists (seen ++ tb). split; [|intros _; unfold last_read; rewrite H2; cbn [snd]; by rewrite last_snoc].
        split; [done|right; rewrite H2; by rewrite Hhb| |done|done]. by rewrite H3.
      * destruct (white_facts _ Ew) as (_ & _ & _ & _ & _ & Hb). unfold alive. rewrite (proj2 (Z.eqb_neq _ _) Hb). destruct (the_a s =? EOF); lia.
  - destruct (choice_black _ _ Hp Ew) as [(-> & Hgap)|(-> & Hwa & Hgap)]; rewrite <- Hhand in *; cbn [Z.eqb Pos.eqb].
    + apply wp_bind, (wp_action_output _ _ (place_of seen)); [done|done|done|]. intros w Hw. specialize (Hout w _ eq_refl).
      by apply (Hcopy (gap (place_of seen) (the_b s))); [|rewrite Hgap, <- Hw|..].
    + apply (Hcopy []); try done. rewrite app_nil_r. unfold pending in Hho. rewrite Hwa in Hho. cbn in Hho. by rewrite app_nil_r in Hho.
Qed.

Lemma wp_jsmin_loop fuel n : forall (Q : unit -> jstate -> Prop) s,
  settled s -> (turns s < n)%nat -> (n <= fuel)%nat ->
  (forall s', settled s' -> the_a s' = EOF -> Q tt s') -> wp Q (jsmin_loop fuel n) s.
Proof.
  induction n as [|n IH]; intros Q s Hi Ht Hn HQ; [lia|].
  apply wp_bind, wp_read. destruct (Z.eqb_spec (the_a s) EOF) as [?|Hne]; [by apply wp_ret, HQ|].
  apply wp_bind, wp_read, wp_bind, wp_action; [done|done|unfold turns in Ht; lia|].
  intros s' Hi' Ht'. apply IH; [done|lia|lia|done].
Qed.

(** At the end of the input everything is printed. *)
Lemma settled_end s : settled s -> the_a s = EOF ->
  err s = [] /\ exists ts, tokens source ts /\ out s = header ++ minified origin ts.
Proof.
  intros [(Hab & Hb & _ & seen & tb & [(Hs & Hl & _) _ Ho He _] & Hah & _) _] Ha.
  split; [done|]. exists seen. rewrite (Hb (Hab Ha)) in Hs, Hl. rewrite (Hab Ha) in Hah.
  assert (tb = []) as -> by (inversion Hah; try done; exfalso; by eapply good_not_EOF).
  split; [split; [by rewrite Hs, app_nil_r|exact Hl]|]. rewrite Ha in Ho. cbn in Ho. by rewrite app_nil_r in Ho.
Qed.

Lemma wp_skip (Q : unit -> jstate -> Prop) s (m : js unit) :
  sane s ->
  (forall c s', took s c s' -> wp Q m s') -> wp Q (_ ← get; m) s.
Proof. intros Hs HQ. apply wp_bind, wp_get; [done|]. apply HQ. Qed.

Lemma took_tail s c s' : took s c s' -> chars s' = tail (chars s).
Proof. intros [Hc He [->|Hg] _ _ _]; rewrite Hc; [by rewrite He|by rewrite chr_good]. Qed.

Lemma wp_jsmin fuel (Q : unit -> jstate -> Prop) s :
  sane s -> out s = header -> err s = [] -> the_x s = EOF -> source = without_bom (chars s) ->
  (length (chars s) + 2 <= fuel)%nat ->
  (forall s', settled s' -> the_a s' = EOF -> Q tt s') -> wp Q (jsmin fuel) s.
Proof.
  intros Hs Ho He Hx Hsrc Hf HQ. apply wp_bind, wp_peek; [done|]. intros s1 Hc1 Hs1 [_ _ Hx1 Ho1 He1].
  rewrite Ho in Ho1. rewrite He in He1. rewrite Hx in Hx1. rewrite <- Hc1 in *. apply wp_bind.
  assert (Hmain : forall s2, sane s2 -> out s2 = header -> err s2 = [] -> the_x s2 = EOF -> chars s2 = source ->
    (length (chars s2) + 2 <= fuel)%nat ->
    wp Q (_ ← set_a 10; _ ← action fuel 3; jsmin_loop fuel fuel) s2).
  { intros s2 Hs2 Ho2 He2 Hx2 Hc2 Hl2. apply wp_bind, wp_modify, wp_bind.
    change (chars s2) with (chars (with_a 10 s2)) in *. apply wp_action_next; [|lia|].
    - split; [done|]. exists []. split; [|intros _; unfold last_read; cbn; by rewrite Hx2].
      split; [|by right|cbn; by rewrite !app_nil_r|done|done]. split; [done|]. split; [done|]. split; [by left|done].
    - intros s3 Hi Ht. apply wp_jsmin_loop; [done| |done|done].
      cbn in Ht. unfold alive in Ht. cbn in Ht. lia. }
  destruct (chars s1) as [|c r] eqn:E.
  { apply wp_ret, Hmain; rewrite ?E; done. }
  cbn [head_of]. cbn [without_bom] in Hsrc. destruct (c =? 239).
  - apply wp_skip; [done|]. intros c1 t1 Ht1. apply wp_skip; [apply Ht1|]. intros c2 t2 Ht2.
    apply wp_skip; [apply Ht2|]. intros c3 t3 Ht3.
    assert (Hc : chars t3 = source).
    { rewrite (took_tail _ _ _ Ht3), (took_tail _ _ _ Ht2), (took_tail _ _ _ Ht1), E, Hsrc.
      by destruct r as [|? [|? ?]]. }
    assert (Hfr := frame_trans _ _ _ (took_frame _ _ _ Ht1) (frame_trans _ _ _ (took_frame _ _ _ Ht2) (took_frame _ _ _ Ht3))).
    apply wp_ret, Hmain; [apply Ht3|by rewrite (frame_out _ _ Hfr)|by rewrite (frame_err _ _ Hfr)|by rewrite (frame_x _ _ Hfr)|done|].
    rewrite Hc, Hsrc, length_drop. lia.
  - apply wp_ret, Hmain; rewrite ?E; done.
Qed.
End Program.

(** ** The program *)

Definition comments (argv : list (list Z)) : list Z :=
  concat (map (fun arg => cs "// " ++ arg ++ [10]) argv).

Lemma arg_comments_spec argv : forall s, arg_comments argv s = (Returned tt, with_out (comments argv) s).
Proof.
  induction argv as [|arg argv IH]; intros s.
  - destruct s. cbn. unfold with_out. cbn. by rewrite app_nil_r.
  - unfold arg_comments; fold arg_comments. unfold mbind, prog_bind. cbn [fputs modify].
    unfold fputs, modify. rewrite IH. unfold with_out, comments. cbn. rewrite <- !app_assoc. cbn.
    by rewrite <- !app_assoc.
Qed.

(** C22: the minifier always ends, and decides which texts are made of tokens.  A
    text that is has one reading, and the minifier prints the arguments as
    comments and then the tokens of this reading: string and regular expression
    literals byte for byte, every other character that is no whitespace, no
    comment, and between two of them exactly the whitespace that [gap] allows (a
    new line where a statement may end, one space between two words, the last
    whitespace between two operators).  For a text that is not (a literal or a
    comment without an end, a regular expression in front of a slash or a star)
    it stops with status 1 and a message. *)
Theorem jsmin_minifies (argv : list (list Z)) (stdin : list Z) :
  Bytes stdin ->
  let source := without_bom (map translate stdin) in
  match run_jsmin argv stdin with
  | (Returned status, s) =>
      status = 0 /\ err s = [] /\
      exists ts, tokens source ts /\ (forall ts', tokens source ts' -> ts' = ts) /\ out s = comments argv ++ minified origin ts
  | (Exited status, s) => status = 1 /\ err s <> [] /\ forall ts, ~ tokens source ts
  | _ => False
  end.
Proof.
  intros Hin source. unfold run_jsmin, main.
  assert (H : wp (forall ts, ~ tokens source ts)
    (fun status s => status = 0 /\ err s = [] /\
      exists ts, tokens source ts /\ (forall ts', tokens source ts' -> ts' = ts) /\ out s = comments argv ++ minified origin ts)
    (_ ← jsmin (length stdin + 2); mret 0) (with_out (comments argv) (jsmin_start stdin))).
  { apply wp_bind, (wp_jsmin source (comments argv)); try done.
    - split; [by left|done].
    - unfold chars. cbn. by rewrite length_map.
    - intros s Hi Ha. apply wp_ret. destruct (settled_end _ _ _ Hi Ha) as (He & ts & Ht & Ho).
      split; [done|]. split; [done|]. exists ts. split; [done|]. split; [|done]. intros ts' Ht'. by apply (tokens_unique source). }
  unfold mbind at 1, prog_bind at 1. rewrite arg_comments_spec.
  unfold wp in H. by destruct (_ : outcome Z * jstate) as [[] s].
Qed.

Lemma jsmin_minifies_witness :
  let stdin := [239; 187; 191] ++ cs "a  =  `b  c` /* d */ ;" ++ [13; 10] ++ cs "// e" in
  fst (run_jsmin [] stdin) = Returned 0 /\
  match run_jsmin [] stdin with
  | (Returned status, s) =>
      status = 0 /\ err s = [] /\
      exists ts, tokens (without_bom (map translate stdin)) ts /\
        (forall ts', tokens (without_bom (map translate stdin)) ts' -> ts' = ts) /\ out s = comments [] ++ minified origin ts
  | (Exited status, s) => status = 1 /\ err s <> [] /\ forall ts, ~ tokens (without_bom (map translate stdin)) ts
  | _ => False
  end.
Proof. split; [vm_compute; reflexivity|]. apply jsmin_minifies. by_compute. Defined.

(** The tokens of a text and what is printed of them. *)
Example tokens_1 : let source := cs "a +" ++ [10] ++ cs " + '  ' // x" in
  let ts := map Char (cs "a +" ++ [10] ++ cs " + ") ++ [Str 39 (cs "  "); Char 32; Line (cs " x")] in
  tokens source ts /\ minified origin ts = [10] ++ cs "a+" ++ [10] ++ cs "+'  '".
Proof. vm_compute. auto. Qed.

(** A regular expression on a new line after an operator is taken for a division,
    and a quote in it for the start of a string. *)
Example run_3 : let '(o, s) := run_jsmin [] (cs "a +" ++ [10] ++ cs "/'/.exec(b)") in
  (o, err s) = (Exited 1, cs "JSMIN Error: Unterminated string literal." ++ [10]).
Proof. vm_compute. reflexivity. Qed.

(** An unterminated comment. *)
Example run_2 : let '(o, s) := run_jsmin [] (cs "a /* b") in
  (o, err s) = (Exited 1, cs "JSMIN Error: Unterminated comment." ++ [10]).
Proof. vm_compute. reflexivity. Qed.
