(* ===== verification/ConfRead.v ===== *)
(** * The configurator: streams, command lines and test descriptions

    First part of [configurator.c], the program that writes [config.h]: its
    state, its error exits, the copying and grabbing of streams, the assembly of
    the compiler's command line, and the reader of test descriptions.

    The machine it runs on is an interface, [Host]: [popen], [fopen], [fclose],
    [remove] and the text of [strerror], over a state of their own.  Memory from
    [malloc] has arbitrary contents ([junk]); [malloc] itself does not fail. *)
From S2P Require Import Prelude Run.

(** What a process wrote, whether reading it failed, and its wait status. *)
Record process := Process_ { p_output : list Z; p_ferror : bool; p_status : Z }.

Class Host := {
  host : Type;
  h_strerror : list Z;
  h_popen : host -> list Z -> option process * host;
  h_fopen : host -> list Z -> bool -> option host;          (* name, append *)
  h_fclose : host -> list Z -> list Z -> bool * host;       (* name, text written; false: failed *)
  h_remove : host -> list Z -> host
}.

Record test := Test {
  name : list Z; desc : list Z; style : list Z;
  depends : option (list Z); link : option (list Z);
  fragment : list Z;
  flags : option (list Z); overrides : option (list Z);
  done_ : bool; answer : bool
}.

Record cstate `{Host} := CState {
  progname : list Z; verbose : Z; like_a_libtool : bool;
  tests : list test;               (* up to the entry without a name *)
  stdin : list Z;                  (* not read yet *)
  machine : host;
  out : list Z; err : list Z       (* stdout and stderr *)
}.

(** The part of a buffer that [strlen], ["%s"] and the like see. *)
Fixpoint c_str (l : list Z) : list Z :=
  match l with c :: r => if c =? 0 then [] else c :: c_str r | [] => [] end.

(** [strstr(s, needle) != 0] *)
Fixpoint strstr (s needle : list Z) : bool :=
  starts_with needle s || match s with _ :: r => strstr r needle | [] => false end.

Section host.
Context `{Host}.

Definition set_out (f : list Z -> list Z) (s : cstate) : cstate :=
  CState _ (progname s) (verbose s) (like_a_libtool s) (tests s) (stdin s) (machine s) (f (out s)) (err s).
Definition set_err (f : list Z -> list Z) (s : cstate) : cstate :=
  CState _ (progname s) (verbose s) (like_a_libtool s) (tests s) (stdin s) (machine s) (out s) (f (err s)).
Definition set_stdin (l : list Z) (s : cstate) : cstate :=
  CState _ (progname s) (verbose s) (like_a_libtool s) (tests s) l (machine s) (out s) (err s).
Definition set_machine (h : host) (s : cstate) : cstate :=
  CState _ (progname s) (verbose s) (like_a_libtool s) (tests s) (stdin s) h (out s) (err s).
Definition set_tests (l : list test) (s : cstate) : cstate :=
  CState _ (progname s) (verbose s) (like_a_libtool s) l (stdin s) (machine s) (out s) (err s).

Definition printf (t : list Z) : prog cstate unit := modify (set_out (fun o => o ++ t)).
Definition eprintf (t : list Z) : prog cstate unit := modify (set_err (fun o => o ++ t)).

Definition EXIT_BAD_USAGE : Z := 1.
Definition EXIT_TROUBLE_RUNNING : Z := 2.
Definition EXIT_BAD_TEST : Z := 3.
Definition EXIT_BAD_INPUT : Z := 4.

Definition c12r_err {A} (eval : Z) (message : list Z) : prog cstate A :=
  p ← read progname;
  _ ← eprintf (p ++ cs ": "); _ ← eprintf message; _ ← eprintf (cs ": " ++ h_strerror ++ [10]);
  exit eval.

Definition c12r_errx {A} (eval : Z) (message : list Z) : prog cstate A :=
  p ← read progname;
  _ ← eprintf (p ++ cs ": "); _ ← eprintf message; _ ← eprintf [10];
  exit eval.

Definition start_test (what why : list Z) : prog cstate unit :=
  l ← read like_a_libtool; when l (printf (what ++ why ++ cs "... ")).

Definition end_test (result : bool) : prog cstate unit :=
  l ← read like_a_libtool; when l (printf ((if result then cs "yes" else cs "no") ++ [10])).

(** ** Streams *)

Definition BUFSIZ : Z := 8192.

(** [fread(buffer, 1, n, file)]: the bytes, and the rest of the file. *)
Definition fread (n : Z) (file : list Z) : list Z * list Z :=
  (take (Z.to_nat n) file, drop (Z.to_nat n) file).

(** The destination is standard output, where a write is never short. *)
Fixpoint fcopy (fuel : nat) (fsrc : list Z) (copied : Z) : prog cstate Z :=
  match fuel with
  | O => out_of_fuel
  | S fuel =>
      let '(buffer, fsrc) := fread BUFSIZ fsrc in
      if 0 <? len buffer then _ ← printf buffer; fcopy fuel fsrc (copied + len buffer)
      else mret copied
  end.

Context (junk : Z).
Definition malloc (n : Z) : list Z := repeat junk (Z.to_nat n).

(** [buffer] has [max] bytes, [size] of them read. *)
Fixpoint grab_loop (fuel : nat) (file buffer : list Z) (max size : Z) : prog cstate (list Z * Z) :=
  match fuel with
  | O => out_of_fuel
  | S fuel =>
      let '(bytes, file) := fread (max - size) file in
      buffer ← lift (put size bytes buffer);
      let ret := len bytes in
      if ret =? max - size then
        grab_loop fuel file (buffer ++ malloc max) (max * 2) (size + ret)
      else mret (buffer, size + ret)
  end.

Definition grab_stream (fuel : nat) (p : process) : prog cstate (list Z) :=
  '(buffer, size) ← grab_loop fuel (p_output p) (malloc BUFSIZ) BUFSIZ 0;
  _ ← when (p_ferror p) (c12r_err EXIT_TROUBLE_RUNNING (cs "reading from command"));
  lift (put size [0] buffer).

Definition popen (cmd : list Z) : prog cstate (option process) := fun s =>
  let '(p, h) := h_popen (machine s) cmd in (Returned p, set_machine h s).

Definition redir : list Z := cs " 2>&1".

(** The buffer with the output, and the exit status. *)
Definition run (cmd : list Z) : prog cstate (list Z * Z) :=
  let cmdredir := cmd ++ redir in
  p ← popen cmdredir;
  match p with
  | None => c12r_err EXIT_TROUBLE_RUNNING (cs "popen " ++ [34] ++ cmdredir ++ [34])
  | Some p => ret ← grab_stream (length (p_output p) + 1) p; mret (ret, p_status p)
  end.

(** ** The compiler's command line *)

(** [argv] starts after the name of the program; [None] is a write outside [ret]. *)
Fixpoint connect_loop (argv : list (list Z)) (outflag ret : list Z) (length_ : Z) : option (list Z * Z) :=
  match argv with
  | [] => Some (ret, length_)
  | arg :: rest =>
      ret ← put length_ (arg ++ [0]) ret;
      let length_ := length_ + len arg in
      if (0 <? len rest) || (0 <? len outflag) then
        ret ← put length_ [32] ret; connect_loop rest outflag ret (length_ + 1)
      else connect_loop rest outflag ret length_
  end.

Definition connect_args (argv : list (list Z)) (outflag files : list Z) : option (list Z) :=
  let length_ := fold_left (fun l arg => l + (1 + len arg)) argv (len outflag + len files + 1) in
  '(ret, length_) ← connect_loop argv outflag (malloc length_) 0;
  ret ← put length_ (outflag ++ [0]) ret;
  put (length_ + len outflag) (files ++ [0]) ret.

(** ** Test descriptions *)

Definition find_test (name_ : list Z) : prog cstate nat :=
  l ← read tests;
  match list_find (fun t => name t = name_) l with
  | Some (i, _) => mret i
  | None => c12r_errx EXIT_BAD_TEST (cs "Unknown test " ++ name_)
  end.

(** [fgets]: at most [n] characters, up to and with the first line end. *)
Fixpoint gets (n : nat) (file : list Z) : list Z * list Z :=
  match n, file with
  | S n, c :: file => if c =? 10 then ([c], file) else let '(l, rest) := gets n file in (c :: l, rest)
  | _, _ => ([], file)
  end.

Definition fgets (size : Z) : prog cstate (option (list Z)) := fun s =>
  let '(l, rest) := gets (Z.to_nat (size - 1)) (stdin s) in
  (Returned (if 0 <? len l then Some (c_str l) else None), set_stdin rest s).

Fixpoint skip_blanks (p : list Z) : list Z :=
  match p with c :: r => if (c =? 32) || (c =? 9) then skip_blanks r else p | [] => [] end.

(** [strchr(p, '=')]: what is before and after it. *)
Fixpoint split_at_eq (p : list Z) : option (list Z * list Z) :=
  match p with
  | c :: r => if c =? 61 then Some ([], r)
              else match split_at_eq r with Some (a, b) => Some (c :: a, b) | None => None end
  | [] => None
  end.

(** Without the line end. *)
Definition chomp (p : list Z) : list Z :=
  if last p is Some 10 then take (length p - 1) p else p.

Fixpoint any_field (fuel : nat) : prog cstate (option (list Z * list Z)) :=
  match fuel with
  | O => out_of_fuel
  | S fuel =>
      buf ← fgets 1000;
      match buf with
      | None => mret None
      | Some buf =>
          let p := skip_blanks buf in
          match p with
          | 35 :: _ | 10 :: _ => any_field fuel
          | _ =>
              match split_at_eq p with
              | None => c12r_errx EXIT_BAD_INPUT (cs "no = in line: " ++ p)
              | Some (fieldname, value) => mret (Some (fieldname, chomp value))
              end
          end
      end
  end.

Definition read_field (fuel : nat) (name_ : list Z) (compulsory : bool) : prog cstate (option (list Z)) :=
  f ← any_field fuel;
  match f with
  | None =>
      if compulsory then c12r_errx EXIT_BAD_INPUT (cs "Could not read field " ++ name_) else mret None
  | Some (fieldname, value) =>
      if bool_decide (fieldname = name_) then mret (Some value)
      else c12r_errx EXIT_BAD_INPUT (cs "Expected field " ++ name_ ++ cs " not " ++ fieldname)
  end.

(** The optional fields, up to [code]; [None] when the input ends. *)
Fixpoint read_options (fuel : nat) (t : test) : prog cstate (test * option (list Z)) :=
  match fuel with
  | O => out_of_fuel
  | S fuel' =>
      f ← any_field fuel;
      match f with
      | None => mret (t, None)
      | Some (field, value) =>
          if bool_decide (field = cs "depends") then
            read_options fuel' (Test (name t) (desc t) (style t) (Some value) (link t) (fragment t) (flags t) (overrides t) (done_ t) (answer t))
          else if bool_decide (field = cs "link") then
            read_options fuel' (Test (name t) (desc t) (style t) (depends t) (Some value) (fragment t) (flags t) (overrides t) (done_ t) (answer t))
          else if bool_decide (field = cs "flags") then
            read_options fuel' (Test (name t) (desc t) (style t) (depends t) (link t) (fragment t) (Some value) (overrides t) (done_ t) (answer t))
          else if bool_decide (field = cs "overrides") then
            read_options fuel' (Test (name t) (desc t) (style t) (depends t) (link t) (fragment t) (flags t) (Some value) (done_ t) (answer t))
          else if bool_decide (field = cs "code") then mret (t, Some value)
          else c12r_errx EXIT_BAD_INPUT (cs "Unknown field " ++ field ++ cs " in " ++ name t)
      end
  end.

(** The lines up to the end comment. *)
Fixpoint read_code (fuel : nat) (value : list Z) : prog cstate (list Z) :=
  match fuel with
  | O => out_of_fuel
  | S fuel =>
      buf ← fgets 1000;
      match buf with
      | None => mret value
      | Some buf =>
          if starts_with (cs "/*END*/") buf then mret value else read_code fuel (value ++ buf)
      end
  end.

(** [None]: no further test. *)
Definition read_test (fuel : nat) : prog cstate (option test) :=
  n ← read_field fuel (cs "var") false;
  match n with
  | None => mret None
  | Some n =>
      d ← read_field fuel (cs "desc") true;
      s ← read_field fuel (cs "style") true;
      '(t, value) ← read_options fuel
        (Test n (default [] d) (default [] s) None None [] None None false false);
      match value with
      | None => c12r_errx EXIT_BAD_INPUT (cs "Missing code in " ++ n)
      | Some value =>
          value ← (if len value =? 0 then read_code fuel value else mret value);
          mret (Some (Test (name t) (desc t) (style t) (depends t) (link t) value (flags t) (overrides t) (done_ t) (answer t)))
      end
  end.

Fixpoint read_tests_loop (n fuel : nat) : prog cstate unit :=
  match n with
  | O => out_of_fuel
  | S n =>
      t ← read_test fuel;
      match t with
      | None => mret tt
      | Some t => _ ← modify (fun s => set_tests (tests s ++ [t]) s); read_tests_loop n fuel
      end
  end.

(** Every field takes at least one character from standard input. *)
Definition read_tests : prog cstate unit :=
  l ← read stdin; let fuel := S (length l) in read_tests_loop fuel fuel.

End host.

(** ** Streams: nothing is lost, nothing is written outside a buffer *)

Section streams.
Context `{Host} (junk : Z).

Lemma fread_spec n file : let '(bytes, rest) := fread n file in
  file = bytes ++ rest /\ len bytes = Z.min (Z.max 0 n) (len file).
Proof. unfold fread. split; [by rewrite take_drop|len_lia]. Qed.

Lemma malloc_len n : 0 <= n -> len (malloc junk n) = n.
Proof. intros. unfold malloc. rewrite len_repeat. lia. Qed.

Lemma malloc_drop n d : 0 <= d <= n -> drop (Z.to_nat d) (malloc junk n) = malloc junk (n - d).
Proof.
  intros. unfold malloc. replace (Z.to_nat n) with (Z.to_nat d + Z.to_nat (n - d))%nat by lia.
  rewrite repeat_app, drop_app_length'; [done|by rewrite repeat_length].
Qed.

Lemma malloc_app m n : 0 <= m -> 0 <= n -> malloc junk m ++ malloc junk n = malloc junk (m + n).
Proof. intros. unfold malloc. rewrite <- repeat_app. f_equal. lia. Qed.

Lemma grab_loop_spec fuel : forall file got max s,
  (length file < fuel)%nat -> len got < max ->
  exists max', len got + len file < max' /\
    grab_loop junk fuel file (got ++ malloc junk (max - len got)) max (len got) s
    = (Returned (got ++ file ++ malloc junk (max' - len got - len file), len got + len file), s).
Proof.
  induction fuel as [|fuel IH]; intros file got max s Hf Hm; [lia|].
  cbn [grab_loop]. pose proof (fread_spec (max - len got) file) as Hr.
  destruct (fread (max - len got) file) as [bytes rest]. destruct Hr as [-> Hl].
  pose proof (len_nonneg got). pose proof (len_nonneg bytes). pose proof (len_nonneg rest).
  rewrite len_app in Hl.
  rewrite put_app by (rewrite malloc_len; lia). rewrite lift_bind. cbv zeta.
  replace (length bytes) with (Z.to_nat (len bytes)) by (unfold len; lia).
  rewrite malloc_drop by lia. destruct (Z.eqb_spec (len bytes) (max - len got)) as [E|E].
  - rewrite E, Z.sub_diag. cbn [malloc Z.to_nat repeat]. rewrite app_nil_r.
    destruct (IH rest (got ++ bytes) (max * 2) s) as (max' & Hmax & Heq).
    + rewrite length_app in Hf. unfold len in *. lia.
    + rewrite len_app. lia.
    + exists max'. rewrite len_app in *. split; [lia|]. rewrite <- E.
      replace (max * 2 - (len got + len bytes)) with max in Heq by lia. rewrite Heq.
      by rewrite <- !app_assoc, !Z.sub_add_distr, Z.add_assoc.
  - assert (rest = []) as -> by (destruct rest; [done|rewrite len_cons in *; pose proof (len_nonneg rest); lia]).
    exists max. rewrite app_nil_r in *. change (len []) with 0 in *. split; [lia|]. unfold mret, prog_ret. rewrite <- !app_assoc.
    done.
Qed.

(** All of a process's output, and a terminator. *)
Lemma grab_stream_spec p s :
  p_ferror p = false ->
  exists rest, grab_stream junk (length (p_output p) + 1) p s = (Returned (p_output p ++ 0 :: rest), s).
Proof.
  intros Hp. destruct (grab_loop_spec (length (p_output p) + 1) (p_output p) [] BUFSIZ s) as (max & Hmax & E);
    [lia|done|]. cbn [app] in E. change (len []) with 0 in *. rewrite Z.sub_0_r in E.
  pose proof (len_nonneg (p_output p)).
  unfold grab_stream. rewrite (bind_returned _ _ _ _ _ E). rewrite Hp. cbn [when]. rewrite ret_bind.
  rewrite Z.add_0_l, Z.sub_0_r. rewrite put_app by (rewrite malloc_len by lia; change (len [0]) with 1; lia).
  eexists. cbn [lift]. by rewrite <- app_assoc.
Qed.

(** ** The command line *)

(** The words with a space between them. *)
Definition spaced (words : list (list Z)) : list Z :=
  match words with [] => [] | w :: rest => w ++ concat (map (cons 32) rest) end.

(** The compiler's words, the output flag directly before the file names. *)
Definition command_line (argv : list (list Z)) (outflag files : list Z) : list Z :=
  match outflag with
  | [] => spaced argv ++ files
  | _ => spaced (argv ++ [outflag ++ files])
  end.

Lemma spaced_cons w x rest : spaced (w :: x :: rest) = w ++ 32 :: spaced (x :: rest).
Proof. done. Qed.

(** What [connect_loop] writes. *)
Fixpoint joined (argv : list (list Z)) (outflag : list Z) : list Z :=
  match argv with
  | [] => []
  | arg :: rest => arg ++ (if (0 <? len rest) || (0 <? len outflag) then [32] else []) ++ joined rest outflag
  end.

Lemma joined_command argv outflag files : joined argv outflag ++ outflag ++ files = command_line argv outflag files.
Proof.
  unfold command_line. destruct outflag as [|c o]; cbn [app].
  - f_equal. induction argv as [|a [|b argv] IH]; [done|done|].
    rewrite spaced_cons, <- IH. reflexivity.
  - induction argv as [|a argv IH]; [by rewrite app_nil_l; cbn; rewrite app_nil_r|].
    cbn [joined app]. assert ((0 <? len argv) || (0 <? len (c :: o)) = true) as ->.
    { rewrite len_cons. pose proof (len_nonneg o). lia. }
    rewrite <- !app_assoc, IH. by destruct argv.
Qed.

Fixpoint sizes (argv : list (list Z)) : Z :=
  match argv with [] => 0 | a :: rest => 1 + len a + sizes rest end.

Lemma sizes_fold argv : forall n, fold_left (fun l arg => l + (1 + len arg)) argv n = n + sizes argv.
Proof. induction argv as [|a argv IH]; intros n; cbn; [lia|rewrite IH; lia]. Qed.

Lemma joined_size argv outflag : len (joined argv outflag) <= sizes argv.
Proof. induction argv as [|a argv IH]; cbn [joined sizes]; [done|]. case_match; len_lia. Qed.

(** A string written behind the text, then taken over up to its terminator. *)
Lemma strcpy_at out t (j : list Z) :
  len t < len j -> exists j', put (len out) (t ++ [0]) (out ++ j) = Some ((out ++ t) ++ j') /\
    len j' = len j - len t /\ head j' = Some 0.
Proof.
  intros Hl. pose proof (len_nonneg t). rewrite put_app by (rewrite len_app; change (len [0]) with 1; lia).
  exists (0 :: drop (length (t ++ [0])) j). split_and!; [by rewrite <- !app_assoc| |done].
  rewrite len_cons, len_drop. rewrite length_app. cbn [length]. unfold len in *. lia.
Qed.

Lemma connect_loop_spec argv outflag : forall out j,
  sizes argv < len j ->
  exists j', connect_loop argv outflag (out ++ j) (len out)
    = Some ((out ++ joined argv outflag) ++ j', len (out ++ joined argv outflag)) /\
    len j' = len j - len (joined argv outflag).
Proof.
  induction argv as [|a argv IH]; intros out j Hj.
  { exists j. cbn [connect_loop joined]. rewrite app_nil_r. split; [done|]. change (len []) with 0. lia. }
  cbn [connect_loop joined sizes] in *.
  assert (Hs : 0 <= sizes argv) by (pose proof (joined_size argv []); pose proof (len_nonneg (joined argv [])); lia).
  destruct (strcpy_at out a j) as (j1 & -> & Hj1 & _); [lia|]. rewrite bind_some. cbv zeta. rewrite <- len_app.
  destruct (_ || _).
  - rewrite put_app by (change (len [32]) with 1; lia). rewrite bind_some.
    destruct (IH ((out ++ a) ++ [32]) (drop (length [32]) j1)) as (j2 & E & Hj2);
      [rewrite len_drop; cbn; lia|].
    rewrite (len_app (out ++ a) [32]) in E. change (len [32]) with 1 in E. rewrite E. exists j2.
    rewrite <- !app_assoc. split; [done|]. rewrite !len_app, Hj2, len_drop.
    change (len [32]) with 1. cbn [length]. lia.
  - destruct (IH (out ++ a) j1) as (j2 & -> & Hj2); [lia|]. exists j2.
    rewrite app_nil_l, <- !app_assoc. split; [done|]. rewrite len_app. lia.
Qed.

Lemma connect_args_spec (argv : list (list Z)) (outflag files : list Z) :
  exists rest, connect_args junk argv outflag files = Some (command_line argv outflag files ++ 0 :: rest).
Proof.
  unfold connect_args. rewrite sizes_fold. set (n := len outflag + len files + 1 + sizes argv).
  pose proof (len_nonneg outflag). pose proof (len_nonneg files).
  pose proof (joined_size argv outflag). pose proof (len_nonneg (joined argv outflag)).
  destruct (connect_loop_spec argv outflag [] (malloc junk n)) as (j & E & Hj).
  { rewrite malloc_len; lia. }
  cbn [app] in E. change (len []) with 0 in E. rewrite E, bind_some. rewrite malloc_len in Hj by lia.
  destruct (strcpy_at (joined argv outflag) outflag j) as (j1 & -> & Hj1 & _); [lia|]. rewrite bind_some, <- len_app.
  destruct (strcpy_at (joined argv outflag ++ outflag) files j1) as (j2 & -> & Hj2 & Hh); [lia|].
  destruct j2 as [|z j2]; [done|]. injection Hh as ->. exists j2. by rewrite <- joined_command, <- !app_assoc.
Qed.
(** The buffer for the compiler's command line is large enough whatever the
    words are, and holds the words in order with one space between them, the
    output flag joined to the file names, and a terminator. *)
Theorem connect_args_exact (argv : list (list Z)) (outflag files : list Z) :
  exists rest, connect_args junk argv outflag files = Some (command_line argv outflag files ++ 0 :: rest).
Proof. apply connect_args_spec. Qed.
End streams.

(** ** Descriptions and their reader *)

(** A line that [fgets] reads whole. *)
Definition line_ok (l : list Z) : Prop := Forall (fun c => c <> 0 /\ c <> 10) l /\ len l < 999.

(** Blank lines and comments. *)
Definition noise (l : list Z) : Prop :=
  line_ok l /\ match skip_blanks l with [] => True | c :: _ => c = 35 end.

Definition lines (ls : list (list Z)) : list Z := concat (map (fun l => l ++ [10]) ls).

Definition field_line (field value : list Z) : list Z := field ++ [61] ++ value ++ [10].
Definition option_line (field : list Z) (value : option (list Z)) : list Z :=
  match value with Some v => field_line field v | None => [] end.

(** A description: comments, the test, the lines of its code. *)
Record entry := Entry { e_comments : list (list Z); e_test : test; e_code : list (list Z) }.

Definition describe (e : entry) : list Z :=
  let t := e_test e in
  lines (e_comments e) ++ field_line (cs "var") (name t) ++ field_line (cs "desc") (desc t) ++
  field_line (cs "style") (style t) ++ option_line (cs "depends") (depends t) ++
  option_line (cs "link") (link t) ++ option_line (cs "flags") (flags t) ++
  option_line (cs "overrides") (overrides t) ++ cs "code=" ++ [10] ++ lines (e_code e) ++
  cs "/*END*/" ++ [10].

Definition value_ok (v : list Z) : Prop := Forall (fun c => c <> 0 /\ c <> 10) v /\ len v < 980.
Definition code_line (l : list Z) : Prop := line_ok l /\ starts_with (cs "/*END*/") (l ++ [10]) = false.

Record entry_ok (e : entry) : Prop := {
  ok_comments : Forall noise (e_comments e);
  ok_fields : Forall value_ok [name (e_test e); desc (e_test e); style (e_test e)];
  ok_options : Forall (from_option value_ok True)
    [depends (e_test e); link (e_test e); flags (e_test e); overrides (e_test e)];
  ok_code : Forall code_line (e_code e);
  ok_fragment : fragment (e_test e) = lines (e_code e);
  ok_fresh : done_ (e_test e) = false /\ answer (e_test e) = false
}.

#[export] Instance line_ok_dec l : Decision (line_ok l).
Proof. unfold line_ok. apply _. Defined.
#[export] Instance noise_dec l : Decision (noise l).
Proof. unfold noise. destruct (skip_blanks l); apply _. Defined.
#[export] Instance value_ok_dec v : Decision (value_ok v).
Proof. unfold value_ok. apply _. Defined.
#[export] Instance code_line_dec l : Decision (code_line l).
Proof. unfold code_line. apply _. Defined.

Section reading.
Context `{Host}.

Lemma c_str_plain l : Forall (fun c => c <> 0) l -> c_str l = l.
Proof. induction 1 as [|c l Hc _ IH]; cbn; [done|]. by rewrite (proj2 (Z.eqb_neq c 0)), IH. Qed.

Lemma gets_line n : forall l rest, Forall (fun c => c <> 0 /\ c <> 10) l -> (length l < n)%nat ->
  gets n (l ++ 10 :: rest) = (l ++ [10], rest).
Proof.
  induction n as [|n IH]; intros l rest Hl Hn; [lia|].
  destruct Hl as [|c l [_ Hc] Hl]; [done|]. cbn in Hn |- *.
  by rewrite (proj2 (Z.eqb_neq c 10)), IH by (done || lia).
Qed.

Lemma fgets_line l rest s :
  line_ok l -> stdin s = l ++ 10 :: rest ->
  fgets 1000 s = (Returned (Some (l ++ [10])), set_stdin rest s).
Proof.
  intros [Hl Hn] Hs. unfold fgets. rewrite Hs, gets_line by (done || (unfold len in Hn; lia)).
  rewrite c_str_plain.
  - rewrite len_app. pose proof (len_nonneg l). change (len [10]) with 1.
    by destruct (Z.ltb_spec 0 (len l + 1)); [|lia].
  - apply Forall_app_2; [|by repeat constructor]. by eapply Forall_impl; [apply Hl|]; intros ? [].
Qed.

Lemma skip_blanks_line l : skip_blanks (l ++ [10]) = skip_blanks l ++ [10].
Proof. induction l as [|c l IH]; [done|]. cbn. by case_match. Qed.

Lemma any_field_noise fuel ns : forall rest s,
  Forall noise ns -> stdin s = lines ns ++ rest -> (length ns < fuel)%nat ->
  any_field fuel s = any_field (fuel - length ns) (set_stdin rest s).
Proof.
  revert fuel. induction ns as [|l ns IH]; intros fuel rest s Hns Hs Hf.
  { cbn in Hs |- *. rewrite Nat.sub_0_r. destruct s; cbn in *. by rewrite Hs. }
  inversion Hns as [|? ? [Hl Hc] Hns']; subst. destruct fuel as [|fuel]; [cbn in Hf; lia|].
  assert (Hs' : stdin s = l ++ 10 :: (lines ns ++ rest)) by (rewrite Hs; unfold lines; cbn; by rewrite <- !app_assoc).
  unfold any_field at 1; fold any_field. rewrite (bind_returned _ _ _ _ _ (fgets_line _ _ _ Hl Hs')).
  rewrite skip_blanks_line. cbn [length Nat.sub].
  transitivity (any_field fuel (set_stdin (lines ns ++ rest) s)).
  - destruct (skip_blanks l) as [|c r]; [done|]. by subst c.
  - apply (IH fuel rest (set_stdin (lines ns ++ rest) s) Hns' eq_refl). cbn in Hf. lia.
Qed.

Lemma split_at_eq_field f v : Forall (fun c => c <> 61) f -> split_at_eq (f ++ 61 :: v) = Some (f, v).
Proof. induction 1 as [|c f Hc _ IH]; cbn; [done|]. by rewrite (proj2 (Z.eqb_neq c 61)), IH. Qed.

Lemma chomp_line v : chomp (v ++ [10]) = v.
Proof.
  unfold chomp. rewrite last_snoc, length_app. cbn [length].
  replace (length v + 1 - 1)%nat with (length v) by lia. apply take_app_length.
Qed.

(** The names of fields: letters only, and short. *)
Definition field_name (f : list Z) : bool := forallb (fun c => (97 <=? c) && (c <=? 122)) f && (0 <? len f) && (len f <? 10).

Lemma any_field_line fuel f v rest s :
  field_name f = true -> value_ok v -> stdin s = field_line f v ++ rest ->
  any_field (S fuel) s = (Returned (Some (f, v)), set_stdin rest s).
Proof.
  intros [[Hf Hf0]%andb_prop Hfl]%andb_prop [Hv Hvl] Hs. rewrite forallb_forall in Hf.
  assert (Hf' : forall c, c ∈ f -> 97 <= c) by (intros c Hc%list_elem_of_In%Hf; lia).
  assert (Hs' : stdin s = (f ++ 61 :: v) ++ 10 :: rest).
  { rewrite Hs. unfold field_line. by rewrite <- !app_assoc. }
  assert (Hl : line_ok (f ++ 61 :: v)).
  { split; [|rewrite len_app, len_cons; lia]. apply Forall_app_2; [|by constructor].
    apply Forall_forall. intros c Hc%Hf'. lia. }
  cbn [any_field]. rewrite (bind_returned _ _ _ _ _ (fgets_line _ _ _ Hl Hs')). rewrite <- app_assoc. cbn [app].
  assert (Hsplit : split_at_eq (f ++ 61 :: v ++ [10]) = Some (f, v ++ [10])).
  { apply split_at_eq_field, Forall_forall. intros c Hc%Hf'. lia. }
  destruct f as [|c f]; [done|]. assert (97 <= c) by (apply Hf'; left).
  assert (skip_blanks ((c :: f) ++ 61 :: v ++ [10]) = (c :: f) ++ 61 :: v ++ [10]) as ->.
  { cbn. by rewrite (proj2 (Z.eqb_neq c 32)), (proj2 (Z.eqb_neq c 9)) by lia. }
  cbn [app] in *. rewrite Hsplit, chomp_line. by repeat (case_match; try lia).
Qed.

Lemma read_field_line fuel f v rest b s :
  field_name f = true -> value_ok v -> stdin s = field_line f v ++ rest ->
  read_field (S fuel) f b s = (Returned (Some v), set_stdin rest s).
Proof.
  intros Hf Hv Hs. unfold read_field. rewrite (bind_returned _ _ _ _ _ (any_field_line _ _ _ _ _ Hf Hv Hs)).
  by rewrite bool_decide_true.
Qed.

Lemma any_field_end fuel s : stdin s = [] -> any_field (S fuel) s = (Returned None, set_stdin [] s).
Proof. intros Hs. cbn [any_field]. unfold mbind, prog_bind, fgets. by rewrite Hs. Qed.

Definition count {A} (o : option A) : nat := match o with Some _ => 1 | None => 0 end.

(** One optional field: [set] is what it does to the test. *)
Lemma read_options_step f (set : option (list Z) -> test -> test) o fuel t rest s :
  field_name f = true -> from_option value_ok True o ->
  set None t = t ->
  (forall fuel v s1, any_field (S fuel) s = (Returned (Some (f, v)), s1) ->
    read_options (S fuel) t s = read_options fuel (set (Some v) t) s1) ->
  stdin s = option_line f o ++ rest ->
  read_options (count o + fuel) t s = read_options fuel (set o t) (set_stdin rest s).
Proof.
  intros Hf Ho Hn Hstep Hs. destruct o as [v|]; cbn [count option_line Nat.add] in *.
  - by apply Hstep, any_field_line.
  - rewrite Hn. cbn in Hs. destruct s; cbn in *. by rewrite Hs.
Qed.

Lemma set_stdin_twice a b s : set_stdin a (set_stdin b s) = set_stdin a s.
Proof. done. Qed.

Local Ltac read_option f set :=
  etrans; [eapply (read_options_step (cs f) set);
    [reflexivity|assumption|reflexivity
    |intros ? ? ? E; cbn [read_options]; rewrite (bind_returned _ _ _ _ _ E); reflexivity
    |first [eassumption | reflexivity]]|];
  cbn [name desc style depends link fragment flags overrides done_ answer]; rewrite ?set_stdin_twice.

Lemma read_options_spec fuel nm ds st dep lnk flg ovr v rest s :
  Forall (from_option value_ok True) [dep; lnk; flg; ovr] -> value_ok v ->
  stdin s = option_line (cs "depends") dep ++ option_line (cs "link") lnk ++ option_line (cs "flags") flg ++
    option_line (cs "overrides") ovr ++ field_line (cs "code") v ++ rest ->
  (4 < fuel)%nat ->
  read_options fuel (Test nm ds st None None [] None None false false) s
  = (Returned (Test nm ds st dep lnk [] flg ovr false false, Some v), set_stdin rest s).
Proof.
  intros Ho Hv Hs Hf. repeat (apply Forall_cons_1 in Ho as [? Ho]).
  assert (exists k, fuel = (count dep + (count lnk + (count flg + (count ovr + S k)))))%nat as [k ->].
  { exists (fuel - (count dep + count lnk + count flg + count ovr) - 1)%nat.
    destruct dep, lnk, flg, ovr; cbn [count]; lia. }
  read_option "depends" (fun o t => Test (name t) (desc t) (style t) o (link t) (fragment t) (flags t) (overrides t) (done_ t) (answer t)).
  read_option "link" (fun o t => Test (name t) (desc t) (style t) (depends t) o (fragment t) (flags t) (overrides t) (done_ t) (answer t)).
  read_option "flags" (fun o t => Test (name t) (desc t) (style t) (depends t) (link t) (fragment t) o (overrides t) (done_ t) (answer t)).
  read_option "overrides" (fun o t => Test (name t) (desc t) (style t) (depends t) (link t) (fragment t) (flags t) o (done_ t) (answer t)).
  set (t := Test _ _ _ _ _ _ _ _ _ _). clearbody t.
  assert (E := any_field_line k (cs "code") v rest (set_stdin (field_line (cs "code") v ++ rest) s) eq_refl Hv eq_refl).
  cbn [read_options]. by rewrite (bind_returned _ _ _ _ _ E).
Qed.

Lemma read_code_spec ls : forall fuel value rest s,
  Forall code_line ls -> (length ls < fuel)%nat ->
  stdin s = lines ls ++ cs "/*END*/" ++ 10 :: rest ->
  read_code fuel value s = (Returned (value ++ lines ls), set_stdin rest s).
Proof.
  induction ls as [|l ls IH]; intros fuel value rest s Hls Hf Hs; (destruct fuel as [|fuel]; [lia|]); cbn [read_code].
  - assert (line_ok (cs "/*END*/")) as Hend by by_compute.
    rewrite (bind_returned _ _ _ _ _ (fgets_line _ _ s Hend Hs)). unfold lines. cbn [map concat]. by rewrite app_nil_r.
  - inversion Hls as [|? ? [Hl Hc] Hls']; subst.
    assert (Hs' : stdin s = l ++ 10 :: (lines ls ++ cs "/*END*/" ++ 10 :: rest)).
    { rewrite Hs. unfold lines. cbn [map concat]. by rewrite <- !app_assoc. }
    rewrite (bind_returned _ _ _ _ _ (fgets_line _ _ _ Hl Hs')), Hc.
    rewrite (IH fuel (value ++ l ++ [10]) rest (set_stdin (lines ls ++ cs "/*END*/" ++ 10 :: rest) s) Hls')
      by (done || (cbn in Hf; lia)).
    unfold lines. cbn [map concat]. by rewrite <- !app_assoc.
Qed.

Lemma lines_length ls : (length ls <= length (lines ls))%nat.
Proof. induction ls as [|l ls IH]; [done|]. unfold lines in *. cbn. rewrite !length_app. cbn. lia. Qed.

Lemma read_name fuel b ns f v rest s :
  Forall noise ns -> field_name f = true -> value_ok v -> stdin s = lines ns ++ field_line f v ++ rest ->
  (length ns < fuel)%nat -> read_field fuel f b s = (Returned (Some v), set_stdin rest s).
Proof.
  intros Hns Hf Hv Hs Hl. unfold read_field.
  assert (E := any_field_noise fuel ns (field_line f v ++ rest) s Hns Hs Hl).
  destruct (fuel - length ns)%nat as [|k] eqn:Ek; [lia|].
  rewrite (any_field_line _ f v rest (set_stdin _ s) Hf Hv eq_refl) in E.
  rewrite (bind_returned _ _ _ _ _ E). by rewrite bool_decide_true.
Qed.

Lemma describe_length e : (5 + length (e_comments e) + length (e_code e) <= length (describe e))%nat.
Proof.
  pose proof (lines_length (e_comments e)). pose proof (lines_length (e_code e)).
  unfold describe, field_line. rewrite !length_app. cbn. lia.
Qed.

Lemma read_test_spec e rest s fuel :
  entry_ok e -> stdin s = describe e ++ rest -> (length (describe e) < fuel)%nat ->
  read_test fuel s = (Returned (Some (e_test e)), set_stdin rest s).
Proof.
  intros [Hc Hfs Hos Hcode Hfr [Hd Ha]] Hs Hf. pose proof (describe_length e) as Hlen.
  destruct e as [ns [nm ds st dep lnk frag flg ovr dn an] ls]. unfold describe in Hs. cbn [e_comments e_test e_code name desc style depends link fragment flags overrides done_ answer] in *.
  subst frag dn an. repeat (apply Forall_cons_1 in Hfs as [? Hfs]). rewrite <- !app_assoc in Hs.
  destruct fuel as [|fuel]; [lia|].
  unfold read_test.
  erewrite bind_returned; [|eapply (read_name (S fuel) false ns (cs "var") nm); [done|done|done|exact Hs|lia]].
  cbv beta iota. erewrite bind_returned; [|eapply (read_field_line fuel (cs "desc") ds); [done|done|reflexivity]].
  cbv beta iota. erewrite bind_returned; [|eapply (read_field_line fuel (cs "style") st); [done|done|reflexivity]].
  cbv beta iota. cbn [default from_option].
  erewrite bind_returned; [|apply read_options_spec with (v := []) (rest := lines ls ++ cs "/*END*/" ++ [10] ++ rest);
    [done|by split; [constructor|]|reflexivity|lia]].
  cbv beta iota. change (len [] =? 0) with true. cbv iota.
  erewrite bind_returned; [|apply read_code_spec with (rest := rest); [done|lia|reflexivity]]. done.
Qed.

Lemma read_test_end ns s fuel :
  Forall noise ns -> stdin s = lines ns -> (length ns < fuel)%nat ->
  read_test fuel s = (Returned None, set_stdin [] s).
Proof.
  intros Hns Hs Hl. rewrite <- (app_nil_r (lines ns)) in Hs.
  assert (E := any_field_noise fuel ns [] s Hns Hs Hl).
  destruct (fuel - length ns)%nat as [|k] eqn:Ek; [lia|]. rewrite any_field_end in E by done.
  assert (E' : read_field fuel (cs "var") false s = (Returned None, set_stdin [] s)).
  { unfold read_field. by rewrite (bind_returned _ _ _ _ _ E). }
  unfold read_test. by rewrite (bind_returned _ _ _ _ _ E').
Qed.

Lemma read_tests_loop_spec fuel ns es : forall n s,
  Forall entry_ok es -> Forall noise ns ->
  stdin s = concat (map describe es) ++ lines ns ->
  (length (stdin s) < fuel)%nat -> (length es < n)%nat ->
  read_tests_loop n fuel s = (Returned tt, set_tests (tests s ++ map e_test es) (set_stdin [] s)).
Proof.
  induction es as [|e es IH]; intros n s Hes Hns Hs Hf Hn; (destruct n as [|n]; [lia|]); cbn [read_tests_loop].
  - cbn in Hs. pose proof (lines_length ns).
    erewrite bind_returned; [|apply (read_test_end ns); [done|done|rewrite Hs in Hf; lia]].
    unfold mret, prog_ret. cbn [map]. rewrite app_nil_r. by destruct s.
  - inversion Hes as [|? ? He Hes']; subst. cbn [map concat] in Hs. rewrite <- app_assoc in Hs.
    erewrite bind_returned; [|apply (read_test_spec e (concat (map describe es) ++ lines ns) s); [done|exact Hs|]].
    2: { rewrite Hs, !length_app in Hf. lia. }
    cbv beta iota. erewrite bind_returned; [|reflexivity].
    rewrite IH; [|done|done|reflexivity| |cbn in Hn; lia].
    + cbn. by rewrite <- app_assoc.
    + rewrite Hs, length_app in Hf. cbn. lia.
Qed.

Lemma read_tests_spec (es : list entry) (ns : list (list Z)) (s : cstate) :
  Forall entry_ok es -> Forall noise ns -> stdin s = concat (map describe es) ++ lines ns ->
  read_tests s = (Returned tt, set_tests (tests s ++ map e_test es) (set_stdin [] s)).
Proof.
  intros Hes Hns Hs. unfold read_tests. rewrite (bind_returned _ _ _ _ _ (eq_refl : read stdin s = _)).
  apply read_tests_loop_spec with (ns := ns); [done|done|done|lia|].
  rewrite Hs, length_app. assert (length es <= length (concat (map describe es)))%nat; [|lia].
  clear. induction es as [|e es IH]; [done|]. cbn. rewrite length_app. pose proof (describe_length e). lia.
Qed.
(** Descriptions of tests, with comments and blank lines before each of
    them and at the end, are read back as the tests described, in order, behind
    the tests that are already there; the input is used up. *)
Theorem read_tests_round_trip (es : list entry) (ns : list (list Z)) (s : cstate) :
  Forall entry_ok es -> Forall noise ns -> stdin s = concat (map describe es) ++ lines ns ->
  read_tests s = (Returned tt, set_tests (tests s ++ map e_test es) (set_stdin [] s)).
Proof. apply read_tests_spec. Qed.
End reading.

(** ** An example machine

    It keeps the text of the file closed last; a command that names the test
    program fails when that text says [fails], any other when it says
    [missing]. *)

Definition toy_status (cmd text : list Z) : Z :=
  let word := if strstr cmd (cs "./configurator.out") then cs "fails" else cs "missing" in
  if strstr text word then 256 else 0.

Definition toy_host : Host := {|
  host := list Z; h_strerror := cs "No such file or directory";
  h_popen := fun text cmd => (Some (Process_ [] false (toy_status cmd text)), text);
  h_fopen := fun text _ _ => Some text;
  h_fclose := fun _ _ text => (true, text);
  h_remove := fun text _ => text
|}.

Definition toy_state (input : list Z) : @cstate toy_host := CState toy_host (cs "configurator") 0 false [] input [] [] [].

Definition toy_entry : entry :=
  let ls := [cs "int main(void) {"; cs "	missing();"; cs "}"] in
  Entry [cs "# a test"; cs "  "]
    (Test (cs "HAVE_MISSING") (cs "missing()") (cs "DEFINES_EVERYTHING") (Some (cs "HAVE_TYPEOF !HAVE_OTHER")) None
      (lines ls) None None false false) ls.

Definition toy_entry_2 : entry :=
  Entry [] (Test (cs "HAVE_OTHER") (cs "x=y") (cs "INSIDE_MAIN|EXECUTE") (Some (cs "HAVE_TYPEOF")) (Some (cs "-lm"))
      (lines [cs "return fails();"]) None None false false) [cs "return fails();"].

Lemma toy_entries_ok : Forall entry_ok [toy_entry; toy_entry_2].
Proof. repeat constructor; by_compute || done. Qed.

Lemma read_tests_round_trip_witness :
  let s := toy_state (describe toy_entry ++ describe toy_entry_2 ++ lines [cs "# end"]) in
  Forall entry_ok [toy_entry; toy_entry_2] /\
  @read_tests toy_host s = (Returned tt, set_tests [e_test toy_entry; e_test toy_entry_2] (set_stdin [] s)).
Proof.
  split; [apply toy_entries_ok|].
  apply (@read_tests_round_trip toy_host [toy_entry; toy_entry_2] [cs "# end"]);
    [apply toy_entries_ok|repeat constructor; by_compute|reflexivity].
Defined.
