(* ===== verification/Configurator.v ===== *)
(** * The configurator: tests, their execution and the program

    Second part of [configurator.c]: the table of tests, the compilation and
    execution of a test with the tests it depends on, the command line and
    [main], which writes the header.  The recursion over dependencies takes
    fuel: one unit more than there are tests is enough when no test depends on
    itself, and no fuel is when one does, as the C program then overflows its
    stack. *)
From S2P Require Import Prelude Run Event ConfRead.

Definition OUTPUT_FILE : list Z := cs "configurator.out".
Definition INPUT_FILE : list Z := cs "configuratortest.c".
Definition DIR_SEP : list Z := cs "/".
Definition DEFAULT_COMPILER : list Z := cs "gcc".
Definition DEFAULT_FLAGS : list Z := cs "-g3 -ggdb -Wall -Wundef -Wmissing-prototypes -Wmissing-declarations -Wstrict-prototypes -Wold-style-definition".
Definition DEFAULT_OUTPUT_EXE_FLAG : list Z := cs "-o".

Definition text_lines (l : list string) : list Z := concat (map (fun t => cs t ++ [10]) l).

Definition base_test (n d st : string) (dep : option string) (code : list Z) : test :=
  Test (cs n) (cs d) (cs st) (option_map cs dep) None code None None false false.

Definition base_tests : list test := [
  base_test "HAVE_UNALIGNED_ACCESS" "unaligned access to int" "DEFINES_EVERYTHING|EXECUTE" None
    (text_lines ["#include <string.h>"; "int main(int argc, char *argv[]) {"; "	(void)argc;";
      "     char pad[sizeof(int *) * 1];"; "	memcpy(pad, argv[0], sizeof(pad));";
      "	int *x = (int *)pad, *y = (int *)(pad + 1);"; "	return *x == *y;"; "}"]);
  base_test "HAVE_TYPEOF" "__typeof__ support" "INSIDE_MAIN" None
    (cs "__typeof__(argc) i; i = argc; return i == argc ? 0 : 1;");
  base_test "HAVE_BIG_ENDIAN" "big endian" "INSIDE_MAIN|EXECUTE" None
    (text_lines ["union { int i; char c[sizeof(int)]; } u;"; "u.i = 0x01020304;"] ++
     cs "return u.c[0] == 0x01 && u.c[1] == 0x02 && u.c[2] == 0x03 && u.c[3] == 0x04 ? 0 : 1;");
  base_test "HAVE_BYTESWAP_H" "<byteswap.h>" "OUTSIDE_MAIN" None (text_lines ["#include <byteswap.h>"]);
  base_test "HAVE_BSWAP_64" "bswap64 in byteswap.h" "DEFINES_FUNC" (Some "HAVE_BYTESWAP_H"%string)
    (text_lines ["#include <byteswap.h>"] ++ cs "static int func(int x) { return bswap_64(x); }");
  base_test "HAVE_LITTLE_ENDIAN" "little endian" "INSIDE_MAIN|EXECUTE" None
    (text_lines ["union { int i; char c[sizeof(int)]; } u;"; "u.i = 0x01020304;"] ++
     cs "return u.c[0] == 0x04 && u.c[1] == 0x03 && u.c[2] == 0x02 && u.c[3] == 0x01 ? 0 : 1;")].

Definition PRE_BOILERPLATE : list Z := text_lines ["/* Test program generated by configurator. */"].
Definition MAIN_START_BOILERPLATE : list Z :=
  text_lines ["int main(int argc, char *argv[]) {"; "	(void)argc;"; "	(void)argv;"].
Definition USE_FUNC_BOILERPLATE : list Z := text_lines ["(void)func;"].
Definition MAIN_BODY_BOILERPLATE : list Z := text_lines ["return 0;"].
Definition MAIN_END_BOILERPLATE : list Z := text_lines ["}"].

Definition has (t : test) (word : string) : bool := strstr (style t) (cs word).

(** The program of a test; [None] for a style that names no template. *)
Definition source_of (t : test) : option (list Z) :=
  option_map (app PRE_BOILERPLATE)
  (if has t "INSIDE_MAIN" then
     Some (MAIN_START_BOILERPLATE ++ fragment t ++ MAIN_END_BOILERPLATE)
   else if has t "OUTSIDE_MAIN" then
     Some (fragment t ++ MAIN_START_BOILERPLATE ++ MAIN_BODY_BOILERPLATE ++ MAIN_END_BOILERPLATE)
   else if has t "DEFINES_FUNC" then
     Some (fragment t ++ MAIN_START_BOILERPLATE ++ USE_FUNC_BOILERPLATE ++ MAIN_BODY_BOILERPLATE ++ MAIN_END_BOILERPLATE)
   else if has t "DEFINES_EVERYTHING" then Some (fragment t)
   else None).

(** [strcspn(deps, " ")] and [deps + strspn(deps, " ")]. *)
Fixpoint word_of (deps : list Z) : list Z :=
  match deps with c :: r => if c =? 32 then [] else c :: word_of r | [] => [] end.
Fixpoint skip_spaces (deps : list Z) : list Z :=
  match deps with c :: r => if c =? 32 then skip_spaces r else deps | [] => [] end.

Section configurator.
Context `{Host} (junk : Z).

Definition get_test (i : nat) : prog cstate test := fun s =>
  match tests s !! i with Some t => (Returned t, s) | None => (Undefined, s) end.

(** [test->answer = result; test->done = true;] *)
Definition decided (result : bool) (t : test) : test :=
  Test (name t) (desc t) (style t) (depends t) (link t) (fragment t) (flags t) (overrides t) true result.
Definition decide_test (i : nat) (result : bool) : prog cstate unit :=
  modify (fun s => set_tests (alter (decided result) i (tests s)) s).

(** The dependencies, [holds] being [run_test] of a name.  A word that is not
    the last one is a copy from [strdup], freed through [dep] although [dep]
    has moved when the word starts with an exclamation mark. *)
Fixpoint run_depends (holds : list Z -> prog cstate bool) (fuel : nat) (deps : list Z) : prog cstate bool :=
  match fuel with
  | O => out_of_fuel
  | S fuel =>
      let word := word_of deps in
      let more := drop (length word) deps in
      if len word =? 0 then mret true else
      let '(positive, dep) := match word with 33 :: dep => (false, dep) | _ => (true, word) end in
      b ← holds dep;
      if negb (eqb b positive) then mret false else
      _ ← (if (0 <? len more) && negb positive then undefined else mret tt);
      run_depends holds fuel (skip_spaces more)
  end.

Definition fopen (file : list Z) (append : bool) (message : list Z) : prog cstate unit := fun s =>
  match h_fopen (machine s) file append with
  | Some h => (Returned tt, set_machine h s)
  | None => c12r_err EXIT_TROUBLE_RUNNING message s
  end.

Definition fclose (file text : list Z) : prog cstate bool := fun s =>
  let '(ok, h) := h_fclose (machine s) file text in (Returned ok, set_machine h s).

Definition write_source (t : test) : prog cstate unit :=
  v ← read verbose;
  _ ← fopen INPUT_FILE false (cs "creating " ++ INPUT_FILE);
  match source_of t with
  | None => c12r_errx EXIT_BAD_TEST (cs "Unknown style for test " ++ name t ++ cs ": " ++ style t)
  | Some source =>
      _ ← (if 1 <? v then _ ← fcopy (length source + 1) source 0; mret tt else mret tt);
      _ ← fclose INPUT_FILE source; mret tt
  end.

Definition with_words (cmd : list Z) (words : option (list Z)) : list Z :=
  match words with Some w => cmd ++ [32] ++ w | None => cmd end.

Definition extra_line (label : string) (cmd : list Z) (words : option (list Z)) : prog cstate unit :=
  v ← read verbose;
  match words with Some _ => when (1 <? v) (printf (cs label ++ cmd)) | None => mret tt end.

(** Compilation failed or gave a warning. *)
Definition compile_failed (t : test) (status : Z) (output : list Z) : prog cstate bool :=
  v ← read verbose;
  _ ← when (negb (v =? 0)) (printf (cs "Compile " ++ (if status =? 0 then cs "warning" else cs "fail") ++
        cs " for " ++ name t ++ cs ", status " ++ fmt_int status ++ cs ": " ++ c_str output ++ [10]));
  _ ← when (has t "EXECUTE" && negb (has t "MAY_NOT_COMPILE"))
        (c12r_errx EXIT_BAD_TEST (cs "Test for " ++ name t ++ cs " did not compile:" ++ [10] ++ c_str output));
  mret false.

(** Compilation succeeded. *)
Definition execute (wrapper : list Z) (t : test) (status : Z) : prog cstate bool :=
  if has t "EXECUTE" || has t "INSIDE_MAIN" then
    v ← read verbose;
    '(output, status) ← run junk (wrapper ++ cs " ." ++ DIR_SEP ++ OUTPUT_FILE);
    _ ← when (negb (has t "EXECUTE") && negb (status =? 0))
          (c12r_errx EXIT_BAD_TEST (cs "Test for " ++ name t ++ cs " failed with " ++ fmt_int status ++
            cs ":" ++ [10] ++ c_str output));
    _ ← when (negb (v =? 0) && negb (status =? 0))
          (printf (name t ++ cs " exited " ++ fmt_int status ++ [10]));
    mret (status =? 0)
  else mret (status =? 0).

(** From the source file to the answer. *)
Definition try_test (cmd wrapper : list Z) (t : test) : prog cstate bool :=
  _ ← write_source t;
  let newcmd := with_words cmd (flags t) in
  _ ← extra_line "Extra flags line: " newcmd (flags t);
  let newcmd := with_words newcmd (link t) in
  _ ← extra_line "Extra link line: " newcmd (link t);
  _ ← start_test (cs "checking for ") (desc t);
  '(output, status) ← run junk newcmd;
  if negb (status =? 0) || strstr (c_str output) (cs "warning") then compile_failed t status output
  else execute wrapper t status.

Fixpoint run_test (fuel : nat) (cmd wrapper : list Z) (i : nat) : prog cstate bool :=
  match fuel with
  | O => out_of_fuel
  | S fuel =>
      t ← get_test i;
      if done_ t then mret (answer t) else
      ok ← match depends t with
           | Some deps =>
               run_depends (fun dep => j ← find_test dep; run_test fuel cmd wrapper j) (length deps + 1) deps
           | None => mret true
           end;
      if negb ok then _ ← decide_test i false; mret false else
      result ← try_test cmd wrapper t;
      _ ← decide_test i result;
      _ ← end_test result;
      _ ← match overrides t with
          | Some o => if (result : bool) then j ← find_test o; decide_test j true else mret tt
          | None => mret tt
          end;
      mret result
  end.

Fixpoint run_all (fuel : nat) (cmd wrapper : list Z) (todo : list nat) : prog cstate unit :=
  match todo with
  | [] => mret tt
  | i :: todo => _ ← run_test fuel cmd wrapper i; run_all fuel cmd wrapper todo
  end.

(** ** [main] *)

Record options := Options {
  outflag : list Z; configurator_cc : option (list Z); wrapper : list Z;
  varfile : option (list Z); headerfile : option (list Z); extra_tests : bool
}.

Definition quoted (t : list Z) : list Z := [34] ++ t ++ [34].

Definition usage : list Z :=
  cs "Usage: configurator [-v] [--var-file=<filename>] [-O<outflag>] [--configurator-cc=<compiler-for-tests>] [--wrapper=<wrapper-for-tests>] [--autotools-style] [--extra-tests] [<compiler> <flags>...]" ++ [10] ++
  cs "  <compiler> <flags> will have " ++ quoted (cs "<outflag> <outfile> <infile.c>") ++ cs " appended" ++ [10] ++
  cs "Default: " ++ DEFAULT_COMPILER ++ [32] ++ DEFAULT_FLAGS ++ [32] ++ DEFAULT_OUTPUT_EXE_FLAG ++ [10].

Definition add_verbose (n : Z) (s : cstate) : cstate :=
  CState _ (progname s) (verbose s + n) (like_a_libtool s) (tests s) (stdin s) (machine s) (out s) (err s).
Definition set_libtool (s : cstate) : cstate :=
  CState _ (progname s) (verbose s) true (tests s) (stdin s) (machine s) (out s) (err s).
Definition set_progname (p : list Z) (s : cstate) : cstate :=
  CState _ p (verbose s) (like_a_libtool s) (tests s) (stdin s) (machine s) (out s) (err s).

(** The text after a prefix. *)
Definition after (prefix : string) (arg : list Z) : list Z := drop (String.length prefix) arg.

Fixpoint parse_options (args : list (list Z)) (o : options) : prog cstate (options * list (list Z)) :=
  match args with
  | [] => mret (o, [])
  | arg :: rest =>
      if bool_decide (arg = cs "--help") then _ ← printf usage; exit 0
      else if starts_with (cs "-O") arg then
        match rest with
        | [] => undefined                              (* argv[1] is the null pointer *)
        | next :: _ =>
            if len next <? 2 then undefined            (* argv[1] + 2 is behind the string *)
            else if len next =? 2 then
              _ ← eprintf (arg ++ cs ": option requires an argument -- O" ++ [10]); exit EXIT_BAD_USAGE
            else parse_options rest (Options (drop 2 next) (configurator_cc o) (wrapper o) (varfile o) (headerfile o) (extra_tests o))
        end
      else if bool_decide (arg = cs "-v") then _ ← modify (add_verbose 1); parse_options rest o
      else if bool_decide (arg = cs "-vv") then _ ← modify (add_verbose 2); parse_options rest o
      else if starts_with (cs "--configurator-cc=") arg then
        parse_options rest (Options (outflag o) (Some (after "--configurator-cc=" arg)) (wrapper o) (varfile o) (headerfile o) (extra_tests o))
      else if starts_with (cs "--wrapper=") arg then
        parse_options rest (Options (outflag o) (configurator_cc o) (after "--wrapper=" arg) (varfile o) (headerfile o) (extra_tests o))
      else if starts_with (cs "--var-file=") arg then
        parse_options rest (Options (outflag o) (configurator_cc o) (wrapper o) (Some (after "--var-file=" arg)) (headerfile o) (extra_tests o))
      else if bool_decide (arg = cs "--autotools-style") then _ ← modify set_libtool; parse_options rest o
      else if starts_with (cs "--header-file=") arg then
        parse_options rest (Options (outflag o) (configurator_cc o) (wrapper o) (varfile o) (Some (after "--header-file=" arg)) (extra_tests o))
      else if bool_decide (arg = cs "--extra-tests") then
        parse_options rest (Options (outflag o) (configurator_cc o) (wrapper o) (varfile o) (headerfile o) true)
      else if bool_decide (arg = cs "--") then mret (o, args)
      else if starts_with (cs "-") arg then c12r_errx EXIT_BAD_USAGE (cs "Unknown option " ++ arg)
      else mret (o, args)
  end.

Definition digit_of (b : bool) : list Z := if b then [49] else [48].

(** The variables of [--var-file]. *)
Definition variables (ts : list test) : list Z :=
  concat (map (fun t => name t ++ [61] ++ digit_of (answer t) ++ [10]) ts).

Definition define (t : test) : list Z := cs "#define " ++ name t ++ [32] ++ digit_of (answer t) ++ [10].

Definition header (orig_cc cflags outflag : list Z) (ts : list test) : list Z :=
  text_lines ["/* Generated by CCAN configurator */"; "#ifndef CCAN_CONFIG_H"; "#define CCAN_CONFIG_H";
    "#ifndef _GNU_SOURCE"; "#define _GNU_SOURCE /* Always use GNU extensions. */"; "#endif"] ++
  cs "#define CCAN_COMPILER " ++ quoted orig_cc ++ [10] ++
  cs "#define CCAN_CFLAGS " ++ quoted cflags ++ [10] ++
  cs "#define CCAN_OUTPUT_EXE_CFLAG " ++ quoted outflag ++ [10; 10] ++
  text_lines ["#define HAVE_CCAN 1"] ++ concat (map define ts) ++ text_lines ["#endif /* CCAN_CONFIG_H */"].

Definition write_variables (file : list Z) : prog cstate unit :=
  ts ← read tests;
  if bool_decide (file = cs "-") then printf (variables ts)
  else
    _ ← start_test (cs "Writing variables to ") file;
    _ ← fopen file true (cs "Could not open " ++ file);
    ok ← fclose file (variables ts);
    _ ← when (negb ok) (c12r_err EXIT_TROUBLE_RUNNING (cs "Closing " ++ file));
    end_test true.

Definition write_header (file : option (list Z)) (orig_cc cflags outflag : list Z) : prog cstate unit :=
  ts ← read tests;
  let text := header orig_cc cflags outflag ts in
  match file with
  | None => printf text
  | Some file =>
      _ ← start_test (cs "Writing header to ") file;
      _ ← fopen file false (cs "Could not open " ++ file);
      ok ← fclose file text;
      _ ← when (negb ok) (c12r_err EXIT_TROUBLE_RUNNING (cs "Closing " ++ file));
      end_test true
  end.

(** [main] after its options: [argv] are the compiler and its flags. *)
Definition configure (o : options) (argv : list (list Z)) : prog cstate Z :=
  _ ← modify (set_tests base_tests);
  _ ← when (extra_tests o) read_tests;
  let orig_cc := hd [] argv in
  let argv := match configurator_cc o with Some cc => cc :: tail argv | None => argv end in
  cmd ← lift (connect_args junk argv (outflag o) (OUTPUT_FILE ++ [32] ++ INPUT_FILE));
  l ← read like_a_libtool;
  _ ← when l (_ ← start_test (cs "Making autoconf users comfortable") []; end_test true);
  ts ← read tests;
  _ ← run_all (length ts + 1) (c_str cmd) (wrapper o) (seq 0 (length ts));
  _ ← modify (fun s => set_machine (h_remove (h_remove (machine s) OUTPUT_FILE) INPUT_FILE) s);
  _ ← match varfile o with Some f => write_variables f | None => mret tt end;
  cflags ← lift (connect_args junk (tail argv) [] []);
  _ ← write_header (headerfile o) orig_cc (c_str cflags) (outflag o);
  mret 0.

(** [argv] with the name of the program. *)
Definition main (argv : list (list Z)) : prog cstate Z :=
  match argv with
  | [] => undefined
  | program :: args =>
      _ ← modify (set_progname program);
      '(o, rest) ← parse_options args (Options DEFAULT_OUTPUT_EXE_FLAG None [] None None false);
      configure o (match rest with [] => [DEFAULT_COMPILER; DEFAULT_FLAGS] | _ => rest end)
  end.
End configurator.

(** ** What the answers mean *)

(** A reproducible toolchain: what a compilation prints and returns depends on
    the command and the source only, and so does a run of its result. *)
Class Toolchain `{Host} := {
  compiled : list Z -> list Z -> list Z * Z;              (* command, source *)
  executed : list Z -> list Z -> list Z -> list Z * Z;    (* command of the run, of the compilation, source *)
  toolchain_fopen : forall h, exists h', h_fopen h INPUT_FILE false = Some h';
  toolchain_builds : forall h cmd source, exists ok h1 h2,
    h_fclose h INPUT_FILE source = (ok, h1) /\
    h_popen h1 (cmd ++ redir)
      = (Some (Process_ (fst (compiled cmd source)) false (snd (compiled cmd source))), h2) /\
    forall cmd', exists h3, h_popen h2 (cmd' ++ redir)
      = (Some (Process_ (fst (executed cmd' cmd source)) false (snd (executed cmd' cmd source))), h3)
}.

(** The words between spaces, [w] being the characters of the current one. *)
Fixpoint words_from (w deps : list Z) : list (list Z) :=
  match deps with
  | [] => if bool_decide (w = []) then [] else [rev w]
  | c :: r =>
      if c =? 32 then (if bool_decide (w = []) then words_from [] r else rev w :: words_from [] r)
      else words_from (c :: w) r
  end.

(** A word is a name, or an exclamation mark and a name that must not hold. *)
Definition dependency (word : list Z) : bool * list Z :=
  match word with 33 :: n => (false, n) | _ => (true, word) end.

Definition dependencies (t : test) : list (bool * list Z) :=
  match depends t with Some deps => map dependency (words_from [] deps) | None => [] end.

(** Only the last dependency may be negated, and no space comes first or last. *)
Definition depends_ok (t : test) : bool :=
  match depends t with
  | Some deps =>
      negb (bool_decide (head deps = Some 32)) && negb (bool_decide (last deps = Some 32)) &&
      forallb fst (removelast (map dependency (words_from [] deps)))
  | None => true
  end.

Section meaning.
Context `{Toolchain} (cmd wrapper : list Z) (ts : list test).

(** The answer of a test whose dependencies hold; [None] when the test ends the program. *)
Definition judge (t : test) : option bool :=
  source ← source_of t;
  let newcmd := with_words (with_words cmd (flags t)) (link t) in
  let '(output, status) := compiled newcmd source in
  if negb (status =? 0) || strstr (c_str output) (cs "warning") then
    if has t "EXECUTE" && negb (has t "MAY_NOT_COMPILE") then None else Some false
  else if has t "EXECUTE" then
    Some (snd (executed (wrapper ++ cs " ./configurator.out") newcmd source) =? 0)
  else if has t "INSIDE_MAIN" then
    if snd (executed (wrapper ++ cs " ./configurator.out") newcmd source) =? 0 then Some true else None
  else Some true.

Fixpoint all_hold (holds : list Z -> option bool) (ds : list (bool * list Z)) : option bool :=
  match ds with
  | [] => Some true
  | (positive, n) :: ds => b ← holds n; if eqb b positive then all_hold holds ds else Some false
  end.

(** The answer of the [i]-th test, [n] bounding the length of chains of dependencies. *)
Fixpoint meaning (n i : nat) : option bool :=
  match n with
  | O => None
  | S n =>
      t ← ts !! i;
      ok ← all_hold (fun dep => '(j, _) ← list_find (fun t => name t = dep) ts; meaning n j) (dependencies t);
      if (ok : bool) then judge t else Some false
  end.

Definition answered (n : nat) : list test :=
  imap (fun i t => decided (default false (meaning n i)) t) ts.
End meaning.

(** ** Running a test gives its meaning *)

(** [m] returns from [s], with [Q]. *)
Definition ends `{Host} {A} (m : prog cstate A) (s : cstate) (Q : A -> cstate -> Prop) : Prop :=
  exists a s', m s = (Returned a, s') /\ Q a s'.

Section run.
Context `{TC : Toolchain} (junk : Z).

Lemma ends_ret {A} (a : A) s (Q : A -> cstate -> Prop) : Q a s -> ends (mret a) s Q.
Proof. intros. by exists a, s. Qed.

Lemma ends_bind {A B} (m : prog cstate A) (f : A -> prog cstate B) s Q :
  ends m s (fun a s' => ends (f a) s' Q) -> ends (m ≫= f) s Q.
Proof. intros (a & s' & E & b & s'' & E' & HQ). exists b, s''. by rewrite (bind_returned _ _ _ _ _ E). Qed.

Lemma ends_read {A} (f : cstate -> A) s (Q : A -> cstate -> Prop) : Q (f s) s -> ends (read f) s Q.
Proof. intros. by exists (f s), s. Qed.

Lemma ends_modify f s (Q : unit -> cstate -> Prop) : Q tt (f s) -> ends (modify f) s Q.
Proof. intros. by exists tt, (f s). Qed.

(** Output leaves the tests and the machine alone. *)
Definition same (s s' : cstate) : Prop := tests s' = tests s /\ machine s' = machine s.

Lemma same_refl s : same s s.
Proof. done. Qed.

Lemma same_trans s1 s2 s3 : same s1 s2 -> same s2 s3 -> same s1 s3.
Proof. unfold same. intros [-> ->] [-> ->]. done. Qed.

(** A computation that only prints. *)
Definition prints {A} (m : prog cstate A) : Prop := forall s, exists a s', m s = (Returned a, s') /\ same s s'.

Lemma ends_prints {A} (m : prog cstate A) s (Q : A -> cstate -> Prop) :
  prints m -> (forall a s', same s s' -> Q a s') -> ends m s Q.
Proof. intros Hm HQ. destruct (Hm s) as (a & s' & E & Hs). exists a, s'. auto. Qed.

Lemma prints_printf t : prints (printf t).
Proof. intros s. by exists tt, (set_out (fun o => o ++ t) s). Qed.

Lemma prints_ret {A} (a : A) : prints (mret a).
Proof. intros s. by exists a, s. Qed.

Lemma prints_when b (m : prog cstate unit) : (b = true -> prints m) -> prints (when b m).
Proof. destruct b; intros Hm; [by apply Hm|]. intros s. by exists tt, s. Qed.

Lemma prints_bind {A B} (m : prog cstate A) (f : A -> prog cstate B) :
  prints m -> (forall a, prints (f a)) -> prints (m ≫= f).
Proof.
  intros Hm Hf s. destruct (Hm s) as (a & s1 & E & H1). destruct (Hf a s1) as (b & s2 & E' & H2).
  exists b, s2. rewrite (bind_returned _ _ _ _ _ E). split; [done|by eapply same_trans].
Qed.

Lemma prints_read {A} (f : cstate -> A) : prints (read f).
Proof. intros s. by exists (f s), s. Qed.

Lemma prints_start_test w y : prints (start_test w y).
Proof. apply prints_bind; [apply prints_read|]. intros b. apply prints_when. intros _. apply prints_printf. Qed.

Lemma prints_end_test b : prints (end_test b).
Proof. apply prints_bind; [apply prints_read|]. intros l. apply prints_when. intros _. apply prints_printf. Qed.

Lemma prints_fcopy fuel : forall src n, (length src < fuel)%nat -> prints (fcopy fuel src n).
Proof.
  induction fuel as [|fuel IH]; intros src n Hf; [lia|]. cbn [fcopy].
  pose proof (fread_spec BUFSIZ src) as Hr. destruct (fread BUFSIZ src) as [b rest]. destruct Hr as [-> Hb].
  case_match; [|apply prints_ret]. apply prints_bind; [apply prints_printf|]. intros _. apply IH.
  rewrite length_app in Hf. unfold len in *. lia.
Qed.

Lemma prints_extra_line label c w : prints (extra_line label c w).
Proof.
  apply prints_bind; [apply prints_read|]. intros v. destruct w; [|apply prints_ret].
  apply prints_when. intros _. apply prints_printf.
Qed.

Lemma c_str_terminated l rest : c_str (l ++ 0 :: rest) = c_str l.
Proof. induction l as [|c l IH]; [done|]. cbn. by rewrite IH. Qed.

Lemma ends_run c o st h s (Q : list Z * Z -> cstate -> Prop) :
  h_popen (machine s) (c ++ redir) = (Some (Process_ o false st), h) ->
  (forall buf, c_str buf = c_str o -> Q (buf, st) (set_machine h s)) -> ends (run junk c) s Q.
Proof.
  intros Hp HQ. apply ends_bind. exists (Some (Process_ o false st)), (set_machine h s).
  split; [unfold popen; by rewrite Hp|]. apply ends_bind.
  destruct (grab_stream_spec junk (Process_ o false st) (set_machine h s) eq_refl) as (rest & E). cbn [p_output] in E.
  exists (o ++ 0 :: rest), (set_machine h s). split; [exact E|]. apply ends_ret, HQ, c_str_terminated.
Qed.

Lemma ends_write_source t source s (Q : unit -> cstate -> Prop) :
  source_of t = Some source ->
  (forall s' h ok, tests s' = tests s -> h_fclose h INPUT_FILE source = (ok, machine s') -> Q tt s') ->
  ends (write_source t) s Q.
Proof using TC.
  intros Hs HQ. apply ends_bind, ends_read, ends_bind.
  destruct (toolchain_fopen (machine s)) as [h Hh].
  exists tt, (set_machine h s). split; [unfold fopen; by rewrite Hh|]. rewrite Hs.
  apply ends_bind, ends_prints.
  { case_match; [|apply prints_ret]. apply prints_bind; [apply prints_fcopy; lia|intros ?; apply prints_ret]. }
  intros _ s1 [Ht Hm]. apply ends_bind. unfold ends, fclose.
  destruct (h_fclose (machine s1) INPUT_FILE source) as [ok h1] eqn:E.
  exists ok, (set_machine h1 s1). split; [done|]. exists tt, (set_machine h1 s1). split; [done|].
  by apply (HQ _ (machine s1) ok).
Qed.

Lemma try_test_judge cmd wrapper t b s :
  judge cmd wrapper t = Some b ->
  ends (try_test junk cmd wrapper t) s (fun a s' => a = b /\ tests s' = tests s).
Proof using TC.
  intros Hj. unfold judge in Hj. destruct (source_of t) as [source|] eqn:Hs; [|done].
  rewrite bind_some in Hj. cbv zeta in Hj.
  set (newcmd := with_words (with_words cmd (flags t)) (link t)) in *.
  apply ends_bind, (ends_write_source t source); [done|]. intros s1 h ok Ht1 Hclose. cbv zeta.
  apply ends_bind, ends_prints; [apply prints_extra_line|]. intros _ s2 H2.
  apply ends_bind, ends_prints; [apply prints_extra_line|]. intros _ s3 H3.
  apply ends_bind, ends_prints; [apply prints_start_test|]. intros _ s4 H4.
  destruct (same_trans _ _ _ (same_trans _ _ _ H2 H3) H4) as [Ht Hm]. rewrite Ht1 in Ht.
  destruct (toolchain_builds h newcmd source) as (ok' & h1 & h2 & Hcl & Hpo & Hex).
  rewrite Hclose in Hcl. injection Hcl as -> Hm1. rewrite Hm1 in Hm. rewrite <- Hm in Hpo.
  fold newcmd. apply ends_bind, (ends_run _ _ _ _ _ _ Hpo). intros buf Hbuf.
  destruct (compiled newcmd source) as [output status]. cbn [fst snd] in *. rewrite Hbuf.
  destruct (negb (status =? 0) || strstr (c_str output) (cs "warning")) eqn:Ew.
  - apply ends_bind, ends_read, ends_bind, ends_prints; [apply prints_when; intros _; apply prints_printf|].
    intros _ s5 [Ht5 _]. destruct (has t "EXECUTE" && negb (has t "MAY_NOT_COMPILE")); [done|].
    apply ends_bind, ends_ret, ends_ret. split; [congruence|by rewrite Ht5].
  - assert (status = 0) as -> by (destruct (Z.eqb_spec status 0); [done|discriminate Ew]).
    unfold execute. destruct (has t "EXECUTE" || has t "INSIDE_MAIN") eqn:Er.
    2: { apply orb_false_elim in Er as [E1 E2]. rewrite E1, E2 in Hj. apply ends_ret. by injection Hj as <-. }
    apply ends_bind, ends_read.
    destruct (Hex (wrapper ++ cs " ./configurator.out")) as [h3 Hp3].
    apply ends_bind, (ends_run _ _ _ _ (set_machine h2 s4) _ Hp3). intros buf' _.
    set (st := snd (executed _ newcmd source)) in *. clearbody st.
    apply ends_bind. destruct (has t "EXECUTE"), (has t "INSIDE_MAIN"); cbn [negb andb orb] in *; try done.
    1-2: apply ends_ret, ends_bind, ends_prints; [apply prints_when; intros _; apply prints_printf|];
      intros _ s5 [Ht5 _]; apply ends_ret; split; [congruence|by rewrite Ht5].
    destruct (st =? 0); [|done]. injection Hj as <-. cbn [negb].
    apply ends_ret, ends_bind, ends_prints; [apply prints_when; intros _; apply prints_printf|].
    intros _ s5 [Ht5 _]. apply ends_ret. by rewrite Ht5.
Qed.

(** ** Dependencies *)

Lemma words_skip r : words_from [] r = words_from [] (skip_spaces r).
Proof. induction r as [|c r IH]; [done|]. cbn. by destruct (c =? 32) eqn:E; cbn; rewrite ?E. Qed.

Lemma words_from_cons deps : forall w, w <> [] ->
  words_from w deps = (rev w ++ word_of deps) :: words_from [] (skip_spaces (drop (length (word_of deps)) deps)).
Proof.
  induction deps as [|c r IH]; intros w Hw; cbn [words_from word_of].
  - rewrite bool_decide_false by done. cbn. by rewrite app_nil_r.
  - destruct (c =? 32) eqn:E.
    + rewrite bool_decide_false by done. cbn. rewrite E, app_nil_r. f_equal. apply words_skip.
    + rewrite IH by done. cbn [length drop rev]. by rewrite <- app_assoc.
Qed.

Lemma words_step deps : deps <> [] -> head deps <> Some 32 ->
  words_from [] deps = word_of deps :: words_from [] (skip_spaces (drop (length (word_of deps)) deps))
  /\ word_of deps <> [].
Proof.
  destruct deps as [|c r]; [done|]. intros _ Hc. cbn [words_from word_of].
  destruct (Z.eqb_spec c 32) as [->|]; [done|]. by rewrite words_from_cons.
Qed.

Lemma word_of_split deps : deps = word_of deps ++ drop (length (word_of deps)) deps.
Proof. induction deps as [|c r IH]; [done|]. cbn. destruct (c =? 32); [done|]. cbn. by rewrite <- IH. Qed.

Lemma skip_spaces_last l : l <> [] -> last l <> Some 32 ->
  skip_spaces l <> [] /\ last (skip_spaces l) = last l /\ head (skip_spaces l) <> Some 32 /\
  (length (skip_spaces l) <= length l)%nat.
Proof.
  induction l as [|c r IH]; [done|]. intros _ Hl. cbn [skip_spaces]. destruct (Z.eqb_spec c 32) as [->|Hc].
  - destruct r as [|d r]; [done|]. destruct IH as (H1 & H2 & H3 & H4); [done|done|].
    split_and!; [done|done|done|cbn [length] in *; lia].
  - split_and!; [done|done|by intros [= ?]|lia].
Qed.

Lemma last_app_r (l1 l2 : list Z) : l2 <> [] -> last (l1 ++ l2) = last l2.
Proof. intros Hl. rewrite last_app. by destruct l2 using rev_ind; [|rewrite last_snoc]. Qed.

Lemma run_depends_spec (inv : cstate -> Prop) (grows : cstate -> cstate -> Prop)
    (holdsm : list Z -> prog cstate bool) (holds : list Z -> option bool) :
  (forall s, grows s s) -> (forall s1 s2 s3, grows s1 s2 -> grows s2 s3 -> grows s1 s3) ->
  (forall dep b s, holds dep = Some b -> inv s ->
    ends (holdsm dep) s (fun a s' => a = b /\ inv s' /\ grows s s')) ->
  forall fuel deps b s,
  (length deps < fuel)%nat -> head deps <> Some 32 -> last deps <> Some 32 ->
  forallb fst (removelast (map dependency (words_from [] deps))) = true ->
  all_hold holds (map dependency (words_from [] deps)) = Some b -> inv s ->
  ends (run_depends holdsm fuel deps) s (fun a s' => a = b /\ inv s' /\ grows s s').
Proof.
  intros Hrefl Htrans Hholds. induction fuel as [|fuel IH]; intros deps b s Hf Hh Hl Hp Hb Hi; [lia|].
  cbn [run_depends]. destruct (decide (deps = [])) as [->|Hne]; [injection Hb as <-; by apply ends_ret|].
  destruct (words_step deps Hne Hh) as [Hw Hwne]. rewrite Hw in Hp, Hb. cbn [map] in Hp, Hb.
  set (word := word_of deps) in *. set (more := drop (length word) deps) in *.
  assert (Hsplit : deps = word ++ more) by apply word_of_split. clearbody word more.
  destruct (Z.eqb_spec (len word) 0) as [E|_]; [destruct word; [done|rewrite len_cons in E; pose proof (len_nonneg word); lia]|].
  change (match word with 33 :: dep => (false, dep) | _ => (true, word) end) with (dependency word).
  destruct (dependency word) as [positive dep] eqn:Ed. cbn [all_hold] in Hb.
  destruct (holds dep) as [b'|] eqn:Eh; [|done]. rewrite bind_some in Hb.
  apply ends_bind. destruct (Hholds dep b' s Eh Hi) as (a & s1 & Ea & -> & Hi1 & Hg1).
  exists b', s1. split; [done|]. destruct (eqb b' positive) eqn:Eb; cbn [negb].
  2: { injection Hb as <-. by apply ends_ret. }
  assert (Hmore : more = [] \/ positive = true /\ more <> []).
  { destruct more as [|m more]; [by left|right]. split; [|done].
    destruct (skip_spaces_last (m :: more)) as (Hs & _ & Hs' & _);
      [done|by rewrite Hsplit, last_app_r in Hl|].
    destruct (words_step _ Hs Hs') as [Hw' _]. rewrite Hw' in Hp. cbn in Hp. by destruct positive. }
  apply ends_bind. destruct Hmore as [->|[-> Hmore]].
  - cbn [andb Z.ltb]. apply ends_ret. cbn [skip_spaces words_from map all_hold bool_decide decide_rel] in *.
    destruct fuel as [|fuel]; [destruct deps; [done|cbn in Hf; lia]|].
    cbn in Hb. injection Hb as <-. by apply ends_ret.
  - rewrite andb_false_r. apply ends_ret. rewrite Hsplit in Hl. rewrite last_app_r in Hl by done.
    destruct (skip_spaces_last more) as (Hs & Hs1 & Hs2 & Hs3); [done|done|].
    destruct (IH (skip_spaces more) b s1) as (a & s2 & E2 & -> & Hi2 & Hg2); try done.
    + rewrite Hsplit, length_app in Hf. destruct word; [done|]. cbn in Hf. lia.
    + by rewrite Hs1.
    + destruct (words_step _ Hs Hs2) as [Hw' _]. rewrite Hw' in Hp |- *. exact Hp.
    + exists b, s2. split; [done|]. eauto.
Qed.

(** ** All tests *)

Context (cmd wrapper : list Z) (ts : list test).
Local Abbreviation meaning := (meaning cmd wrapper ts).

Lemma all_hold_mono (h1 h2 : list Z -> option bool) ds b :
  (forall n b, h1 n = Some b -> h2 n = Some b) -> all_hold h1 ds = Some b -> all_hold h2 ds = Some b.
Proof.
  intros Hh. induction ds as [|[p n] ds IH]; [done|]. cbn [all_hold].
  destruct (h1 n) as [b'|] eqn:E; [|done]. rewrite (Hh _ _ E), !bind_some. by case_match.
Qed.

Lemma meaning_mono n : forall i b m, meaning n i = Some b -> (n <= m)%nat -> meaning m i = Some b.
Proof.
  induction n as [|n IH]; [done|]. intros i b [|m] Hm Hle; [lia|]. cbn [Configurator.meaning] in *.
  destruct (ts !! i) as [t|]; [|done]. rewrite bind_some in *.
  destruct (all_hold _ (dependencies t)) as [ok|] eqn:E; [|done].
  erewrite all_hold_mono; [exact Hm| |exact E]. intros dep b' Hd. cbv beta in *.
  destruct (list_find _ ts) as [[j u]|]; [|done]. rewrite bind_some in *. apply (IH j b' m Hd). lia.
Qed.

Lemma meaning_unique n m i b b' : meaning n i = Some b -> meaning m i = Some b' -> b = b'.
Proof.
  intros Hn Hm. apply (meaning_mono _ _ _ (n + m)) in Hn, Hm; [congruence|lia|lia].
Qed.

(** Every test is as it was or has its meaning. *)
Definition agrees (s : cstate) : Prop :=
  length (tests s) = length ts /\
  forall i t, ts !! i = Some t -> exists t', tests s !! i = Some t' /\
    (t' = t \/ exists n b, meaning n i = Some b /\ t' = decided b t).

Definition settled (i : nat) (s : cstate) : Prop := exists t, tests s !! i = Some t /\ done_ t = true.
Definition grows (s s' : cstate) : Prop := forall i, settled i s -> settled i s'.

Context (Hts : Forall (fun t => done_ t = false /\ overrides t = None /\ depends_ok t = true) ts).

Lemma agrees_tests s s' : tests s' = tests s -> agrees s -> agrees s'.
Proof. intros E. unfold agrees. by rewrite E. Qed.

Lemma agrees_names s : agrees s -> map name (tests s) = map name ts.
Proof.
  intros [Hl Ha]. apply list_eq. intros i. rewrite !list_lookup_fmap.
  destruct (ts !! i) as [t|] eqn:E.
  - destruct (Ha i t E) as (t' & -> & [->|(n & b & _ & ->)]); done.
  - rewrite (lookup_ge_None_2 (tests s)); [done|]. rewrite Hl. by apply lookup_ge_None.
Qed.

Lemma list_find_name l dep :
  fst <$> list_find (fun t => name t = dep) l = fst <$> list_find (fun n => n = dep) (map name l).
Proof.
  induction l as [|t l IH]; [done|]. cbn. case_decide; [done|].
  destruct (list_find _ l) as [[]|], (list_find _ (map name l)) as [[]|]; cbn in *; congruence.
Qed.

Lemma find_test_index s dep j t :
  agrees s -> list_find (fun t => name t = dep) ts = Some (j, t) -> find_test dep s = (Returned j, s).
Proof.
  intros Ha Hj. assert (Hs := list_find_name (tests s) dep).
  rewrite (agrees_names s Ha), <- list_find_name, Hj in Hs.
  unfold find_test. rewrite (bind_returned _ _ _ _ _ (eq_refl : read tests s = _)).
  destruct (list_find _ (tests s)) as [[k u]|]; [|done]. cbn in Hs. by injection Hs as ->.
Qed.

Lemma decide_agrees i b n s :
  agrees s -> meaning n i = Some b ->
  agrees (set_tests (alter (decided b) i (tests s)) s) /\
  grows s (set_tests (alter (decided b) i (tests s)) s) /\
  ((i < length ts)%nat -> settled i (set_tests (alter (decided b) i (tests s)) s)).
Proof.
  intros [Hl Ha] Hm. split_and!.
  - split; [cbn; by rewrite length_alter|]. intros j t Hj. cbn. destruct (Ha j t Hj) as (t' & Ht' & Hor).
    destruct (decide (i = j)) as [->|Hne].
    + rewrite list_lookup_alter_eq, Ht'. exists (decided b t'). split; [done|]. right. exists n, b. split; [done|].
      by destruct Hor as [->|(? & ? & _ & ->)].
    + rewrite list_lookup_alter_ne by done. eauto.
  - intros j (t & Hj & Hd). unfold settled. cbn. destruct (decide (i = j)) as [->|Hne].
    + rewrite list_lookup_alter_eq, Hj. by eexists.
    + rewrite list_lookup_alter_ne by done. eauto.
  - intros Hi. unfold settled. cbn. rewrite list_lookup_alter_eq.
    destruct (lookup_lt_is_Some_2 (tests s) i) as [t ->]; [by rewrite Hl|]. by eexists.
Qed.

(** The outcome of [run_test] when [inv] is the invariant [agrees]. *)
Definition gives (i : nat) (b : bool) (s : cstate) (a : bool) (s' : cstate) : Prop :=
  a = b /\ agrees s' /\ grows s s' /\ settled i s'.

(** The tests decided at the end of [run_test]. *)
Lemma ends_decide i b n s (m : prog cstate unit) :
  agrees s -> meaning n i = Some b -> (i < length ts)%nat -> prints m ->
  ends (_ ← decide_test i b; _ ← m; mret b) s (gives i b s).
Proof.
  intros Ha Hm Hi Hp. destruct (decide_agrees i b n s Ha Hm) as (H1 & H2 & H3).
  apply ends_bind, ends_modify, ends_bind, ends_prints; [done|]. intros _ s' [Ht _].
  apply ends_ret. unfold gives, grows, settled. rewrite Ht.
  split_and!; [done|by eapply agrees_tests|exact H2|exact (H3 Hi)].
Qed.

Lemma run_test_spec n : forall i b s,
  meaning n i = Some b -> agrees s -> ends (run_test junk n cmd wrapper i) s (gives i b s).
Proof using TC Hts.
  induction n as [|n IH]; [done|]. intros i b s Hm Ha. pose proof Hm as Hm'.
  cbn [Configurator.meaning] in Hm. destruct (ts !! i) as [t|] eqn:Ei; [|done]. rewrite bind_some in Hm.
  assert (Hi := lookup_lt_Some _ _ _ Ei).
  destruct (proj1 (Forall_lookup _ _) Hts i t Ei) as (Hdone & Hover & Hdep).
  destruct (proj2 Ha i t Ei) as (t' & Et' & Hor). cbn [run_test].
  apply ends_bind. exists t', s. split; [unfold get_test; by rewrite Et'|].
  destruct Hor as [->|(m & b' & Hb' & ->)].
  2: { cbn [decided done_ answer]. rewrite (meaning_unique _ _ _ _ _ Hb' Hm') in *. apply ends_ret.
       split_and!; [done|done|by intros ?|by eexists]. }
  rewrite Hdone, Hover.
  destruct (all_hold _ (dependencies t)) as [ok|] eqn:Eok; [|done].
  assert (Hds : ends match depends t with
      | Some deps => run_depends (fun dep => j ← find_test dep; run_test junk n cmd wrapper j) (length deps + 1) deps
      | None => mret true end s (fun a s' => a = ok /\ agrees s' /\ grows s s')).
  { unfold dependencies in Eok. unfold depends_ok in Hdep. destruct (depends t) as [deps|].
    2: { injection Eok as <-. apply ends_ret. split_and!; [done|done|by intros ? ?]. }
    apply andb_prop in Hdep as [[H1%negb_true_iff H2%negb_true_iff]%andb_prop H3].
    apply bool_decide_eq_false in H1, H2.
    refine (run_depends_spec agrees grows _ _ _ _ _ (length deps + 1) deps ok s _ H1 H2 H3 Eok Ha);
      [by intros ? ? ?|intros ? ? ? Hx Hy j Hj; auto| |lia].
    intros dep b' s' Hd Ha'. cbv beta in Hd.
    destruct (list_find _ ts) as [[j u]|] eqn:Ej; [|done]. rewrite bind_some in Hd.
    apply ends_bind. exists j, s'. split; [by eapply find_test_index|].
    destruct (IH j b' s' Hd Ha') as (a & s'' & E & -> & H4 & H5 & _). by exists b', s''. }
  apply ends_bind. destruct Hds as (a & s1 & E1 & -> & Ha1 & Hg1). exists ok, s1. split; [done|].
  destruct ok; cbn [negb].
  - apply ends_bind. destruct (try_test_judge cmd wrapper t b s1 Hm) as (a & s2 & E2 & -> & Ht2).
    exists b, s2. split; [done|].
    destruct (ends_decide i b (S n) s2 (_ ← end_test b; mret tt)) as (a & s3 & E3 & -> & H3a & H3g & H3s);
      [by eapply agrees_tests|done|done|apply prints_bind; [apply prints_end_test|intros; apply prints_ret]|].
    exists b, s3. split.
    + rewrite <- E3. unfold mbind, prog_bind, decide_test, modify. by destruct (end_test b _) as [[] ?].
    + split_and!; [done|done| |done]. intros j Hj. apply H3g. unfold settled. rewrite Ht2. by apply Hg1.
  - injection Hm as <-. destruct (ends_decide i false (S n) s1 (mret tt)) as (a & s2 & E2 & -> & H2a & H2g & H2s);
      [done|done|done|apply prints_ret|].
    exists false, s2. split; [by rewrite <- E2|]. split_and!; [done|done| |done]. intros j Hj. by apply H2g, Hg1.
Qed.

Lemma run_all_spec n todo : forall s,
  Forall (fun i => is_Some (meaning n i)) todo -> agrees s ->
  ends (run_all junk n cmd wrapper todo) s
    (fun _ s' => agrees s' /\ grows s s' /\ Forall (fun i => settled i s') todo).
Proof using TC Hts.
  induction todo as [|i todo IH]; intros s Hm Ha; [apply ends_ret; split_and!; [done|by intros ? ?|constructor]|].
  inversion Hm as [|? ? [b Hb] Hm']; subst. apply ends_bind.
  destruct (run_test_spec n i b s Hb Ha) as (a & s1 & E & -> & Ha1 & Hg1 & Hs1). exists b, s1. split; [done|].
  destruct (IH s1 Hm' Ha1) as ([] & s2 & E2 & Ha2 & Hg2 & Hs2). exists tt, s2. split; [done|].
  split_and!; [done|intros j Hj; auto|constructor; auto].
Qed.

(** When all tests are settled, their answers are their meanings. *)
Lemma agrees_answered n s :
  agrees s -> (forall i, (i < length ts)%nat -> settled i s /\ is_Some (meaning n i)) ->
  tests s = answered cmd wrapper ts n.
Proof using Hts.
  intros [Hl Ha] Hs. apply list_eq. intros i. unfold answered. rewrite list_lookup_imap.
  destruct (ts !! i) as [t|] eqn:E; cbn.
  - destruct (Ha i t E) as (t' & Et' & Hor). destruct (Hs i (lookup_lt_Some _ _ _ E)) as [(u & Eu & Hd) [b Hb]].
    rewrite Hb, Et'. cbn. rewrite Et' in Eu. injection Eu as <-. f_equal.
    destruct Hor as [->|(m & b' & Hb' & ->)].
    + destruct (proj1 (Forall_lookup _ _) Hts i t E) as [Hf _]. congruence.
    + by rewrite (meaning_unique _ _ _ _ _ Hb' Hb).
  - apply lookup_ge_None_2. rewrite Hl. by apply lookup_ge_None.
Qed.
End run.

(** ** The program *)

Section program.
Context `{TC : Toolchain} (junk : Z).

(** The compiler's words with [--configurator-cc] in place of the compiler. *)
Definition compiler_words (o : options) (argv : list (list Z)) : list (list Z) :=
  match configurator_cc o with Some cc => cc :: tail argv | None => argv end.

Definition test_command (o : options) (argv : list (list Z)) : list Z :=
  c_str (command_line (compiler_words o argv) (outflag o) (OUTPUT_FILE ++ [32] ++ INPUT_FILE)).

(** The table of tests: the built-in ones, and those on standard input. *)
Definition all_tests (o : options) (es : list entry) : list test :=
  base_tests ++ (if extra_tests o then map e_test es else []).

Definition independent (t : test) : bool := bool_decide (overrides t = None) && depends_ok t.

Lemma ends_connect argv outflag files s (Q : list Z -> cstate -> Prop) :
  (forall buf, c_str buf = c_str (command_line argv outflag files) -> Q buf s) ->
  ends (lift (connect_args junk argv outflag files)) s Q.
Proof.
  intros HQ. destruct (connect_args_spec junk argv outflag files) as [rest E]. rewrite E.
  exists (command_line argv outflag files ++ 0 :: rest), s. split; [done|]. apply HQ, c_str_terminated.
Qed.

Lemma ends_table {A} (m : prog cstate A) o es ns s (Q : A -> cstate -> Prop) :
  (extra_tests o = true ->
    Forall entry_ok es /\ Forall noise ns /\ stdin s = concat (map describe es) ++ lines ns) ->
  (forall s', tests s' = all_tests o es -> ends m s' Q) ->
  ends (_ ← modify (set_tests base_tests); _ ← when (extra_tests o) read_tests; m) s Q.
Proof.
  intros Hx HQ. apply ends_bind, ends_modify, ends_bind. unfold all_tests in HQ. destruct (extra_tests o); cbn [when].
  - destruct Hx as (He & Hn & Hs); [done|].
    eexists tt, _. split; [by apply (read_tests_spec es ns)|]. by apply HQ.
  - apply ends_ret, HQ. by rewrite app_nil_r.
Qed.

(** C23: the configurator writes the header it is there for.  On a reproducible
    toolchain, for the built-in tests and those described on standard input,
    when no test overrides another, no chain of dependencies is circular and no
    test ends the program, the run ends with status 0 and the header on standard
    output, in which every test is defined with its meaning: that all its
    dependencies hold as required and that its own program passes. *)
Theorem configurator_header (o : options) (argv : list (list Z)) (es : list entry)
    (ns : list (list Z)) (s : cstate)
    (ts := all_tests o es) (n := (length ts + 1)%nat) (cmd := test_command o argv) :
  (extra_tests o = true ->
    Forall entry_ok es /\ Forall noise ns /\ stdin s = concat (map describe es) ++ lines ns) ->
  forallb independent ts = true ->
  Forall (fun i => is_Some (meaning cmd (wrapper o) ts n i)) (seq 0 (length ts)) ->
  varfile o = None -> headerfile o = None ->
  exists s' printed, configure junk o argv s = (Returned 0, s') /\
    tests s' = answered cmd (wrapper o) ts n /\
    out s' = printed ++ header (hd [] argv) (c_str (command_line (tail argv) [] [])) (outflag o)
                          (answered cmd (wrapper o) ts n).
Proof using TC.
  intros Hx Hind Hm Hv Hh.
  assert (Hts : Forall (fun t => done_ t = false /\ overrides t = None /\ depends_ok t = true) ts).
  { apply Forall_forall. intros t Ht. rewrite forallb_forall in Hind.
    assert (Hi := Hind t (proj1 (list_elem_of_In _ _) Ht)). apply andb_prop in Hi as [Ho%bool_decide_eq_true Hd].
    split_and!; [|done|done]. unfold ts, all_tests in Ht. apply elem_of_app in Ht as [Ht|Ht].
    - revert t Ht Ho Hd Hind. clear. intros t Ht _ _ _. repeat (apply elem_of_cons in Ht as [->|Ht]; [done|]).
      by apply elem_of_nil in Ht.
    - destruct (extra_tests o); [|by apply elem_of_nil in Ht]. destruct Hx as (He & _ & _); [done|].
      apply list_elem_of_fmap in Ht as (e & -> & Hin). apply (ok_fresh e), (proj1 (Forall_forall _ _) He e Hin). }
  enough (He : ends (configure junk o argv) s (fun a s' => a = 0 /\ tests s' = answered cmd (wrapper o) ts n /\
    exists printed, out s' = printed ++ header (hd [] argv) (c_str (command_line (tail argv) [] [])) (outflag o)
                          (answered cmd (wrapper o) ts n))).
  { destruct He as (a & s' & E & -> & Ht & pr & Ho). by exists s', pr. }
  unfold configure. apply (ends_table _ o es ns); [done|]. intros s1 Ht1. cbv zeta.
  fold (compiler_words o argv).
  apply ends_bind, ends_connect. intros buf Hbuf.
  apply ends_bind, ends_read, ends_bind, ends_prints.
  { apply prints_when. intros _. apply prints_bind; [apply prints_start_test|intros _; apply prints_end_test]. }
  intros _ s2 [Ht2 _]. rewrite Ht1 in Ht2. apply ends_bind, ends_read. rewrite Hbuf, Ht2. fold cmd ts n.
  apply ends_bind.
  assert (Ha : agrees cmd (wrapper o) ts s2).
  { split; [by rewrite Ht2|]. intros i t Hi. exists t. rewrite Ht2. auto. }
  destruct (run_all_spec junk cmd (wrapper o) ts Hts n (seq 0 (length ts)) s2 Hm Ha) as ([] & s3 & E3 & Ha3 & _ & Hs3).
  exists tt, s3. split; [exact E3|].
  assert (Ht3 : tests s3 = answered cmd (wrapper o) ts n).
  { apply agrees_answered; [done|done|]. intros i Hi.
    assert (i ∈ seq 0 (length ts)) by (apply elem_of_seq; lia).
    by split; [apply (proj1 (Forall_forall _ _) Hs3)|apply (proj1 (Forall_forall _ _) Hm)]. }
  rewrite Hv, Hh. apply ends_bind, ends_modify, ends_bind, ends_ret, ends_bind, ends_connect. intros buf' Hbuf'.
  assert (tail (compiler_words o argv) = tail argv) as E by (unfold compiler_words; by destruct (configurator_cc o)).
  rewrite E in Hbuf'. rewrite Hbuf'.
  apply ends_bind, ends_bind, ends_read, ends_modify, ends_ret. split_and!; [done|done|].
  exists (out s3). rewrite <- Ht3. exact eq_refl.
Qed.
End program.

(** A dependency written with an exclamation mark that is met and is not
    the last one makes the program free a pointer that [malloc] did not return:
    the copy of the word is freed through the pointer behind the mark. *)
Theorem negated_dependency_frees `{Host} (holds : list Z -> prog cstate bool)
    (dep rest : list Z) (fuel : nat) (s s' : cstate) :
  Forall (fun c => c <> 32) dep -> holds dep s = (Returned false, s') ->
  run_depends holds (S fuel) (33 :: dep ++ 32 :: rest) s = (Undefined, s').
Proof.
  intros Hdep Hh.
  assert (E : word_of (33 :: dep ++ 32 :: rest) = 33 :: dep).
  { clear Hh. cbn. f_equal. induction Hdep as [|c dep Hc _ IH]; [done|]. cbn. by rewrite (proj2 (Z.eqb_neq c 32)), IH. }
  unfold run_depends; fold (run_depends holds). rewrite E.
  replace (drop (length (33 :: dep)) (33 :: dep ++ 32 :: rest)) with (32 :: rest)
    by (cbn; by rewrite drop_app_length).
  destruct (Z.eqb_spec (len (33 :: dep)) 0) as [E0|_]; [rewrite len_cons in E0; pose proof (len_nonneg dep); lia|].
  rewrite (bind_returned _ _ _ _ _ Hh). cbn [eqb negb].
  destruct (Z.ltb_spec 0 (len (32 :: rest))); [done|]. rewrite len_cons in *. pose proof (len_nonneg rest). lia.
Qed.

(** [-O] does not take the text behind it but the next argument, without
    its first two characters, which is then read as an argument of its own; as
    the last argument it makes the program read through the null pointer. *)
Theorem dash_O_takes_next `{Host} (flag : list Z) (rest : list (list Z)) (o : options) (s : cstate) :
  parse_options ((cs "-O" ++ flag) :: rest) o s =
  match rest with
  | [] => (Undefined, s)
  | next :: _ =>
      if len next <? 2 then (Undefined, s)
      else if len next =? 2 then
        (_ ← eprintf ((cs "-O" ++ flag) ++ cs ": option requires an argument -- O" ++ [10]);
         exit EXIT_BAD_USAGE) s
      else parse_options rest
        (Options (drop 2 next) (configurator_cc o) (wrapper o) (varfile o) (headerfile o) (extra_tests o)) s
  end.
Proof.
  unfold parse_options at 1; fold parse_options.
  rewrite bool_decide_false by done. change (starts_with (cs "-O") (cs "-O" ++ flag)) with true. cbv iota.
  destruct rest as [|next rest]; [done|]. by repeat case_match.
Qed.

(** ** The example machine is a toolchain *)

Definition toy_toolchain : @Toolchain toy_host.
Proof.
  refine {| compiled := fun cmd source => ([], toy_status (cmd ++ redir) source);
            executed := fun cmd _ source => ([], toy_status (cmd ++ redir) source) |}.
  - intros h. by exists h.
  - intros h cmd source. exists true, source, source. split_and!; [done|done|]. intros cmd'. by exists source.
Defined.

Definition toy_options : options := Options (cs "-o") None [] None None true.

Lemma configurator_header_witness :
  let s := toy_state (describe toy_entry ++ describe toy_entry_2 ++ lines [cs "# end"]) in
  let ts := all_tests toy_options [toy_entry; toy_entry_2] in
  map answer (@answered toy_host toy_toolchain (test_command toy_options [cs "cc"]) [] ts 9)
    = [true; true; true; true; true; true; false; false] /\
  exists s' printed, @configure toy_host 0 toy_options [cs "cc"] s = (Returned 0, s') /\
    tests s' = @answered toy_host toy_toolchain (test_command toy_options [cs "cc"]) [] ts 9 /\
    out s' = printed ++ header (cs "cc") (c_str (command_line [] [] [])) (cs "-o")
      (@answered toy_host toy_toolchain (test_command toy_options [cs "cc"]) [] ts 9).
Proof.
  split; [vm_compute; reflexivity|].
  apply (@configurator_header toy_host toy_toolchain 0 toy_options [cs "cc"] [toy_entry; toy_entry_2] [cs "# end"]).
  - intros _. split_and!; [apply toy_entries_ok|repeat constructor; by_compute|reflexivity].
  - vm_compute. reflexivity.
  - repeat (apply Forall_cons_2; [by eexists; vm_compute; reflexivity|]). apply Forall_nil_2.
  - reflexivity.
  - reflexivity.
Defined.

Lemma negated_dependency_frees_witness :
  let s := toy_state [] in
  @run_depends toy_host (fun _ => mret false) 9 (cs "!HAVE_A HAVE_B") s = (Undefined, s).
Proof.
  apply (@negated_dependency_frees toy_host (fun _ => mret false) (cs "HAVE_A") (cs "HAVE_B") 8); [by_compute|done].
Defined.
