(* ===== verification/Json.v ===== *)
(** * JSON values: [ext/json-3.11.2/single_include/nlohmann/json.hpp]

    What the client library and the relay use of JSON for Modern C++: the values
    ([value_t]), access to members and elements, conversion to C++ values, and
    the serializer [dump] with its UTF-8 automaton.  Binary and discarded values
    are never made by these programs.  Exceptions are values, by their id; their
    messages are not modelled.  A double is its IEEE 754 bits; the conversions
    between doubles and text ([strtod], and the Grisu printer [to_chars]) are
    the interface [Floats].  The serializer indents with a string of spaces
    that it doubles once; what it does beyond is part of the model
    ([write_indent]).

    [utf8] is RFC 3629 by ranges of bytes, without an automaton. *)
From Stdlib Require Import ZifyBool.
From S2P Require Import Prelude Process Event.

(** A range of bytes. *)
Definition between (lo hi c : Z) : bool := (lo <=? c) && (c <=? hi).

(** ** Values *)

Inductive json :=
| JNull
| JObject (m : list (list Z * json))     (* std::map: sorted by key, see [sorted] *)
| JArray (l : list json)
| JString (s : list Z)
| JBoolean (b : bool)
| JInteger (z : Z)                       (* int64_t *)
| JUnsigned (z : Z)                      (* uint64_t *)
| JFloat (bits : Z).                     (* double *)

Section Induction.
Context (P : json -> Prop).
Context (Hnull : P JNull) (Hobject : forall m, Forall (fun kv => P kv.2) m -> P (JObject m))
  (Harray : forall l, Forall P l -> P (JArray l)) (Hstring : forall s, P (JString s))
  (Hboolean : forall b, P (JBoolean b)) (Hinteger : forall z, P (JInteger z))
  (Hunsigned : forall z, P (JUnsigned z)) (Hfloat : forall b, P (JFloat b)).

Fixpoint json_nested_ind (v : json) : P v :=
  match v with
  | JNull => Hnull
  | JObject m => Hobject m ((fix go m : Forall (fun kv => P kv.2) m :=
      match m with [] => Forall_nil_2 _ | kv :: m => Forall_cons_2 _ kv m (json_nested_ind kv.2) (go m) end) m)
  | JArray l => Harray l ((fix go l : Forall P l :=
      match l with [] => Forall_nil_2 _ | v :: l => Forall_cons_2 _ v l (json_nested_ind v) (go l) end) l)
  | JString s => Hstring s
  | JBoolean b => Hboolean b
  | JInteger z => Hinteger z
  | JUnsigned z => Hunsigned z
  | JFloat b => Hfloat b
  end.
End Induction.

(** ** Exceptions *)

Inductive exn :=
| parse_error_101      (* syntax *)
| type_error_302       (* conversion from another type *)
| type_error_304       (* at() on another type *)
| type_error_305       (* operator[] on another type *)
| type_error_316       (* invalid UTF-8 *)
| out_of_range_401     (* array index *)
| out_of_range_403     (* missing key *)
| out_of_range_406     (* number overflow *)
| invalid_argument     (* std::stoi without a number *)
| out_of_range         (* std::stoi, vector::at *)
| system_error.        (* asio *)

(** [Ub] is a conversion whose result C++ does not define. *)
Inductive result (A : Type) := Ok (a : A) | Throw (e : exn) | Ub.
Arguments Ok {A} a.
Arguments Throw {A} e.
Arguments Ub {A}.

#[export] Instance result_ret : MRet result := @Ok.
#[export] Instance result_bind : MBind result := fun A B f r =>
  match r with Ok a => f a | Throw e => Throw e | Ub => Ub end.
#[export] Instance result_fmap : FMap result := fun A B f r =>
  match r with Ok a => Ok (f a) | Throw e => Throw e | Ub => Ub end.

(** ** Objects *)

(** [std::less<>] on strings: bytes compared as unsigned. *)
Fixpoint str_compare (a b : list Z) : comparison :=
  match a, b with
  | [], [] => Eq
  | [], _ :: _ => Lt
  | _ :: _, [] => Gt
  | x :: a, y :: b => match x ?= y with Eq => str_compare a b | c => c end
  end.

Fixpoint find (k : list Z) (m : list (list Z * json)) : option json :=
  match m with
  | [] => None
  | (k', v) :: m => match str_compare k k' with Eq => Some v | _ => find k m end
  end.

(** [m[k] = v] *)
Fixpoint insert (k : list Z) (v : json) (m : list (list Z * json)) : list (list Z * json) :=
  match m with
  | [] => [(k, v)]
  | (k', v') :: m' =>
      match str_compare k k' with
      | Lt => (k, v) :: m
      | Eq => (k, v) :: m'
      | Gt => (k', v') :: insert k v m'
      end
  end.

(** [j[key] = v]: null becomes an object. *)
Definition set_key (j : json) (k : list Z) (v : json) : result json :=
  match j with
  | JNull => Ok (JObject [(k, v)])
  | JObject m => Ok (JObject (insert k v m))
  | _ => Throw type_error_305
  end.

Definition at_index (j : json) (idx : nat) : result json :=
  match j with
  | JArray l => match l !! idx with Some v => Ok v | None => Throw out_of_range_401 end
  | _ => Throw type_error_304
  end.

Definition at_key (j : json) (k : list Z) : result json :=
  match j with
  | JObject m => match find k m with Some v => Ok v | None => Throw out_of_range_403 end
  | _ => Throw type_error_304
  end.

Definition contains (j : json) (k : list Z) : bool :=
  match j with JObject m => match find k m with Some _ => true | None => false end | _ => false end.

(** ** Conversions to C++ values *)

Definition isfinite (bits : Z) : bool := negb (((bits .>> 52) .& 2047) =? 2047).

(** The value of a finite double, towards zero. *)
Definition trunc (bits : Z) : Z :=
  let e := (bits .>> 52) .& 2047 in
  let f := bits .& Z.ones 52 in
  let m := if e =? 0 then f else f + 2 ^ 52 in
  let x := Z.max e 1 - 1075 in
  let v := if 0 <=? x then m * 2 ^ x else m / 2 ^ (- x) in
  if Z.testbit bits 63 then - v else v.

(** [static_cast] from a double to an integer type with values from [lo] to [hi]. *)
Definition cast_double (lo hi bits : Z) : result Z :=
  if isfinite bits && (lo <=? trunc bits) && (trunc bits <=? hi) then Ok (trunc bits) else Ub.

Definition from_json_string (j : json) : result (list Z) :=
  match j with JString s => Ok s | _ => Throw type_error_302 end.

(** [int64_t] and [uint64_t] *)
Definition from_json_int64 (j : json) : result Z :=
  match j with
  | JUnsigned z | JInteger z => Ok (to_signed 64 z)
  | JFloat b => cast_double (- 2 ^ 63) (2 ^ 63 - 1) b
  | _ => Throw type_error_302
  end.

Definition from_json_uint64 (j : json) : result Z :=
  match j with
  | JUnsigned z | JInteger z => Ok (u64 z)
  | JFloat b => cast_double 0 (2 ^ 64 - 1) b
  | _ => Throw type_error_302
  end.

(** Any other arithmetic type takes booleans too. *)
Definition from_json_int (j : json) : result Z :=
  match j with
  | JUnsigned z | JInteger z => Ok (to_signed 32 z)
  | JFloat b => cast_double (- 2 ^ 31) (2 ^ 31 - 1) b
  | JBoolean b => Ok (Z.b2z b)
  | _ => Throw type_error_302
  end.

(** [std::vector]: the old value is replaced only when every element converts. *)
Fixpoint transform {A} (f : json -> result A) (l : list json) : result (list A) :=
  match l with [] => Ok [] | v :: l => a ← f v; r ← transform f l; Ok (a :: r) end.

Definition from_json_array {A} (f : json -> result A) (j : json) : result (list A) :=
  match j with JArray l => transform f l | _ => Throw type_error_302 end.

(** ** UTF-8 *)

Definition utf8d : list Z :=
  [0; 0; 0; 0; 0; 0; 0; 0; 0; 0; 0; 0; 0; 0; 0; 0; 0; 0; 0; 0; 0; 0; 0; 0; 0; 0; 0; 0; 0; 0; 0; 0;
   0; 0; 0; 0; 0; 0; 0; 0; 0; 0; 0; 0; 0; 0; 0; 0; 0; 0; 0; 0; 0; 0; 0; 0; 0; 0; 0; 0; 0; 0; 0; 0;
   0; 0; 0; 0; 0; 0; 0; 0; 0; 0; 0; 0; 0; 0; 0; 0; 0; 0; 0; 0; 0; 0; 0; 0; 0; 0; 0; 0; 0; 0; 0; 0;
   0; 0; 0; 0; 0; 0; 0; 0; 0; 0; 0; 0; 0; 0; 0; 0; 0; 0; 0; 0; 0; 0; 0; 0; 0; 0; 0; 0; 0; 0; 0; 0;
   1; 1; 1; 1; 1; 1; 1; 1; 1; 1; 1; 1; 1; 1; 1; 1; 9; 9; 9; 9; 9; 9; 9; 9; 9; 9; 9; 9; 9; 9; 9; 9;
   7; 7; 7; 7; 7; 7; 7; 7; 7; 7; 7; 7; 7; 7; 7; 7; 7; 7; 7; 7; 7; 7; 7; 7; 7; 7; 7; 7; 7; 7; 7; 7;
   8; 8; 2; 2; 2; 2; 2; 2; 2; 2; 2; 2; 2; 2; 2; 2; 2; 2; 2; 2; 2; 2; 2; 2; 2; 2; 2; 2; 2; 2; 2; 2;
   10; 3; 3; 3; 3; 3; 3; 3; 3; 3; 3; 3; 3; 4; 3; 3;
   11; 6; 6; 6; 5; 8; 8; 8; 8; 8; 8; 8; 8; 8; 8; 8;
   0; 1; 2; 3; 5; 8; 7; 1; 1; 1; 4; 6; 1; 1; 1; 1;
   1; 1; 1; 1; 1; 1; 1; 1; 1; 1; 1; 1; 1; 1; 1; 1; 1; 0; 1; 1; 1; 1; 1; 0; 1; 0; 1; 1; 1; 1; 1; 1;
   1; 2; 1; 1; 1; 1; 1; 2; 1; 2; 1; 1; 1; 1; 1; 1; 1; 1; 1; 1; 1; 1; 1; 2; 1; 1; 1; 1; 1; 1; 1; 1;
   1; 2; 1; 1; 1; 1; 1; 1; 1; 2; 1; 1; 1; 1; 1; 1; 1; 1; 1; 1; 1; 1; 1; 3; 1; 3; 1; 1; 1; 1; 1; 1;
   1; 3; 1; 1; 1; 1; 1; 3; 1; 3; 1; 1; 1; 1; 1; 1; 1; 3; 1; 1; 1; 1; 1; 1; 1; 1; 1; 1; 1; 1; 1; 1].

Definition UTF8_ACCEPT : Z := 0.
Definition UTF8_REJECT : Z := 1.

(** The new state and the code point. *)
Definition decode (state codep byte : Z) : Z * Z :=
  let type := utf8d.[byte] in
  let codep := if negb (state =? UTF8_ACCEPT) then (byte .& 0x3f) .| u32 (codep .<< 6)
               else (0xFF .>> type) .& byte in
  (utf8d.[256 + state * 16 + type], codep).

(** ** Serialisation *)

Class Floats := {
  strtod : list Z -> Z;      (* the text of a JSON number *)
  to_chars : Z -> list Z
}.

(** What one code point below 0x80 or the last byte of a longer one appends. *)
Definition escaped (codepoint byte : Z) : list Z :=
  if codepoint =? 0x08 then cs "\b" else if codepoint =? 0x09 then cs "\t"
  else if codepoint =? 0x0A then cs "\n" else if codepoint =? 0x0C then cs "\f"
  else if codepoint =? 0x0D then cs "\r" else if codepoint =? 0x22 then [backslash; quote]
  else if codepoint =? 0x5C then [backslash; backslash]
  else if codepoint <=? 0x1F then
    cs "\u00" ++ [48 + codepoint / 16; if codepoint mod 16 <? 10 then 48 + codepoint mod 16 else 87 + codepoint mod 16]
  else [byte].

(** With [ensure_ascii] false and strict errors. *)
Fixpoint dump_escaped_loop (s : list Z) (state codepoint : Z) (out : list Z) : result (list Z) :=
  match s with
  | [] => if state =? UTF8_ACCEPT then Ok out else Throw type_error_316
  | byte :: s =>
      let '(state, codepoint) := decode state codepoint byte in
      if state =? UTF8_ACCEPT then dump_escaped_loop s state codepoint (out ++ escaped codepoint byte)
      else if state =? UTF8_REJECT then Throw type_error_316
      else dump_escaped_loop s state codepoint (out ++ [byte])
  end.

Definition dump_escaped (s : list Z) : result (list Z) := dump_escaped_loop s UTF8_ACCEPT 0 [].

Fixpoint count_digits (fuel : nat) (x n_digits : Z) : Z :=
  match fuel with
  | O => n_digits
  | S fuel =>
      if x <? 10 then n_digits else if x <? 100 then n_digits + 1
      else if x <? 1000 then n_digits + 2 else if x <? 10000 then n_digits + 3
      else count_digits fuel (x / 10000) (n_digits + 4)
  end.

Definition remove_sign (x : Z) : Z := u64 (- (x + 1)) + 1.

(** [digits_to_99[i]] *)
Definition digits_to_99 (i : Z) : list Z := [48 + i / 10; 48 + i mod 10].

(** The pairs of digits, backwards from [ptr]; the number and the pointer left. *)
Fixpoint pairs_loop (fuel : nat) (abs_value ptr : Z) (buffer : list Z) : option (Z * Z * list Z) :=
  match fuel with
  | O => None
  | S fuel =>
      if 100 <=? abs_value then
        buffer ← put (ptr - 2) (digits_to_99 (abs_value mod 100)) buffer;
        pairs_loop fuel (abs_value / 100) (ptr - 2) buffer
      else Some (abs_value, ptr, buffer)
  end.

(** [buffer] is the serializer's [number_buffer] of 64 bytes; [None] is a write
    outside it. *)
Definition dump_integer (x : Z) (buffer : list Z) : option (list Z) :=
  if x =? 0 then Some [48]
  else
    let negative := x <? 0 in
    let abs_value := if negative then remove_sign x else x in
    let n_chars := (if negative then 1 else 0) + count_digits 5 abs_value 1 in
    buffer ← (if negative then put 0 [45] buffer else Some buffer);
    '(v, ptr, buffer) ← pairs_loop 10 abs_value n_chars buffer;
    buffer ← (if 10 <=? v then put (ptr - 2) (digits_to_99 v) buffer else put (ptr - 1) [48 + v] buffer);
    Some (take (Z.to_nat n_chars) buffer).

(** An array of 64 zeroes; a number is written over it. *)
Definition number_text (x : Z) : result (list Z) :=
  match dump_integer x (repeat 0 64) with Some t => Ok t | None => Ub end.

Definition dump_float `{Floats} (bits : Z) : list Z := if isfinite bits then to_chars bits else cs "null".

Definition spaces (n : Z) : list Z := repeat 32 (Z.to_nat n).

(** The serializer's [indent_string] is a string of [size] spaces, 512 at first;
    [write_characters] copies [n] of its characters.  The character after the
    last is the NUL of the string, the next is outside it. *)
Definition write_indent (size n : Z) : result (list Z) :=
  if n <=? size then Ok (spaces n) else if n =? size + 1 then Ok (spaces size ++ [0]) else Ub.

(** The loops over the elements of an array and the members of an object: the
    first [n - 1] with a comma after each, then the last.  The second result is
    the size of the indentation string. *)
Section DumpLists.
Context (dump_value : json -> Z -> result (list Z * Z)) (pretty_print : bool) (new_indent : Z) (colon comma : list Z).

Definition before (size : Z) : result (list Z) := if pretty_print then write_indent size new_indent else Ok [].

Fixpoint dump_elements (l : list json) (size : Z) : result (list Z * Z) :=
  match l with
  | [] => Ok ([], size)
  | v :: l' =>
      b ← before size;
      '(d, size) ← dump_value v size;
      match l' with
      | [] => Ok (b ++ d, size)
      | _ => '(r, size) ← dump_elements l' size; Ok (b ++ d ++ comma ++ r, size)
      end
  end.

Fixpoint dump_members (m : list (list Z * json)) (size : Z) : result (list Z * Z) :=
  match m with
  | [] => Ok ([], size)
  | (k, v) :: m' =>
      b ← before size;
      ek ← dump_escaped k;
      '(d, size) ← dump_value v size;
      let member := b ++ [quote] ++ ek ++ [quote] ++ colon ++ d in
      match m' with
      | [] => Ok (member, size)
      | _ => '(r, size) ← dump_members m' size; Ok (member ++ comma ++ r, size)
      end
  end.
End DumpLists.

(** With [pretty_print], every element on a line of its own, indented; a string
    that is too short for the indentation is doubled once.  The indentation is
    an [unsigned int]. *)
Fixpoint dump_value `{Floats} (pretty_print : bool) (indent_step current_indent : Z) (val : json) (size : Z)
    : result (list Z * Z) :=
  let new_indent := if pretty_print then u32 (current_indent + indent_step) else current_indent in
  let grown := if pretty_print && (size <? new_indent) then size * 2 else size in
  let newline := if pretty_print then [10] else [] in
  let after size := if pretty_print then i ← write_indent size current_indent; Ok ([10] ++ i) else Ok [] in
  let colon := if pretty_print then cs ": " else cs ":" in
  let comma := if pretty_print then cs "," ++ [10] else cs "," in
  match val with
  | JObject [] => Ok (cs "{}", size)
  | JObject m =>
      '(t, size) ← dump_members (dump_value pretty_print indent_step new_indent) pretty_print new_indent colon comma m grown;
      a ← after size;
      Ok (cs "{" ++ newline ++ t ++ a ++ cs "}", size)
  | JArray [] => Ok (cs "[]", size)
  | JArray l =>
      '(t, size) ← dump_elements (dump_value pretty_print indent_step new_indent) pretty_print new_indent comma l grown;
      a ← after size;
      Ok (cs "[" ++ newline ++ t ++ a ++ cs "]", size)
  | JString s => t ← dump_escaped s; Ok ([quote] ++ t ++ [quote], size)
  | JBoolean b => Ok (if b then cs "true" else cs "false", size)
  | JInteger z | JUnsigned z => t ← number_text z; Ok (t, size)
  | JFloat b => Ok (dump_float b, size)
  | JNull => Ok (cs "null", size)
  end.

(** [dump()] and [dump(indent)]; the default is -1, without indentation. *)
Definition dump `{Floats} (indent : option Z) (j : json) : result (list Z) :=
  let indent := default (-1) indent in
  '(t, _) ← (if 0 <=? indent then dump_value true indent 0 j 512 else dump_value false 0 0 j 512);
  Ok t.

(** ** The references *)

(** One character of RFC 3629, the shortest form of a scalar value. *)
Definition utf8_char (c : list Z) : bool :=
  match c with
  | [a] => between 0x00 0x7F a
  | [a; b] => between 0xC2 0xDF a && between 0x80 0xBF b
  | [a; b; c] =>
      ((a =? 0xE0) && between 0xA0 0xBF b || (between 0xE1 0xEC a || between 0xEE 0xEF a) && between 0x80 0xBF b
       || (a =? 0xED) && between 0x80 0x9F b) && between 0x80 0xBF c
  | [a; b; c; d] =>
      ((a =? 0xF0) && between 0x90 0xBF b || between 0xF1 0xF3 a && between 0x80 0xBF b
       || (a =? 0xF4) && between 0x80 0x8F b) && between 0x80 0xBF c && between 0x80 0xBF d
  | _ => false
  end.

Inductive utf8 : list Z -> Prop :=
| utf8_nil : utf8 []
| utf8_cons c s : utf8_char c = true -> utf8 s -> utf8 (c ++ s).

(** What [dump] writes of a string: byte by byte. *)
Definition dump_text (s : list Z) : list Z := concat (map (fun b => escaped b b) s).

(** ** The automaton accepts UTF-8 *)

Lemma utf8_app a b : utf8 a -> utf8 b -> utf8 (a ++ b).
Proof. induction 1; intros; [done|]. rewrite <- app_assoc. constructor; auto. Qed.

Lemma utf8_one c : utf8_char c = true -> utf8 c.
Proof. intros. rewrite <- (app_nil_r c). constructor; [done|constructor]. Qed.

(** Ranges of bytes as booleans. *)
Ltac between_lia := unfold between, is_byte, in_width in *; lia.

Lemma utf8_char_Bytes c : utf8_char c = true -> Bytes c /\ c <> [].
Proof.
  destruct c as [|a [|b [|c [|d [|]]]]]; cbn [utf8_char]; intros H; try discriminate;
    (split; [|done]); repeat apply Forall_cons_2; try apply Forall_nil_2; unfold in_width; between_lia.
Qed.

Lemma utf8_Bytes s : utf8 s -> Bytes s.
Proof. induction 1; [constructor|]. apply Bytes_app. split; [by apply utf8_char_Bytes|done]. Qed.

(** The states: how many bytes are missing, and the range of the next. *)
Definition next (state b : Z) : Z :=
  if state =? 0 then
    if between 0 0x7F b then 0 else if between 0xC2 0xDF b then 2 else if b =? 0xE0 then 4
    else if between 0xE1 0xEC b || between 0xEE 0xEF b then 3 else if b =? 0xED then 5
    else if b =? 0xF0 then 6 else if between 0xF1 0xF3 b then 7 else if b =? 0xF4 then 8 else 1
  else if state =? 2 then if between 0x80 0xBF b then 0 else 1
  else if state =? 3 then if between 0x80 0xBF b then 2 else 1
  else if state =? 4 then if between 0xA0 0xBF b then 2 else 1
  else if state =? 5 then if between 0x80 0x9F b then 2 else 1
  else if state =? 6 then if between 0x90 0xBF b then 3 else 1
  else if state =? 7 then if between 0x80 0xBF b then 3 else 1
  else if between 0x80 0x8F b then 3 else 1.

Definition states : list Z := [0; 2; 3; 4; 5; 6; 7; 8].

Lemma decode_state st cp b : In st states -> is_byte b -> (decode st cp b).1 = next st b.
Proof.
  intros Hst Hb. change (utf8d.[256 + st * 16 + utf8d.[b]] = next st b). revert b Hb.
  apply (byte_forall_eq (fun b => utf8d.[256 + st * 16 + utf8d.[b]])). revert st Hst.
  apply List.Forall_forall. repeat apply Forall_cons_2; [vm_compute; exact eq_refl..|apply Forall_nil_2].
Qed.

(** The bytes a state still expects. *)
Definition tail_ok (st : Z) (c : list Z) : bool :=
  match c with
  | [] => st =? 0
  | [b] => (st =? 2) && between 0x80 0xBF b
  | [b; c] =>
      ((st =? 3) && between 0x80 0xBF b || (st =? 4) && between 0xA0 0xBF b || (st =? 5) && between 0x80 0x9F b)
      && between 0x80 0xBF c
  | [b; c; d] =>
      ((st =? 6) && between 0x90 0xBF b || (st =? 7) && between 0x80 0xBF b || (st =? 8) && between 0x80 0x8F b)
      && between 0x80 0xBF c && between 0x80 0xBF d
  | _ => false
  end.

Lemma next_in st b : In st states -> next st b = 1 \/ In (next st b) states.
Proof. intros _. unfold next, states. repeat case_match; cbn [In]; tauto. Qed.

(** A byte that a state takes: a character from state 0, what was missing from
    another. *)
Lemma next_tail st b c :
  In st states -> is_byte b -> next st b <> 1 -> tail_ok (next st b) c = true ->
  if st =? 0 then utf8_char (b :: c) = true else tail_ok st (b :: c) = true.
Proof.
  intros Hst Hb. cbn [In states] in Hst. 
  destruct Hst as [<-|[<-|[<-|[<-|[<-|[<-|[<-|[<-|[]]]]]]]]]; cbn [Z.eqb Pos.eqb];
    destruct c as [|c1 [|c2 [|c3 [|]]]]; unfold next; cbn [Z.eqb Pos.eqb tail_ok utf8_char];
    repeat (match goal with |- context [if ?x then _ else _] => destruct x eqn:? end);
    intros H1 H2; try discriminate; try done; between_lia.
Qed.

Lemma dump_loop_sound s st cp out t :
  Bytes s -> In st states -> dump_escaped_loop s st cp out = Ok t ->
  exists c s', s = c ++ s' /\ tail_ok st c = true /\ utf8 s'.
Proof.
  intros Hs. revert st cp out. induction Hs as [|b s Hb Hs IH]; intros st cp out Hst; cbn [dump_escaped_loop].
  - destruct (Z.eqb_spec st UTF8_ACCEPT) as [->|]; [|done]. intros _. exists [], []. repeat split. constructor.
  - pose proof (decode_state st cp b Hst Hb) as Hd. destruct (decode st cp b) as [st' cp']. cbn [fst] in Hd.
    intros HE. destruct (next_in st b Hst) as [H1|Hn]; [by rewrite Hd, H1 in HE|].
    assert (exists c s', s = c ++ s' /\ tail_ok st' c = true /\ utf8 s') as (c & s' & -> & Hc & Hu).
    { rewrite <- Hd in Hn. destruct (st' =? UTF8_ACCEPT), (st' =? UTF8_REJECT); try done; by eapply IH. }
    pose proof (next_tail st b c Hst Hb) as Ht. rewrite <- Hd in Ht. specialize (Ht ltac:(intros ->; by subst; rewrite <- Hd in Hn; cbn in Hn; naive_solver)).
    specialize (Ht Hc). destruct (Z.eqb_spec st 0) as [->|].
    + exists [], ((b :: c) ++ s'). repeat split. by constructor.
    + by exists (b :: c), s'.
Qed.

(** The code point so far: large enough not to end as an ASCII character, and
    small enough not to wrap. *)
Definition codepoint_ok (st k : Z) : Prop :=
  if st =? 2 then 2 <= k < 2 ^ 17 else if st =? 3 then 1 <= k < 2 ^ 11
  else if (st =? 4) || (st =? 6) then 0 <= k < 2 ^ 5 else 1 <= k < 2 ^ 5.

#[local] Instance codepoint_ok_dec st k : Decision (codepoint_ok st k).
Proof. unfold codepoint_ok. repeat case_match; apply _. Defined.

Lemma decode_codepoint st k b :
  st <> 0 -> is_byte b -> 0 <= k < 2 ^ 17 -> (decode st k b).2 = b mod 64 + 64 * k.
Proof.
  intros Hst Hb Hk. unfold decode. cbn [snd]. unfold UTF8_ACCEPT. apply Z.eqb_neq in Hst as ->. cbn [negb].
  rewrite Z.shiftl_mul_pow2 by done. change (0x3f) with (Z.ones 6). rewrite Z.land_ones by done.
  rewrite wrap_id by (unfold in_width; lia). rewrite lor_add; [change (2 ^ 6) with 64; lia|done|by apply Z.mod_pos_bound].
Qed.

Lemma codepoint_next st k b :
  In st states -> st <> 0 -> is_byte b -> codepoint_ok st k -> next st b <> 1 ->
  if next st b =? 0 then 128 <= b mod 64 + 64 * k else codepoint_ok (next st b) (b mod 64 + 64 * k).
Proof.
  intros Hst H0 Hb Hk. pose proof (Z.mod_pos_bound b 64 ltac:(lia)).
  cbn [In states] in Hst.
  destruct Hst as [<-|[<-|[<-|[<-|[<-|[<-|[<-|[<-|[]]]]]]]]]; try done; unfold next, codepoint_ok in *;
    cbn [Z.eqb Pos.eqb orb] in *; (match goal with |- context [between ?l ?h b] => destruct (between l h b) eqn:Hr end);
    cbn [Z.eqb Pos.eqb orb]; try done; intros _; unfold between in Hr; Z.to_euclidean_division_equations; lia.
Qed.

Lemma codepoint_range st k : codepoint_ok st k -> 0 <= k < 2 ^ 17.
Proof. unfold codepoint_ok. repeat case_match; lia. Qed.

Lemma escaped_high k b : 128 <= k -> escaped k b = [b].
Proof. intros. unfold escaped. 
  repeat match goal with |- context [k =? ?c] => destruct (Z.eqb_spec k c); [lia|] end.
  destruct (Z.leb_spec k 0x1F); [lia|done].
Qed.

Lemma tail_next st b c :
  In st states -> st <> 0 -> tail_ok st (b :: c) = true -> is_byte b /\ 128 <= b /\ next st b <> 1 /\ tail_ok (next st b) c = true.
Proof.
  intros Hst H0. cbn [In states] in Hst.
  destruct Hst as [<-|[<-|[<-|[<-|[<-|[<-|[<-|[<-|[]]]]]]]]]; try done; clear H0;
    destruct c as [|c1 [|c2 [|c3 r]]]; unfold next; cbn [Z.eqb Pos.eqb tail_ok orb andb]; intros H; try done;
    (match goal with |- context [between ?l ?h b] => destruct (between l h b) eqn:Hr end);
    cbn [Z.eqb Pos.eqb tail_ok orb andb] in *; try done; (split; [|split; [|split; [done|]]]); between_lia.
Qed.

Lemma dump_loop_tail c s st k out :
  In st states -> st <> 0 -> codepoint_ok st k -> tail_ok st c = true ->
  exists k', dump_escaped_loop (c ++ s) st k out = dump_escaped_loop s 0 k' (out ++ c).
Proof.
  revert st k out. induction c as [|b c IH]; intros st k out Hst H0 Hk Ht.
  - cbn in Ht. lia.
  - destruct (tail_next st b c Hst H0 Ht) as (Hb & Hb' & Hn & Hc). cbn [app dump_escaped_loop].
    pose proof (decode_state st k b Hst Hb) as Hd.
    pose proof (decode_codepoint st k b H0 Hb (codepoint_range _ _ Hk)) as Hcp.
    pose proof (codepoint_next st k b Hst H0 Hb Hk Hn) as Hok.
    destruct (decode st k b) as [st' k']. cbn [fst snd] in Hd, Hcp. subst st' k'.
    unfold UTF8_ACCEPT, UTF8_REJECT. destruct (next st b =? 0) eqn:E.
    + apply Z.eqb_eq in E. rewrite E in Hc. rewrite E.
      destruct c; [|exfalso; clear - Hc; destruct c as [|? [|? [|]]]; cbn in Hc; lia].
      eexists. rewrite escaped_high by lia. done.
    + destruct (Z.eqb_spec (next st b) 1); [done|]. destruct (next_in st b Hst) as [|Hi]; [done|].
      destruct (IH (next st b) (b mod 64 + 64 * k) (out ++ [b])) as [k' HE]; [done|lia|done|done|].
      exists k'. rewrite HE. by rewrite <- app_assoc.
Qed.

Lemma tail_high st c : In st states -> st <> 0 -> tail_ok st c = true -> Forall (fun b => 128 <= b) c.
Proof.
  revert st. induction c as [|b c IH]; intros st Hst H0 Ht; [constructor|].
  destruct (tail_next st b c Hst H0 Ht) as (Hb & Hb' & Hn & Hc). constructor; [done|].
  destruct (next_in st b Hst) as [|Hi]; [done|]. destruct (Z.eq_dec (next st b) 0) as [E|]; [|by eapply IH].
  rewrite E in Hc. destruct c as [|? [|? [|? [|]]]]; cbn in Hc; first [lia|constructor].
Qed.

Lemma dump_text_high c : Forall (fun b => 128 <= b) c -> dump_text c = c.
Proof. induction 1; [done|]. unfold dump_text in *. cbn [map concat]. by rewrite escaped_high, IHForall. Qed.

(** The first byte of a character. *)
Lemma first_byte a c :
  utf8_char (a :: c) = true ->
  (0 <= a < 128 /\ c = []) \/
  (128 <= a /\ is_byte a /\ next 0 a <> 1 /\ next 0 a <> 0 /\ tail_ok (next 0 a) c = true).
Proof.
  intros H. assert (is_byte a) by (by destruct (utf8_char_Bytes _ H) as [[??]%Forall_cons_1 _]).
  destruct c as [|c1 [|c2 [|c3 [|]]]]; [left; cbn in H; split; [between_lia|done]|right..|done];
    unfold next; cbn [Z.eqb Pos.eqb utf8_char] in *;
    repeat (match goal with |- context [if ?x then _ else _] => destruct x eqn:? end);
    cbn [Z.eqb Pos.eqb tail_ok orb andb] in *; split_and!; try done; between_lia.
Qed.

Lemma decode_first a :
  is_byte a -> next 0 a <> 1 ->
  if next 0 a =? 0 then forall k, decode 0 k a = (0, a)
  else forall k, (decode 0 k a).1 = next 0 a /\ codepoint_ok (next 0 a) (decode 0 k a).2.
Proof.
  intros Ha Hn.
  assert (H : (if next 0 a =? 0 then (0xFF .>> utf8d.[a]) .& a =? a
    else if next 0 a =? 1 then true else bool_decide (codepoint_ok (next 0 a) ((0xFF .>> utf8d.[a]) .& a))) = true).
  { refine (byte_forall (fun a => if next 0 a =? 0 then (0xFF .>> utf8d.[a]) .& a =? a
      else if next 0 a =? 1 then true else bool_decide (codepoint_ok (next 0 a) ((0xFF .>> utf8d.[a]) .& a))) _ a Ha).
    vm_compute. exact eq_refl. }
  pose proof (decode_state 0) as Hd. destruct (next 0 a =? 0) eqn:E; intros k.
  - apply Z.eqb_eq in E, H. specialize (Hd k a ltac:(by left) Ha). unfold decode in *. cbn [fst] in Hd.
    by rewrite Hd, E, H.
  - apply Z.eqb_neq in Hn as Hn'. rewrite Hn' in H. apply bool_decide_eq_true in H.
    split; [apply Hd; [by left|done]|exact H].
Qed.

Lemma dump_loop_char c s k out :
  utf8_char c = true -> exists k', dump_escaped_loop (c ++ s) 0 k out = dump_escaped_loop s 0 k' (out ++ dump_text c).
Proof.
  destruct c as [|a c]; [done|]. intros Hc. destruct (first_byte a c Hc) as [[Ha ->]|(Ha & Hb & Hn & Hn0 & Ht)].
  - assert (Hb : is_byte a) by between_lia. pose proof (decode_first a Hb) as Hd.
    assert (E : next 0 a = 0) by (unfold next; cbn [Z.eqb]; destruct (between 0 0x7F a) eqn:?; [done|between_lia]).
    rewrite E in Hd. specialize (Hd ltac:(done)). cbn [Z.eqb] in Hd. exists a. cbn [app dump_escaped_loop].
    rewrite Hd. unfold dump_text. cbn [map concat]. by rewrite app_nil_r.
  - pose proof (decode_first a Hb Hn) as Hd. apply Z.eqb_neq in Hn0 as Hn0'. rewrite Hn0' in Hd. specialize (Hd k).
    cbn [app dump_escaped_loop]. destruct (decode 0 k a) as [st k'] eqn:E. cbn [fst snd] in Hd. destruct Hd as [-> Hk].
    unfold UTF8_ACCEPT, UTF8_REJECT. rewrite Hn0'. apply Z.eqb_neq in Hn as Hn'. rewrite Hn'.
    assert (Hi : In (next 0 a) states) by (destruct (next_in 0 a ltac:(by left)); done).
    destruct (dump_loop_tail c s (next 0 a) k' (out ++ [a]) Hi Hn0 Hk Ht) as [k2 ->]. exists k2.
    rewrite <- app_assoc. do 3 f_equal. rewrite dump_text_high; [done|]. constructor; [done|]. by eapply tail_high.
Qed.

Lemma dump_loop_complete s k out : utf8 s -> dump_escaped_loop s 0 k out = Ok (out ++ dump_text s).
Proof.
  intros Hs. revert k out. induction Hs as [|c s Hc Hs IH]; intros k out; [by rewrite app_nil_r|].
  destruct (dump_loop_char c s k out Hc) as [k' ->]. rewrite IH, <- app_assoc. do 2 f_equal.
  unfold dump_text. by rewrite map_app, concat_app.
Qed.

(** Strings are serialised exactly when they are UTF-8. *)
Lemma dump_escaped_ok s : utf8 s -> dump_escaped s = Ok (dump_text s).
Proof. intros Hs. unfold dump_escaped, UTF8_ACCEPT. by rewrite dump_loop_complete. Qed.

Lemma dump_escaped_inv s t : Bytes s -> dump_escaped s = Ok t -> utf8 s.
Proof.
  intros Hs H. destruct (dump_loop_sound s 0 0 [] t Hs ltac:(by left) H) as (c & s' & -> & Hc & Hu).
  destruct c as [|? [|? [|? [|]]]]; [done|cbn in Hc; lia..|done].
Qed.

Lemma dump_escaped_outcome s : (exists t, dump_escaped s = Ok t) \/ dump_escaped s = Throw type_error_316.
Proof.
  unfold dump_escaped. generalize UTF8_ACCEPT, 0, (@nil Z). induction s as [|b s IH]; intros st k out; cbn [dump_escaped_loop].
  - case_match; eauto.
  - destruct (decode st k b) as [st' k']. repeat case_match; eauto.
Qed.

(** ** Integers are written in decimal *)

Definition decimal (x : Z) : list Z := if x <? 0 then 45 :: digits 20 (- x) else digits 20 x.

Definition digit_count (n : Z) : Z := len (digits 20 n).

Lemma digits_step n : 10 <= n < 10 ^ 20 -> digits 20 n = digits 20 (n / 10) ++ [48 + n mod 10].
Proof.
  intros Hn. change (digits 20 n) with (if n <? 10 then [48 + n] else digits 19 (n / 10) ++ [48 + n mod 10]).
  destruct (Z.ltb_spec n 10); [lia|]. 
  assert (Hq : 0 <= n / 10 < 10 ^ Z.of_nat 19).
  { change (10 ^ Z.of_nat 19) with 10000000000000000000. change (10 ^ 20) with 100000000000000000000 in Hn. dlia. }
  by rewrite (digits_fuel 19 20 (n / 10) Hq ltac:(lia) ltac:(lia)).
Qed.

Lemma digits_one n : n < 10 -> digits 20 n = [48 + n].
Proof. intros Hn. cbn [digits]. by destruct (Z.ltb_spec n 10); [|lia]. Qed.

Lemma digits_pair n : 100 <= n < 10 ^ 20 -> digits 20 n = digits 20 (n / 100) ++ digits_to_99 (n mod 100).
Proof.
  intros Hn. rewrite digits_step, (digits_step (n / 10)) by (change (10 ^ 20) with 100000000000000000000 in *; dlia).
  rewrite <- app_assoc. unfold digits_to_99. rewrite Z.div_div by lia. change (10 * 10) with 100.
  assert (E : n mod 100 / 10 = n / 10 mod 10) by dlia. assert (E' : n mod 100 mod 10 = n mod 10) by dlia.
  by rewrite E, E'.
Qed.

Lemma digit_count_step n : 10 <= n < 10 ^ 20 -> digit_count n = digit_count (n / 10) + 1.
Proof. intros Hn. unfold digit_count. rewrite digits_step by done. by rewrite len_app. Qed.

Lemma digit_count_one n : n < 10 -> digit_count n = 1.
Proof. intros Hn. unfold digit_count. by rewrite digits_one. Qed.

Lemma count_digits_spec fuel x n :
  0 <= x < 10 ^ (4 * Z.of_nat fuel) -> (1 <= fuel <= 5)%nat -> count_digits fuel x n = n - 1 + digit_count x.
Proof.
  revert x n. induction fuel as [|fuel IH]; intros x n Hx Hf; [lia|]. cbn [count_digits].
  assert (Hmax : x < 10 ^ 20).
  { eapply Z.lt_le_trans; [apply Hx|]. apply Z.pow_le_mono_r; lia. }
  change (10 ^ 20) with 100000000000000000000 in *.
  destruct (Z.ltb_spec x 10); [rewrite digit_count_one by lia; lia|]. rewrite digit_count_step by (split; [lia|done]).
  destruct (Z.ltb_spec x 100); [rewrite digit_count_one by dlia; lia|].
  rewrite digit_count_step by (split; [dlia|change (10 ^ 20) with 100000000000000000000; dlia]).
  destruct (Z.ltb_spec x 1000); [rewrite digit_count_one by dlia; lia|].
  rewrite digit_count_step by (split; [dlia|change (10 ^ 20) with 100000000000000000000; dlia]).
  destruct (Z.ltb_spec x 10000); [rewrite digit_count_one by dlia; lia|].
  rewrite digit_count_step by (split; [dlia|change (10 ^ 20) with 100000000000000000000; dlia]).
  assert (E : x / 10 / 10 / 10 / 10 = x / 10000) by (rewrite !Z.div_div by lia; reflexivity). rewrite E.
  assert (Hq : x / 10000 < 10 ^ (4 * Z.of_nat fuel)).
  { apply Z.div_lt_upper_bound; [lia|]. change 10000 with (10 ^ 4). rewrite <- Z.pow_add_r by lia.
    replace (4 + 4 * Z.of_nat fuel) with (4 * Z.of_nat (S fuel)) by lia. apply Hx. }
  rewrite IH; [lia| |].
  - split; [dlia|done].
  - destruct fuel; [|lia]. change (10 ^ (4 * Z.of_nat 0)) with 1 in Hq. dlia.
Qed.

Lemma pairs_loop_spec fuel v sgn junk rest :
  0 <= v < 10 ^ 20 -> v < 10 ^ (2 * Z.of_nat fuel) -> (1 <= fuel)%nat -> len junk = digit_count v ->
  exists v' junk' low, pairs_loop fuel v (len sgn + digit_count v) (sgn ++ junk ++ rest)
    = Some (v', len sgn + digit_count v', sgn ++ junk' ++ low ++ rest)
  /\ 0 <= v' < 100 /\ digits 20 v = digits 20 v' ++ low /\ len junk' = digit_count v'.
Proof.
  revert v junk rest. induction fuel as [|fuel IH]; intros v junk rest Hv Hf H1 Hj; [lia|]. cbn [pairs_loop].
  destruct (Z.leb_spec 100 v).
  - assert (Hc : digit_count v = digit_count (v / 100) + 2).
    { unfold digit_count. rewrite digits_pair by lia. by rewrite len_app. }
    assert (Hq : v / 100 < 10 ^ (2 * Z.of_nat fuel)).
    { apply Z.div_lt_upper_bound; [lia|]. change 100 with (10 ^ 2). rewrite <- Z.pow_add_r by lia.
      by replace (2 + 2 * Z.of_nat fuel) with (2 * Z.of_nat (S fuel)) by lia. }
    pose proof (len_nonneg (digits 20 (v / 100))) as H0. fold (digit_count (v / 100)) in H0.
    rewrite <- (take_drop (Z.to_nat (digit_count (v / 100))) junk).
    set (j1 := take _ junk). set (j2 := drop _ junk).
    assert (Hj1 : len j1 = digit_count (v / 100)) by (subst j1; rewrite len_take; lia).
    assert (Hj2 : len j2 = 2) by (subst j2; rewrite len_drop; lia).
    replace (len sgn + digit_count v - 2) with (len (sgn ++ j1)) by len_lia.
    rewrite <- (app_assoc j1), (app_assoc sgn), put_mid by (unfold len, digits_to_99 in *; cbn [length]; lia). rewrite bind_some, <- app_assoc.
    rewrite len_app, Hj1.
    destruct (IH (v / 100) j1 (digits_to_99 (v mod 100) ++ rest)) as (v' & junk' & low & E & Hv' & Hd & Hj'); [dlia|done| |done|].
    { destruct fuel; [|lia]. change (10 ^ (2 * Z.of_nat 0)) with 1 in Hq. dlia. }
    exists v', junk', (low ++ digits_to_99 (v mod 100)). rewrite E. split_and!; [by rewrite <- app_assoc|lia..| |done].
    rewrite digits_pair by lia. by rewrite Hd, <- app_assoc.
  - exists v, junk, []. split_and!; [done|lia..|by rewrite app_nil_r|done].
Qed.

(** The last one or two digits. *)
Lemma last_digits v sgn junk rest :
  0 <= v < 100 -> len junk = digit_count v ->
  (if 10 <=? v then put (len sgn + digit_count v - 2) (digits_to_99 v) (sgn ++ junk ++ rest)
   else put (len sgn + digit_count v - 1) [48 + v] (sgn ++ junk ++ rest)) = Some (sgn ++ digits 20 v ++ rest).
Proof.
  intros Hv Hj. destruct (Z.leb_spec 10 v).
  - rewrite digit_count_step, digit_count_one in * by (lia || dlia).
    replace (len sgn + (1 + 1) - 2) with (len sgn) by lia. rewrite put_mid by (unfold len, digits_to_99 in *; cbn [length]; lia).
    rewrite digits_step, digits_one by (lia || dlia). unfold digits_to_99. done.
  - rewrite digit_count_one in * by lia. replace (len sgn + 1 - 1) with (len sgn) by lia.
    rewrite put_mid by (unfold len, digits_to_99 in *; cbn [length]; lia). by rewrite digits_one by lia.
Qed.

(** The text of the absolute value [v], after the sign. *)
Lemma dump_digits sgn v n_chars rest :
  0 <= v < 10 ^ 20 -> n_chars = len sgn + digit_count v -> digit_count v <= len rest ->
  ('(v, ptr, buffer) ← pairs_loop 10 v n_chars (sgn ++ rest);
   buffer ← (if 10 <=? v then put (ptr - 2) (digits_to_99 v) buffer else put (ptr - 1) [48 + v] buffer);
   Some (take (Z.to_nat n_chars) buffer)) = Some (sgn ++ digits 20 v).
Proof.
  intros Hv -> Hr. pose proof (len_nonneg (digits 20 v)) as H0. fold (digit_count v) in H0.
  rewrite <- (take_drop (Z.to_nat (digit_count v)) rest). set (junk := take _ rest). set (rest' := drop _ rest).
  assert (Hj : len junk = digit_count v) by (subst junk; rewrite len_take; lia).
  destruct (pairs_loop_spec 10 v sgn junk rest') as (v' & junk' & low & E & Hv' & Hd & Hj'); [done|apply Hv|lia|done|].
  rewrite E, bind_some. rewrite last_digits, bind_some by done. f_equal.
  rewrite (app_assoc (digits 20 v')), <- Hd, app_assoc. apply take_app_length'.
  rewrite length_app. unfold digit_count, len in *. lia.
Qed.

Lemma digit_count_le v : 0 <= v < 10 ^ 20 -> digit_count v <= 20.
Proof. intros. unfold digit_count, len. pose proof (digits_length 20 v). lia. Qed.

(** Every integer of the two types is written in decimal, inside the buffer of
    64 bytes. *)
Lemma number_text_decimal x : - 2 ^ 63 <= x < 2 ^ 64 -> number_text x = Ok (decimal x).
Proof.
  intros Hx. unfold number_text, dump_integer, decimal. destruct (Z.eqb_spec x 0) as [->|Hx0]; [done|].
  destruct (Z.ltb_spec x 0).
  - assert (E : remove_sign x = - x) by (unfold remove_sign; rewrite wrap_id by (split; lia); lia). rewrite E.
    assert (Hv : 0 <= - x < 10 ^ 20) by lia. pose proof (digit_count_le _ Hv).
    change (put 0 [45] (repeat 0 64)) with (Some ([45] ++ repeat 0 63)). rewrite bind_some.
    rewrite (dump_digits [45] (- x)); [done|done| |rewrite len_repeat; lia].
    rewrite count_digits_spec by (lia || done). change (len [45]) with 1. lia.
  - assert (Hv : 0 <= x < 10 ^ 20) by lia. pose proof (digit_count_le _ Hv).
    rewrite bind_some.
    pose proof (dump_digits [] x (0 + count_digits 5 x 1) (repeat 0 64) Hv) as Hd. cbn [app] in Hd.
    rewrite Hd; [done| |rewrite len_repeat; lia].
    rewrite count_digits_spec by (lia || done). change (len []) with 0. lia.
Qed.
