(* ===== verification/JsonParse.v ===== *)
(** * The JSON lexer and parser: [class lexer], [class parser] and
    [json_sax_dom_parser] of [json.hpp]

    The lexer works on the bytes left; [get] takes one (or is EOF), [unget]
    gives it back.  Positions and the texts of error messages are not modelled.
    The parser keeps its explicit stack of open arrays and objects; an open
    container holds the elements or members read so far, as the values its
    [ref_stack] points to do. *)
From S2P Require Import Prelude Process Event Json.

(** ** The lexer *)

Definition EOF : Z := -1.

Definition lex_get (inp : list Z) : Z * list Z :=
  match inp with c :: r => (c, r) | [] => (EOF, []) end.

Inductive token :=
| literal_true | literal_false | literal_null
| value_string (s : list Z)
| value_unsigned (z : Z) | value_integer (z : Z) | value_float (bits : Z)
| begin_array | begin_object | end_array | end_object
| name_separator | value_separator
| parse_error | end_of_input.

(** The four digits after [\u], one factor each; -1 is an error. *)
Fixpoint get_codepoint (factors : list Z) (codepoint : Z) (inp : list Z) : Z * list Z :=
  match factors with
  | [] => (codepoint, inp)
  | factor :: factors =>
      let '(current, inp) := lex_get inp in
      if between 48 57 current then get_codepoint factors (codepoint + ((current - 0x30) .<< factor)) inp
      else if between 65 70 current then get_codepoint factors (codepoint + ((current - 0x37) .<< factor)) inp
      else if between 97 102 current then get_codepoint factors (codepoint + ((current - 0x57) .<< factor)) inp
      else (-1, inp)
  end.

Definition factors : list Z := [12; 8; 4; 0].

(** The token buffer with the bytes, or [None], and the input left. *)
Fixpoint next_byte_in_range (ranges : list (Z * Z)) (buffer inp : list Z) : option (list Z) * list Z :=
  match ranges with
  | [] => (Some buffer, inp)
  | (lo, hi) :: ranges =>
      let '(current, inp) := lex_get inp in
      if between lo hi current then next_byte_in_range ranges (buffer ++ [current]) inp else (None, inp)
  end.

(** A code point as bytes. *)
Definition codepoint_bytes (codepoint : Z) : list Z :=
  if codepoint <? 0x80 then [codepoint]
  else if codepoint <=? 0x7FF then [0xC0 .| (codepoint .>> 6); 0x80 .| (codepoint .& 0x3F)]
  else if codepoint <=? 0xFFFF then
    [0xE0 .| (codepoint .>> 12); 0x80 .| ((codepoint .>> 6) .& 0x3F); 0x80 .| (codepoint .& 0x3F)]
  else
    [0xF0 .| (codepoint .>> 18); 0x80 .| ((codepoint .>> 12) .& 0x3F); 0x80 .| ((codepoint .>> 6) .& 0x3F);
     0x80 .| (codepoint .& 0x3F)].

(** After [\u]: the bytes of the code point, or [None]. *)
Definition scan_unicode (inp : list Z) : option (list Z) * list Z :=
  let '(codepoint1, inp) := get_codepoint factors 0 inp in
  if codepoint1 =? -1 then (None, inp)
  else if between 0xD800 0xDBFF codepoint1 then
    let '(current, inp) := lex_get inp in
    if negb (current =? backslash) then (None, inp)
    else
      let '(current, inp) := lex_get inp in
      if negb (current =? 117) then (None, inp)
      else
        let '(codepoint2, inp) := get_codepoint factors 0 inp in
        if codepoint2 =? -1 then (None, inp)
        else if between 0xDC00 0xDFFF codepoint2 then
          (Some (codepoint_bytes (u32 (u32 (codepoint1 .<< 10) + codepoint2 - 0x35FDC00))), inp)
        else (None, inp)
  else if between 0xDC00 0xDFFF codepoint1 then (None, inp)
  else (Some (codepoint_bytes codepoint1), inp).

(** After a backslash. *)
Definition scan_escape (inp : list Z) : option (list Z) * list Z :=
  let '(current, inp) := lex_get inp in
  if current =? 117 then scan_unicode inp
  else (c ← unescape_char current; Some [c], inp).

(** The bytes after the first byte of a character above U+007F, by ranges. *)
Definition ranges_of (current : Z) : option (list (Z * Z)) :=
  if between 0xC2 0xDF current then Some [(0x80, 0xBF)]
  else if current =? 0xE0 then Some [(0xA0, 0xBF); (0x80, 0xBF)]
  else if between 0xE1 0xEC current || between 0xEE 0xEF current then Some [(0x80, 0xBF); (0x80, 0xBF)]
  else if current =? 0xED then Some [(0x80, 0x9F); (0x80, 0xBF)]
  else if current =? 0xF0 then Some [(0x90, 0xBF); (0x80, 0xBF); (0x80, 0xBF)]
  else if between 0xF1 0xF3 current then Some [(0x80, 0xBF); (0x80, 0xBF); (0x80, 0xBF)]
  else if current =? 0xF4 then Some [(0x80, 0x8F); (0x80, 0xBF); (0x80, 0xBF)]
  else None.

Fixpoint scan_string_loop (fuel : nat) (buffer inp : list Z) : option (token * list Z) :=
  match fuel with
  | O => None
  | S fuel =>
      let '(current, inp) := lex_get inp in
      if current =? EOF then Some (parse_error, inp)
      else if current =? quote then Some (value_string buffer, inp)
      else if current =? backslash then
        match scan_escape inp with
        | (Some bytes, inp) => scan_string_loop fuel (buffer ++ bytes) inp
        | (None, inp) => Some (parse_error, inp)
        end
      else if current <=? 0x1F then Some (parse_error, inp)
      else if current <=? 0x7F then scan_string_loop fuel (buffer ++ [current]) inp
      else
        match ranges_of current with
        | None => Some (parse_error, inp)
        | Some ranges =>
            match next_byte_in_range ranges (buffer ++ [current]) inp with
            | (Some buffer, inp) => scan_string_loop fuel buffer inp
            | (None, inp) => Some (parse_error, inp)
            end
        end
  end.

(** Every turn takes a byte or ends. *)
Definition scan_string (inp : list Z) : token * list Z :=
  default (parse_error, []) (scan_string_loop (S (length inp)) [] inp).

(** *** Numbers: the states of [scan_number] *)

Inductive nstate := minus | zero | any1 | decimal1 | decimal2 | exponent | sign_ | any2.
Inductive ntype := is_unsigned | is_integer | is_float.
Inductive naction := Goto (s : nstate) | Done | Error.

Definition number_step (s : nstate) (current : Z) : naction :=
  let digit := between 48 57 current in
  let e := (current =? 101) || (current =? 69) in
  match s with
  | minus => if current =? 48 then Goto zero else if digit then Goto any1 else Error
  | zero => if current =? 46 then Goto decimal1 else if e then Goto exponent else Done
  | any1 => if digit then Goto any1 else if current =? 46 then Goto decimal1 else if e then Goto exponent else Done
  | decimal1 => if digit then Goto decimal2 else Error
  | decimal2 => if digit then Goto decimal2 else if e then Goto exponent else Done
  | exponent => if (current =? 43) || (current =? 45) then Goto sign_ else if digit then Goto any2 else Error
  | sign_ => if digit then Goto any2 else Error
  | any2 => if digit then Goto any2 else Done
  end.

Definition number_type (s : nstate) (t : ntype) : ntype :=
  match s with minus => is_integer | decimal1 | exponent => is_float | _ => t end.

Definition ULLONG_MAX : Z := 2 ^ 64 - 1.

(** [strtoull] and [strtoll] of a text in the right format; [None] is ERANGE. *)
Definition strtoull (s : list Z) : option Z :=
  let v := read_digits 0 s in if v <=? ULLONG_MAX then Some v else None.

Definition strtoll (s : list Z) : option Z :=
  let v := match s with c :: r => if c =? 45 then - read_digits 0 r else read_digits 0 s | [] => 0 end in
  if (LONG_MIN <=? v) && (v <=? LONG_MAX) then Some v else None.

Definition number_done `{Floats} (t : ntype) (buffer : list Z) : token :=
  match t with
  | is_unsigned => match strtoull buffer with Some x => value_unsigned x | None => value_float (strtod buffer) end
  | is_integer => match strtoll buffer with Some x => value_integer x | None => value_float (strtod buffer) end
  | is_float => value_float (strtod buffer)
  end.

Fixpoint number_loop `{Floats} (s : nstate) (t : ntype) (buffer inp : list Z) : token * list Z :=
  let t := number_type s t in
  match inp with
  | [] => match number_step s EOF with Done => (number_done t buffer, []) | _ => (parse_error, []) end
  | current :: r =>
      match number_step s current with
      | Goto s => number_loop s t (buffer ++ [current]) r
      | Done => (number_done t buffer, inp)
      | Error => (parse_error, r)
      end
  end.

Definition scan_number `{Floats} (current : Z) (inp : list Z) : token * list Z :=
  if current =? 45 then number_loop minus is_unsigned [current] inp
  else if current =? 48 then number_loop zero is_unsigned [current] inp
  else number_loop any1 is_unsigned [current] inp.

(** *** Tokens *)

(** [literal_text] from its second character on. *)
Fixpoint scan_literal (literal_text : list Z) (return_type : token) (inp : list Z) : token * list Z :=
  match literal_text with
  | [] => (return_type, inp)
  | c :: literal_text =>
      let '(current, inp) := lex_get inp in
      if current =? c then scan_literal literal_text return_type inp else (parse_error, inp)
  end.

Definition is_whitespace (c : Z) : bool := (c =? 32) || (c =? 9) || (c =? 10) || (c =? 13).

(** The first character that is not white space, and the input after it. *)
Fixpoint skip_whitespace (inp : list Z) : Z * list Z :=
  match inp with
  | [] => (EOF, [])
  | c :: r => if is_whitespace c then skip_whitespace r else (c, r)
  end.

(** [None]: an incomplete byte order mark. *)
Definition skip_bom (inp : list Z) : option (list Z) :=
  match inp with
  | c :: r =>
      if c =? 0xEF then
        match r with b :: r => if b =? 0xBB then match r with d :: r => if d =? 0xBF then Some r else None | [] => None end
          else None | [] => None end
      else Some inp
  | [] => Some inp
  end.

(** [scan] once the byte order mark is dealt with; comments are not ignored. *)
Definition scan `{Floats} (inp : list Z) : token * list Z :=
  let '(current, inp) := skip_whitespace inp in
  if current =? 91 then (begin_array, inp)
  else if current =? 93 then (end_array, inp)
  else if current =? 123 then (begin_object, inp)
  else if current =? 125 then (end_object, inp)
  else if current =? 58 then (name_separator, inp)
  else if current =? 44 then (value_separator, inp)
  else if current =? 116 then scan_literal (cs "rue") literal_true inp
  else if current =? 102 then scan_literal (cs "alse") literal_false inp
  else if current =? 110 then scan_literal (cs "ull") literal_null inp
  else if current =? quote then scan_string inp
  else if (current =? 45) || between 48 57 current then scan_number current inp
  else if (current =? 0) || (current =? EOF) then (end_of_input, inp)
  else (parse_error, inp).

(** The first token. *)
Definition scan_first `{Floats} (inp : list Z) : token * list Z :=
  match skip_bom inp with Some inp => scan inp | None => (parse_error, []) end.

(** ** The parser *)

(** An open container: [states] and [ref_stack] together. *)
Inductive frame :=
| InArray (l : list json)
| InObject (m : list (list Z * json)) (key : list Z).

Section Parser.
(** Where the tokens come from. *)
Context {Src : Type} (get_token : Src -> token * Src).

(** [evaluate] is the end of the loop's body, after a value; [parse_value] its
    beginning.  One loop, as [skip_to_state_evaluation] makes it. *)
Inductive phase := Value (last_token : token) | Evaluate (v : json).

(** The key and the separator after it: the key and the state. *)
Definition parse_key (last_token : token) (s : Src) : result (list Z * Src) :=
  match last_token with
  | value_string k =>
      let '(t, s) := get_token s in
      match t with name_separator => Ok (k, s) | _ => Throw parse_error_101 end
  | _ => Throw parse_error_101
  end.

(** One turn: the phase, stack and input of the next one, or the value. *)
Definition parse_value (last_token : token) (frames : list frame) (s : Src) : result (phase * list frame * Src) :=
  match last_token with
  | begin_object =>
      let '(t, s) := get_token s in
      match t with
      | end_object => Ok (Evaluate (JObject []), frames, s)
      | _ =>
          '(k, s) ← parse_key t s;
          let '(t, s) := get_token s in
          Ok (Value t, InObject [] k :: frames, s)
      end
  | begin_array =>
      let '(t, s) := get_token s in
      match t with
      | end_array => Ok (Evaluate (JArray []), frames, s)
      | _ => Ok (Value t, InArray [] :: frames, s)
      end
  | value_float b => if isfinite b then Ok (Evaluate (JFloat b), frames, s) else Throw out_of_range_406
  | literal_false => Ok (Evaluate (JBoolean false), frames, s)
  | literal_null => Ok (Evaluate JNull, frames, s)
  | literal_true => Ok (Evaluate (JBoolean true), frames, s)
  | value_integer z => Ok (Evaluate (JInteger z), frames, s)
  | value_string x => Ok (Evaluate (JString x), frames, s)
  | value_unsigned z => Ok (Evaluate (JUnsigned z), frames, s)
  | _ => Throw parse_error_101
  end.

Definition evaluate (v : json) (f : frame) (frames : list frame) (s : Src) : result (phase * list frame * Src) :=
  match f with
  | InArray l =>
      let l := l ++ [v] in
      let '(t, s) := get_token s in
      match t with
      | value_separator => let '(t, s) := get_token s in Ok (Value t, InArray l :: frames, s)
      | end_array => Ok (Evaluate (JArray l), frames, s)
      | _ => Throw parse_error_101
      end
  | InObject m k =>
      let m := insert k v m in
      let '(t, s) := get_token s in
      match t with
      | value_separator =>
          let '(t, s) := get_token s in
          '(k, s) ← parse_key t s;
          let '(t, s) := get_token s in
          Ok (Value t, InObject m k :: frames, s)
      | end_object => Ok (Evaluate (JObject m), frames, s)
      | _ => Throw parse_error_101
      end
  end.

(** [None] is out of fuel. *)
Fixpoint sax_parse_internal (fuel : nat) (p : phase) (frames : list frame) (s : Src) : option (result (json * Src)) :=
  match fuel with
  | O => None
  | S fuel =>
      let turn :=
        match p, frames with
        | Value t, _ => inl (parse_value t frames s)
        | Evaluate v, f :: frames => inl (evaluate v f frames s)
        | Evaluate v, [] => inr v
        end in
      match turn with
      | inr v => Some (Ok (v, s))
      | inl (Ok (p, frames, s)) => sax_parse_internal fuel p frames s
      | inl (Throw e) => Some (Throw e)
      | inl Ub => Some Ub
      end
  end.
End Parser.

(** Every turn takes a token, or ends a value of one token. *)
Definition parse_fuel (inp : list Z) : nat := 2 * length inp + 4.

(** [json::parse(s)] *)
Definition parse `{Floats} (s : list Z) : result json :=
  let '(t, inp) := scan_first s in
  match sax_parse_internal scan (parse_fuel s) (Value t) [] inp with
  | Some (Ok (v, inp)) =>
      match (scan inp).1 with end_of_input => Ok v | _ => Throw parse_error_101 end
  | Some (Throw e) => Throw e
  | Some Ub => Ub
  | None => Ub
  end.
