(* ===== verification/JsonSpec.v ===== *)
(** * JSON texts: what the lexer and parser accept

    The reference is RFC 8259 in three layers: [str_text], [num_text] and
    [token_text] say which texts spell a token, [spells] which texts spell a
    sequence of tokens with white space between them, [tree] which sequences of
    tokens make a value (of two members with one key the later counts).
    [parse_accepts] is the equivalence of [parse] with them. *)
From Stdlib Require Import ZifyBool.
From S2P Require Import Prelude Process Event Json JsonParse.

(** ** The reference *)

Definition hex_digit (c : Z) : option Z :=
  if between 48 57 c then Some (c - 48) else if between 65 70 c then Some (c - 55)
  else if between 97 102 c then Some (c - 87) else None.

Definition hex4 (h : list Z) : option Z :=
  match h with
  | [a; b; c; d] =>
      a ← hex_digit a; b ← hex_digit b; c ← hex_digit c; d ← hex_digit d;
      Some (4096 * a + 256 * b + 16 * c + d)
  | _ => None
  end.

(** The UTF-8 form of a scalar value. *)
Definition utf8_of (cp : Z) : list Z :=
  if cp <? 0x80 then [cp]
  else if cp <=? 0x7FF then [0xC0 + cp / 64; 0x80 + cp mod 64]
  else if cp <=? 0xFFFF then [0xE0 + cp / 4096; 0x80 + cp / 64 mod 64; 0x80 + cp mod 64]
  else [0xF0 + cp / 262144; 0x80 + cp / 4096 mod 64; 0x80 + cp / 64 mod 64; 0x80 + cp mod 64].

Definition surrogate (cp : Z) : bool := between 0xD800 0xDFFF cp.

(** Not a quotation mark, a backslash or a control character. *)
Definition plain (c : list Z) : bool :=
  match c with [a] => (32 <=? a) && negb (a =? quote) && negb (a =? backslash) | _ => true end.

(** [str_text s t]: between quotation marks, [t] spells [s]. *)
Inductive str_text : list Z -> list Z -> Prop :=
| st_nil : str_text [] []
| st_char c s t : utf8_char c = true -> plain c = true -> str_text s t -> str_text (c ++ s) (c ++ t)
| st_escape e c s t : unescape_char e = Some c -> str_text s t -> str_text (c :: s) (backslash :: e :: t)
| st_unicode h cp s t :
    hex4 h = Some cp -> surrogate cp = false -> str_text s t ->
    str_text (utf8_of cp ++ s) (backslash :: 117 :: h ++ t)
| st_pair h1 h2 hi lo s t :
    hex4 h1 = Some hi -> between 0xD800 0xDBFF hi = true ->
    hex4 h2 = Some lo -> between 0xDC00 0xDFFF lo = true -> str_text s t ->
    str_text (utf8_of (0x10000 + (hi - 0xD800) * 0x400 + (lo - 0xDC00)) ++ s)
      (backslash :: 117 :: h1 ++ backslash :: 117 :: h2 ++ t).

(** ** Code points *)

Lemma hex_digit_range c d : hex_digit c = Some d -> 0 <= d < 16.
Proof. unfold hex_digit. repeat case_match; intros [= <-]; between_lia. Qed.

Lemma get_codepoint_step f fs cp inp :
  get_codepoint (f :: fs) cp inp =
  match inp with
  | c :: r => match hex_digit c with Some d => get_codepoint fs (cp + (d .<< f)) r | None => (-1, r) end
  | [] => (-1, [])
  end.
Proof.
  destruct inp as [|c r]; [done|]. cbn [get_codepoint lex_get]. unfold hex_digit.
  by repeat (match goal with |- context [if ?x then _ else _] => destruct x end).
Qed.

Lemma get_codepoint_some h cp inp : hex4 h = Some cp -> get_codepoint factors 0 (h ++ inp) = (cp, inp).
Proof.
  destruct h as [|a [|b [|c [|d [|]]]]]; try done. unfold hex4, factors. intros H.
  rewrite !get_codepoint_step. cbn [app].
  destruct (hex_digit a); [|done]. rewrite get_codepoint_step. destruct (hex_digit b); [|done].
  rewrite get_codepoint_step. destruct (hex_digit c); [|done]. rewrite get_codepoint_step. destruct (hex_digit d); [|done].
  cbn [mbind option_bind] in H. injection H as <-. cbn [get_codepoint]. rewrite !Z.shiftl_mul_pow2 by done. f_equal. lia.
Qed.

Lemma get_codepoint_inv inp cp r :
  get_codepoint factors 0 inp = (cp, r) -> cp <> -1 -> exists h, inp = h ++ r /\ hex4 h = Some cp.
Proof.
  unfold factors. intros H Hn.
  do 4 (rewrite get_codepoint_step in H; destruct inp as [|? inp]; [congruence|];
        match type of H with context [hex_digit ?c] => destruct (hex_digit c) eqn:? end; [|congruence]).
  cbn [get_codepoint] in H. injection H as <- <-. eexists [_; _; _; _]. split; [done|]. unfold hex4.
  repeat match goal with H : hex_digit _ = _ |- _ => rewrite H; clear H end. cbn [mbind option_bind].
  rewrite !Z.shiftl_mul_pow2 by done. f_equal. lia.
Qed.

Lemma hex4_range h cp : hex4 h = Some cp -> 0 <= cp <= 0xFFFF.
Proof.
  destruct h as [|a [|b [|c [|d [|]]]]]; try done. unfold hex4. intros H.
  destruct (hex_digit a) eqn:Ea; [|done]. destruct (hex_digit b) eqn:Eb; [|done].
  destruct (hex_digit c) eqn:Ec; [|done]. destruct (hex_digit d) eqn:Ed; [|done]. cbn [mbind option_bind] in H.
  apply hex_digit_range in Ea, Eb, Ec, Ed. injection H as <-. lia.
Qed.

Lemma lor_high a b k : 0 <= k -> 0 <= a < 2 ^ k -> (b * 2 ^ k) .| a = b * 2 ^ k + a.
Proof. intros. rewrite Z.lor_comm, lor_add by done. lia. Qed.

Lemma codepoint_bytes_utf8 cp : 0 <= cp <= 0x10FFFF -> codepoint_bytes cp = utf8_of cp.
Proof.
  intros Hcp. unfold codepoint_bytes, utf8_of. change 0x3F with (Z.ones 6).
  rewrite !Z.shiftr_div_pow2, !Z.land_ones by done.
  change (2 ^ 6) with 64. change (2 ^ 12) with 4096. change (2 ^ 18) with 262144.
  assert (Hm : forall x, 0 <= x mod 64 < 2 ^ 6) by (intros; apply Z.mod_pos_bound; lia).
  change 0x80 with (2 * 2 ^ 6). change 0xC0 with (3 * 2 ^ 6). change 0xE0 with (14 * 2 ^ 4). change 0xF0 with (30 * 2 ^ 3).
  destruct (Z.ltb_spec cp (2 * 2 ^ 6)); [done|].
  destruct (Z.leb_spec cp 0x7FF); [rewrite !lor_high by (done || dlia); done|].
  destruct (Z.leb_spec cp 0xFFFF); rewrite !lor_high by (done || dlia); done.
Qed.

Lemma utf8_of_char cp : 0 <= cp <= 0x10FFFF -> surrogate cp = false -> utf8_char (utf8_of cp) = true.
Proof.
  intros Hcp Hs. unfold surrogate, between in Hs. unfold utf8_of.
  destruct (Z.ltb_spec cp 0x80); [|destruct (Z.leb_spec cp 0x7FF); [|destruct (Z.leb_spec cp 0xFFFF)]];
    unfold utf8_char, between; Z.to_euclidean_division_equations; lia.
Qed.

(** ** Strings *)

(** One turn of the loop after a first byte. *)
Lemma scan_unicode_some h cp inp :
  hex4 h = Some cp -> surrogate cp = false -> scan_unicode (h ++ inp) = (Some (utf8_of cp), inp).
Proof.
  intros Hh Hs. unfold scan_unicode. rewrite (get_codepoint_some h cp) by done. pose proof (hex4_range h cp Hh).
  rewrite codepoint_bytes_utf8 by lia. unfold surrogate in Hs.
  destruct (Z.eqb_spec cp (-1)); [lia|]. destruct (between 0xD800 0xDBFF cp) eqn:?; [between_lia|].
  destruct (between 0xDC00 0xDFFF cp) eqn:?; [between_lia|done].
Qed.

Lemma pair_value hi lo :
  between 0xD800 0xDBFF hi = true -> between 0xDC00 0xDFFF lo = true ->
  u32 (u32 (hi .<< 10) + lo - 0x35FDC00) = 0x10000 + (hi - 0xD800) * 0x400 + (lo - 0xDC00).
Proof.
  intros Hh Hl. unfold between in *. rewrite Z.shiftl_mul_pow2 by done. change (2 ^ 10) with 1024.
  rewrite (wrap_id 32 (hi * 1024)) by (unfold in_width; lia). rewrite wrap_id by (unfold in_width; lia). lia.
Qed.

Lemma scan_unicode_pair h1 h2 hi lo inp :
  hex4 h1 = Some hi -> between 0xD800 0xDBFF hi = true -> hex4 h2 = Some lo -> between 0xDC00 0xDFFF lo = true ->
  scan_unicode (h1 ++ backslash :: 117 :: h2 ++ inp)
  = (Some (utf8_of (0x10000 + (hi - 0xD800) * 0x400 + (lo - 0xDC00))), inp).
Proof.
  intros H1 Hhi H2 Hlo. unfold scan_unicode. rewrite (get_codepoint_some h1 hi) by done.
  pose proof (hex4_range _ _ H1). destruct (Z.eqb_spec hi (-1)); [lia|]. rewrite Hhi. cbn [lex_get].
  change (negb (backslash =? backslash)) with false. change (negb (117 =? 117)) with false. cbv iota.
  rewrite (get_codepoint_some h2 lo) by done. pose proof (hex4_range _ _ H2).
  destruct (Z.eqb_spec lo (-1)); [lia|]. rewrite Hlo, pair_value by done. rewrite codepoint_bytes_utf8; [done|between_lia].
Qed.

Lemma scan_unicode_inv inp bs r :
  scan_unicode inp = (Some bs, r) ->
  utf8_char bs = true /\
  exists t, inp = t ++ r /\ forall s t', str_text s t' -> str_text (bs ++ s) (backslash :: 117 :: t ++ t').
Proof.
  unfold scan_unicode. destruct (get_codepoint factors 0 inp) as [cp r1] eqn:E1. intros H.
  destruct (Z.eqb_spec cp (-1)); [done|]. apply get_codepoint_inv in E1 as (h & -> & Hh); [|done].
  pose proof (hex4_range _ _ Hh). destruct (between 0xD800 0xDBFF cp) eqn:Ehi.
  - destruct r1 as [|b r1]; [done|]. cbn [lex_get] in H. destruct (Z.eqb_spec b backslash) as [->|]; [|done]. cbn [negb] in H.
    destruct r1 as [|b r1]; [done|]. cbn [lex_get] in H. destruct (Z.eqb_spec b 117) as [->|]; [|done]. cbn [negb] in H.
    destruct (get_codepoint factors 0 r1) as [cp2 r2] eqn:E2. destruct (Z.eqb_spec cp2 (-1)); [done|].
    apply get_codepoint_inv in E2 as (h2 & -> & Hh2); [|done]. pose proof (hex4_range _ _ Hh2).
    destruct (between 0xDC00 0xDFFF cp2) eqn:Elo; [|done]. rewrite pair_value in H by done.
    rewrite codepoint_bytes_utf8 in H by between_lia. injection H as <- <-.
    split; [apply utf8_of_char; [between_lia|unfold surrogate; between_lia]|].
    exists (h ++ backslash :: 117 :: h2). split; [by rewrite <- app_assoc|]. intros. rewrite <- app_assoc. by apply st_pair.
  - destruct (between 0xDC00 0xDFFF cp) eqn:Elo; [done|]. rewrite codepoint_bytes_utf8 in H by lia. injection H as <- <-.
    assert (surrogate cp = false) by (unfold surrogate; between_lia).
    split; [by apply utf8_of_char; [lia|]|]. exists h. split; [done|]. intros. by apply st_unicode.
Qed.

Lemma scan_escape_char e c inp : unescape_char e = Some c -> scan_escape (e :: inp) = (Some [c], inp).
Proof.
  intros H. unfold scan_escape. cbn [lex_get]. destruct (Z.eqb_spec e 117) as [->|]; [done|]. by rewrite H.
Qed.

Lemma unescape_char_byte e c : unescape_char e = Some c -> utf8_char [c] = true.
Proof. unfold unescape_char. repeat case_match; intros [= <-]; done. Qed.

Lemma scan_escape_inv inp bs r :
  scan_escape inp = (Some bs, r) ->
  utf8_char bs = true /\ exists t, inp = t ++ r /\ forall s t', str_text s t' -> str_text (bs ++ s) (backslash :: t ++ t').
Proof.
  unfold scan_escape. destruct inp as [|e inp]; cbn [lex_get]; [done|].
  destruct (Z.eqb_spec e 117) as [->|].
  - intros H. apply scan_unicode_inv in H as (Hb & t & -> & Ht). split; [done|]. by exists (117 :: t).
  - destruct (unescape_char e) as [c|] eqn:E; [|done]. intros [= <- <-]. split; [by eapply unescape_char_byte|].
    exists [e]. split; [done|]. intros. by apply st_escape.
Qed.

(** The bytes of a character after the first. *)
Lemma ranges_complete a c :
  utf8_char (a :: c) = true -> 128 <= a ->
  exists rs, ranges_of a = Some rs /\ forall buffer inp, next_byte_in_range rs buffer (c ++ inp) = (Some (buffer ++ c), inp).
Proof.
  intros H Ha. unfold ranges_of. destruct c as [|b [|c [|d [|]]]]; cbn [utf8_char] in H; [between_lia|..|done];
    repeat (match goal with |- context [if ?x then Some _ else _] => destruct x eqn:? end); try between_lia;
    (eexists; split; [reflexivity|]); intros; cbn [next_byte_in_range app lex_get];
    repeat (match goal with |- context [if ?x then _ else _] => destruct x eqn:?; [|between_lia] end);
    by rewrite <- ?app_assoc.
Qed.

Lemma ranges_sound a rs buffer buffer' inp r :
  ranges_of a = Some rs -> next_byte_in_range rs buffer inp = (Some buffer', r) ->
  128 <= a /\ exists c, inp = c ++ r /\ buffer' = buffer ++ c /\ utf8_char (a :: c) = true.
Proof.
  unfold ranges_of. intros H.
  repeat (match type of H with context [if ?x then Some _ else _] => destruct x eqn:? end);
    [injection H as <-; cbn [next_byte_in_range]..|done];
    (destruct inp as [|c1 inp]; [done|]; cbn [lex_get]; case_match; [|done]);
    try (destruct inp as [|c2 inp]; [done|]; cbn [lex_get]; case_match; [|done]);
    try (destruct inp as [|c3 inp]; [done|]; cbn [lex_get]; case_match; [|done]);
    intros [= <- <-]; (split; [between_lia|]);
    first [exists [c1; c2; c3]; split; [done|] | exists [c1; c2]; split; [done|] | exists [c1]; split; [done|]];
    rewrite <- ?app_assoc; (split; [done|]); cbn [utf8_char]; between_lia.
Qed.

Lemma str_text_utf8 s t : str_text s t -> utf8 s.
Proof.
  induction 1; [constructor|by constructor| | |].
  - apply (utf8_cons [c]); [by eapply unescape_char_byte|done].
  - constructor; [|done]. apply utf8_of_char; [|done]. pose proof (hex4_range h cp H). lia.
  - constructor; [|done]. apply utf8_of_char; [between_lia|]. unfold surrogate. between_lia.
Qed.

Lemma scan_string_plain fuel c buffer inp :
  utf8_char c = true -> plain c = true ->
  scan_string_loop (S fuel) buffer (c ++ inp) = scan_string_loop fuel (buffer ++ c) inp.
Proof.
  destruct c as [|a c]; [done|]. intros Hc Hp. cbn [scan_string_loop app lex_get].
  destruct (first_byte a c Hc) as [[Ha ->]|(Ha & Hb & _)].
  - cbn [plain] in Hp. unfold EOF. destruct (Z.eqb_spec a (-1)); [lia|]. destruct (a =? quote); [lia|].
    destruct (a =? backslash); [lia|]. destruct (Z.leb_spec a 0x1F); [lia|]. by destruct (Z.leb_spec a 0x7F); [|lia].
  - unfold EOF, quote, backslash. destruct (Z.eqb_spec a (-1)); [lia|]. destruct (Z.eqb_spec a 34); [lia|].
    destruct (Z.eqb_spec a 92); [lia|]. destruct (Z.leb_spec a 0x1F); [lia|]. destruct (Z.leb_spec a 0x7F); [lia|].
    destruct (ranges_complete a c Hc Ha) as (rs & -> & Hn). by rewrite Hn, <- app_assoc.
Qed.

Lemma scan_string_escape fuel buffer inp bs r :
  scan_escape inp = (Some bs, r) ->
  scan_string_loop (S fuel) buffer (backslash :: inp) = scan_string_loop fuel (buffer ++ bs) r.
Proof. intros H. cbn [scan_string_loop lex_get]. by rewrite H. Qed.

Lemma scan_loop_complete s t fuel buffer r :
  str_text s t -> (length t < fuel)%nat ->
  scan_string_loop fuel buffer (t ++ quote :: r) = Some (value_string (buffer ++ s), r).
Proof.
  intros H. revert fuel buffer. induction H; intros fuel buffer Hf; (destruct fuel as [|fuel]; [lia|]).
  - cbn. by rewrite app_nil_r.
  - rewrite <- app_assoc, scan_string_plain by done. rewrite IHstr_text, <- app_assoc; [done|].
    apply utf8_char_Bytes in H as [_ H]. rewrite length_app in Hf. destruct c; [done|]. cbn [length] in Hf. lia.
  - cbn [app]. erewrite scan_string_escape by by apply scan_escape_char.
    rewrite IHstr_text, <- app_assoc; [done|]. cbn [length] in Hf. lia.
  - cbn [app]. rewrite <- app_assoc. erewrite scan_string_escape by (by apply scan_unicode_some).
    rewrite IHstr_text, <- app_assoc; [done|]. cbn [length] in Hf. rewrite length_app in Hf. lia.
  - cbn [app]. rewrite <- app_assoc. cbn [app]. rewrite <- app_assoc.
    erewrite scan_string_escape by (by apply scan_unicode_pair).
    rewrite IHstr_text, <- app_assoc; [done|]. cbn [length] in Hf. rewrite length_app in Hf. cbn [length] in Hf.
    rewrite length_app in Hf. lia.
Qed.

Lemma scan_loop_sound fuel buffer inp v r :
  scan_string_loop fuel buffer inp = Some (value_string v, r) ->
  exists s t, v = buffer ++ s /\ inp = t ++ quote :: r /\ str_text s t.
Proof.
  revert buffer inp. induction fuel as [|fuel IH]; intros buffer inp; [done|]. cbn [scan_string_loop].
  destruct inp as [|a inp]; [done|]. cbn [lex_get]. destruct (a =? EOF); [done|].
  destruct (Z.eqb_spec a quote) as [->|Hq].
  { intros [= <- <-]. exists [], []. rewrite app_nil_r. split_and!; [done..|constructor]. }
  destruct (Z.eqb_spec a backslash) as [->|Hb].
  { destruct (scan_escape inp) as [[bs|] r1] eqn:E; [|done]. apply scan_escape_inv in E as (Hbs & t & -> & Ht).
    intros H. apply IH in H as (s & t' & -> & -> & Hs). exists (bs ++ s), (backslash :: t ++ t').
    rewrite <- !app_assoc. split_and!; [done| |by apply Ht]. by rewrite <- app_comm_cons, <- app_assoc. }
  destruct (Z.leb_spec a 0x1F); [done|]. destruct (Z.leb_spec a 0x7F).
  - intros H1. apply IH in H1 as (s & t & -> & -> & Hs). exists ([a] ++ s), ([a] ++ t). rewrite <- app_assoc.
    split_and!; [done..|]. apply st_char; [cbn; between_lia|cbn; lia|done].
  - destruct (ranges_of a) as [rs|] eqn:Er; [|done].
    destruct (next_byte_in_range rs (buffer ++ [a]) inp) as [[b'|] r1] eqn:E; [|done].
    destruct (ranges_sound a rs _ _ _ _ Er E) as (Ha & c & -> & -> & Hc).
    intros H2. apply IH in H2 as (s & t & -> & -> & Hs). exists ((a :: c) ++ s), ((a :: c) ++ t).
    rewrite <- !app_assoc. split_and!; [done..|]. apply st_char; [done| |done].
    unfold plain. destruct c; [cbn in Hc; between_lia|done].
Qed.

Lemma scan_string_complete s t r : str_text s t -> scan_string (t ++ quote :: r) = (value_string s, r).
Proof.
  intros H. unfold scan_string. rewrite (scan_loop_complete s); [done..|]. rewrite length_app. lia.
Qed.

Lemma scan_string_sound inp tok r :
  scan_string inp = (tok, r) -> tok = parse_error \/ exists s t, tok = value_string s /\ inp = t ++ quote :: r /\ str_text s t.
Proof.
  unfold scan_string. destruct (scan_string_loop (S (length inp)) [] inp) as [[tok' r']|] eqn:E; cbn [default]; intros [= <- <-]; [|by left].
  assert (Htok : forall f b i t0 r0, scan_string_loop f b i = Some (t0, r0) -> t0 = parse_error \/ exists s, t0 = value_string s).
  { clear. induction f as [|f IH]; intros b i t0 r0; cbn [scan_string_loop]; [done|].
    repeat case_match; try (intros [= <- <-]; eauto); eauto. }
  destruct (Htok _ _ _ _ _ E) as [->|[s ->]]; [by left|right].
  apply scan_loop_sound in E as (s' & t & -> & -> & H). by exists s', t.
Qed.

(** ** Numbers *)

Definition digit (c : Z) : Prop := between 48 57 c = true.

Inductive int_text : list Z -> Prop :=
| int_zero : int_text [48]
| int_positive c ds : between 49 57 c = true -> Forall digit ds -> int_text (c :: ds).

(** One digit at least. *)
Definition digits_text (t : list Z) : Prop := exists c ds, t = c :: ds /\ digit c /\ Forall digit ds.

Inductive frac_text : list Z -> Prop :=
| frac_none : frac_text []
| frac_some ds : digits_text ds -> frac_text (46 :: ds).

Inductive exp_text : list Z -> Prop :=
| exp_none : exp_text []
| exp_some e sgn ds :
    e = 101 \/ e = 69 -> sgn = [] \/ sgn = [43] \/ sgn = [45] -> digits_text ds -> exp_text (e :: sgn ++ ds).

(** A point or an exponent makes a number a double. *)
Definition float_char (c : Z) : bool := (c =? 46) || (c =? 101) || (c =? 69).

Inductive num_text `{Floats} : token -> list Z -> Prop :=
| num_positive i f e :
    int_text i -> frac_text f -> exp_text e ->
    num_text (number_done (if existsb float_char (i ++ f ++ e) then is_float else is_unsigned) (i ++ f ++ e)) (i ++ f ++ e)
| num_negative i f e :
    int_text i -> frac_text f -> exp_text e ->
    num_text (number_done (if existsb float_char (i ++ f ++ e) then is_float else is_integer) (45 :: i ++ f ++ e)) (45 :: i ++ f ++ e).

(** What may follow a number without being read into it. *)
Definition ends_number (r : list Z) : Prop :=
  match r with [] => True | c :: _ => between 48 57 c = false /\ float_char c = false end.

Section Numbers.
Context `{Floats}.

Lemma number_goto s t buffer c r s' :
  number_step s c = Goto s' -> number_loop s t buffer (c :: r) = number_loop s' (number_type s t) (buffer ++ [c]) r.
Proof. intros E. cbn [number_loop]. by rewrite E. Qed.

Lemma number_end s t buffer r :
  ends_number r -> (s = zero \/ s = any1 \/ s = decimal2 \/ s = any2) ->
  number_loop s t buffer r = (number_done t buffer, r).
Proof.
  intros Hr Hs. destruct r as [|c r].
  - by destruct Hs as [->|[->|[->| ->]]].
  - destruct Hr as [Hd Hf]. unfold float_char in Hf.
    apply orb_false_iff in Hf as [[H1 H2]%orb_false_iff H3].
    destruct Hs as [->|[->|[->| ->]]]; cbn [number_loop number_step number_type]; by rewrite ?Hd, ?H1, ?H2, ?H3.
Qed.

Lemma number_digits s t buffer ds r :
  Forall digit ds -> (s = any1 \/ s = decimal2 \/ s = any2) ->
  number_loop s t buffer (ds ++ r) = number_loop s t (buffer ++ ds) r.
Proof.
  intros Hds Hs. revert buffer. induction Hds as [|c ds Hc Hds IH]; intros buffer; [by rewrite app_nil_r|].
  unfold digit in Hc. cbn [app]. rewrite (number_goto s t buffer c _ s).
  - replace (number_type s t) with t by (by destruct Hs as [->|[->| ->]]). by rewrite IH, <- app_assoc.
  - destruct Hs as [->|[->| ->]]; cbn [number_step]; by rewrite Hc.
Qed.

Lemma number_exp s t buffer e r :
  exp_text e -> ends_number r -> (s = zero \/ s = any1 \/ s = decimal2) ->
  number_loop s t buffer (e ++ r) = (number_done (if existsb float_char e then is_float else t) (buffer ++ e), r).
Proof.
  intros He Hr Hs. destruct He as [|e sgn ds Hec Hsgn (c & cs' & -> & Hc & Hds)].
  - rewrite app_nil_r. apply number_end; [done|naive_solver].
  - assert (Hf : existsb float_char (e :: sgn ++ c :: cs') = true).
    { cbn [existsb]. unfold float_char. destruct Hec as [-> | ->]; done. }
    rewrite Hf. cbn [app]. rewrite (number_goto s t buffer e _ exponent).
    2: { destruct Hs as [->|[->| ->]], Hec as [->| ->]; done. }
    unfold digit in Hc. rewrite <- app_assoc. cbn [app].
    assert (Hend : forall b, number_loop any2 is_float b (cs' ++ r) = (number_done is_float (b ++ cs'), r)).
    { intros b. rewrite number_digits by (done || naive_solver). apply number_end; [done|naive_solver]. }
    destruct Hsgn as [->|Hsgn].
    + cbn [app]. rewrite (number_goto exponent _ _ c _ any2).
      2: { cbn [number_step]. destruct (Z.eqb_spec c 43), (Z.eqb_spec c 45); try between_lia. cbn [orb]. by rewrite Hc. }
      cbn [number_type]. by rewrite Hend, <- !app_assoc.
    + assert (exists g, sgn = [g] /\ (g = 43 \/ g = 45)) as (g & -> & Hg) by naive_solver. cbn [app].
      rewrite (number_goto exponent _ _ g _ sign_) by (destruct Hg as [->| ->]; done).
      rewrite (number_goto sign_ _ _ c _ any2) by (cbn [number_step]; by rewrite Hc).
      cbn [number_type]. by rewrite Hend, <- !app_assoc.
Qed.

Lemma number_frac s t buffer f e r :
  frac_text f -> exp_text e -> ends_number r -> (s = zero \/ s = any1) ->
  number_loop s t buffer (f ++ e ++ r)
  = (number_done (if existsb float_char (f ++ e) then is_float else t) (buffer ++ f ++ e), r).
Proof.
  intros Hf He Hr Hs. destruct Hf as [|ds (c & cs' & -> & Hc & Hds)].
  - cbn [app]. apply number_exp; [done..|naive_solver].
  - cbn [app]. rewrite (number_goto s t buffer 46 _ decimal1) by (destruct Hs as [->| ->]; done).
    unfold digit in Hc. rewrite (number_goto decimal1 _ _ c _ decimal2) by (cbn [number_step]; by rewrite Hc).
    cbn [number_type]. rewrite number_digits by (done || naive_solver).
    rewrite number_exp by (done || naive_solver). cbn [existsb]. change (float_char 46) with true. cbn [orb].
    rewrite <- !app_assoc. by case_match.
Qed.

Lemma digits_no_float ds : Forall digit ds -> existsb float_char ds = false.
Proof.
  induction 1 as [|c ds Hc _ IH]; [done|]. cbn [existsb]. rewrite IH, orb_false_r. unfold digit, float_char in *. between_lia.
Qed.

Lemma number_minus i f e r buffer t :
  int_text i -> frac_text f -> exp_text e -> ends_number r ->
  number_loop minus t buffer (i ++ f ++ e ++ r)
  = (number_done (if existsb float_char (i ++ f ++ e) then is_float else is_integer) (buffer ++ i ++ f ++ e), r).
Proof.
  intros Hi Hf He Hr. destruct Hi as [|c ds Hc Hds].
  - cbn [app]. rewrite (number_goto minus t buffer 48 _ zero) by done. cbn [number_type].
    rewrite number_frac by (done || by left). by rewrite <- app_assoc.
  - cbn [app]. rewrite (number_goto minus t buffer c _ any1).
    2: { cbn [number_step]. destruct (Z.eqb_spec c 48); [between_lia|]. destruct (between 48 57 c) eqn:?; [done|between_lia]. }
    cbn [number_type]. rewrite number_digits by (done || by left). rewrite number_frac by (done || by right).
    rewrite <- !app_assoc. cbn [app existsb]. replace (float_char c) with false by (unfold float_char; between_lia).
    by rewrite (existsb_app _ ds), (digits_no_float ds).
Qed.

(** The first character and what follows it. *)
Lemma scan_number_complete tok t r :
  num_text tok t -> ends_number r ->
  exists c t', t = c :: t' /\ (c = 45 \/ between 48 57 c = true) /\ scan_number c (t' ++ r) = (tok, r).
Proof.
  intros [i f e Hi Hf He|i f e Hi Hf He] Hr.
  - destruct Hi as [|c ds Hc Hds].
    + exists 48, (f ++ e). split; [done|]. split; [by right|]. unfold scan_number. cbn [Z.eqb Pos.eqb].
      rewrite <- app_assoc. by rewrite number_frac by (done || by left).
    + exists c, (ds ++ f ++ e). split; [done|]. split; [right; between_lia|]. unfold scan_number.
      destruct (Z.eqb_spec c 45); [between_lia|]. destruct (Z.eqb_spec c 48); [between_lia|].
      rewrite <- !app_assoc. rewrite number_digits by (done || by left). rewrite number_frac by (done || by right).
      cbn [app existsb]. replace (float_char c) with false by (unfold float_char; between_lia).
      by rewrite (existsb_app _ ds), (digits_no_float ds).
  - exists 45, (i ++ f ++ e). split; [done|]. split; [by left|]. unfold scan_number. cbn [Z.eqb Pos.eqb].
    rewrite <- !app_assoc. by rewrite number_minus.
Qed.
End Numbers.

(** What the states still take. *)
Definition lang (s : nstate) (x : list Z) : Prop :=
  match s with
  | minus => exists i f e, x = i ++ f ++ e /\ int_text i /\ frac_text f /\ exp_text e
  | zero => exists f e, x = f ++ e /\ frac_text f /\ exp_text e
  | any1 => exists ds f e, x = ds ++ f ++ e /\ Forall digit ds /\ frac_text f /\ exp_text e
  | decimal1 => exists ds e, x = ds ++ e /\ digits_text ds /\ exp_text e
  | decimal2 => exists ds e, x = ds ++ e /\ Forall digit ds /\ exp_text e
  | exponent => exists sgn ds, x = sgn ++ ds /\ (sgn = [] \/ sgn = [43] \/ sgn = [45]) /\ digits_text ds
  | sign_ => digits_text x
  | any2 => Forall digit x
  end.

Create HintDb numbers.
#[local] Hint Constructors int_text frac_text exp_text : numbers.
#[local] Hint Unfold digit digits_text : numbers.

Lemma lang_step s c s' x : number_step s c = Goto s' -> lang s' x -> lang s (c :: x).
Proof.
  intros E Hx. destruct s; cbn [number_step] in E;
    repeat (match type of E with context [if ?b then _ else _] => destruct b eqn:? end); try discriminate;
    injection E as <-; cbn [lang] in *.
  - assert (c = 48) as -> by lia. destruct Hx as (f & e & -> & Hf & He). exists [48], f, e. auto with numbers.
  - destruct Hx as (ds & f & e & -> & Hd & Hf & He). exists (c :: ds), f, e. split_and!; auto.
    apply int_positive; [between_lia|done].
  - assert (c = 46) as -> by lia. destruct Hx as (ds & e & -> & Hd & He). exists (46 :: ds), e. auto with numbers.
  - destruct Hx as (sgn & ds & -> & Hs & Hd). exists [], (c :: sgn ++ ds). split_and!; auto with numbers. apply exp_some; auto. lia.
  - destruct Hx as (ds & f & e & -> & Hd & Hf & He). exists (c :: ds), f, e. split_and!; auto.
  - assert (c = 46) as -> by lia. destruct Hx as (ds & e & -> & Hd & He). exists [], (46 :: ds), e. split_and!; auto with numbers.
  - destruct Hx as (sgn & ds & -> & Hs & Hd). exists [], [], (c :: sgn ++ ds). split_and!; auto with numbers. apply exp_some; auto. lia.
  - destruct Hx as (ds & e & -> & Hd & He). exists (c :: ds), e. split_and!; auto. exists c, ds. auto.
  - destruct Hx as (ds & e & -> & Hd & He). exists (c :: ds), e. split_and!; auto.
  - destruct Hx as (sgn & ds & -> & Hs & Hd). exists [], (c :: sgn ++ ds). split_and!; auto with numbers. apply exp_some; auto. lia.
  - exists [c], x. split_and!; auto. right. assert (c = 43 \/ c = 45) as [->| ->] by lia; auto.
  - exists [], (c :: x). split_and!; auto. exists c, x. auto.
  - exists c, x. auto.
  - constructor; auto.
Qed.

Lemma lang_done s c : number_step s c = Done -> lang s [].
Proof.
  destruct s; cbn [number_step lang]; repeat case_match; try discriminate; intros _.
  - exists [], []. auto with numbers.
  - exists [], [], []. auto with numbers.
  - exists [], []. auto with numbers.
  - constructor.
Qed.

(** The type once [x] is read from the state [s]. *)
Definition type_after (s : nstate) (t : ntype) (x : list Z) : ntype :=
  if existsb float_char x then is_float else number_type s t.

Lemma type_step s c s' t x :
  number_step s c = Goto s' -> type_after s' (number_type s t) x = type_after s t (c :: x).
Proof.
  intros E. unfold type_after. cbn [existsb]. unfold float_char at 2.
  destruct s; cbn [number_step number_type] in *;
    repeat (match type of E with context [if ?b then _ else _] => destruct b eqn:? end); try discriminate;
    injection E as <-; cbn [number_type]; destruct (existsb float_char x); rewrite ?orb_true_r; try done;
    (match goal with |- context [if ?b then _ else _] => destruct b eqn:? end); try done; between_lia.
Qed.

Section NumberSound.
Context `{Floats}.

Lemma number_sound s t buffer inp tok r :
  number_loop s t buffer inp = (tok, r) -> tok <> parse_error ->
  exists x, inp = x ++ r /\ lang s x /\ tok = number_done (type_after s t x) (buffer ++ x).
Proof.
  revert s t buffer. induction inp as [|c inp IH]; intros s t buffer; cbn [number_loop].
  - destruct (number_step s EOF) eqn:E; intros [= <- <-] Hn; try done.
    exists []. split_and!; [done|by eapply lang_done|rewrite (app_nil_r buffer); exact eq_refl].
  - destruct (number_step s c) as [s'| |] eqn:E.
    + intros HE Hn. apply IH in HE as (x & -> & Hx & ->); [|done]. exists (c :: x).
      split_and!; [done|by eapply lang_step|]. rewrite <- app_assoc. by erewrite type_step.
    + intros [= <- <-] _. exists []. split_and!; [done|by eapply lang_done|rewrite (app_nil_r buffer); exact eq_refl].
    + by intros [= <- <-].
Qed.

Lemma scan_number_sound c inp tok r :
  c = 45 \/ between 48 57 c = true -> scan_number c inp = (tok, r) -> tok <> parse_error ->
  exists t, c :: inp = t ++ r /\ num_text tok t.
Proof.
  intros Hc. unfold scan_number. destruct (Z.eqb_spec c 45) as [->|]; [|destruct (Z.eqb_spec c 48) as [->|]]; intros HE Hn;
    apply number_sound in HE as (x & -> & Hx & ->); try done; cbn [lang] in Hx.
  - destruct Hx as (i & f & e & -> & Hi & Hf & He). exists (45 :: i ++ f ++ e). split; [done|]. by apply num_negative.
  - destruct Hx as (f & e & -> & Hf & He). exists ([48] ++ f ++ e). split; [done|]. by apply (num_positive [48]); [constructor|..].
  - destruct Hx as (ds & f & e & -> & Hd & Hf & He). exists ((c :: ds) ++ f ++ e). split; [done|].
    pose proof (num_positive (c :: ds) f e ltac:(apply int_positive; [between_lia|done]) Hf He) as HT.
    cbn [app existsb] in HT. replace (float_char c) with false in HT by (unfold float_char; between_lia). exact HT.
Qed.
End NumberSound.

(** ** Tokens *)

Definition white (c : Z) : Prop := is_whitespace c = true.

Inductive token_text `{Floats} : token -> list Z -> Prop :=
| tt_begin_array : token_text begin_array (cs "[")
| tt_end_array : token_text end_array (cs "]")
| tt_begin_object : token_text begin_object (cs "{")
| tt_end_object : token_text end_object (cs "}")
| tt_name_separator : token_text name_separator (cs ":")
| tt_value_separator : token_text value_separator (cs ",")
| tt_true : token_text literal_true (cs "true")
| tt_false : token_text literal_false (cs "false")
| tt_null : token_text literal_null (cs "null")
| tt_string s t : str_text s t -> token_text (value_string s) (quote :: t ++ [quote])
| tt_number tok t : num_text tok t -> token_text tok t.

(** Texts of a sequence of tokens, white space before each. *)
Inductive spells `{Floats} : list token -> list Z -> Prop :=
| spells_nil : spells [] []
| spells_cons ws x tok ts t :
    Forall white ws -> token_text tok x -> spells ts t -> spells (tok :: ts) (ws ++ x ++ t).

Definition proper (t : token) : Prop := match t with parse_error | end_of_input => False | _ => True end.

Lemma skip_white ws c r : Forall white ws -> is_whitespace c = false -> skip_whitespace (ws ++ c :: r) = (c, r).
Proof. intros Hw Hc. induction Hw as [|w ws Hw _ IH]; cbn [app skip_whitespace]; [by rewrite Hc|by rewrite Hw]. Qed.

Lemma skip_white_inv inp c r :
  skip_whitespace inp = (c, r) ->
  exists ws, Forall white ws /\ (inp = ws ++ c :: r /\ is_whitespace c = false \/ inp = ws /\ c = EOF /\ r = []).
Proof.
  induction inp as [|d inp IH]; cbn [skip_whitespace]; [intros [= <- <-]; exists []; by auto|].
  destruct (is_whitespace d) eqn:E.
  - intros H. destruct (IH H) as (ws & Hw & [[-> Hc]|(-> & -> & ->)]); exists (d :: ws); (split; [by constructor|]); auto.
  - intros [= <- <-]. exists []. auto.
Qed.

Lemma scan_literal_complete lit tok r : scan_literal lit tok (lit ++ r) = (tok, r).
Proof. induction lit as [|c lit IH]; [done|]. cbn [scan_literal app lex_get]. by rewrite Z.eqb_refl. Qed.

Lemma scan_literal_sound lit ok inp tok r :
  Forall (fun c => 0 <= c) lit -> scan_literal lit ok inp = (tok, r) -> tok = parse_error \/ tok = ok /\ inp = lit ++ r.
Proof.
  intros Hlit. revert inp. induction Hlit as [|c lit Hc _ IH]; intros inp; cbn [scan_literal]; [intros [= <- <-]; auto|].
  destruct inp as [|d inp]; cbn [lex_get]; [destruct (Z.eqb_spec EOF c) as [<-|]; [done|intros [= <- <-]; auto]|].
  destruct (Z.eqb_spec d c) as [->|]; [|intros [= <- <-]; auto]. intros H. destruct (IH inp H) as [->|[-> ->]]; auto.
Qed.

Section Scan.
Context `{Floats}.

(** The first character of a token. *)
Definition starts (c : Z) : Prop := c = 45 \/ between 48 57 c = true \/ In c (quote :: cs "[]{}:,tfn").

Lemma token_text_start tok x : token_text tok x -> exists c t, x = c :: t /\ starts c.
Proof.
  unfold starts. destruct 1 as [| | | | | | | | | |tok t Hn]; try (eexists _, _; split; [reflexivity|cbn; auto 20]).
  destruct (scan_number_complete tok t [] Hn) as (c & t' & -> & Hc & _); [done|]. exists c, t'. split; [done|tauto].
Qed.

Lemma starts_white c : starts c -> is_whitespace c = false /\ c <> 0xEF /\ 0 <= c.
Proof.
  unfold starts, is_whitespace. change (quote :: cs "[]{}:,tfn") with [34; 91; 93; 123; 125; 58; 44; 116; 102; 110].
  cbn [In]. between_lia.
Qed.

Definition is_number (tok : token) : Prop :=
  match tok with value_unsigned _ | value_integer _ | value_float _ => True | _ => False end.

Lemma scan_complete tok ws x r :
  Forall white ws -> token_text tok x -> (is_number tok -> ends_number r) -> scan (ws ++ x ++ r) = (tok, r).
Proof.
  intros Hw Hx Hr. unfold scan. destruct (token_text_start tok x Hx) as (c & t & Ec & Hc).
  pose proof (starts_white c Hc) as (Hws & _). rewrite Ec. cbn [app]. rewrite skip_white by done.
  destruct Hx as [| | | | | | | | |s t' Hs|tok t' Hn]; try (injection Ec as <- <-; try (exact eq_refl)).
  - unfold quote. cbn [Z.eqb Pos.eqb]. fold quote. rewrite <- app_assoc. by apply scan_string_complete.
  - assert (Hn' : is_number tok) by (by destruct Hn; unfold number_done; repeat case_match).
    destruct (scan_number_complete tok t' r Hn (Hr Hn')) as (c' & t2 & E & Hc' & HE). rewrite E in Ec. injection Ec as -> ->.
    unfold quote. repeat (match goal with |- context [c =? ?k] => destruct (Z.eqb_spec c k); [subst; cbn in Hc'; lia|] end).
    replace ((c =? 45) || between 48 57 c) with true by lia. exact HE.
Qed.

Lemma scan_sound inp tok r :
  scan inp = (tok, r) -> proper tok -> exists ws x, inp = ws ++ x ++ r /\ Forall white ws /\ token_text tok x.
Proof.
  unfold scan. destruct (skip_whitespace inp) as [c r1] eqn:Es.
  destruct (skip_white_inv inp c r1 Es) as (ws & Hw & Hin). intros HE Hp.
  enough (exists x, c :: r1 = x ++ r /\ token_text tok x) as (x & Ex & Hx).
  { destruct Hin as [[-> _]|(-> & -> & ->)]; [exists ws, x; by rewrite Ex|].
    exfalso. cbn in HE. simplify_eq. done. }
  clear Hin Es. revert HE.
  do 6 (match goal with |- context [c =? ?k] => destruct (Z.eqb_spec c k) as [->|] end;
        [intros [= <- <-]; eexists [_]; split; [exact eq_refl|constructor]|]).
  do 3 (match goal with |- context [c =? ?k] => destruct (Z.eqb_spec c k) as [->|] end;
        [intros HL; apply scan_literal_sound in HL; [|by_compute]; destruct HL as [->|[-> ->]]; [done|];
         eexists; split; [rewrite app_comm_cons; exact eq_refl|first [exact tt_true|exact tt_false|exact tt_null]]|]).
  destruct (Z.eqb_spec c quote) as [->|].
  { intros HS. apply scan_string_sound in HS as [->|(s & t & -> & -> & Ht)]; [done|].
    exists (quote :: t ++ [quote]). split; [by rewrite <- app_comm_cons, <- app_assoc|by constructor]. }
  destruct ((c =? 45) || between 48 57 c) eqn:Ec.
  { intros HN. apply scan_number_sound in HN as (t & -> & Ht); [|lia|by intros ->]. exists t. split; [done|by constructor]. }
  destruct ((c =? 0) || (c =? EOF)); intros [= <- <-]; done.
Qed.

Lemma scan_end inp r :
  Bytes inp -> scan inp = (end_of_input, r) -> exists ws tail, inp = ws ++ tail /\ Forall white ws /\ (tail = [] \/ exists t, tail = 0 :: t).
Proof.
  intros Hb. unfold scan. destruct (skip_whitespace inp) as [c r1] eqn:Es.
  destruct (skip_white_inv inp c r1 Es) as (ws & Hw & [[-> Hc]|(-> & -> & ->)]); [|by exists ws, []; rewrite app_nil_r; auto].
  apply Bytes_app in Hb as [_ [Hb _]%Forall_cons_1]. intros HE.
  enough (c = 0) as -> by (exists ws, (0 :: r1); eauto).
  revert HE.
  do 6 (match goal with |- context [c =? ?k] => destruct (Z.eqb_spec c k) as [->|]; [done|] end).
  do 3 (match goal with |- context [c =? ?k] => destruct (Z.eqb_spec c k) as [->|];
    [intros HL; apply scan_literal_sound in HL; [|by_compute]; by destruct HL as [HL|[HL _]]|] end).
  destruct (c =? quote).
  { intros HS. apply scan_string_sound in HS as [HS|(s & t & HS & _)]; done. }
  destruct ((c =? 45) || between 48 57 c) eqn:Ec.
  { intros HN. apply scan_number_sound in HN as (t & _ & Ht); [|lia|done].
    inversion Ht; unfold number_done in *; repeat case_match; done. }
  unfold EOF. destruct (Z.eqb_spec c 0); [done|]. destruct (Z.eqb_spec c (-1)); [|done]. destruct Hb. lia.
Qed.

Lemma scan_at_end ws r : Forall white ws -> r = [] \/ (exists t, r = 0 :: t) -> (scan (ws ++ r)).1 = end_of_input.
Proof.
  intros Hw Hr. unfold scan. destruct Hr as [->|[t ->]].
  - rewrite app_nil_r. assert (Es : skip_whitespace ws = (EOF, [])); [|by rewrite Es].
    induction Hw as [|c ws Hc _ IH]; [done|]. cbn [skip_whitespace]. by rewrite Hc.
  - by rewrite skip_white.
Qed.
End Scan.
