(* ===== verification/JsonGrammar.v ===== *)
(** * JSON values from tokens, and the equivalence of the parser

    [tree] is the grammar of values over tokens; [json_text] the texts of a
    value.  The parser is a loop over an explicit stack: [step] is one turn.
    [parse_accepts]: the parser accepts exactly the texts of the grammar, up to
    a byte order mark before and a NUL after them. *)
From stdpp Require Import relations.
From Stdlib Require Import ZifyBool.
From S2P Require Import Prelude Process Event Json JsonParse JsonSpec.

(** ** The grammar *)

(** The value of a token that is one. *)
Definition atom (t : token) : option json :=
  match t with
  | literal_true => Some (JBoolean true)
  | literal_false => Some (JBoolean false)
  | literal_null => Some JNull
  | value_string s => Some (JString s)
  | value_unsigned z => Some (JUnsigned z)
  | value_integer z => Some (JInteger z)
  | value_float b => if isfinite b then Some (JFloat b) else None
  | _ => None
  end.

Inductive tree : json -> list token -> Prop :=
| tree_atom t v : atom t = Some v -> tree v [t]
| tree_array_nil : tree (JArray []) [begin_array; end_array]
| tree_array l ts : elements l ts -> tree (JArray l) (begin_array :: ts ++ [end_array])
| tree_object_nil : tree (JObject []) [begin_object; end_object]
| tree_object m ts : members m ts -> tree (JObject m) (begin_object :: ts ++ [end_object])
with elements : list json -> list token -> Prop :=
| elements_one v ts : tree v ts -> elements [v] ts
| elements_more l ts v ts' : elements l ts -> tree v ts' -> elements (l ++ [v]) (ts ++ value_separator :: ts')
with members : list (list Z * json) -> list token -> Prop :=
| members_one k v ts : tree v ts -> members [(k, v)] (value_string k :: name_separator :: ts)
| members_more m ts k v ts' :
    members m ts -> tree v ts' ->
    members (insert k v m) (ts ++ value_separator :: value_string k :: name_separator :: ts').

Scheme tree_mut := Minimality for tree Sort Prop
with elements_mut := Minimality for elements Sort Prop
with members_mut := Minimality for members Sort Prop.
Combined Scheme grammar_ind from tree_mut, elements_mut, members_mut.

(** The texts of a value, with white space around it. *)
Definition json_text `{Floats} (v : json) (t : list Z) : Prop :=
  exists ts t' ws, tree v ts /\ spells ts t' /\ Forall white ws /\ t = t' ++ ws.

(** ** One turn of the loop *)

Section Steps.
Context {Src : Type} (get_token : Src -> token * Src).

Definition state : Type := phase * list frame * Src.

Definition turn (c : state) : option (result state) :=
  match c with
  | (Value t, frames, s) => Some (parse_value get_token t frames s)
  | (Evaluate v, f :: frames, s) => Some (evaluate get_token v f frames s)
  | (Evaluate v, [], s) => None
  end.

Definition step (c c' : state) : Prop := turn c = Some (Ok c').

Lemma sax_turn fuel p frames s :
  sax_parse_internal get_token (S fuel) p frames s =
  match turn (p, frames, s) with
  | Some (Ok (p, frames, s)) => sax_parse_internal get_token fuel p frames s
  | Some (Throw e) => Some (Throw e)
  | Some Ub => Some Ub
  | None => match p with Evaluate v => Some (Ok (v, s)) | Value _ => None end
  end.
Proof. cbn [sax_parse_internal turn]. by destruct p as [t|v]; [|destruct frames]. Qed.

(** A run to a result, for any fuel with which the loop ends. *)
Lemma sax_steps fuel p frames s v s' r :
  rtc step (p, frames, s) (Evaluate v, [], s') -> sax_parse_internal get_token fuel p frames s = Some r -> r = Ok (v, s').
Proof.
  intros Hs. remember (p, frames, s) as c eqn:Ec. remember (Evaluate v, [], s') as c' eqn:Ec'.
  revert fuel p frames s Ec. induction Hs as [c|c c2 c' H1 _ IH]; intros fuel p frames s -> HE.
  - injection Ec' as -> -> ->. destruct fuel; [done|]. cbn in HE. congruence.
  - destruct fuel; [done|]. rewrite sax_turn, H1 in HE. destruct c2 as [[p2 f2] s2]. by eapply IH.
Qed.

(** Tokens read in order. *)
Inductive reads : Src -> list token -> Src -> Prop :=
| reads_nil s : reads s [] s
| reads_cons s t s1 ts s' : get_token s = (t, s1) -> reads s1 ts s' -> reads s (t :: ts) s'.

Lemma reads_app s ts s1 ts' s' : reads s ts s1 -> reads s1 ts' s' -> reads s (ts ++ ts') s'.
Proof. induction 1; intros; [done|]. econstructor; eauto. Qed.

(** *** Soundness: the tokens read so far make the open containers *)

Inductive opened : list frame -> list token -> Prop :=
| opened_nil : opened [] []
| opened_array fs ts : opened fs ts -> opened (InArray [] :: fs) (ts ++ [begin_array])
| opened_elements fs ts l ts' :
    opened fs ts -> elements l ts' -> opened (InArray l :: fs) (ts ++ begin_array :: ts' ++ [value_separator])
| opened_object fs ts k :
    opened fs ts -> opened (InObject [] k :: fs) (ts ++ [begin_object; value_string k; name_separator])
| opened_members fs ts m ts' k :
    opened fs ts -> members m ts' ->
    opened (InObject m k :: fs) (ts ++ begin_object :: ts' ++ [value_separator; value_string k; name_separator]).

Definition so_far (p : phase) (frames : list frame) (ts : list token) : Prop :=
  exists ts0, opened frames ts0 /\
  match p with
  | Value t => ts = ts0 ++ [t]
  | Evaluate v => exists ts1, tree v ts1 /\ ts = ts0 ++ ts1
  end.

Lemma parse_key_inv t s k s' : parse_key get_token t s = Ok (k, s') -> t = value_string k /\ get_token s = (name_separator, s').
Proof.
  unfold parse_key. destruct t; try done. destruct (get_token s) as [[] s1]; try done. intros [= -> ->]. done.
Qed.

Lemma parse_value_sound t frames s p' frames' s' ts :
  parse_value get_token t frames s = Ok (p', frames', s') -> so_far (Value t) frames ts ->
  exists ts', reads s ts' s' /\ so_far p' frames' (ts ++ ts').
Proof.
  intros HE (ts0 & Ho & ->). unfold parse_value in HE.
  assert (Hatom : forall v, atom t = Some v -> (p', frames', s') = (Evaluate v, frames, s) ->
    exists ts', reads s ts' s' /\ so_far p' frames' ((ts0 ++ [t]) ++ ts')).
  { intros v Hv [= -> -> ->]. exists []. split; [constructor|]. exists ts0. split; [done|].
    exists [t]. rewrite app_nil_r. split; [by constructor|done]. }
  destruct t; try discriminate; try (injection HE as <- <- <-; by eapply Hatom).
  - destruct (isfinite bits) eqn:Ef; [|done]. injection HE as <- <- <-. eapply Hatom; [cbn; by rewrite Ef|done].
  - destruct (get_token s) as [t1 s1] eqn:E1.
    assert (Hv : Ok (Value t1, InArray [] :: frames, s1) = Ok (p', frames', s') ->
      exists ts', reads s ts' s' /\ so_far p' frames' ((ts0 ++ [begin_array]) ++ ts')).
    { intros [= <- <- <-]. exists [t1]. split; [by econstructor; [|constructor]|]. eexists. split; [by apply opened_array|done]. }
    destruct t1; try (by apply Hv). injection HE as <- <- <-. exists [end_array]. split; [by econstructor; [|constructor]|].
    exists ts0. split; [done|]. exists [begin_array; end_array]. split; [constructor|]. by rewrite <- app_assoc.
  - destruct (get_token s) as [t1 s1] eqn:E1.
    assert (Hv : ('(k, s) ← parse_key get_token t1 s1; let '(t, s) := get_token s in Ok (Value t, InObject [] k :: frames, s))
        = Ok (p', frames', s') ->
      exists ts', reads s ts' s' /\ so_far p' frames' ((ts0 ++ [begin_object]) ++ ts')).
    { destruct (parse_key get_token t1 s1) as [[k s2]| |] eqn:Ek; [|done..]. apply parse_key_inv in Ek as [-> E2].
      unfold mbind, result_bind. destruct (get_token s2) as [t3 s3] eqn:E3. intros [= <- <- <-].
      exists [value_string k; name_separator; t3]. split; [by do 3 (econstructor; [done|]); constructor|].
      eexists. split; [by apply opened_object|]. by rewrite <- !app_assoc. }
    destruct t1; try (by apply Hv). injection HE as <- <- <-. exists [end_object]. split; [by econstructor; [|constructor]|].
    exists ts0. split; [done|]. exists [begin_object; end_object]. split; [constructor|]. by rewrite <- app_assoc.
Qed.

(** The elements and members so far, with the value just read. *)
Lemma opened_array_value l frames ts0 v ts1 :
  opened (InArray l :: frames) ts0 -> tree v ts1 ->
  exists ts2 ts3, opened frames ts2 /\ elements (l ++ [v]) ts3 /\ ts0 ++ ts1 = ts2 ++ begin_array :: ts3.
Proof.
  intros Ho Hv. inversion Ho as [|? ts Hf|? ts ? ts' Hf He| |]; subst.
  - exists ts, ts1. split_and!; [done|by constructor|]. by rewrite <- app_assoc.
  - exists ts, (ts' ++ value_separator :: ts1). split_and!; [done|by constructor|]. rewrite <- app_assoc. cbn [app]. by rewrite <- app_assoc.
Qed.

Lemma opened_object_value m k frames ts0 v ts1 :
  opened (InObject m k :: frames) ts0 -> tree v ts1 ->
  exists ts2 ts3, opened frames ts2 /\ members (insert k v m) ts3 /\ ts0 ++ ts1 = ts2 ++ begin_object :: ts3.
Proof.
  intros Ho Hv. inversion Ho as [| | |? ts ? Hf|? ts ? ts' ? Hf Hm]; subst.
  - exists ts, (value_string k :: name_separator :: ts1). split_and!; [done|by constructor|]. by rewrite <- app_assoc.
  - exists ts, (ts' ++ value_separator :: value_string k :: name_separator :: ts1). split_and!; [done|by constructor|].
    rewrite <- app_assoc. cbn [app]. by rewrite <- app_assoc.
Qed.

Lemma evaluate_sound v f frames s p' frames' s' ts :
  evaluate get_token v f frames s = Ok (p', frames', s') -> so_far (Evaluate v) (f :: frames) ts ->
  exists ts', reads s ts' s' /\ so_far p' frames' (ts ++ ts').
Proof.
  intros HE (ts0 & Ho & ts1 & Hv & ->). unfold evaluate in HE. destruct f as [l|m k].
  - destruct (opened_array_value l frames ts0 v ts1 Ho Hv) as (ts2 & ts3 & Hf & He & ->). cbv zeta in HE.
    destruct (get_token s) as [[] s1] eqn:E1; try discriminate.
    + injection HE as <- <- <-. exists [end_array]. split; [by econstructor; [|constructor]|].
      exists ts2. split; [done|]. exists (begin_array :: ts3 ++ [end_array]). split; [by constructor|]. by rewrite <- app_assoc.
    + destruct (get_token s1) as [t2 s2] eqn:E2. injection HE as <- <- <-. exists [value_separator; t2].
      split; [by do 2 (econstructor; [done|]); constructor|]. eexists. split; [by apply opened_elements|].
      by rewrite <- !app_assoc, <- !app_comm_cons, <- !app_assoc.
  - destruct (opened_object_value m k frames ts0 v ts1 Ho Hv) as (ts2 & ts3 & Hf & He & ->). cbv zeta in HE.
    destruct (get_token s) as [[] s1] eqn:E1; try discriminate.
    + injection HE as <- <- <-. exists [end_object]. split; [by econstructor; [|constructor]|].
      exists ts2. split; [done|]. exists (begin_object :: ts3 ++ [end_object]). split; [by constructor|]. by rewrite <- app_assoc.
    + destruct (get_token s1) as [t2 s2] eqn:E2. destruct (parse_key get_token t2 s2) as [[k' s3]| |] eqn:Ek; [|done..].
      apply parse_key_inv in Ek as [-> E3]. unfold mbind, result_bind in HE. destruct (get_token s3) as [t4 s4] eqn:E4.
      injection HE as <- <- <-. exists [value_separator; value_string k'; name_separator; t4].
      split; [by do 4 (econstructor; [done|]); constructor|]. eexists. split; [by apply opened_members|].
      by rewrite <- !app_assoc, <- !app_comm_cons, <- !app_assoc.
Qed.

Lemma sax_sound fuel p frames s v s' ts :
  sax_parse_internal get_token fuel p frames s = Some (Ok (v, s')) -> so_far p frames ts ->
  exists ts1 ts', reads s ts' s' /\ tree v ts1 /\ ts ++ ts' = ts1.
Proof.
  revert p frames s ts. induction fuel as [|fuel IH]; intros p frames s ts; [done|]. rewrite sax_turn.
  destruct (turn (p, frames, s)) as [[[[p2 f2] s2]| |]|] eqn:E; try done.
  - intros HE Hp. assert (exists ts', reads s ts' s2 /\ so_far p2 f2 (ts ++ ts')) as (ts' & Hr & Hp2).
    { destruct p as [t|v0]; [|destruct frames as [|f frames]; [done|]]; injection E as E;
        [by eapply parse_value_sound|by eapply evaluate_sound]. }
    destruct (IH p2 f2 s2 _ HE Hp2) as (ts1 & ts2 & Hr2 & Hv & <-). eexists _, (ts' ++ ts2).
    split_and!; [by eapply reads_app|exact Hv|by rewrite app_assoc].
  - destruct p as [t|v0]; [done|]. destruct frames; [|done]. intros [= -> ->] (ts0 & Ho & ts1 & Hv & ->).
    inversion Ho; subst. exists ts1, []. split_and!; [constructor|done|by rewrite app_nil_r].
Qed.
End Steps.

(** Values have proper tokens only. *)
Lemma grammar_proper :
  (forall v ts, tree v ts -> Forall proper ts) /\ (forall l ts, elements l ts -> Forall proper ts) /\
  (forall m ts, members m ts -> Forall proper ts).
Proof.
  apply grammar_ind; intros; rewrite ?Forall_cons, ?Forall_app, ?Forall_cons; repeat split; try done.
  destruct t; done.
Qed.

Lemma reads_spells `{Floats} s ts r :
  reads scan s ts r -> Forall proper ts -> exists t, s = t ++ r /\ spells ts t.
Proof.
  induction 1 as [s|s t s1 ts s' Hs _ IH]; intros Hp; [exists []; split; [done|constructor]|].
  apply Forall_cons_1 in Hp as [Ht Hp]. destruct (IH Hp) as (t' & -> & Hsp).
  destruct (scan_sound s t _ Hs Ht) as (ws & x & -> & Hw & Hx). exists (ws ++ x ++ t'). split; [by rewrite <- !app_assoc|by constructor].
Qed.

(** ** Completeness *)

Section Complete.
Context `{Floats}.

Lemma spells_app ts1 ts2 t : spells (ts1 ++ ts2) t -> exists t1 t2, t = t1 ++ t2 /\ spells ts1 t1 /\ spells ts2 t2.
Proof.
  revert t. induction ts1 as [|tok ts1 IH]; intros t Hs; [exists [], t; split_and!; [done|constructor|done]|].
  inversion Hs as [|ws x ? ? t' Hw Hx Hs']; subst. destruct (IH t' Hs') as (t1 & t2 & -> & H1 & H2).
  exists (ws ++ x ++ t1), t2. split_and!; [by rewrite <- !app_assoc|by constructor|done].
Qed.

(** A token that is not a number, at the front. *)
Lemma spells_scan tok ts t r :
  spells (tok :: ts) t -> ~ is_number tok -> exists t', scan (t ++ r) = (tok, t' ++ r) /\ spells ts t'.
Proof.
  intros Hs Hn. inversion Hs as [|ws x ? ? t' Hw Hx Hs']; subst. exists t'. rewrite <- !app_assoc. split; [|done].
  by apply scan_complete.
Qed.

Definition punctuation (tok : token) : Prop :=
  match tok with value_separator | end_array | end_object | name_separator => True | _ => False end.

Lemma spells_ends tok ts t r : spells (tok :: ts) t -> punctuation tok -> ends_number (t ++ r).
Proof.
  intros Hs Hp. inversion Hs as [|ws x ? ? t' Hw Hx Hs']; subst. destruct Hw as [|w ws Hw _].
  - destruct Hx as [| | | | | | | | | |tok x Hx]; try done. by destruct Hx; unfold number_done in Hp; repeat case_match.
  - cbn. unfold white, is_whitespace, float_char in *. between_lia.
Qed.

Definition tree_runs (v : json) (ts : list token) : Prop := forall t r,
  spells ts t -> ends_number r -> exists t0 s1, scan (t ++ r) = (t0, s1) /\ t0 <> end_array /\
  forall fs, rtc (step scan) (Value t0, fs, s1) (Evaluate v, fs, r).

Definition elements_run (l : list json) (ts : list token) : Prop := forall t r,
  spells ts t -> ends_number r -> exists t0 s1, scan (t ++ r) = (t0, s1) /\ t0 <> end_array /\
  exists l0 v, l = l0 ++ [v] /\ forall fs, rtc (step scan) (Value t0, InArray [] :: fs, s1) (Evaluate v, InArray l0 :: fs, r).

Definition members_run (m : list (list Z * json)) (ts : list token) : Prop := forall t r,
  spells ts t -> ends_number r -> exists k0 s1 s2 t0 s3,
  scan (t ++ r) = (value_string k0, s1) /\ scan s1 = (name_separator, s2) /\ scan s2 = (t0, s3) /\
  exists m0 k v, m = insert k v m0 /\
    forall fs, rtc (step scan) (Value t0, InObject [] k0 :: fs, s3) (Evaluate v, InObject m0 k :: fs, r).

Lemma atom_runs t v : atom t = Some v -> tree_runs v [t].
Proof.
  intros Ha s r Hs Hr. inversion Hs as [|ws x ? ? t' Hw Hx Hs']; subst. inversion Hs'; subst.
  rewrite app_nil_r, <- app_assoc. exists t, r. split; [by apply scan_complete|]. split; [by intros ->|].
  intros fs. apply rtc_once. unfold step, turn, parse_value. destruct t; try discriminate Ha; try (injection Ha as <-; done).
  cbn [atom] in Ha. destruct (isfinite bits); [by injection Ha as <-|done].
Qed.

Lemma step_array t0 s s1 fs :
  scan s = (t0, s1) -> t0 <> end_array -> step scan (Value begin_array, fs, s) (Value t0, InArray [] :: fs, s1).
Proof. intros Hs Hn. unfold step, turn, parse_value. rewrite Hs. by destruct t0. Qed.

Lemma step_object k s s1 s2 t0 s3 fs :
  scan s = (value_string k, s1) -> scan s1 = (name_separator, s2) -> scan s2 = (t0, s3) ->
  step scan (Value begin_object, fs, s) (Value t0, InObject [] k :: fs, s3).
Proof.
  intros H1 H2 H3. unfold step, turn, parse_value. rewrite H1. unfold parse_key. rewrite H2.
  unfold mbind, result_bind. by rewrite H3.
Qed.

Lemma elements_array l ts : elements_run l ts -> tree_runs (JArray l) (begin_array :: ts ++ [end_array]).
Proof.
  intros IH t r Hs Hr. destruct (spells_scan begin_array _ _ r Hs) as (t1 & Hsc & Hs1); [by intros []|].
  apply spells_app in Hs1 as (t2 & t3 & -> & H2 & H3). rewrite <- app_assoc in Hsc.
  destruct (IH t2 (t3 ++ r) H2) as (t0 & s1 & Hsc0 & Hne & l0 & v & -> & Hrun); [by eapply spells_ends|].
  exists begin_array, (t2 ++ t3 ++ r). split; [done|]. split; [done|]. intros fs.
  eapply rtc_l; [by apply step_array|]. eapply rtc_r; [apply Hrun|].
  destruct (spells_scan end_array _ _ r H3) as (t' & Hsc3 & Hs'); [by intros []|]. inversion Hs'; subst.
  unfold step, turn, evaluate. by rewrite Hsc3.
Qed.

Lemma members_object m ts : members_run m ts -> tree_runs (JObject m) (begin_object :: ts ++ [end_object]).
Proof.
  intros IH t r Hs Hr. destruct (spells_scan begin_object _ _ r Hs) as (t1 & Hsc & Hs1); [by intros []|].
  apply spells_app in Hs1 as (t2 & t3 & -> & H2 & H3). rewrite <- app_assoc in Hsc.
  destruct (IH t2 (t3 ++ r) H2) as (k0 & s1 & s2 & t0 & s3 & Hk & Hsep & Hv & m0 & k & v & -> & Hrun); [by eapply spells_ends|].
  exists begin_object, (t2 ++ t3 ++ r). split; [done|]. split; [done|]. intros fs.
  eapply rtc_l; [by eapply step_object|]. eapply rtc_r; [apply Hrun|].
  destruct (spells_scan end_object _ _ r H3) as (t' & Hsc3 & Hs'); [by intros []|]. inversion Hs'; subst.
  unfold step, turn, evaluate. by rewrite Hsc3.
Qed.

Lemma elements_more_run l ts v ts' :
  elements_run l ts -> tree_runs v ts' -> elements_run (l ++ [v]) (ts ++ value_separator :: ts').
Proof.
  intros IHl IHv t r Hs Hr. apply spells_app in Hs as (t1 & t2 & -> & H1 & H2). rewrite <- app_assoc.
  destruct (IHl t1 (t2 ++ r) H1) as (t0 & s1 & Hsc0 & Hne & l0 & v0 & -> & Hrun); [by eapply spells_ends|].
  exists t0, s1. split; [done|]. split; [done|]. exists (l0 ++ [v0]), v. split; [done|]. intros fs.
  destruct (spells_scan value_separator _ _ r H2) as (t3 & Hsc & H3); [by intros []|].
  destruct (IHv t3 r H3 Hr) as (tv & s3 & Hscv & _ & Hrunv).
  etrans; [apply Hrun|]. eapply rtc_l; [|apply Hrunv].
  unfold step, turn, evaluate. by rewrite Hsc, Hscv.
Qed.

(** A key, the separator and a value. *)
Lemma member_run k v ts t r :
  tree_runs v ts -> spells (value_string k :: name_separator :: ts) t -> ends_number r ->
  exists s1 s2 t0 s3, scan (t ++ r) = (value_string k, s1) /\ scan s1 = (name_separator, s2) /\ scan s2 = (t0, s3) /\
  forall fs, rtc (step scan) (Value t0, fs, s3) (Evaluate v, fs, r).
Proof.
  intros IH Hs Hr. destruct (spells_scan _ _ _ r Hs) as (t1 & Hsc1 & H1); [by intros []|].
  destruct (spells_scan _ _ _ r H1) as (t2 & Hsc2 & H2); [by intros []|].
  destruct (IH t2 r H2 Hr) as (t0 & s3 & Hsc3 & _ & Hrun). eauto 10.
Qed.

Lemma members_more_run m ts k v ts' :
  members_run m ts -> tree_runs v ts' ->
  members_run (insert k v m) (ts ++ value_separator :: value_string k :: name_separator :: ts').
Proof.
  intros IHm IHv t r Hs Hr. apply spells_app in Hs as (t1 & t2 & -> & H1 & H2). rewrite <- app_assoc.
  destruct (IHm t1 (t2 ++ r) H1) as (k0 & s1 & s2 & t0 & s3 & E1 & E2 & E3 & m0 & k1 & v1 & -> & Hrun); [by eapply spells_ends|].
  exists k0, s1, s2, t0, s3. split_and!; [done..|]. exists (insert k1 v1 m0), k, v. split; [done|]. intros fs.
  destruct (spells_scan value_separator _ _ r H2) as (t3 & Hsc & H3); [by intros []|].
  destruct (member_run k v ts' t3 r IHv H3 Hr) as (s4 & s5 & tv & s6 & E4 & E5 & E6 & Hrunv).
  etrans; [apply Hrun|]. eapply rtc_l; [|apply Hrunv].
  unfold step, turn, evaluate, parse_key. rewrite Hsc, E4, E5. unfold mbind, result_bind. by rewrite E6.
Qed.

Lemma grammar_runs :
  (forall v ts, tree v ts -> tree_runs v ts) /\ (forall l ts, elements l ts -> elements_run l ts) /\
  (forall m ts, members m ts -> members_run m ts).
Proof.
  apply grammar_ind.
  - apply atom_runs.
  - intros t r Hs Hr. destruct (spells_scan _ _ _ r Hs) as (t1 & Hsc & H1); [by intros []|].
    destruct (spells_scan _ _ _ r H1) as (t2 & Hsc2 & H2); [by intros []|]. inversion H2; subst.
    exists begin_array, (t1 ++ r). split; [done|]. split; [done|]. intros fs. apply rtc_once.
    unfold step, turn, parse_value. by rewrite Hsc2.
  - intros l ts _. apply elements_array.
  - intros t r Hs Hr. destruct (spells_scan _ _ _ r Hs) as (t1 & Hsc & H1); [by intros []|].
    destruct (spells_scan _ _ _ r H1) as (t2 & Hsc2 & H2); [by intros []|]. inversion H2; subst.
    exists begin_object, (t1 ++ r). split; [done|]. split; [done|]. intros fs. apply rtc_once.
    unfold step, turn, parse_value. by rewrite Hsc2.
  - intros m ts _. apply members_object.
  - intros v ts _ IH t r Hs Hr. destruct (IH t r Hs Hr) as (t0 & s1 & Hsc & Hne & Hrun).
    exists t0, s1. split; [done|]. split; [done|]. exists [], v. split; [done|]. intros. apply Hrun.
  - intros l ts v ts' _ IHl _ IHv. by apply elements_more_run.
  - intros k v ts _ IH t r Hs Hr. destruct (member_run k v ts t r IH Hs Hr) as (s1 & s2 & t0 & s3 & E1 & E2 & E3 & Hrun).
    exists k, s1, s2, t0, s3. split_and!; [done..|]. exists [], k, v. split; [done|]. intros. apply Hrun.
  - intros m ts k v ts' _ IHm _ IHv. by apply members_more_run.
Qed.
End Complete.

(** ** Termination *)

Section Termination.
Context `{Floats}.

Lemma scan_shorter s t s' : scan s = (t, s') -> proper t -> (length s' < length s)%nat.
Proof.
  intros Hs Hp. destruct (scan_sound s t s' Hs Hp) as (ws & x & -> & _ & Hx).
  destruct (token_text_start t x Hx) as (c & x' & -> & _). rewrite !length_app. cbn [length]. lia.
Qed.

Definition measure (p : phase) (s : list Z) : nat :=
  match p with
  | Value (parse_error | end_of_input) => 1
  | Value (begin_array | begin_object) => 2 * length s + 3
  | Value _ => 2 * length s + 2
  | Evaluate _ => 2 * length s + 1
  end.

Lemma measure_scan s t s' : scan s = (t, s') -> (measure (Value t) s' <= 2 * length s + 1)%nat.
Proof. intros Hs. pose proof (scan_shorter s t s' Hs). destruct t; cbn [measure proper] in *; lia. Qed.

Lemma measure_key t s k s' : parse_key scan t s = Ok (k, s') -> (length s' < length s)%nat /\ proper t.
Proof. intros Hk. apply parse_key_inv in Hk as [-> Hs]. by apply scan_shorter in Hs. Qed.

Lemma measure_turn p frames s p' frames' s' :
  turn scan (p, frames, s) = Some (Ok (p', frames', s')) -> (measure p' s' < measure p s)%nat.
Proof.
  destruct p as [t|v]; cbn [turn].
  - intros [= HE]. unfold parse_value in HE. destruct t; try discriminate; try (injection HE as <- <- <-; cbn [measure]; lia).
    + destruct (isfinite bits); [|done]. injection HE as <- <- <-. cbn [measure]. lia.
    + destruct (scan s) as [t1 s1] eqn:E1. pose proof (measure_scan _ _ _ E1). pose proof (scan_shorter _ _ _ E1).
      destruct t1; injection HE as <- <- <-; cbn [measure proper] in *; lia.
    + destruct (scan s) as [t1 s1] eqn:E1. pose proof (scan_shorter _ _ _ E1) as Hsh.
      assert (Hk : ('(k, s) ← parse_key scan t1 s1; let '(t, s) := scan s in Ok (Value t, InObject [] k :: frames, s))
        = Ok (p', frames', s') -> (measure p' s' < 2 * length s + 3)%nat).
      { destruct (parse_key scan t1 s1) as [[k s2]| |] eqn:Ek; [|done..]. apply measure_key in Ek as [? Hp]. specialize (Hsh Hp).
        unfold mbind, result_bind. destruct (scan s2) as [t3 s3] eqn:E3. pose proof (measure_scan _ _ _ E3).
        intros [= <- <- <-]. lia. }
      destruct t1; try (by apply Hk). injection HE as <- <- <-. cbn [measure proper] in *. lia.
  - destruct frames as [|f frames]; [done|]. intros [= HE]. unfold evaluate in HE. destruct f as [l|m k]; cbv zeta in HE.
    + destruct (scan s) as [t1 s1] eqn:E1. pose proof (scan_shorter _ _ _ E1). destruct t1; try discriminate.
      * injection HE as <- <- <-. cbn [measure proper] in *. lia.
      * destruct (scan s1) as [t2 s2] eqn:E2. pose proof (measure_scan _ _ _ E2). injection HE as <- <- <-. cbn [measure proper] in *. lia.
    + destruct (scan s) as [t1 s1] eqn:E1. pose proof (scan_shorter _ _ _ E1). destruct t1; try discriminate.
      * injection HE as <- <- <-. cbn [measure proper] in *. lia.
      * destruct (scan s1) as [t2 s2] eqn:E2. pose proof (scan_shorter _ _ _ E2) as Hsh.
        destruct (parse_key scan t2 s2) as [[k' s3]| |] eqn:Ek; [|done..]. apply measure_key in Ek as [? Hp]. specialize (Hsh Hp).
        unfold mbind, result_bind in HE. destruct (scan s3) as [t4 s4] eqn:E4. pose proof (measure_scan _ _ _ E4).
        injection HE as <- <- <-. cbn [measure proper] in *. lia.
Qed.

Lemma sax_ends fuel p frames s : (measure p s <= fuel)%nat -> exists r, sax_parse_internal scan fuel p frames s = Some r.
Proof.
  revert p frames s. induction fuel as [|fuel IH]; intros p frames s Hf; [destruct p as [[]|]; cbn in Hf; lia|].
  rewrite sax_turn. destruct (turn scan (p, frames, s)) as [[[[p2 f2] s2]| |]|] eqn:E; [|eauto..|].
  - apply measure_turn in E. apply IH. lia.
  - destruct p; [done|eauto].
Qed.

Lemma parse_fuel_enough s t inp frames :
  (length inp <= length s)%nat -> exists r, sax_parse_internal scan (parse_fuel s) (Value t) frames inp = Some r.
Proof. intros Hl. apply sax_ends. unfold parse_fuel. destruct t; cbn [measure]; lia. Qed.

(** The outcomes of the loop. *)
Lemma turn_outcome p frames s :
  match turn scan (p, frames, s) with
  | Some (Throw e) => e = parse_error_101 \/ e = out_of_range_406
  | Some Ub => False
  | _ => True
  end.
Proof.
  assert (Hkey : forall t s0, match parse_key scan t s0 with Throw e => e = parse_error_101 | Ub => False | Ok _ => True end).
  { intros t s0. unfold parse_key. destruct t; try done. by destruct (scan s0) as [tk1 src1]; destruct tk1. }
  assert (Hnext : forall t s0 (f : list Z -> frame) fs, match '(k, s) ← parse_key scan t s0; let '(t, s) := scan s in Ok (Value t, f k :: fs, s) with
    Throw e => e = parse_error_101 \/ e = out_of_range_406 | Ub => False | Ok _ => True end).
  { intros t s0 f fs. specialize (Hkey t s0). destruct (parse_key scan t s0) as [[k s1]|e|]; [|by left|done].
    unfold mbind, result_bind. by destruct (scan s1). }
  destruct p as [t|v]; cbn [turn].
  - unfold parse_value. destruct t; auto; [by destruct (isfinite bits); auto|..];
      destruct (scan s) as [tk1 src1]; destruct tk1; try done; apply (Hnext _ _ (InObject [])).
  - destruct frames as [|[l|m k] frames]; [done|..]; unfold evaluate; cbv zeta;
      destruct (scan s) as [tk1 src1]; destruct tk1; auto; destruct (scan src1) as [tk2 src2]; auto.
    apply (Hnext _ _ (InObject (insert k v m))).
Qed.

Lemma sax_outcome fuel p frames s r :
  sax_parse_internal scan fuel p frames s = Some r ->
  match r with Ok _ => True | Throw e => e = parse_error_101 \/ e = out_of_range_406 | Ub => False end.
Proof.
  revert p frames s. induction fuel as [|fuel IH]; intros p frames s; [done|]. rewrite sax_turn.
  pose proof (turn_outcome p frames s) as Ht. destruct (turn scan (p, frames, s)) as [[[[p2 f2] s2]|e|]|]; [apply IH|..].
  - by intros [= <-].
  - done.
  - destruct p; [done|]. by intros [= <-].
Qed.
End Termination.

(** ** The equivalence *)

Definition bom : list Z := [0xEF; 0xBB; 0xBF].

Lemma skip_bom_inv s inp : skip_bom s = Some inp -> s = inp \/ s = bom ++ inp.
Proof.
  unfold skip_bom. destruct s as [|c s]; [by intros [= <-]; left|]. destruct (Z.eqb_spec c 0xEF) as [->|]; [|by intros [= <-]; left].
  destruct s as [|b s]; [done|]. destruct (Z.eqb_spec b 0xBB) as [->|]; [|done].
  destruct s as [|d s]; [done|]. destruct (Z.eqb_spec d 0xBF) as [->|]; [|done]. intros [= <-]. by right.
Qed.

Lemma skip_bom_none c s : c <> 0xEF -> skip_bom (c :: s) = Some (c :: s).
Proof. intros Hc. unfold skip_bom. by destruct (Z.eqb_spec c 0xEF). Qed.

Section Parse.
Context `{Floats}.

(** The bytes after a value: white space, then the end or a NUL. *)
Definition ending (tail : list Z) : Prop := tail = [] \/ exists r, tail = 0 :: r.

Lemma ending_number ws tail : Forall white ws -> ending tail -> ends_number (ws ++ tail).
Proof.
  intros Hw Ht. destruct Hw as [|c ws Hc _]; [by destruct Ht as [->|[r ->]]|].
  cbn. unfold white, is_whitespace, float_char in *. between_lia.
Qed.

Lemma tree_nonempty v ts : tree v ts -> ts <> [].
Proof. by destruct 1. Qed.

(** The first byte of a text. *)
Lemma json_text_first v t : json_text v t -> exists c t', t = c :: t' /\ c <> 0xEF.
Proof.
  intros (ts & t' & ws & Ht & Hs & Hw & ->). apply tree_nonempty in Ht. destruct Hs as [|w x tok ts t1 Hwx Hx _]; [done|].
  destruct Hwx as [|c w Hc _].
  - destruct (token_text_start tok x Hx) as (c & x' & -> & Hc). eexists _, _. split; [reflexivity|]. by apply starts_white.
  - eexists _, _. split; [reflexivity|]. unfold white, is_whitespace in Hc. lia.
Qed.

Lemma parse_complete v t tail :
  json_text v t -> ending tail ->
  exists tok inp, scan (t ++ tail) = (tok, inp) /\ proper tok /\
  forall s, (length inp <= length s)%nat ->
    match sax_parse_internal scan (parse_fuel s) (Value tok) [] inp with
    | Some (Ok (v', inp)) => v' = v /\ (scan inp).1 = end_of_input
    | _ => False
    end.
Proof.
  intros (ts & t1 & ws & Ht & Hs & Hw & ->) Htail. rewrite <- app_assoc.
  destruct (proj1 grammar_runs v ts Ht t1 (ws ++ tail) Hs) as (tok & inp & Hsc & _ & Hrun); [by apply ending_number|].
  exists tok, inp. split; [done|].
  split. { specialize (Hrun []). inversion Hrun as [|? c ? H1]; subst. by destruct tok. }
  intros s Hl. destruct (parse_fuel_enough s tok inp [] Hl) as [r Hr]. rewrite Hr.
  rewrite (sax_steps _ _ _ _ _ _ _ _ (Hrun []) Hr). split; [done|]. by apply scan_at_end.
Qed.

Lemma parse_sound v s inp :
  Bytes inp -> (let '(t, r) := scan inp in
  match sax_parse_internal scan (parse_fuel s) (Value t) [] r with
  | Some (Ok (v, r)) => match (scan r).1 with end_of_input => Ok v | _ => Throw parse_error_101 end
  | Some (Throw e) => Throw e
  | _ => Ub
  end) = Ok v ->
  exists t tail, inp = t ++ tail /\ json_text v t /\ ending tail.
Proof.
  intros Hb. destruct (scan inp) as [tok r] eqn:Hsc.
  destruct (sax_parse_internal scan (parse_fuel s) (Value tok) [] r) as [[[v' r2]| |]|] eqn:E; [|done..].
  destruct (scan r2) as [tok2 r3] eqn:Hend. cbn [fst]. destruct tok2; try discriminate. intros [= <-].
  destruct (sax_sound scan _ _ _ _ _ _ [tok] E) as (ts & ts' & Hr & Ht & <-); [exists []; split; [constructor|done]|].
  assert (Hreads : reads scan inp (tok :: ts') r2) by (eapply reads_cons; [exact Hsc|exact Hr]).
  destruct (reads_spells _ _ _ Hreads) as (t & -> & Hs); [exact (proj1 grammar_proper _ _ Ht)|].
  apply Bytes_app in Hb as [_ Hb]. destruct (scan_end r2 r3 Hb Hend) as (ws & tail & -> & Hw & Htail).
  exists (t ++ ws), tail. split_and!; [by rewrite <- app_assoc| |exact Htail]. by exists (tok :: ts'), t, ws.
Qed.

(** What [parse] is meant to accept: a text of [v], possibly after a byte order
    mark, and possibly followed by a NUL and anything. *)
Definition input_text (v : json) (s : list Z) : Prop :=
  exists b t tail, (b = [] \/ b = bom) /\ s = b ++ t ++ tail /\ json_text v t /\ ending tail.

Lemma parse_spec v s :
  Bytes s -> parse s = Ok v <-> input_text v s.
Proof.
  intros Hb. unfold parse, scan_first. split.
  - destruct (skip_bom s) as [inp|] eqn:Es; [|by unfold parse_fuel; rewrite (Nat.add_comm _ 4)].
    intros HE. assert (Hbi : Bytes inp) by (apply skip_bom_inv in Es as [->| ->]; [done|by apply Bytes_app in Hb as [_ Hb]]).
    destruct (parse_sound v s inp Hbi) as (t & tail & -> & Ht & Htail).
    { destruct (scan inp) as [tok r]. rewrite <- HE. by destruct (sax_parse_internal _ _ _ _ _) as [[[]| |]|]. }
    apply skip_bom_inv in Es as [->| ->]; eexists _, t, tail; (split; [|split; [|done]]); [by left|done|by right|done].
  - intros (b & t & tail & Hbom & -> & Ht & Htail).
    assert (Es : skip_bom (b ++ t ++ tail) = Some (t ++ tail)).
    { destruct Hbom as [->| ->]; [|done]. destruct (json_text_first v t Ht) as (c & t' & -> & Hc). by apply skip_bom_none. }
    rewrite Es. destruct (parse_complete v t tail Ht Htail) as (tok & inp & Hsc & Hp & Hrun). rewrite Hsc.
    apply scan_shorter in Hsc; [|done]. specialize (Hrun (b ++ t ++ tail)).
    rewrite !length_app in Hrun. rewrite length_app in Hsc. specialize (Hrun ltac:(lia)).
    destruct (sax_parse_internal _ _ _ _ _) as [[[v' r]| |]|]; [|done..]. destruct Hrun as [-> ->]. done.
Qed.
Lemma parse_outcome_spec (s : list Z) :
  match parse s with Ok _ => True | Throw e => e = parse_error_101 \/ e = out_of_range_406 | Ub => False end.
Proof.
  unfold parse, scan_first. destruct (skip_bom s) as [inp|] eqn:Es.
  - assert (Hl : (length inp <= length s)%nat).
    { apply skip_bom_inv in Es as [->| ->]; [lia|]. rewrite length_app. lia. }
    destruct (scan inp) as [tok r] eqn:Hsc.
    assert (Hr : (length r <= length s)%nat \/ ~ proper tok).
    { destruct tok; try (apply scan_shorter in Hsc; [|done]; left; lia); right; by intros []. }
    destruct Hr as [Hr|Hr].
    + destruct (parse_fuel_enough s tok r [] Hr) as [o Ho]. rewrite Ho. apply sax_outcome in Ho.
      destruct o as [[v r']|e|]; [|done..]. destruct (scan r').1; auto.
    + unfold parse_fuel. rewrite (Nat.add_comm _ 4). destruct tok; try (by destruct Hr); cbn; auto.
  - unfold parse_fuel. rewrite (Nat.add_comm _ 4). cbn. auto.
Qed.

(** C5: [parse] accepts exactly the texts of RFC 8259: it returns [v] when its
    input is a text of [v], possibly after a byte order mark, and possibly
    followed by a NUL and anything. *)
Theorem parse_accepts (s : list Z) (v : json) (Hs : Bytes s) :
  parse s = Ok v <->
  exists b t tail, (b = [] \/ b = bom) /\ s = b ++ t ++ tail /\ json_text v t /\ ending tail.
Proof. by apply parse_spec. Qed.

(** C35: [parse] decides the grammar: it ends on every input, with the value of
    the text, or, when the input is no text of any value, with the exception for
    a syntax error or the one for a number too large for a double. *)
Theorem parse_outcomes (s : list Z) (Hs : Bytes s) :
  (exists v, parse s = Ok v /\ input_text v s) \/
  ((parse s = Throw parse_error_101 \/ parse s = Throw out_of_range_406) /\ forall v, ~ input_text v s).
Proof.
  pose proof (parse_outcome_spec s) as Ho. destruct (parse s) as [v|e|] eqn:E; [left|right|done].
  - exists v. split; [done|]. by apply parse_spec in E.
  - split; [by destruct Ho as [-> | ->]; auto|]. intros v Hv. apply parse_spec in Hv; [congruence|done].
Qed.
End Parse.

(** Conversions between doubles and text for concrete inputs: every number with
    a fraction or an exponent is 0. *)
Definition zero_floats : Floats := {| strtod := fun _ => 0; to_chars := fun _ => cs "0.0" |}.

Definition sample : list Z := cs "{`id`: [1, -2], `id`: null} ".

Definition quoted (s : list Z) : list Z := map (fun c => if c =? 96 then quote else c) s.

Lemma parse_accepts_witness :
  Bytes (quoted sample) /\
  exists b t tail, (b = [] \/ b = bom) /\ quoted sample = b ++ t ++ tail /\
    json_text (H := zero_floats) (JObject [(cs "id", JNull)]) t /\ ending tail.
Proof.
  assert (Hb : Bytes (quoted sample)) by (vm_compute; repeat constructor; done).
  split; [done|]. apply (parse_accepts (H := zero_floats) (quoted sample) (JObject [(cs "id", JNull)]) Hb). reflexivity.
Defined.

Lemma parse_outcomes_witness :
  Bytes (cs "[1,]") /\
  ((exists v, parse (H := zero_floats) (cs "[1,]") = Ok v /\ input_text (H := zero_floats) v (cs "[1,]")) \/
   ((parse (H := zero_floats) (cs "[1,]") = Throw parse_error_101 \/ parse (H := zero_floats) (cs "[1,]") = Throw out_of_range_406) /\
    forall v, ~ input_text (H := zero_floats) v (cs "[1,]"))).
Proof.
  assert (Hb : Bytes (cs "[1,]")) by (vm_compute; repeat constructor; done).
  split; [done|]. apply (parse_outcomes (H := zero_floats) (cs "[1,]") Hb).
Defined.
