(* ===== verification/JsonRound.v ===== *)
(** * Serialised values read back

    [typed] is the invariant of a JSON value in memory: UTF-8 strings, members
    sorted by key, numbers in the range of their types.  [parse] only makes
    typed values; [dump] serialises every typed value without an exception, with
    an indentation of at most 512 columns ([narrow]; [dump_too_wide] says what
    wider ones do), and [parse] reads it back ([canon]: a signed integer that is
    not negative comes back unsigned). *)
From Stdlib Require Import ZifyBool Sorted.
From stdpp Require Import sorting.
From S2P Require Import Prelude Process Event Json JsonParse JsonSpec JsonGrammar.

(** ** Keys in order *)

Definition str_lt (a b : list Z) : Prop := str_compare a b = Lt.

Definition keys (m : list (list Z * json)) : list (list Z) := map fst m.

Definition sorted (m : list (list Z * json)) : Prop := StronglySorted str_lt (keys m).

Lemma str_compare_refl a : str_compare a a = Eq.
Proof. induction a as [|x a IH]; [done|]. cbn [str_compare]. by rewrite Z.compare_refl. Qed.

Lemma str_compare_eq a b : str_compare a b = Eq -> a = b.
Proof.
  revert b. induction a as [|x a IH]; intros [|y b]; try done. cbn [str_compare].
  destruct (Z.compare_spec x y) as [->|?|?]; try done. intros H. by rewrite (IH b H).
Qed.

Lemma str_compare_opp a b : str_compare b a = CompOpp (str_compare a b).
Proof.
  revert b. induction a as [|x a IH]; intros [|y b]; try done. cbn [str_compare]. rewrite (Z.compare_antisym x y).
  destruct (x ?= y); cbn [CompOpp]; [apply IH|done..].
Qed.

#[export] Instance str_lt_trans : Transitive str_lt.
Proof.
  unfold str_lt. intros a b c. revert b c. induction a as [|x a IH]; intros [|y b] [|z c]; try done. cbn [str_compare].
  destruct (Z.compare_spec x y) as [->|Hxy|?]; [|intros _|done].
  - destruct (y ?= z); try done. apply IH.
  - destruct (Z.compare_spec y z) as [->|Hyz|?]; [|intros _|done]; intros; destruct (Z.compare_spec x z); try done; lia.
Qed.

Lemma insert_keys k v m k' : In k' (keys (insert k v m)) -> k' = k \/ In k' (keys m).
Proof.
  induction m as [|[k1 v1] m IH]; cbn [insert keys map fst In]; [naive_solver|].
  destruct (str_compare k k1); cbn [map fst In]; [naive_solver..|]. intros [->|Hi]; [tauto|]. destruct (IH Hi); tauto.
Qed.

Lemma insert_sorted k v m : sorted m -> sorted (insert k v m).
Proof.
  unfold sorted. induction m as [|[k1 v1] m IH]; cbn [insert keys map fst]; intros Hs; [by repeat constructor|].
  apply StronglySorted_inv in Hs as [Hs Hk1]. destruct (str_compare k k1) eqn:E; cbn [map fst].
  - apply str_compare_eq in E as ->. by constructor.
  - constructor; [by constructor|]. constructor; [done|]. eapply Forall_impl; [exact Hk1|]. intros k2 H2. by transitivity k1.
  - constructor; [by apply IH|]. apply List.Forall_forall. intros k2 Hi. apply insert_keys in Hi as [->|Hi].
    + unfold str_lt. by rewrite str_compare_opp, E.
    + by apply (proj1 (List.Forall_forall _ _) Hk1).
Qed.

Lemma insert_last k v m : Forall (fun k' => str_lt k' k) (keys m) -> insert k v m = m ++ [(k, v)].
Proof.
  induction m as [|[k1 v1] m IH]; cbn [insert keys map fst app]; intros Hm; [done|].
  apply Forall_cons_1 in Hm as [H1 Hm]. rewrite str_compare_opp, H1. cbn [CompOpp]. by rewrite IH.
Qed.

Lemma find_insert k v m : find k (insert k v m) = Some v.
Proof.
  induction m as [|[k1 v1] m IH]; cbn [insert find]; [by rewrite str_compare_refl|].
  destruct (str_compare k k1) eqn:E; cbn [find]; rewrite ?str_compare_refl, ?E; done.
Qed.

Lemma find_insert_ne k k' v m : k <> k' -> find k (insert k' v m) = find k m.
Proof.
  intros Hk. induction m as [|[k1 v1] m IH]; cbn [insert find].
  - destruct (str_compare k k') eqn:E; [by apply str_compare_eq in E|done..].
  - destruct (str_compare k' k1) eqn:E; cbn [find].
    + apply str_compare_eq in E as ->. destruct (str_compare k k1) eqn:E2; [by apply str_compare_eq in E2|done..].
    + destruct (str_compare k k') eqn:E2; [by apply str_compare_eq in E2|done..].
    + by rewrite IH.
Qed.

(** ** Typed values *)

Inductive typed : json -> Prop :=
| typed_null : typed JNull
| typed_object m : sorted m -> Forall (fun kv => utf8 kv.1 /\ typed kv.2) m -> typed (JObject m)
| typed_array l : Forall typed l -> typed (JArray l)
| typed_string s : utf8 s -> typed (JString s)
| typed_boolean b : typed (JBoolean b)
| typed_integer z : - 2 ^ 63 <= z < 2 ^ 63 -> typed (JInteger z)
| typed_unsigned z : 0 <= z < 2 ^ 64 -> typed (JUnsigned z)
| typed_float b : isfinite b = true -> typed (JFloat b).

Definition members_typed (m : list (list Z * json)) : Prop := Forall (fun kv => utf8 kv.1 /\ typed kv.2) m.

Lemma insert_typed k v m : utf8 k -> typed v -> members_typed m -> members_typed (insert k v m).
Proof.
  intros Hk Hv. induction 1 as [|[k1 v1] m H1 Hm IH]; cbn [insert]; [by repeat constructor|].
  destruct (str_compare k k1); repeat (constructor; try done).
Qed.

Lemma set_key_typed j k v j' : utf8 k -> typed v -> typed j -> set_key j k v = Ok j' -> typed j'.
Proof.
  intros Hk Hv Hj. destruct j; try done; intros [= <-].
  - constructor; by repeat constructor.
  - inversion Hj; subst. constructor; [by apply insert_sorted|by apply insert_typed].
Qed.

Section Typed.
Context `{Floats}.

Definition token_typed (tok : token) : Prop :=
  match tok with
  | value_string s => utf8 s
  | value_unsigned z => 0 <= z < 2 ^ 64
  | value_integer z => - 2 ^ 63 <= z < 2 ^ 63
  | _ => True
  end.

Lemma read_digits_nonneg acc s : 0 <= acc -> 0 <= read_digits acc s.
Proof.
  revert acc. induction s as [|c s IH]; intros acc Ha; cbn [read_digits]; [done|].
  unfold is_digit. destruct ((48 <=? c) && (c <=? 57)) eqn:?; [|done]. apply IH. lia.
Qed.

Lemma number_done_typed t s : token_typed (number_done t s).
Proof.
  unfold number_done, strtoull, strtoll, ULLONG_MAX, LONG_MIN, LONG_MAX. destruct t; [|..|done].
  - pose proof (read_digits_nonneg 0 s). destruct (Z.leb_spec (read_digits 0 s) (2 ^ 64 - 1)); cbn; lia.
  - cbv zeta. match goal with |- context [- 2 ^ 63 <=? ?x] => generalize x end. intros v.
    destruct ((- 2 ^ 63 <=? v) && (v <=? 2 ^ 63 - 1)) eqn:?; cbn; lia.
Qed.

Lemma spells_typed ts t : spells ts t -> Forall token_typed ts.
Proof.
  induction 1 as [|ws x tok ts t Hw Hx _ IH]; constructor; [|done].
  destruct Hx as [| | | | | | | | |s t' Hs|tok t' Hn]; try done; [by eapply str_text_utf8|].
  destruct Hn; apply number_done_typed.
Qed.

Lemma grammar_typed :
  (forall v ts, tree v ts -> Forall token_typed ts -> typed v) /\
  (forall l ts, elements l ts -> Forall token_typed ts -> Forall typed l) /\
  (forall m ts, members m ts -> Forall token_typed ts -> sorted m /\ members_typed m).
Proof.
  apply grammar_ind.
  - intros t v Ha [Ht _]%Forall_cons_1. destruct t; try discriminate Ha; cbn [atom] in Ha; try (injection Ha as <-; by constructor).
    destruct (isfinite bits) eqn:?; [|done]. injection Ha as <-. by constructor.
  - repeat constructor.
  - intros l ts _ IH [_ [Ht _]%Forall_app]%Forall_cons_1. constructor. by apply IH.
  - repeat constructor.
  - intros m ts _ IH [_ [Ht _]%Forall_app]%Forall_cons_1. destruct (IH Ht). by constructor.
  - intros v ts _ IH Ht. constructor; [by apply IH|done].
  - intros l ts v ts' _ IHl _ IHv [H1 [_ H2]%Forall_cons_1]%Forall_app. apply Forall_app. split; [by apply IHl|]. by constructor; [apply IHv|].
  - intros k v ts _ IH [Hk [_ Ht]%Forall_cons_1]%Forall_cons_1. split; [by repeat constructor|]. constructor; [|done]. split; [done|by apply IH].
  - intros m ts k v ts' _ IHm _ IHv [H1 [_ [Hk [_ H2]%Forall_cons_1]%Forall_cons_1]%Forall_cons_1]%Forall_app.
    destruct (IHm H1). split; [by apply insert_sorted|]. apply insert_typed; [done|by apply IHv|done].
Qed.

Lemma parse_typed_spec s v : Bytes s -> parse s = Ok v -> typed v.
Proof.
  intros Hb HE. apply parse_spec in HE as (b & t & tail & _ & _ & (ts & t' & ws & Ht & Hs & _) & _); [|done].
  eapply (proj1 grammar_typed); [exact Ht|]. by eapply spells_typed.
Qed.
End Typed.

(** ** What [dump] writes is a text of the value *)

(** The value read back. *)
Fixpoint canon (v : json) : json :=
  match v with
  | JObject m => JObject (map (fun kv => (kv.1, canon kv.2)) m)
  | JArray l => JArray (map canon l)
  | JInteger z => if z <? 0 then JInteger z else JUnsigned z
  | _ => v
  end.

Lemma canon_canon v : canon (canon v) = canon v.
Proof.
  induction v as [|m IH|l IH| | | | |] using json_nested_ind; cbn [canon]; try done.
  - f_equal. rewrite map_map. apply map_ext_in. intros [k j] Hj. cbn. f_equal.
    rewrite List.Forall_forall in IH. exact (IH _ Hj).
  - f_equal. rewrite map_map. apply map_ext_in. rewrite List.Forall_forall in IH. exact IH.
  - by destruct (z <? 0) eqn:E; cbn [canon]; rewrite ?E.
Qed.

Lemma canon_typed v : typed v -> typed (canon v).
Proof.
  induction v as [|m IH|l IH| | | | |] using json_nested_ind; intros Ht; inversion Ht; subst; cbn [canon]; try done.
  - constructor.
    + unfold sorted, keys in *. rewrite map_map. by rewrite (map_ext _ fst).
    + apply Forall_map. rewrite !List.Forall_forall in *. intros kv Hkv. cbn. destruct (H1 kv Hkv). split; [done|]. by apply IH.
  - constructor. apply Forall_map. rewrite !List.Forall_forall in *. intros j Hj. apply IH; auto.
  - destruct (Z.ltb_spec z 0); constructor; lia.
Qed.

Fixpoint no_float (v : json) : bool :=
  match v with
  | JObject m => forallb (fun kv => no_float kv.2) m
  | JArray l => forallb no_float l
  | JFloat _ => false
  | _ => true
  end.

Lemma no_float_canon v : no_float (canon v) = no_float v.
Proof.
  induction v as [|m IH|l IH| | | | |] using json_nested_ind; cbn [canon no_float]; try done.
  - induction IH as [|[k j] m Hj _ IHm]; [done|]. cbn in *. by rewrite Hj, IHm.
  - induction IH as [|j l Hj _ IHl]; [done|]. cbn in *. by rewrite Hj, IHl.
  - by destruct (z <? 0).
Qed.

Lemma str_text_app s1 t1 s2 t2 : str_text s1 t1 -> str_text s2 t2 -> str_text (s1 ++ s2) (t1 ++ t2).
Proof.
  induction 1 as [|c s t Hc Hp _ IH|e c s t He _ IH|h cp s t Hh Hs _ IH|h1 h2 hi lo s t H1 Hhi H2 Hlo _ IH]; intros Ht; [done|..].
  - rewrite <- !app_assoc. apply st_char; auto.
  - cbn [app]. apply st_escape; auto.
  - rewrite <- app_assoc. cbn [app]. rewrite <- app_assoc. apply st_unicode; auto.
  - rewrite <- app_assoc. cbn [app]. rewrite <- app_assoc. cbn [app]. rewrite <- app_assoc. apply st_pair; auto.
Qed.

(** An escape of one character. *)
Lemma escaped_text b : 0 <= b < 128 -> str_text [b] (escaped b b).
Proof.
  intros Hb. unfold escaped.
  do 7 (match goal with |- context [b =? ?c] => destruct (Z.eqb_spec b c) as [->|]; [by apply st_escape; [exact eq_refl|constructor]|] end).
  destruct (Z.leb_spec b 0x1F).
  - assert (Hh : hex4 [48; 48; 48 + b / 16; if b mod 16 <? 10 then 48 + b mod 16 else 87 + b mod 16] = Some b).
    { unfold hex4. change (hex_digit 48) with (Some 0). cbn [mbind option_bind]. unfold hex_digit.
      destruct (Z.ltb_spec (b mod 16) 10); repeat (match goal with |- context [if ?x then _ else _] => destruct x eqn:? end);
        try (exfalso; unfold between in *; dlia); cbn [mbind option_bind]; f_equal; dlia. }
    pose proof (st_unicode _ b [] [] Hh) as Ht. rewrite !app_nil_r in Ht. unfold utf8_of in Ht.
    destruct (Z.ltb_spec b 0x80); [|lia]. apply Ht; [unfold surrogate; between_lia|constructor].
  - apply (st_char [b] [] []); [cbn; between_lia|cbn; unfold quote, backslash; lia|constructor].
Qed.

Lemma dump_text_text s : utf8 s -> str_text s (dump_text s).
Proof.
  induction 1 as [|c s Hc Hs IH]; [constructor|]. unfold dump_text. rewrite map_app, concat_app.
  apply str_text_app; [|exact IH]. fold (dump_text c). destruct c as [|a c]; [done|].
  destruct (first_byte a c Hc) as [[Ha ->]|(Ha & Hb & Hn & Hn0 & Ht)].
  - unfold dump_text. cbn [map concat]. rewrite app_nil_r. by apply escaped_text.
  - rewrite dump_text_high.
    + pose proof (st_char (a :: c) [] [] Hc) as HT. rewrite !app_nil_r in HT. apply HT; [|constructor]. destruct c; [cbn in Hc; between_lia|done].
    + constructor; [done|]. eapply tail_high; [|exact Hn0|exact Ht]. destruct (next_in 0 a ltac:(by left)); done.
Qed.

(** *** Numbers *)

Lemma read_digits_undigits ds : Forall digit ds -> read_digits 0 ds = undigits ds.
Proof.
  unfold undigits. generalize 0. intros acc H. revert acc. induction H as [|c ds Hc _ IH]; intros acc; [done|].
  cbn [read_digits foldl]. unfold digit, between in Hc. unfold is_digit. by rewrite Hc.
Qed.

Lemma digits_digit n : 0 <= n -> Forall digit (digits 20 n).
Proof. intros Hn. eapply Forall_impl; [by apply digits_chars|]. intros c Hc. unfold digit. cbv beta in Hc. between_lia. Qed.

Lemma digits_int n : 0 <= n < 10 ^ 20 -> int_text (digits 20 n).
Proof.
  intros Hn. assert (Hpos : forall fuel n, 0 < n < 10 ^ Z.of_nat fuel -> exists c ds, digits fuel n = c :: ds /\ between 49 57 c = true /\ Forall digit ds).
  { clear. intros fuel. induction fuel as [|fuel IH]; intros n Hn; [change (10 ^ Z.of_nat 0) with 1 in Hn; lia|]. cbn [digits].
    destruct (Z.ltb_spec n 10); [exists (48 + n), []; split_and!; [done|between_lia|constructor]|].
    destruct (IH (n / 10)) as (c & ds & -> & Hc & Hds).
    - rewrite Nat2Z.inj_succ, Z.pow_succ_r in Hn by lia. dlia.
    - exists c, (ds ++ [48 + n mod 10]). split_and!; [done|done|]. apply Forall_app. split; [done|]. constructor; [|done].
      pose proof (Z.mod_pos_bound n 10). unfold digit. between_lia. }
  destruct (Z.eq_dec n 0) as [->|]; [constructor|].
  destruct (Hpos 20%nat n ltac:(change (Z.of_nat 20) with 20; lia)) as (c & ds & -> & Hc & Hds). by constructor.
Qed.

Section Dump.
Context `{Floats}.

Lemma undigits_20 n : 0 <= n < 10 ^ 20 -> read_digits 0 (digits 20 n) = n.
Proof. intros Hn. rewrite read_digits_undigits by (apply digits_digit; lia). by apply undigits_digits. Qed.

Lemma decimal_unsigned z : 0 <= z < 2 ^ 64 -> num_text (value_unsigned z) (decimal z).
Proof.
  intros Hz. unfold decimal. destruct (Z.ltb_spec z 0); [lia|].
  pose proof (num_positive (digits 20 z) [] [] (digits_int z ltac:(lia)) frac_none exp_none) as Hn.
  rewrite !app_nil_r, digits_no_float in Hn by (apply digits_digit; lia). cbv iota in Hn.
  unfold number_done, strtoull, ULLONG_MAX in Hn. rewrite undigits_20 in Hn by lia.
  by destruct (Z.leb_spec z (2 ^ 64 - 1)); [|lia].
Qed.

Lemma decimal_negative z : - 2 ^ 63 <= z < 0 -> num_text (value_integer z) (decimal z).
Proof.
  intros Hz. unfold decimal. destruct (Z.ltb_spec z 0); [|lia].
  pose proof (num_negative (digits 20 (- z)) [] [] (digits_int (- z) ltac:(lia)) frac_none exp_none) as Hn.
  rewrite !app_nil_r, digits_no_float in Hn by (apply digits_digit; lia). cbv iota in Hn.
  unfold number_done, strtoll, LONG_MAX, LONG_MIN in Hn. change (45 =? 45) with true in Hn. cbv iota zeta in Hn.
  rewrite undigits_20, Z.opp_involutive in Hn by lia.
  replace ((- 2 ^ 63 <=? z) && (z <=? 2 ^ 63 - 1)) with true in Hn by lia. exact Hn.
Qed.

(** *** Composition *)

Lemma spells_concat ts1 t1 ts2 t2 : spells ts1 t1 -> spells ts2 t2 -> spells (ts1 ++ ts2) (t1 ++ t2).
Proof. induction 1; intros; [done|]. rewrite <- !app_assoc. cbn [app]. constructor; auto. Qed.

Lemma spells_one tok x : token_text tok x -> spells [tok] x.
Proof. intros Hx. pose proof (spells_cons [] x tok [] [] (Forall_nil_2 _) Hx spells_nil) as Hs. by rewrite app_nil_r in Hs. Qed.

Lemma spells_white ws ts t : Forall white ws -> ts <> [] -> spells ts t -> spells ts (ws ++ t).
Proof. intros Hw Hts Hs. destruct Hs as [|ws' x tok ts t Hw' Hx Hs]; [done|]. rewrite app_assoc. constructor; [by apply Forall_app|done..]. Qed.

Lemma spells_string s : utf8 s -> spells [value_string s] ([quote] ++ dump_text s ++ [quote]).
Proof. intros Hs. apply spells_one, tt_string. by apply dump_text_text. Qed.

(** The text of [v] is [t]. *)
Definition writes (v : json) (t : list Z) : Prop := exists ts, tree (canon v) ts /\ spells ts t.

(** The tokens of elements and of members, in order. *)
Inductive element_seq : list json -> list token -> Prop :=
| es_one v ts : tree v ts -> element_seq [v] ts
| es_cons v ts l ts' : tree v ts -> element_seq l ts' -> element_seq (v :: l) (ts ++ value_separator :: ts').

Inductive member_seq : list (list Z * json) -> list token -> Prop :=
| ms_one k v ts : tree v ts -> member_seq [(k, v)] (value_string k :: name_separator :: ts)
| ms_cons k v ts m ts' :
    tree v ts -> member_seq m ts' ->
    member_seq ((k, v) :: m) ((value_string k :: name_separator :: ts) ++ value_separator :: ts').

Lemma element_seq_tokens l ts : element_seq l ts -> ts <> [].
Proof. destruct 1; [by destruct H0|by destruct ts]. Qed.

Lemma elements_extend l ts l0 ts0 :
  element_seq l ts -> elements l0 ts0 -> elements (l0 ++ l) (ts0 ++ value_separator :: ts).
Proof.
  intros Hl. revert l0 ts0. induction Hl as [v ts Hv|v ts l ts' Hv _ IH]; intros l0 ts0 H0; [by constructor|].
  pose proof (IH _ _ (elements_more _ _ _ _ H0 Hv)) as He. by rewrite <- !app_assoc, <- !app_comm_cons in He.
Qed.

Lemma element_seq_elements l ts : element_seq l ts -> elements l ts.
Proof.
  destruct 1 as [v ts Hv|v ts l ts' Hv Hl]; [by constructor|].
  apply (elements_extend l ts' [v] ts Hl). by constructor.
Qed.

Lemma sorted_app_keys m0 k v m : sorted (m0 ++ (k, v) :: m) -> Forall (fun k' => str_lt k' k) (keys m0).
Proof.
  unfold sorted, keys. rewrite map_app. cbn [map fst]. intros Hs. apply Forall_forall. intros k' Hi.
  apply (StronglySorted_app_1_elem_of _ _ _ _ _ Hs Hi). by left.
Qed.

Lemma members_extend m ts m0 ts0 :
  member_seq m ts -> sorted (m0 ++ m) -> members m0 ts0 -> members (m0 ++ m) (ts0 ++ value_separator :: ts).
Proof.
  intros Hm. revert m0 ts0. induction Hm as [k v ts Hv|k v ts m ts' Hv _ IH]; intros m0 ts0 Hs H0;
    pose proof (members_more _ _ k v ts H0 Hv) as Hi; rewrite insert_last in Hi by (by eapply sorted_app_keys); [exact Hi|].
  specialize (IH (m0 ++ [(k, v)]) _ ltac:(by rewrite <- app_assoc) Hi).
  by rewrite <- !app_assoc, <- !app_comm_cons in IH.
Qed.

Lemma member_seq_members m ts : member_seq m ts -> sorted m -> members m ts.
Proof.
  destruct 1 as [k v ts Hv|k v ts m ts' Hv Hm]; intros Hs; [by constructor|].
  apply (members_extend m ts' [(k, v)]); [done..|by constructor].
Qed.

Lemma canon_keys m : keys (map (fun kv => (kv.1, canon kv.2)) m) = keys m.
Proof. unfold keys. rewrite map_map. by apply map_ext. Qed.

Lemma tree_tokens v ts : tree v ts -> ts <> [].
Proof. by destruct 1. Qed.

Lemma white_spaces n : Forall white (spaces n).
Proof. unfold spaces. induction (Z.to_nat n); by constructor. Qed.

(** The indentation string is long enough for [n] characters. *)
Definition wide (n size : Z) : Prop := 512 <= size /\ n <= size.

Lemma write_indent_wide n size : wide n size -> write_indent size n = Ok (spaces n).
Proof. intros [_ Hn]. unfold write_indent. by destruct (Z.leb_spec n size); [|lia]. Qed.

Lemma wide_more n size size' : wide n size -> size <= size' -> wide n size'.
Proof. intros [] ?. split; lia. Qed.

Section Loops.
Context (d : json -> Z -> result (list Z * Z)) (p : bool) (n : Z) (colon_space comma_space : list Z).
Context (Hcolon : Forall white colon_space) (Hcomma : Forall white comma_space).

(** A value that is serialised, as a text of it when it has no double. *)
Definition dumps (v : json) : Prop := forall size, wide n size ->
  exists t size', d v size = Ok (t, size') /\ size <= size' /\ (no_float v = true -> writes v t).

Lemma before_white size : wide n size -> exists b, before p n size = Ok b /\ Forall white b.
Proof using Type.
  intros Hw. unfold before. destruct p; [|eexists; split; [done|constructor]].
  rewrite write_indent_wide by done. eexists. split; [done|apply white_spaces].
Qed.

Lemma comma_spells ts t : ts <> [] -> spells ts t -> spells (value_separator :: ts) ((cs "," ++ comma_space) ++ t).
Proof using Hcomma.
  intros Hts Ht. rewrite <- app_assoc. apply (spells_concat [value_separator] _ ts); [apply spells_one; constructor|].
  by apply spells_white.
Qed.

Lemma elements_dump l size :
  l <> [] -> Forall dumps l -> wide n size ->
  exists t size', dump_elements d p n (cs "," ++ comma_space) l size = Ok (t, size') /\ size <= size' /\
    (forallb no_float l = true -> exists ts, element_seq (map canon l) ts /\ spells ts t).
Proof using Hcomma.
  intros Hl Hd. revert size. induction Hd as [|v l Hv Hd IH]; intros size Hw; [done|]. cbn [dump_elements].
  destruct (before_white size Hw) as (b & -> & Hb). destruct (Hv size Hw) as (t & size1 & E & Hs1 & Hvt).
  unfold mbind, result_bind. rewrite E. destruct l as [|v' l].
  - eexists _, size1. split; [reflexivity|]. split; [done|]. cbn [forallb map]. intros [Hn _]%andb_true_iff.
    destruct (Hvt Hn) as (ts & Ht & Hs). exists ts. split; [by constructor|]. apply spells_white; [done|by eapply tree_tokens|done].
  - destruct (IH ltac:(done) size1 (wide_more _ _ _ Hw Hs1)) as (t' & size2 & E' & Hs2 & Hl'). rewrite E'.
    eexists _, size2. split; [reflexivity|]. split; [lia|].
    cbn [forallb]. intros [Hn Hn']%andb_true_iff. destruct (Hvt Hn) as (ts & Ht & Hs). destruct (Hl' Hn') as (ts' & Ht' & Hs').
    exists (ts ++ value_separator :: ts'). split; [by constructor|]. rewrite app_assoc. apply spells_concat.
    + apply spells_white; [done|by eapply tree_tokens|done].
    + apply comma_spells; [by eapply element_seq_tokens|done].
Qed.

Lemma member_spells b k ts t :
  Forall white b -> utf8 k -> ts <> [] -> spells ts t ->
  spells (value_string k :: name_separator :: ts) (b ++ [quote] ++ dump_text k ++ [quote] ++ (cs ":" ++ colon_space) ++ t).
Proof using Hcolon.
  intros Hb Hk Hts Hs. apply spells_white; [done..|].
  replace ([quote] ++ dump_text k ++ [quote] ++ (cs ":" ++ colon_space) ++ t)
    with (([quote] ++ dump_text k ++ [quote]) ++ cs ":" ++ colon_space ++ t) by by rewrite <- !app_assoc.
  apply (spells_concat [value_string k]); [by apply spells_string|].
  apply (spells_concat [name_separator] (cs ":") ts); [apply spells_one; constructor|]. by apply spells_white.
Qed.

Lemma members_dump m size :
  m <> [] -> Forall (fun kv => utf8 kv.1 /\ dumps kv.2) m -> wide n size ->
  exists t size', dump_members d p n (cs ":" ++ colon_space) (cs "," ++ comma_space) m size = Ok (t, size') /\ size <= size' /\
    (forallb (fun kv => no_float kv.2) m = true ->
     exists ts, member_seq (map (fun kv => (kv.1, canon kv.2)) m) ts /\ spells ts t).
Proof using Hcolon Hcomma.
  intros Hl Hd. revert size. induction Hd as [|[k v] m [Hk Hv] Hd IH]; intros size Hw; [done|]. cbn [dump_members].
  cbn [fst snd] in Hk, Hv. destruct (before_white size Hw) as (b & -> & Hb). destruct (Hv size Hw) as (t & size1 & E & Hs1 & Hvt).
  rewrite (dump_escaped_ok k Hk). unfold mbind, result_bind. rewrite E. cbv zeta. destruct m as [|kv' m].
  - eexists _, size1. split; [reflexivity|]. split; [done|]. cbn [forallb map fst snd]. intros [Hn _]%andb_true_iff.
    destruct (Hvt Hn) as (ts & Ht & Hs). eexists. split; [by constructor|]. apply member_spells; [done|done|by eapply tree_tokens|done].
  - destruct (IH ltac:(done) size1 (wide_more _ _ _ Hw Hs1)) as (t' & size2 & E' & Hs2 & Hl'). rewrite E'.
    eexists _, size2. split; [reflexivity|]. split; [lia|].
    cbn [forallb]. intros [Hn Hn']%andb_true_iff. destruct (Hvt Hn) as (ts & Ht & Hs). destruct (Hl' Hn') as (ts' & Ht' & Hs').
    eexists. split; [by apply ms_cons|]. apply spells_concat.
    + apply member_spells; [done|done|by eapply tree_tokens|done].
    + apply comma_spells; [|done]. by destruct Ht'.
Qed.
End Loops.

(** Brackets around the elements. *)
Lemma bracket_spells open_ close_ o c ws ws' ts t :
  token_text open_ o -> token_text close_ c -> Forall white ws -> Forall white ws' -> ts <> [] -> spells ts t ->
  spells (open_ :: ts ++ [close_]) (o ++ ws ++ t ++ ws' ++ c).
Proof.
  intros Ho Hc Hw Hw' Hts Ht. apply (spells_concat [open_] o (ts ++ [close_])); [by apply spells_one|].
  rewrite (app_assoc ws). apply spells_concat; [by apply spells_white|]. apply spells_white; [done..|by apply spells_one].
Qed.

Lemma integer_writes z : - 2 ^ 63 <= z < 2 ^ 63 -> writes (JInteger z) (decimal z).
Proof.
  intros Hz. unfold writes. cbn [canon]. destruct (Z.ltb_spec z 0).
  - exists [value_integer z]. split; [by constructor|]. apply spells_one, tt_number, decimal_negative. lia.
  - exists [value_unsigned z]. split; [by constructor|]. apply spells_one, tt_number, decimal_unsigned. lia.
Qed.

(** With steps of at most 512 columns, doubling the string once is enough. *)
Section DumpValue.
Context (p : bool) (step_ : Z) (Hstep : 0 <= step_ <= 512).

Definition dumped (v : json) : Prop :=
  typed v -> forall indent, 0 <= indent -> dumps (dump_value p step_ indent) indent v.

Lemma grown_wide indent size :
  0 <= indent -> wide indent size ->
  let n := if p then u32 (indent + step_) else indent in
  let grown := if p && (size <? n) then size * 2 else size in
  0 <= n /\ wide n grown /\ size <= grown.
Proof using Hstep.
  intros Hi [H1 H2]. cbv zeta. destruct p; cbn [andb]; [|split_and!; [done|by split|lia]].
  pose proof (Z.mod_le (indent + step_) (2 ^ 32) ltac:(lia) ltac:(lia)) as Hle.
  pose proof (in_width_wrap 32 (indent + step_) ltac:(done)) as [Hn _]. unfold wide, wrap in *.
  destruct (Z.ltb_spec size ((indent + step_) mod 2 ^ 32)); split_and!; lia.
Qed.

Lemma newline_white : Forall white (if p then [10] else []).
Proof using Type. destruct p; by repeat constructor. Qed.

Lemma after_white indent size :
  wide indent size ->
  exists a, (if p then i ← write_indent size indent; Ok ([10] ++ i) else Ok []) = Ok a /\ Forall white a.
Proof using Type.
  intros Hw. rewrite write_indent_wide by done. destruct p; eexists; (split; [reflexivity|]); [|constructor].
  constructor; [done|apply white_spaces].
Qed.

Lemma comma_split : (if p then cs "," ++ [10] else cs ",") = cs "," ++ (if p then [10] else []).
Proof using Type. by destruct p. Qed.

Lemma colon_split : (if p then cs ": " else cs ":") = cs ":" ++ (if p then [32] else []).
Proof using Type. by destruct p. Qed.

Lemma array_dumped l : Forall dumped l -> dumped (JArray l).
Proof using Hstep.
  intros IH Ht indent Hi size Hw. inversion Ht as [| |? Hl| | | | |]; subst. destruct l as [|v l].
  - exists (cs "[]"), size. split; [done|]. split; [lia|]. intros _. exists [begin_array; end_array]. split; [constructor|].
    apply (spells_concat [begin_array] (cs "[") [end_array] (cs "]")); apply spells_one; constructor.
  - destruct (grown_wide indent size Hi Hw) as (Hn0 & Hg & Hsg). cbv zeta in *. cbn [dump_value].
    set (n := if p then u32 (indent + step_) else indent) in *. set (grown := if p && (size <? n) then size * 2 else size) in *.
    destruct (elements_dump (dump_value p step_ n) p n (if p then [10] else []) newline_white (v :: l) grown)
      as (t & size1 & E & Hs1 & Hwt); [done| |done|].
    { rewrite Forall_forall in *. intros x Hx. by apply IH; auto. }
    destruct (after_white indent size1 ltac:(eapply wide_more; [exact Hw|lia])) as (a & Ea & Ha).
    rewrite <- comma_split in E. eexists _, size1. split; [rewrite E; unfold mbind, result_bind in *; by rewrite Ea|].
    split; [lia|]. intros Hn.
    destruct (Hwt Hn) as (ts & Hts & Hs). exists (begin_array :: ts ++ [end_array]). apply element_seq_elements in Hts as Hel.
    split; [by constructor|]. apply bracket_spells; [constructor|constructor|apply newline_white|done| |done].
    by eapply element_seq_tokens.
Qed.

Lemma object_dumped m : Forall (fun kv => dumped kv.2) m -> dumped (JObject m).
Proof using Hstep.
  intros IH Ht indent Hi size Hw. inversion Ht as [|? Hs Hm| | | | | |]; subst. destruct m as [|kv m].
  - exists (cs "{}"), size. split; [done|]. split; [lia|]. intros _. exists [begin_object; end_object]. split; [constructor|].
    apply (spells_concat [begin_object] (cs "{") [end_object] (cs "}")); apply spells_one; constructor.
  - destruct (grown_wide indent size Hi Hw) as (Hn0 & Hg & Hsg). cbv zeta in *. cbn [dump_value].
    set (n := if p then u32 (indent + step_) else indent) in *. set (grown := if p && (size <? n) then size * 2 else size) in *.
    destruct (members_dump (dump_value p step_ n) p n (if p then [32] else []) (if p then [10] else [])
      ltac:(by destruct p; repeat constructor) newline_white (kv :: m) grown) as (t & size1 & E & Hs1 & Hwt); [done| |done|].
    { rewrite Forall_forall in *. intros x Hx. destruct (Hm x Hx). split; [done|]. by apply IH. }
    destruct (after_white indent size1 ltac:(eapply wide_more; [exact Hw|lia])) as (a & Ea & Ha).
    rewrite <- comma_split, <- colon_split in E. eexists _, size1.
    split; [rewrite E; unfold mbind, result_bind in *; by rewrite Ea|]. split; [lia|]. intros Hn.
    destruct (Hwt Hn) as (ts & Hts & Hsp). exists (begin_object :: ts ++ [end_object]).
    apply member_seq_members in Hts as Hel; [|unfold sorted; by rewrite canon_keys].
    split; [by constructor|]. apply bracket_spells; [constructor|constructor|apply newline_white|done| |done].
    by destruct Hts.
Qed.

Lemma atom_dumped v tok t indent :
  atom tok = Some (canon v) -> (forall size, dump_value p step_ indent v size = Ok (t, size)) -> token_text tok t ->
  dumps (dump_value p step_ indent) indent v.
Proof using Type.
  intros Ha Hd Ht size _. exists t, size. split; [done|]. split; [lia|]. intros _. exists [tok]. split; [by constructor|by apply spells_one].
Qed.

Lemma number_dumped z indent size :
  - 2 ^ 63 <= z < 2 ^ 64 ->
  dump_value p step_ indent (JInteger z) size = Ok (decimal z, size) /\
  dump_value p step_ indent (JUnsigned z) size = Ok (decimal z, size).
Proof using Type. intros Hz. cbn [dump_value]. by rewrite number_text_decimal. Qed.

Lemma dump_value_dumped v : dumped v.
Proof using Hstep.
  induction v as [|m IH|l IH|s|b|z|z|b] using json_nested_ind; [|by apply object_dumped|by apply array_dumped|..];
    intros Ht indent Hi; inversion Ht; subst.
  - by apply (atom_dumped JNull literal_null (cs "null")); [..|constructor].
  - intros size _. exists ([quote] ++ dump_text s ++ [quote]), size. split; [cbn [dump_value]; by rewrite dump_escaped_ok|].
    split; [lia|]. intros _. exists [value_string s]. split; [by constructor|by apply spells_string].
  - destruct b; [apply (atom_dumped _ literal_true (cs "true"))|apply (atom_dumped _ literal_false (cs "false"))];
      done || constructor.
  - intros size _. exists (decimal z), size. split; [apply number_dumped; lia|]. split; [lia|]. intros _. by apply integer_writes.
  - intros size _. exists (decimal z), size. split; [apply number_dumped; lia|]. split; [lia|]. intros _.
    exists [value_unsigned z]. split; [by constructor|]. by apply spells_one, tt_number, decimal_unsigned.
  - intros size _. exists (dump_float b), size. split; [done|]. split; [lia|done].
Qed.
End DumpValue.

(** No indentation, or one of at most 512 columns. *)
Definition narrow (indent : option Z) : Prop := default (-1) indent <= 512.

Lemma narrow_none : narrow None.
Proof. done. Qed.

Lemma dump_dumps indent v :
  typed v -> narrow indent -> exists t, dump indent v = Ok t /\ (no_float v = true -> writes v t).
Proof.
  intros Ht Hi. unfold dump, narrow in *. set (i := default (-1) indent) in *. clearbody i.
  assert (Hd : forall q n, 0 <= n <= 512 -> exists t size, dump_value q n 0 v 512 = Ok (t, size) /\ (no_float v = true -> writes v t)).
  { intros q n Hn. destruct (dump_value_dumped q n Hn v Ht 0 ltac:(lia) 512 ltac:(split; lia)) as (t & size & E & _ & Hw). eauto. }
  destruct (Z.leb_spec 0 i).
  - destruct (Hd true i ltac:(lia)) as (t & size & E & Hw). exists t. by rewrite E.
  - destruct (Hd false 0 ltac:(lia)) as (t & size & E & Hw). exists t. by rewrite E.
Qed.

Lemma writes_json_text v t : writes v t -> json_text (canon v) t.
Proof. intros (ts & Ht & Hs). exists ts, t, []. rewrite app_nil_r. split_and!; [done..|constructor|done]. Qed.

(** A text of the grammar is read without further conditions. *)
Lemma parse_text v t : json_text v t -> parse t = Ok v.
Proof.
  intros Ht. unfold parse, scan_first. destruct (json_text_first v t Ht) as (c & t' & E & Hc).
  rewrite E, skip_bom_none, <- E by done.
  destruct (parse_complete v t [] Ht ltac:(by left)) as (tok & inp & Hsc & Hp & Hrun). rewrite app_nil_r in Hsc.
  rewrite Hsc. apply scan_shorter in Hsc; [|done]. specialize (Hrun t ltac:(lia)).
  destruct (sax_parse_internal _ _ _ _ _) as [[[v' r]| |]|]; [|done..]. by destruct Hrun as [-> ->].
Qed.

Lemma dump_parse_spec indent v :
  typed v -> no_float v = true -> narrow indent -> exists t, dump indent v = Ok t /\ parse t = Ok (canon v).
Proof.
  intros Ht Hn Hi. destruct (dump_dumps indent v Ht Hi) as (t & E & Hw). exists t. split; [done|].
  by apply parse_text, writes_json_text, Hw.
Qed.
End Dump.

(** ** What the library promises *)

Section Library.
Context `{Floats}.

(** C24: the values [parse] makes are well typed: strings and keys are UTF-8,
    members are sorted by key without duplicates, integers fit their types and
    floating-point numbers are finite. *)
Theorem parse_typed (s : list Z) (v : json) (Hs : Bytes s) (HE : parse s = Ok v) : typed v.
Proof. by apply parse_typed_spec with s. Qed.

(** C13: [dump] serialises every well-typed value, however deep, without
    indentation or with an indentation of at most 512 columns (the programs ask
    for 1 and 2), and [parse] reads the text back, when the value has no
    floating-point number; a signed integer that is not negative comes back
    unsigned. *)
Theorem dump_parse (indent : option Z) (v : json) (Hv : typed v) (Hf : no_float v = true)
    (Hi : default (-1) indent <= 512) :
  exists t, dump indent v = Ok t /\ parse t = Ok (canon v).
Proof. by apply dump_parse_spec. Qed.

(** The string of spaces is doubled once only: an indentation of more than
    1025 columns reads past it, one of 1025 columns writes its NUL. *)
Theorem dump_too_wide (n : Z) (v : json) (Hn : 1025 <= n < 2 ^ 31) :
  if n =? 1025
  then dump (Some n) (JArray [JNull]) = Ok (cs "[" ++ [10] ++ (spaces 1024 ++ [0]) ++ cs "null" ++ [10] ++ cs "]")
  else dump (Some n) (JArray [v]) = Ub.
Proof.
  unfold dump. change (default (-1) (Some n)) with n. cbv zeta. destruct (Z.leb_spec 0 n); [|lia].
  assert (Hu : u32 (0 + n) = n) by (apply wrap_id; split; lia).
  destruct (Z.eqb_spec n 1025) as [->|Hne]; [reflexivity|].
  cbn [dump_value dump_elements before]. rewrite Hu. cbn [andb]. destruct (Z.ltb_spec 512 n); [|lia].
  unfold write_indent. destruct (Z.leb_spec n (512 * 2)); [lia|]. by destruct (Z.eqb_spec n (512 * 2 + 1)); [lia|].
Qed.
End Library.

Lemma dump_too_wide_witness : dump (H := zero_floats) (Some 2000) (JArray [JNull]) = Ub.
Proof. by apply (dump_too_wide (H := zero_floats) 2000 JNull). Defined.

Lemma parse_typed_witness :
  parse (H := zero_floats) (quoted sample) = Ok (JObject [(cs "id", JNull)]) /\ typed (JObject [(cs "id", JNull)]).
Proof.
  split; [reflexivity|]. apply (parse_typed (H := zero_floats) (quoted sample)).
  - vm_compute. repeat constructor; done.
  - reflexivity.
Defined.

Lemma dump_parse_witness :
  let v := JArray [JString (cs "a"); JInteger 7; JObject [(cs "k", JBoolean true)]] in
  typed v /\ exists t, dump (H := zero_floats) (Some 1) v = Ok t /\ parse (H := zero_floats) t = Ok (canon v).
Proof.
  intros v. assert (Hv : typed v).
  { assert (Hu : forall c, between 0 127 c = true -> utf8 [c]).
    { intros c Hc. apply utf8_one. cbn. unfold between in *. lia. }
    constructor. constructor; [constructor; apply Hu; reflexivity|]. constructor; [constructor; lia|].
    constructor; [|constructor]. constructor.
    - repeat constructor.
    - constructor; [|constructor]. split; [apply Hu; reflexivity|constructor]. }
  split; [exact Hv|]. apply (dump_parse (H := zero_floats) (Some 1) v Hv); [reflexivity|cbn; lia].
Defined.
