(* ===== verification/Comm.v ===== *)
(** * Logging and files of the C++ programs: [src/log.cc]

    The state the client and the relay change outside their memory ([cc]): the C
    library's process state, the files by name, and what is written to the
    standard output and the log.  An exception is a value of the computation
    ([cpp]); [try_catch] is a [try] block with its handler.  The clock readings
    in front of a log line, and the texts of the exceptions, are left out. *)
From stdpp Require Import gmap.
From S2P Require Import Prelude Process Event Json JsonParse JsonSpec JsonGrammar JsonRound.

Inductive entry :=
| Logged (text : list Z)      (* comm::log *)
| Caught (e : exn)            (* comm::log(e.what()) *)
| Printed (text : list Z).    (* std::cout *)

Record cc := CC {
  process : world;
  files : gmap (list Z) (list Z);
  journal : list entry;
  drawn : nat                   (* numbers drawn from the generator of uuid.cc *)
}.

(** ** Computations with exceptions *)

Definition cpp (A : Type) : Type := cc -> outcome (exn + A) * cc.

#[export] Instance cpp_ret : MRet cpp := fun A a w => (Returned (inr a), w).

#[export] Instance cpp_bind : MBind cpp := fun A B f m w =>
  match m w with
  | (Returned (inr a), w') => f a w'
  | (Returned (inl e), w') => (Returned (inl e), w')
  | (Exited c, w') => (Exited c, w')
  | (Replaced file argv, w') => (Replaced file argv, w')
  | (Aborted, w') => (Aborted, w')
  | (Undefined, w') => (Undefined, w')
  | (OutOfFuel, w') => (OutOfFuel, w')
  end.

(** [try { m } catch (const std::exception& e) { h(e) }] *)
Definition try_catch {A} (m : cpp A) (h : exn -> cpp A) : cpp A := fun w =>
  match m w with (Returned (inl e), w') => h e w' | r => r end.

Definition of_result {A} (r : result A) : cpp A := fun w =>
  match r with Ok a => (Returned (inr a), w) | Throw e => (Returned (inl e), w) | Ub => (Undefined, w) end.

(** A function of the C library. *)
Definition run {A} (m : proc A) : cpp A := fun w =>
  let '(o, p) := m (process w) in
  (match o with
   | Returned a => Returned (inr a)
   | Exited c => Exited c
   | Replaced file argv => Replaced file argv
   | Aborted => Aborted
   | Undefined => Undefined
   | OutOfFuel => OutOfFuel
   end, CC p (files w) (journal w) (drawn w)).

(** An exception that leaves [main] ends the program with [std::terminate]. *)
Definition terminate {A} (m : cpp A) : prog cc A := fun w =>
  match m w with
  | (Returned (inr a), w') => (Returned a, w')
  | (Returned (inl _), w') => (Aborted, w')
  | (Exited c, w') => (Exited c, w')
  | (Replaced file argv, w') => (Replaced file argv, w')
  | (Aborted, w') => (Aborted, w')
  | (Undefined, w') => (Undefined, w')
  | (OutOfFuel, w') => (OutOfFuel, w')
  end.

(** An object that a block fills in before it may be left by an exception. *)
Definition edit (S A : Type) : Type := S -> result A * S.

#[export] Instance edit_ret {S} : MRet (edit S) := fun A a s => (Ok a, s).
#[export] Instance edit_bind {S} : MBind (edit S) := fun A B f m s =>
  match m s with (Ok a, s') => f a s' | (Throw e, s') => (Throw e, s') | (Ub, s') => (Ub, s') end.

Definition value {S A} (r : result A) : edit S A := fun s => (r, s).
Definition assign {S} (f : S -> S) : edit S unit := fun s => (Ok tt, f s).

(** ** [log.cc] *)

(** Files that can be opened for writing; a file that opens takes what is
    written to it. *)
Class Disk := { writable : list Z -> bool }.

(** A disk on which every file can be written. *)
Definition all_writable : Disk := {| writable := fun _ => true |}.

Definition note (e : entry) : cpp unit := fun w => (Returned (inr tt), CC (process w) (files w) (journal w ++ [e]) (drawn w)).

(** [log(msg)] *)
Definition log (msg : list Z) : cpp unit := note (Logged msg).
Definition log_what (e : exn) : cpp unit := note (Caught e).

(** A line for each text. *)
Fixpoint log_all (store : list (list Z)) : cpp unit :=
  match store with [] => mret tt | m :: store => _ ← log m; log_all store end.

(** [ofs.open(name); ofs << buf; ofs.close()] *)
Definition write_file `{Disk} (name buf : list Z) : cpp unit := fun w =>
  (Returned (inr tt), if writable name then CC (process w) (<[name := buf]> (files w)) (journal w) (drawn w) else w).

(** [std::ifstream ifs(name)] read to its end: a file that does not open has no bytes. *)
Definition read_file (name : list Z) : cpp (list Z) := fun w => (Returned (inr (default [] (files w !! name))), w).

Section Comm.
Context `{Floats} `{Disk}.

Definition json_to_file (name buf : list Z) : cpp unit :=
  try_catch
    (js_message ← of_result (parse buf);
     json ← of_result (dump (Some 1) js_message);
     _ ← write_file name json;
     note (Printed (json ++ [10])))
    log_what.

Definition to_file (name buf : list Z) : cpp unit :=
  _ ← write_file name buf; note (Printed (buf ++ [10])).

(** The return value and [buf]. *)
Definition from_file (name buf : list Z) : cpp (Z * list Z) := fun w =>
  match files w !! name with
  | None => (Returned (inr (-1, buf)), w)
  | Some s => (Returned (inr (0, s)), w)
  end.

(** The overload for lines. *)
Fixpoint print_lines (vec : list (list Z)) : cpp unit :=
  match vec with [] => mret tt | l :: vec => _ ← note (Printed (l ++ [10])); print_lines vec end.

Definition to_file_lines (name : list Z) (vec : list (list Z)) : cpp unit :=
  _ ← write_file name (concat (map (fun l => l ++ [10]) vec)); print_lines vec.
End Comm.

(** A [try] block that fills in an object, with -1 after its handler. *)
Definition attempt {S} (m : edit S Z) (s : S) : cpp (Z * S) :=
  match m s with
  | (Ok code, s') => mret (code, s')
  | (Throw e, s') => _ ← log_what e; mret (-1, s')
  | (Ub, _) => fun w => (Undefined, w)
  end.

(** ** Running *)

Lemma cpp_returned {A B} (m : cpp A) (f : A -> cpp B) w a w' :
  m w = (Returned (inr a), w') -> (m ≫= f) w = f a w'.
Proof. intros Hm. unfold mbind, cpp_bind. by rewrite Hm. Qed.

Lemma of_result_ok {A B} (a : A) (f : A -> cpp B) w : (of_result (Ok a) ≫= f) w = f a w.
Proof. done. Qed.

Section Files.
Context `{Floats} `{Disk}.

Lemma write_file_bind {B} name buf (f : unit -> cpp B) w :
  (write_file name buf ≫= f) w = f tt (if writable name then CC (process w) (<[name := buf]> (files w)) (journal w) (drawn w) else w).
Proof. done. Qed.

(** [json_to_file] returns, and at most writes its file. *)
Lemma json_to_file_returns name buf w :
  (forall v, parse buf = Ok v -> typed v) -> exists w', json_to_file name buf w = (Returned (inr tt), w') /\ process w' = process w /\
    match parse buf with
    | Ok v => exists t, dump (Some 1) v = Ok t /\ files w' = if writable name then <[name := t]> (files w) else files w
    | _ => files w' = files w
    end.
Proof.
  intros Hb. unfold json_to_file, try_catch. pose proof (parse_outcome_spec buf) as Ho.
  destruct (parse buf) as [v|e|] eqn:E; [|by eexists|done].
  destruct (dump_dumps (Some 1) v) as (t & Et & _); [by apply Hb|done|]. rewrite of_result_ok, Et, of_result_ok.
  rewrite write_file_bind. eexists. split; [reflexivity|]. cbn [process files].
  split; [by destruct (writable name)|]. exists t. split; [done|]. by destruct (writable name).
Qed.

Lemma to_file_lines_returns name vec w : exists w', to_file_lines name vec w = (Returned (inr tt), w').
Proof using Type.
  unfold to_file_lines. rewrite write_file_bind. match goal with |- context [print_lines vec ?v] => generalize v end.
  clear w. induction vec as [|l vec IH]; intros w; [by eexists|]. apply IH.
Qed.

(** What is written as JSON can be read back. *)
Lemma json_to_file_reads name buf w v :
  (forall v, parse buf = Ok v -> typed v) -> writable name = true -> parse buf = Ok v -> no_float v = true ->
  exists w' t, json_to_file name buf w = (Returned (inr tt), w') /\ files w' = <[name := t]> (files w) /\ parse t = Ok (canon v).
Proof.
  intros Hb Hn Hp Hf. destruct (json_to_file_returns name buf w Hb) as (w' & Er & _ & Hw). rewrite Hp, Hn in Hw.
  destruct Hw as (t & Et & Hw). exists w', t. split_and!; [done..|].
  destruct (dump_parse_spec (Some 1) v) as (t' & Et' & Hp'); [by apply Hb|done|done|]. congruence.
Qed.
End Files.
