(* ===== verification/Client.v ===== *)
(** * The client library: [src/nostr.hh], [src/nostr.cc], [src/uuid.cc]

    Events and filters as C++ objects, their JSON, the messages of NIP-01 that
    the library makes and parses, and the calls to a relay.  The C library
    ([nostri.c]) is that of [Keys] and [Event]; JSON is that of [Json] and
    [JsonParse].  The relay at the other end of a connection is the interface
    [Network], the random numbers are the interface [Random].  The event that
    [make_event] publishes is [expected], a function of the event, the key and
    the next answers of the system; nothing is published when it is [None]. *)
From stdpp Require Import gmap.
From S2P Require Import Prelude Hex Sha256Spec Sha256 Event Process Keys Dm Gnostr Json JsonParse JsonSpec JsonGrammar JsonRound Comm.

(** ** Data *)

Record event_t := Event_t {
  id : list Z;
  pubkey : list Z;
  created_at : Z;                   (* std::time_t *)
  kind : Z;                         (* int *)
  tags : list (list (list Z));
  content : list Z;
  sig : list Z
}.

(** The constructor, at the time [now]. *)
Definition event_new (now : Z) : event_t := Event_t [] [] now 1 [] [] [].

Record filter_t := Filter_t {
  ids : list (list Z);
  authors : list (list Z);
  kinds : list Z;
  e_ : list (list Z);
  p_ : list (list Z);
  since : Z;
  until : Z;
  limit : Z                         (* size_t *)
}.

Definition filter_new (now : Z) : filter_t := Filter_t [] [] [] [] [] 0 now 1.

Definition set_id (s : event_t) v := Event_t v (pubkey s) (created_at s) (kind s) (tags s) (content s) (sig s).
Definition set_pubkey (s : event_t) v := Event_t (id s) v (created_at s) (kind s) (tags s) (content s) (sig s).
Definition set_created_at (s : event_t) v := Event_t (id s) (pubkey s) v (kind s) (tags s) (content s) (sig s).
Definition set_kind (s : event_t) v := Event_t (id s) (pubkey s) (created_at s) v (tags s) (content s) (sig s).
Definition set_tags (s : event_t) v := Event_t (id s) (pubkey s) (created_at s) (kind s) v (content s) (sig s).
Definition set_content (s : event_t) v := Event_t (id s) (pubkey s) (created_at s) (kind s) (tags s) v (sig s).
Definition set_sig (s : event_t) v := Event_t (id s) (pubkey s) (created_at s) (kind s) (tags s) (content s) v.

Definition set_ids (s : filter_t) v := Filter_t v (authors s) (kinds s) (e_ s) (p_ s) (since s) (until s) (limit s).
Definition set_authors (s : filter_t) v := Filter_t (ids s) v (kinds s) (e_ s) (p_ s) (since s) (until s) (limit s).
Definition set_kinds (s : filter_t) v := Filter_t (ids s) (authors s) v (e_ s) (p_ s) (since s) (until s) (limit s).
Definition set_e (s : filter_t) v := Filter_t (ids s) (authors s) (kinds s) v (p_ s) (since s) (until s) (limit s).
Definition set_p (s : filter_t) v := Filter_t (ids s) (authors s) (kinds s) (e_ s) v (since s) (until s) (limit s).
Definition set_since (s : filter_t) v := Filter_t (ids s) (authors s) (kinds s) (e_ s) (p_ s) v (until s) (limit s).
Definition set_until (s : filter_t) v := Filter_t (ids s) (authors s) (kinds s) (e_ s) (p_ s) (since s) v (limit s).
Definition set_limit (s : filter_t) v := Filter_t (ids s) (authors s) (kinds s) (e_ s) (p_ s) (since s) (until s) v.

Inductive Type_ := EVENT | REQ | CLOSE | EOSE | NOTICE | UNKNOWN.

(** ** JSON of events and filters *)

Definition strings (l : list (list Z)) : json := JArray (map JString l).

Definition event_to_json (j : json) (s : event_t) : result json :=
  j ← set_key j (cs "id") (JString (id s));
  j ← set_key j (cs "pubkey") (JString (pubkey s));
  j ← set_key j (cs "created_at") (JInteger (created_at s));
  j ← set_key j (cs "kind") (JInteger (kind s));
  j ← set_key j (cs "tags") (JArray (map strings (tags s)));
  j ← set_key j (cs "content") (JString (content s));
  set_key j (cs "sig") (JString (sig s)).

Definition event_from_json (j : json) : edit event_t unit :=
  v ← value (at_key j (cs "id") ≫= from_json_string); _ ← assign (fun s => set_id s v);
  v ← value (at_key j (cs "pubkey") ≫= from_json_string); _ ← assign (fun s => set_pubkey s v);
  v ← value (at_key j (cs "created_at") ≫= from_json_int64); _ ← assign (fun s => set_created_at s v);
  v ← value (at_key j (cs "kind") ≫= from_json_int); _ ← assign (fun s => set_kind s v);
  v ← value (at_key j (cs "tags") ≫= from_json_array (from_json_array from_json_string)); _ ← assign (fun s => set_tags s v);
  v ← value (at_key j (cs "content") ≫= from_json_string); _ ← assign (fun s => set_content s v);
  v ← value (at_key j (cs "sig") ≫= from_json_string); assign (fun s => set_sig s v).

(** [j[key] = v] under a condition. *)
Definition set_key_if (b : bool) (j : json) (k : list Z) (v : json) : result json := if b then set_key j k v else Ok j.

Definition filter_to_json (j : json) (s : filter_t) (with_time : bool) : result json :=
  j ← set_key_if (0 <? len (ids s)) j (cs "ids") (strings (ids s));
  j ← set_key_if (0 <? len (authors s)) j (cs "authors") (strings (authors s));
  j ← set_key j (cs "kinds") (JArray (map JInteger (kinds s)));
  j ← set_key_if (0 <? len (e_ s)) j (cs "#e") (strings (e_ s));
  j ← set_key_if (0 <? len (p_ s)) j (cs "#p") (strings (p_ s));
  j ← set_key_if with_time j (cs "since") (JInteger (since s));
  j ← set_key_if with_time j (cs "until") (JInteger (until s));
  set_key j (cs "limit") (JUnsigned (limit s)).

(** [if (j.contains(key)) j.at(key).get_to(field)] *)
Definition get_to {S A} (j : json) (k : list Z) (get : json -> result A) (set : S -> A -> S) : edit S unit :=
  if contains j k then v ← value (at_key j k ≫= get); assign (fun s => set s v) else mret tt.

Definition filter_from_json (j : json) : edit filter_t unit :=
  _ ← get_to j (cs "ids") (from_json_array from_json_string) set_ids;
  _ ← get_to j (cs "authors") (from_json_array from_json_string) set_authors;
  _ ← get_to j (cs "kinds") (from_json_array from_json_int) set_kinds;
  _ ← get_to j (cs "#e") (from_json_array from_json_string) set_e;
  _ ← get_to j (cs "#p") (from_json_array from_json_string) set_p;
  _ ← get_to j (cs "since") from_json_int64 set_since;
  _ ← get_to j (cs "until") from_json_int64 set_until;
  get_to j (cs "limit") from_json_uint64 set_limit.

(** ** Identifiers: [uuid.cc] *)

(** What the two distributions give when they are asked for the [n]-th number of
    the program. *)
Class Random := {
  dis : nat -> Z;
  dis2 : nat -> Z;
  dis_range n : 0 <= dis n <= 15;
  dis2_range n : 8 <= dis2 n <= 11
}.

Definition toupper (c : Z) : Z := if between 97 122 c then c - 32 else c.

(** [n] numbers in hexadecimal from the [i]-th on. *)
Definition hex_numbers `{Random} (i n : nat) : list Z := map (fun k => Hex.hex_digit (dis k)) (seq i n).

Definition generate_uuid_v4 `{Random} : cpp (list Z) := fun w =>
  let i := drawn w in
  let ss := hex_numbers i 8 ++ cs "-" ++ hex_numbers (i + 8) 4 ++ cs "-4" ++ hex_numbers (i + 12) 3 ++ cs "-" ++
            [Hex.hex_digit (dis2 (i + 15))] ++ hex_numbers (i + 16) 3 ++ cs "-" ++ hex_numbers (i + 19) 12 in
  (Returned (inr (map toupper ss)), CC (process w) (files w) (journal w) (i + 31)).

(** ** Messages *)

(** The element at the front of a message is its type. *)
Definition message_type (js_message : json) : result (list Z) := at_index js_message 0 ≫= from_json_string.

(** The bytes of a [std::string] before the first NUL. *)
Fixpoint c_str (s : list Z) : list Z :=
  match s with c :: s => if c =? 0 then [] else c :: c_str s | [] => [] end.

(** What happens on a connection; each has its handler. *)
Inductive net_event :=
| Opened (http : list Z)          (* version and code *)
| Received (message : list Z)
| Closed (status : Z)
| Failed (what : list Z).

(** The events of a connection to a URI on which a text is sent when it opens; an
    exception leaves [start]. *)
Class Network := { exchange : list Z -> list Z -> result (list net_event) }.

Section Client.
Context `{Floats} `{Disk}.

Definition get_message_type (json : list Z) : cpp Type_ :=
  try_catch
    (js_message ← of_result (parse json);
     type ← of_result (message_type js_message);
     mret (if decide (type = cs "EVENT") then EVENT
           else if decide (type = cs "REQ") then REQ
           else if decide (type = cs "CLOSE") then CLOSE
           else if decide (type = cs "EOSE") then EOSE
           else if decide (type = cs "NOTICE") then NOTICE
           else UNKNOWN))
    (fun e => _ ← log_what e; mret UNKNOWN).

Definition make_request (subscription_id : list Z) (filter : filter_t) : cpp (list Z) :=
  try_catch
    (js_filter ← of_result (filter_to_json JNull filter false);
     of_result (dump None (JArray [JString (cs "REQ"); JString subscription_id; js_filter])))
    (fun e => _ ← log_what e; mret []).

(** The bodies of the parsers; they return 0 or go on to the -1 at the end. *)
Definition client_event (json : list Z) : edit event_t Z :=
  js_message ← value (parse json);
  type ← value (message_type js_message);
  if decide (type = cs "EVENT") then j ← value (at_index js_message 1); _ ← event_from_json j; mret 0
  else mret (-1).

Definition parse_client_event (json : list Z) (ev : event_t) : cpp (Z * event_t) := attempt (client_event json) ev.

(** A field of a pair. *)
Definition on_fst {S T A} (m : edit S A) : edit (S * T) A := fun '(s, t) => let '(r, s) := m s in (r, (s, t)).
Definition on_snd {S T A} (m : edit T A) : edit (S * T) A := fun '(s, t) => let '(r, t) := m t in (r, (s, t)).

(** A message with a subscription at index 1 and an object at index 2. *)
Definition subscribed {T} (type_ : list Z) (from_json : Json.json -> edit T unit) (json : list Z) : edit (list Z * T) Z :=
  js_message ← value (parse json);
  type ← value (message_type js_message);
  if decide (type = type_) then
    sub ← value (at_index js_message 1 ≫= from_json_string); _ ← on_fst (assign (fun _ => sub));
    j ← value (at_index js_message 2); _ ← on_snd (from_json j); mret 0
  else mret (-1).

Definition parse_relay_event (json subscription_id : list Z) (ev : event_t) : cpp (Z * (list Z * event_t)) :=
  attempt (subscribed (cs "EVENT") event_from_json json) (subscription_id, ev).

Definition parse_request (json request_id : list Z) (filter : filter_t) : cpp (Z * (list Z * filter_t)) :=
  attempt (subscribed (cs "REQ") filter_from_json json) (request_id, filter).
End Client.

(** ** Making an event *)

Section MakeEvent.
Context `{Floats} `{Secp256k1} (junk : Z).

(** The key of [seckey], or a generated one; [None] leaves the function. *)
Definition event_key (seckey : option (list Z)) : cpp (option key) :=
  let k := Key None (uninit junk 32) (uninit junk 32) in
  match seckey with
  | Some sec => '(ok, k) ← run (decode_key (c_str sec) k); mret (if ok =? 0 then None else Some k)
  | None =>
      '(ok, k) ← run (generate_key 0 k None);
      if ok =? 0 then _ ← log (cs "could not generate key"); mret None
      else
        _ ← run (eprintf (cs "secret_key ")); _ ← run (print_hex (secret k)); _ ← run (eprintf [10]);
        mret (Some k)
  end.

(** [hex_encode] into an array that just fits, read as a string. *)
Definition encode (data : list Z) (what : list Z) : cpp (option (list Z)) :=
  '(ok, dest) ← run (lift (hex_encode data (uninit junk (2 * len data + 1))));
  if ok <? 0 then _ ← log (cs "could not encode event " ++ what); mret None
  else mret (Some (c_str dest)).

(** The event of the C library; it has no tags. *)
Definition nev_of (ev : event_t) (k : key) : nostr_event :=
  Event (repeat 0 32) (key_pubkey k) (repeat 0 64) (c_str (content ev)) (u64 (created_at ev)) (kind ev) None [].

(** The message and the event. *)
Definition make_event (ev : event_t) (seckey : option (list Z)) : cpp (list Z * event_t) :=
  ok ← run init_secp_context;
  if ok =? 0 then mret ([], ev)
  else
    k ← event_key seckey;
    match k with
    | None => mret ([], ev)
    | Some k =>
        '(ok, nev, _) ← run (lift (generate_event_id (nev_of ev k) (repeat 0 (Z.to_nat 102400))));
        if ok =? 0 then _ ← log (cs "could not generate event id"); mret ([], ev)
        else
          '(ok, nev) ← run (sign_event k nev);
          if ok =? 0 then _ ← log (cs "could not sign event"); mret ([], ev)
          else
            id ← encode (Event.id nev) (cs "id");
            pubkey ← (match id with Some _ => encode (Event.pubkey nev) (cs "pubkey") | None => mret None end);
            sig ← (match pubkey with Some _ => encode (Event.sig nev) (cs "signature") | None => mret None end);
            match id, pubkey, sig with
            | Some id, Some pubkey, Some sig =>
                let ev := set_sig (set_id (set_pubkey ev pubkey) id) sig in
                js ← of_result (event_to_json JNull ev);
                json ← of_result (dump None (JArray [JString (cs "EVENT"); js]));
                mret (json, ev)
            | _, _, _ => mret ([], ev)
            end
    end.
End MakeEvent.

(** ** Asking a relay *)

Section Relays.
Context `{Floats} `{Disk} `{Network} `{Random} (now : Z).

(** The handlers only keep the messages. *)
Fixpoint keep_messages (events : list net_event) (store : list (list Z)) : list (list Z) :=
  match events with
  | [] => store
  | Received str :: events => keep_messages events (store ++ [str])
  | _ :: events => keep_messages events store
  end.

(** The return value and [store]. *)
Definition relay_to (uri json : list Z) (store : list (list Z)) : cpp (Z * list (list Z)) :=
  events ← of_result (exchange uri json); mret (0, keep_messages events store).

(** [from_json] into a new event. *)
Definition get_event (j : json) : result event_t :=
  let '(r, ev) := event_from_json j (event_new now) in _ ← r; Ok ev.

(** One message of a loop over the answers: its event, if it is one. *)
Definition answer (message : list Z) : cpp (option event_t) :=
  try_catch
    (js ← of_result (parse message);
     type ← of_result (message_type js);
     if decide (type = cs "EVENT") then
       ev ← of_result (at_index js 2 ≫= get_event);
       _ ← json_to_file (cs "follows_event.json") message;
       mret (Some ev)
     else mret None)
    (fun e => _ ← log_what e; mret None).

(** What a loop over the answers appends, from the message and its event. *)
Fixpoint answers {A} (f : list Z -> event_t -> A) (messages : list (list Z)) : cpp (list A) :=
  match messages with
  | [] => mret []
  | message :: messages =>
      ev ← answer message;
      rest ← answers f messages;
      mret (match ev with Some ev => f message ev :: rest | None => rest end)
  end.

(** A request of one author, saved to [file] and sent; the answers. *)
Definition ask (uri file : list Z) (filter : filter_t) : cpp (list (list Z)) :=
  subscription_id ← generate_uuid_v4;
  json ← make_request subscription_id filter;
  _ ← json_to_file file json;
  '(_, messages) ← relay_to uri json [];
  mret messages.

(** The key of a tag that names a profile. *)
Definition followed (tag : list (list Z)) : list (list Z) :=
  match tag with t :: pubkey :: _ => if decide (t = cs "p") then [pubkey] else [] | _ => [] end.

Definition get_follows (uri pubkey : list Z) (pubkeys : list (list Z)) : cpp (Z * list (list Z)) :=
  let filter := set_limit (set_kinds (set_authors (filter_new now) [pubkey]) [3]) 1 in
  responses ← ask uri (cs "follows_request.json") filter;
  subs_events ← answers (fun _ ev => ev) responses;
  match subs_events with
  | [] => mret (0, pubkeys)
  | ev :: _ => mret (0, pubkeys ++ concat (map followed (tags ev)))
  end.

Definition get_feed (uri pubkey : list Z) (response : list (list Z)) : cpp (Z * list (list Z)) :=
  let filter := set_limit (set_kinds (set_authors (filter_new now) [pubkey]) [1]) 2 in
  messages ← ask uri (cs "req_feed.json") filter;
  more ← answers (fun message _ => message) messages;
  mret (0, response ++ more).

Definition get_metadata (uri pubkey : list Z) (response : list (list Z)) : cpp (Z * list (list Z)) :=
  let filter := set_kinds (set_authors (filter_new now) [pubkey]) [0] in
  messages ← ask uri (cs "req_metadata.json") filter;
  mret (0, response ++ messages).
End Relays.

(** ** Events and their JSON *)

(** The object [to_json] makes, in the order of the keys. *)
Definition event_object (s : event_t) : json := JObject
  [(cs "content", JString (content s)); (cs "created_at", JInteger (created_at s)); (cs "id", JString (id s));
   (cs "kind", JInteger (kind s)); (cs "pubkey", JString (pubkey s)); (cs "sig", JString (sig s));
   (cs "tags", JArray (map strings (tags s)))].

Lemma event_to_json_object s : event_to_json JNull s = Ok (event_object s).
Proof. reflexivity. Qed.

(** An event whose texts are UTF-8 and whose numbers fit. *)
Record event_typed (s : event_t) : Prop := {
  typed_id : utf8 (id s);
  typed_pubkey : utf8 (pubkey s);
  typed_created_at : - 2 ^ 63 <= created_at s < 2 ^ 63;
  typed_kind : - 2 ^ 31 <= kind s < 2 ^ 31;
  typed_tags : Forall (Forall utf8) (tags s);
  typed_content : utf8 (content s);
  typed_sig : utf8 (sig s)
}.

Lemma ascii_utf8 s : forallb (between 0 127) s = true -> utf8 s.
Proof.
  induction s as [|c s IH]; [constructor|]. cbn [forallb]. intros [Hc Hs]%andb_true_iff.
  change (c :: s) with ([c] ++ s). apply utf8_app; [|by apply IH]. apply utf8_one. cbn. unfold between in *. lia.
Qed.

Lemma typed_strings l : Forall utf8 l -> typed (strings l).
Proof. intros Hl. constructor. by apply Forall_map; eapply Forall_impl; [exact Hl|]; intros; constructor. Qed.

Lemma event_object_typed s : event_typed s -> typed (event_object s).
Proof.
  intros []. constructor; [repeat constructor|].
  repeat apply Forall_cons_2; try apply Forall_nil_2; (split; [by apply ascii_utf8|cbn [snd]]);
    try (by apply typed_string); try (apply typed_integer; lia).
  apply typed_array, Forall_map. eapply Forall_impl; [done|]. intros. by apply typed_strings.
Qed.

Lemma strings_no_float l : no_float (strings l) = true.
Proof. by induction l. Qed.

Lemma event_object_no_float s : no_float (event_object s) = true.
Proof.
  cbn. rewrite !andb_true_r. apply forallb_forall. intros j [l [<- _]]%in_map_iff. apply strings_no_float.
Qed.

Lemma canon_strings l : canon (strings l) = strings l.
Proof. unfold strings. cbn. f_equal. by induction l; cbn; f_equal. Qed.

Lemma transform_map {A} (f : json -> result A) (g : A -> json) l :
  Forall (fun x => f (g x) = Ok x) l -> transform f (map g l) = Ok l.
Proof. induction 1 as [|x l Hx _ IH]; [done|]. cbn [map transform]. by rewrite Hx; cbn; rewrite IH. Qed.

Lemma from_strings l : from_json_array from_json_string (strings l) = Ok l.
Proof. apply transform_map. by apply Forall_true. Qed.

Lemma from_canon_int64 z : - 2 ^ 63 <= z < 2 ^ 63 -> from_json_int64 (canon (JInteger z)) = Ok z.
Proof. intros Hz. cbn [canon]. by destruct (Z.ltb_spec z 0); cbn; rewrite to_signed_fits. Qed.

Lemma from_canon_int z : - 2 ^ 31 <= z < 2 ^ 31 -> from_json_int (canon (JInteger z)) = Ok z.
Proof. intros Hz. cbn [canon]. by destruct (Z.ltb_spec z 0); cbn; rewrite to_signed_fits. Qed.

(** All the fields at hand. *)
Lemma event_from_fields j s0 jc jk jt s :
  at_key j (cs "id") = Ok (JString (id s)) -> at_key j (cs "pubkey") = Ok (JString (pubkey s)) ->
  at_key j (cs "created_at") = Ok jc -> from_json_int64 jc = Ok (created_at s) ->
  at_key j (cs "kind") = Ok jk -> from_json_int jk = Ok (kind s) ->
  at_key j (cs "tags") = Ok jt -> from_json_array (from_json_array from_json_string) jt = Ok (tags s) ->
  at_key j (cs "content") = Ok (JString (content s)) -> at_key j (cs "sig") = Ok (JString (sig s)) ->
  event_from_json j s0 = (Ok tt, s).
Proof.
  intros H1 H2 H3 H3' H4 H4' H5 H5' H6 H7. unfold event_from_json, mbind, edit_bind, value, assign, result_bind.
  rewrite H1, H2, H3. cbn [from_json_string]. rewrite H3', H4, H4', H5, H5', H6, H7. by destruct s.
Qed.

(** Reading the object back. *)
Lemma event_from_object s s0 : event_typed s -> event_from_json (canon (event_object s)) s0 = (Ok tt, s).
Proof.
  intros Hs. pose proof (from_canon_int64 _ (typed_created_at s Hs)) as Hc. pose proof (from_canon_int _ (typed_kind s Hs)) as Hk.
  assert (Ht : from_json_array (from_json_array from_json_string) (canon (JArray (map strings (tags s)))) = Ok (tags s)).
  { cbn [canon]. rewrite map_map. rewrite (map_ext _ strings) by (intros; apply canon_strings).
    apply transform_map. apply Forall_true. intros. apply from_strings. }
  eapply event_from_fields; try done; by rewrite ?Hc, ?Hk, ?Ht.
Qed.

(** ** What [from_json] leaves *)

Lemma at_index_typed j n v : typed j -> at_index j n = Ok v -> typed v.
Proof. intros [] E; try done. cbn in E. destruct (l !! n) eqn:El; [|done]. injection E as <-. by eapply Forall_lookup_1. Qed.

Lemma find_in k m v : find k m = Some v -> exists k', In (k', v) m.
Proof.
  induction m as [|[k1 v1] m IH]; [done|]. cbn. destruct (str_compare k k1); [intros [= ->]; eexists; by left|..];
    (intros [k' Hk]%IH; exists k'; by right).
Qed.

Lemma at_key_typed j k v : typed j -> at_key j k = Ok v -> typed v.
Proof.
  intros [] E; try done. cbn in E. destruct (find k m) eqn:Ef; [|done]. injection E as <-.
  apply find_in in Ef as [k' Hk]. rewrite List.Forall_forall in H0. exact (proj2 (H0 _ Hk)).
Qed.

Lemma from_string_typed j s : typed j -> from_json_string j = Ok s -> utf8 s.
Proof. intros [] E; try done. by injection E as <-. Qed.

Lemma transform_forall {A} (f : json -> result A) (P : A -> Prop) l r :
  (forall j a, typed j -> f j = Ok a -> P a) -> Forall typed l -> transform f l = Ok r -> Forall P r.
Proof.
  intros Hf Hl. revert r. induction Hl as [|j l Hj _ IH]; intros r; cbn [transform]; [by intros [= <-]|].
  destruct (f j) as [a| |] eqn:Ea; [|done..]. destruct (transform f l) as [r'| |]; [|done..]. intros [= <-]. 
  constructor; [by eapply Hf|by apply IH].
Qed.

Lemma from_array_forall {A} (f : json -> result A) (P : A -> Prop) j r :
  (forall j a, typed j -> f j = Ok a -> P a) -> typed j -> from_json_array f j = Ok r -> Forall P r.
Proof. intros Hf [] E; try done. by eapply transform_forall. Qed.

Lemma cast_double_range lo hi b z : cast_double lo hi b = Ok z -> lo <= z <= hi.
Proof. unfold cast_double. destruct (_ && _) eqn:E; [|done]. intros [= <-]. lia. Qed.

Lemma from_int64_range j z : from_json_int64 j = Ok z -> - 2 ^ 63 <= z < 2 ^ 63.
Proof.
  destruct j; try done; cbn [from_json_int64]; [intros [= <-]; by apply (to_signed_range 64)..|].
  intros Hz%cast_double_range. lia.
Qed.

Lemma from_int_range j z : from_json_int j = Ok z -> - 2 ^ 31 <= z < 2 ^ 31.
Proof.
  destruct j; try done; cbn [from_json_int]; [intros [= <-]; by destruct b|intros [= <-]; by apply (to_signed_range 32)..|].
  intros Hz%cast_double_range. lia.
Qed.

(** A block that keeps an invariant of its object, however it ends. *)
Definition keeps {S A} (P : S -> Prop) (m : edit S A) : Prop := forall s, P s -> P (m s).2.

Lemma keeps_bind {S A B} (P : S -> Prop) (m : edit S A) (f : A -> edit S B) :
  keeps P m -> (forall a s, m s = (Ok a, (m s).2) -> keeps P (f a)) -> keeps P (m ≫= f).
Proof.
  intros Hm Hf s Hs. specialize (Hm s Hs). specialize (Hf). unfold mbind, edit_bind.
  destruct (m s) as [[a|e|] s'] eqn:E; [|done..]. apply (Hf a s); [by rewrite E|done].
Qed.

Lemma keeps_value {S A B} (P : S -> Prop) (r : result A) (f : A -> edit S B) :
  (forall a, r = Ok a -> keeps P (f a)) -> keeps P (value r ≫= f).
Proof. intros Hf s Hs. unfold mbind, edit_bind, value. destruct r; [by apply Hf|done..]. Qed.

Lemma keeps_assign {S B} (P : S -> Prop) g (f : unit -> edit S B) :
  (forall s, P s -> P (g s)) -> keeps P (f tt) -> keeps P (assign g ≫= f).
Proof. intros Hg Hf s Hs. by apply Hf, Hg. Qed.

Lemma keeps_last {S} (P : S -> Prop) g : (forall s, P s -> P (g s)) -> keeps P (@assign S g).
Proof. intros Hg s Hs. by apply Hg. Qed.

Lemma keeps_ret {S A} (P : S -> Prop) (a : A) : keeps P (@mret (edit S) _ A a).
Proof. by intros s. Qed.
#[export] Hint Resolve keeps_ret keeps_last : core.

Lemma get_inv {A} j k (get : json -> result A) a :
  (at_key j k ≫= get) = Ok a -> exists v, at_key j k = Ok v /\ get v = Ok a.
Proof. unfold mbind, result_bind. destruct (at_key j k); [eauto|done..]. Qed.

(** One field: its value fits, so the event stays well typed. *)
Ltac field Hj := 
  let a := fresh "a" in let v := fresh "v" in let Hv := fresh "Hv" in let Ha := fresh "Ha" in
  apply keeps_value; intros a (v & Hv & Ha)%get_inv; apply (at_key_typed _ _ _ Hj) in Hv.

Lemma event_from_json_keeps j : typed j -> keeps event_typed (event_from_json j).
Proof.
  intros Hj. unfold event_from_json. 
  field Hj. apply keeps_assign; [intros s []; split; try done; cbn; by eapply from_string_typed|].
  field Hj. apply keeps_assign; [intros s []; split; try done; cbn; by eapply from_string_typed|].
  field Hj. apply keeps_assign; [intros s []; split; try done; cbn; by eapply from_int64_range|].
  field Hj. apply keeps_assign; [intros s []; split; try done; cbn; by eapply from_int_range|].
  field Hj. apply keeps_assign.
  { intros s []; split; try done; cbn. eapply from_array_forall; [|done..].
    intros j' l Hj' Hl. eapply from_array_forall; [|done..]. apply from_string_typed. }
  field Hj. apply keeps_assign; [intros s []; split; try done; cbn; by eapply from_string_typed|].
  field Hj. apply keeps_last. intros s []; split; try done; cbn; by eapply from_string_typed.
Qed.

(** ** Filters and their JSON *)

Record filter_typed (s : filter_t) : Prop := {
  typed_ids : Forall utf8 (ids s);
  typed_authors : Forall utf8 (authors s);
  typed_kinds : Forall (fun k => - 2 ^ 31 <= k < 2 ^ 31) (kinds s);
  typed_e : Forall utf8 (e_ s);
  typed_p : Forall utf8 (p_ s);
  typed_since : - 2 ^ 63 <= since s < 2 ^ 63;
  typed_until : - 2 ^ 63 <= until s < 2 ^ 63;
  typed_limit : 0 <= limit s < 2 ^ 64
}.

Definition some_strings (l : list (list Z)) : option json := if 0 <? len l then Some (strings l) else None.

(** The members of the object [to_json] makes. *)
Lemma filter_members s : exists m, filter_to_json JNull s false = Ok (JObject m) /\
  find (cs "ids") m = some_strings (ids s) /\ find (cs "authors") m = some_strings (authors s) /\
  find (cs "kinds") m = Some (JArray (map JInteger (kinds s))) /\
  find (cs "#e") m = some_strings (e_ s) /\ find (cs "#p") m = some_strings (p_ s) /\
  find (cs "since") m = None /\ find (cs "until") m = None /\ find (cs "limit") m = Some (JUnsigned (limit s)).
Proof.
  unfold filter_to_json, set_key_if, some_strings.
  destruct (0 <? len (ids s)), (0 <? len (authors s)), (0 <? len (e_ s)), (0 <? len (p_ s)); (eexists; split; [reflexivity|]; done).
Qed.

(** [j[key] = v] when both are well typed and without floating-point numbers. *)
Definition plain_json (j : json) : Prop := typed j /\ no_float j = true.

Lemma set_key_plain j k v j' : utf8 k -> plain_json v -> plain_json j -> set_key j k v = Ok j' -> plain_json j'.
Proof.
  intros Hk [Hv Nv] [Hj Nj] E. split; [by eapply set_key_typed; [..|exact E]|].
  destruct j; try done; injection E as <-; [by cbn; rewrite Nv|]. revert Nj. clear - Nv. cbn.
  induction m as [|[k1 v1] m IH]; cbn; [by rewrite Nv|]. intros [H1 Hm]%andb_true_iff.
  destruct (str_compare k k1); cbn; rewrite ?Nv, ?H1, ?Hm; try done. by apply IH.
Qed.

Lemma strings_plain l : Forall utf8 l -> plain_json (strings l).
Proof. intros Hl. split; [by apply typed_strings|apply strings_no_float]. Qed.

Lemma integers_plain l : Forall (fun k => - 2 ^ 31 <= k < 2 ^ 31) l -> plain_json (JArray (map JInteger l)).
Proof.
  intros Hl. split; [|by induction l as [|x l IH]; [|inversion Hl; auto]].
  apply typed_array, Forall_map. eapply Forall_impl; [exact Hl|]. intros x Hx. apply typed_integer. cbn in *. lia.
Qed.

Lemma set_key_if_plain b j k v : utf8 k -> plain_json v -> plain_json j -> forall j', set_key_if b j k v = Ok j' -> plain_json j'.
Proof. intros Hk Hv Hj j'. destruct b; [by apply set_key_plain|by intros [= <-]]. Qed.

Lemma result_bind_inv {A B} (r : result A) (f : A -> result B) b : (r ≫= f) = Ok b -> exists a, r = Ok a /\ f a = Ok b.
Proof. unfold mbind, result_bind. destruct r; [eauto|done..]. Qed.

Lemma filter_to_json_plain j s with_time j' : filter_typed s -> plain_json j -> filter_to_json j s with_time = Ok j' -> plain_json j'.
Proof.
  intros [] Hj E. unfold filter_to_json in E.
  repeat (apply result_bind_inv in E as (? & ?%set_key_if_plain & E) ||
          (apply result_bind_inv in E as (? & ?%set_key_plain & E));
    [|by apply ascii_utf8|first [by apply strings_plain|by apply integers_plain|split; [apply typed_integer; lia|done]]|done]).
  eapply set_key_plain; [..|exact E]; [by apply ascii_utf8| |done]. by split; [apply typed_unsigned|].
Qed.

Lemma find_canon k m : find k (map (fun kv => (kv.1, canon kv.2)) m) = canon <$> find k m.
Proof. induction m as [|[k1 v1] m IH]; [done|]. cbn. by destruct (str_compare k k1). Qed.

(** One field of [from_json], present or not. *)
Lemma get_to_some {S A} m k (get : json -> result A) (set : S -> A -> S) v a s :
  find k m = Some v -> get v = Ok a -> get_to (JObject m) k get set s = (Ok tt, set s a).
Proof. intros E Ea. unfold get_to, contains, at_key. rewrite E. unfold mbind, edit_bind, value, result_bind. by rewrite Ea. Qed.

Lemma get_to_none {S A} m k (get : json -> result A) (set : S -> A -> S) s :
  find k m = None -> get_to (JObject m) k get set s = (Ok tt, s).
Proof. intros E. unfold get_to, contains. by rewrite E. Qed.

(** An array of strings that is left out when it is empty. *)
Definition or_old {A} (new old : list A) : list A := if 0 <? len new then new else old.

Lemma get_to_strings {S} m k l (set : S -> list (list Z) -> S) (get : S -> list (list Z)) s :
  find k m = some_strings l -> (set s (get s)) = s ->
  get_to (JObject (map (fun kv => (kv.1, canon kv.2)) m)) k (from_json_array from_json_string) set s = (Ok tt, set s (or_old l (get s))).
Proof.
  intros E Eg. unfold or_old, some_strings in *. destruct (0 <? len l).
  - eapply get_to_some; [by rewrite find_canon, E|]. cbn [fmap option_fmap option_map]. rewrite canon_strings. apply from_strings.
  - rewrite get_to_none; [by rewrite Eg|]. by rewrite find_canon, E.
Qed.

Lemma from_canon_ints l :
  Forall (fun k => - 2 ^ 31 <= k < 2 ^ 31) l -> from_json_array from_json_int (canon (JArray (map JInteger l))) = Ok l.
Proof.
  intros Hl. cbn [canon]. rewrite map_map. apply transform_map. eapply Forall_impl; [exact Hl|]. intros. by apply from_canon_int.
Qed.

(** The filter a request carries to a receiver that starts from [s0]. *)
Definition received (s s0 : filter_t) : filter_t :=
  Filter_t (or_old (ids s) (ids s0)) (or_old (authors s) (authors s0)) (kinds s) (or_old (e_ s) (e_ s0)) (or_old (p_ s) (p_ s0))
    (since s0) (until s0) (limit s).

Lemma filter_from_to s s0 j : filter_typed s -> filter_to_json JNull s false = Ok j ->
  filter_from_json (canon j) s0 = (Ok tt, received s s0).
Proof.
  intros Hs. destruct (filter_members s) as (m & -> & Hi & Ha & Hk & He & Hp & Hsi & Hu & Hl). intros [= <-].
  destruct s0 as [i0 a0 k0 e0 p0 s0 u0 l0]. unfold filter_from_json, mbind, edit_bind. cbn [canon].
  rewrite (get_to_strings m _ _ _ ids _ Hi) by done. rewrite (get_to_strings m _ _ _ authors _ Ha) by done.
  erewrite get_to_some; [|by rewrite find_canon, Hk|by apply from_canon_ints, typed_kinds].
  rewrite (get_to_strings m _ _ _ e_ _ He) by done. rewrite (get_to_strings m _ _ _ p_ _ Hp) by done.
  rewrite get_to_none by (by rewrite find_canon, Hsi). rewrite get_to_none by (by rewrite find_canon, Hu).
  erewrite get_to_some; [|by rewrite find_canon, Hl|].
  2: { cbn. rewrite wrap_id; [done|]. by apply typed_limit. }
  done.
Qed.

(** ** Messages read back *)

Section Messages.
Context `{Floats}.

Lemma dump_reads j : plain_json j -> exists t, dump None j = Ok t /\ parse t = Ok (canon j).
Proof. intros []. by apply dump_parse_spec, narrow_none. Qed.

Lemma string_plain s : utf8 s -> plain_json (JString s).
Proof. intros Hs. split; [by constructor|done]. Qed.

Lemma array_plain l : Forall plain_json l -> plain_json (JArray l).
Proof.
  intros Hl. split; [constructor; eapply Forall_impl; [exact Hl|]; by intros ? []|].
  cbn. apply forallb_forall. intros j Hj. rewrite List.Forall_forall in Hl. by apply Hl.
Qed.

Lemma event_plain s : event_typed s -> plain_json (event_object s).
Proof. intros Hs. split; [by apply event_object_typed|apply event_object_no_float]. Qed.

Lemma client_event_object t j s r :
  parse t = Ok (JArray [JString (cs "EVENT"); j]) -> event_from_json j s = r ->
  client_event t s = match r with (Ok _, s') => (Ok 0, s') | (Throw e, s') => (Throw e, s') | (Ub, s') => (Ub, s') end.
Proof. intros Hp <-. unfold client_event. unfold mbind, edit_bind, value. by rewrite Hp. Qed.

Lemma parse_client_reads t s ev0 w :
  event_typed s -> parse t = Ok (canon (JArray [JString (cs "EVENT"); event_object s])) ->
  parse_client_event t ev0 w = (Returned (inr (0, s)), w).
Proof.
  intros Hs Hp. unfold parse_client_event, attempt.
  by rewrite (client_event_object t _ ev0 _ Hp (event_from_object s ev0 Hs)).
Qed.

Lemma subscribed_reads {T} type_ from_json t sub j s (s' : T) sub0 :
  parse t = Ok (JArray [JString type_; JString sub; j]) -> from_json j s = (Ok tt, s') ->
  subscribed type_ from_json t (sub0, s) = (Ok 0, (sub, s')).
Proof.
  intros Hp Hj. unfold subscribed, mbind, edit_bind, value. rewrite Hp.
  change (message_type _) with (Ok type_). cbv iota beta. rewrite decide_True by done.
  change (at_index (JArray [JString type_; JString sub; j]) 2) with (Ok j).
  cbn [at_index lookup list_lookup result_bind from_json_string on_fst assign on_snd]. by rewrite Hj.
Qed.

Lemma make_request_reads sub f w : utf8 sub -> filter_typed f -> exists t j, filter_to_json JNull f false = Ok j /\
  make_request sub f w = (Returned (inr t), w) /\ parse t = Ok (JArray [JString (cs "REQ"); JString sub; canon j]).
Proof.
  intros Hsub Hf. destruct (filter_members f) as (m & E & _). 
  destruct (dump_reads (JArray [JString (cs "REQ"); JString sub; JObject m])) as (t & Et & Hp).
  - apply array_plain. repeat apply Forall_cons_2; try apply Forall_nil_2; [by apply string_plain, ascii_utf8|by apply string_plain|].
    eapply filter_to_json_plain; [done| |exact E]. by split; [constructor|].
  - exists t, (JObject m). split_and!; [done| |done]. unfold make_request, try_catch. rewrite E, of_result_ok, Et. done.
Qed.
End Messages.

(** ** [make_event] *)

(** *** The event it is to publish *)

Section Expected.
Context `{Secp256k1}.

(** The next answer of the system to a request for 32 bytes. *)
Definition draw (e : list (option (list Z))) : option (list Z) * list (option (list Z)) :=
  match e with
  | [] => (None, [])
  | None :: e => (None, e)
  | Some d :: e => (if len d =? 32 then Some d else None, e)
  end.

(** 64 hexadecimal digits. *)
Definition unhex (t : list Z) : option (list Z) :=
  let '(ok, s) := hex_decode t (repeat 0 32) in if ok =? 0 then None else Some s.

(** The secret key: the given one, or random bytes. *)
Definition secret_of (seckey : option (list Z)) (e : list (option (list Z))) : option (list Z) * list (option (list Z)) :=
  match seckey with Some sec => (unhex (c_str sec), e) | None => draw e end.

Definition key_of (s : list Z) : option (keypair * list Z) :=
  pk ← public_key s; kp ← keypair_create s; Some (kp, pk).

(** The event of the C library for [ev], signed: its content ends at a NUL, it
    has no tags, and its id is the digest of its NIP-01 text while the time has
    at most 15 digits.  There is none when the system gives no random bytes,
    the context or the secret key is refused, the text fills the buffer, or the
    library does not sign. *)
Definition expected (ev : event_t) (seckey : option (list Z)) (e : list (option (list Z))) : option nostr_event :=
  let '(r, e) := draw e in
  r ← r;
  if context_randomize r then
    let '(sec, e) := secret_of seckey e in
    '(kp, pk) ← sec ≫= key_of;
    let nev i sg := Event i pk sg (c_str (content ev)) (u64 (created_at ev)) (kind ev) None [] in
    let unsigned := nev (repeat 0 32) (repeat 0 64) in
    let text := if u64 (created_at ev) <? 10 ^ 15 then nip01 unsigned else truncated unsigned in
    if len text <? 102400 then
      sg ← (draw e).1 ≫= schnorrsig_sign32 (Spec.sha256 text) kp;
      Some (nev (Spec.sha256 text) sg)
    else None
  else None.
End Expected.

Section Making.
Context `{Floats} `{Secp256k1Laws} (junk : Z).

Lemma run_bind {A B} (m : proc A) (f : A -> cpp B) w a p :
  m (process w) = (Returned a, p) -> (run m ≫= f) w = f a (CC p (files w) (journal w) (drawn w)).
Proof using Type. intros E. unfold mbind, cpp_bind, run. by rewrite E. Qed.

Lemma fill_random_draw p :
  let '(r, e) := draw (entropy p) in fill_random 32 p = (Returned r, World (errno p) e (Process.log p)).
Proof using Type. destruct p as [e [|[d|] rest] l]; [done| |done]. cbn. by destruct (len d =? 32). Qed.

Lemma run_lift {A B} (a : A) (f : A -> cpp B) w : (run (lift (Some a)) ≫= f) w = f a w.
Proof using Type. by destruct w. Qed.

Lemma c_str_Bytes s : Bytes s -> Bytes (c_str s).
Proof using Type. induction 1 as [|c s Hc _ IH]; [constructor|]. cbn. destruct (c =? 0); [constructor|by constructor]. Qed.

Lemma c_str_len s : len (c_str s) <= len s.
Proof using Type. induction s as [|c s IH]; [done|]. cbn [c_str]. destruct (c =? 0); len_lia. Qed.

Lemma c_str_nul a b : Forall (fun c => c <> 0) a -> c_str (a ++ 0 :: b) = a.
Proof using Type. induction 1 as [|c a Hc _ IH]; [done|]. cbn. destruct (Z.eqb_spec c 0); [done|]. by rewrite IH. Qed.

Lemma c_str_id a : Forall (fun c => c <> 0) a -> c_str a = a.
Proof using Type. induction 1 as [|c a Hc _ IH]; [done|]. cbn. destruct (Z.eqb_spec c 0); [done|]. by rewrite IH. Qed.

Lemma hex_text_ascii b : Bytes b -> Forall (fun c => 48 <= c <= 102) (hex_text b).
Proof using Type.
  induction 1 as [|c b Hc _ IH]; [constructor|]. unfold hex_text in *. cbn. destruct Hc as [? Hc]. change (2 ^ 8) with 256 in Hc.
  repeat constructor; try done; unfold Hex.hex_digit; case_match; dlia.
Qed.

Lemma hex_text_utf8 b : Bytes b -> utf8 (hex_text b).
Proof using Type.
  intros Hb. apply ascii_utf8, forallb_forall. intros c Hc. pose proof (hex_text_ascii b Hb) as Hh.
  rewrite List.Forall_forall in Hh. specialize (Hh c Hc). unfold between. cbn in Hh. lia.
Qed.

Lemma encode_bind {B} b what (f : option (list Z) -> cpp B) w :
  Bytes b -> len b < 2 ^ 32 -> (encode junk b what ≫= f) w = f (Some (hex_text b)) w.
Proof using Type.
  intros Hb Hl. unfold encode. unfold mbind at 1, cpp_bind at 1.
  rewrite (run_bind _ _ w (1, hex_text b ++ 0 :: drop (2 * length b + 1) (uninit junk (2 * len b + 1))) (process w)).
  - change (1 <? 0) with false. cbv iota. rewrite c_str_nul; [by destruct w|].
    eapply Forall_impl; [by apply hex_text_ascii|]. cbn. lia.
  - rewrite hex_encode_text; [done|done|lia|]. unfold uninit. rewrite len_repeat. pose proof (len_nonneg b). lia.
Qed.

Lemma event_key_spec seckey w :
  let '(sec, e) := secret_of seckey (entropy (process w)) in
  exists o w', event_key junk seckey w = (Returned (inr o), w') /\ files w' = files w /\ entropy (process w') = e /\
    match sec ≫= key_of with
    | None => o = None
    | Some (kp, pk) => exists s, sec = Some s /\ o = Some (Key (Some kp) s pk)
    end.
Proof using Type.
  assert (Hc : forall s, match key_of s with
    | Some (kp, pk) => create_key (Key None s (uninit junk 32)) = (1, Key (Some kp) s pk)
    | None => exists k', create_key (Key None s (uninit junk 32)) = (0, k') end).
  { intros s. pose proof (create_key_spec (Key None s (uninit junk 32))) as Hc. unfold key_of. cbn [secret] in Hc.
    destruct (public_key s) as [pk|]; [|done]. destruct Hc as (kp & -> & E). by rewrite !bind_some. }
  unfold event_key, secret_of. destruct seckey as [sec|].
  - unfold decode_key, unhex. cbn [secret pair key_pubkey].
    destruct (hex_decode_fills (c_str sec) (uninit junk 32) (repeat 0 32)) as [Hf Hs]; [done|].
    destruct (hex_decode (c_str sec) (uninit junk 32)) as [ok h], (hex_decode (c_str sec) (repeat 0 32)) as [ok' h'].
    cbn [fst snd] in *. subst ok'. destruct (Z.eqb_spec ok 0) as [->|Hok]; [by eexists _, _|].
    rewrite (Hs Hok), bind_some. specialize (Hc h'). destruct (key_of h') as [[kp pk]|].
    + rewrite (run_bind _ _ w (1, Key (Some kp) h' pk) (process w)) by (cbn; by rewrite Hc). by repeat eexists.
    + destruct Hc as [k' Hc]. rewrite (run_bind _ _ w (0, k') (process w)) by (cbn; by rewrite Hc). by repeat eexists.
  - pose proof (fill_random_draw (process w)) as Er. destruct (draw (entropy (process w))) as [r e].
    assert (Eg : generate_key 0 (Key None (uninit junk 32) (uninit junk 32)) None (process w) =
      (Returned (from_option (fun s => create_key (Key None s (uninit junk 32))) (0, Key None (uninit junk 32) (uninit junk 32)) r),
       World (errno (process w)) e (Process.log (process w)))).
    { unfold generate_key. rewrite (bind_returned _ _ _ _ _ Er). by destruct r. }
    rewrite (run_bind _ _ _ _ _ Eg). clear Eg Er. destruct r as [s|]; cbn [from_option]; [|by repeat eexists].
    rewrite bind_some. specialize (Hc s). destruct (key_of s) as [[kp pk]|]; [rewrite Hc|destruct Hc as [k' ->]]; by repeat eexists.
Qed.

Lemma sign_event_draw k kp ev p :
  pair k = Some kp ->
  exists p', sign_event k ev p =
    (Returned match (draw (entropy p)).1 ≫= schnorrsig_sign32 (Event.id ev) kp with
              | Some sg => (1, Keys.set_sig ev sg)
              | None => (0, ev)
              end, p').
Proof using Type.
  intros Hp. unfold sign_event, make_sig. pose proof (fill_random_draw p) as Er.
  destruct (draw (entropy p)) as [aux e]. cbn [fst].
  destruct aux as [aux|].
  - rewrite (bind_returned _ _ _ (schnorrsig_sign32 (Event.id ev) kp aux) (World (errno p) e (Process.log p))).
    + rewrite bind_some. destruct (schnorrsig_sign32 _ _ _); by eexists.
    + rewrite (bind_returned _ _ _ _ _ Er). by rewrite Hp.
  - rewrite (bind_returned _ _ _ None (World (errno p) e (Process.log p))); [by eexists|].
    by rewrite (bind_returned _ _ _ _ _ Er).
Qed.

(** What [make_event] publishes: the event of the C library, which is valid, in
    hexadecimal, with the tags of [ev] beside it. *)
Definition published (ev : event_t) (nev : nostr_event) : event_t :=
  Event_t (hex_text (Event.id nev)) (hex_text (Event.pubkey nev)) (created_at ev) (kind ev) (tags ev) (content ev)
    (hex_text (Event.sig nev)).

Lemma published_typed ev nev : event_typed ev -> event_ok nev -> event_typed (published ev nev).
Proof using Type. intros [] []. split; try done; apply hex_text_utf8; tauto. Qed.

Lemma nev_ok ev k : event_typed ev -> len (content ev) < 2 ^ 31 -> key_ok k -> event_ok (nev_of ev k).
Proof using H1.
  intros [] Hl Hk. split; cbn [Event.id Event.pubkey Event.sig Event.content Event.created_at Event.kind Event.explicit_tags Event.tags nev_of].
  - by_compute.
  - by apply key_ok_bytes.
  - by_compute.
  - split; [by apply c_str_Bytes, utf8_Bytes|]. pose proof (c_str_len (content ev)). lia.
  - exact I.
  - constructor.
  - by apply in_width_wrap.
  - done.
Qed.

(** The last part: the three fields in hexadecimal and the message. *)
Lemma make_event_message ev nev w :
  event_typed ev -> event_ok nev ->
  exists t,
    (id ← encode junk (Event.id nev) (cs "id");
     pubkey ← (match id with Some _ => encode junk (Event.pubkey nev) (cs "pubkey") | None => mret None end);
     sig ← (match pubkey with Some _ => encode junk (Event.sig nev) (cs "signature") | None => mret None end);
     match id, pubkey, sig with
     | Some id, Some pubkey, Some sig =>
         let ev := set_sig (set_id (set_pubkey ev pubkey) id) sig in
         js ← of_result (event_to_json JNull ev);
         json ← of_result (dump None (JArray [JString (cs "EVENT"); js]));
         mret (json, ev)
     | _, _, _ => mret ([], ev)
     end) w = (Returned (inr (t, published ev nev)), w) /\
    parse t = Ok (canon (JArray [JString (cs "EVENT"); event_object (published ev nev)])).
Proof using Type.
  intros Hev Hn.
  rewrite encode_bind; [|apply (ok_id _ Hn)|unfold len; rewrite (proj2 (ok_id _ Hn)); lia].
  rewrite encode_bind; [|apply (ok_pubkey _ Hn)|unfold len; rewrite (proj2 (ok_pubkey _ Hn)); lia].
  rewrite encode_bind; [|apply (ok_sig _ Hn)|unfold len; rewrite (proj2 (ok_sig _ Hn)); lia].
  change (set_sig (set_id (set_pubkey ev _) _) _) with (published ev nev). cbv zeta.
  rewrite event_to_json_object, of_result_ok.
  destruct (dump_reads (JArray [JString (cs "EVENT"); event_object (published ev nev)])) as (t & Et & Hp).
  { apply array_plain. repeat apply Forall_cons_2; try apply Forall_nil_2; [by apply string_plain, ascii_utf8|].
    by apply event_plain, published_typed. }
  rewrite Et, of_result_ok. by exists t.
Qed.

(** A run without the message. *)
Definition silent (ev : event_t) (seckey : option (list Z)) (w : cc) : Prop :=
  exists w', make_event junk ev seckey w = (Returned (inr ([], ev)), w') /\ files w' = files w.

Lemma make_event_exact ev seckey w :
  event_typed ev -> len (content ev) < 2 ^ 31 ->
  match expected ev seckey (entropy (process w)) with
  | None => silent ev seckey w
  | Some nev => exists t w' k, make_event junk ev seckey w = (Returned (inr (t, published ev nev)), w') /\
      files w' = files w /\ key_ok k /\ valid_event nev /\ commitment nev = commitment (nev_of ev k) /\
      Event.pubkey nev = key_pubkey k /\ Event.created_at nev = u64 (created_at ev) /\
      parse t = Ok (canon (JArray [JString (cs "EVENT"); event_object (published ev nev)]))
  end.
Proof using All.
  intros Hev Hl. unfold expected, silent, make_event. pose proof (fill_random_draw (process w)) as Er.
  destruct (draw (entropy (process w))) as [r e]. set (p := World _ _ _) in Er.
  assert (Ei : init_secp_context (process w) = (Returned (from_option (fun r => Z.b2z (context_randomize r)) 0 r), p)).
  { unfold init_secp_context. rewrite (bind_returned _ _ _ _ _ Er). by destruct r. }
  rewrite (run_bind _ _ _ _ _ Ei). destruct r as [r|]; cbn [from_option]; [rewrite bind_some|by eexists].
  destruct (context_randomize r); [|by eexists]. change (Z.b2z true =? 0) with false. cbv iota.
  pose proof (event_key_spec seckey (CC p (files w) (journal w) (drawn w))) as Hk.
  change (entropy (process (CC p (files w) (journal w) (drawn w)))) with e in Hk. cbn [files] in Hk.
  destruct (secret_of seckey e) as [sec e1]. destruct Hk as (o & w1 & Ek & Hf & He & Ho).
  rewrite (cpp_returned _ _ _ _ _ Ek).
  destruct (sec ≫= key_of) as [[kp pk]|] eqn:Es; [|subst o; by eexists]. destruct Ho as (s & -> & ->).
  rewrite bind_some. cbv zeta.
  assert (Hk : key_ok (Key (Some kp) s pk)).
  { rewrite bind_some in Es. unfold key_of in Es. destruct (public_key s) as [pk'|] eqn:Ep; [|done].
    destruct (keypair_create s) as [kp'|] eqn:Ec; [|done]. injection Es as -> ->. by exists kp. }
  set (k := Key (Some kp) s pk) in *. pose proof (nev_ok ev k Hev Hl Hk) as Hn.
  destruct (generate_event_id_spec (nev_of ev k) (repeat 0 (Z.to_nat 102400)) Hn) as (buf' & Eg & _).
  { rewrite len_repeat. by rewrite Z2Nat.id. }
  change (if u64 (created_at ev) <? 10 ^ 15 then _ else _) with (commitment (nev_of ev k)).
  destruct (len (commitment (nev_of ev k)) <? 102400); rewrite Eg, run_lift; [|by eexists].
  change (1 =? 0) with false. cbv iota. set (i := Spec.sha256 (commitment (nev_of ev k))).
  destruct (sign_event_draw k kp (Event.set_id (nev_of ev k) i) (process w1) eq_refl) as (p2 & Eq).
  rewrite He in Eq. change (Event.id (Event.set_id _ i)) with i in Eq. rewrite (run_bind _ _ _ _ _ Eq).
  destruct ((draw e1).1 ≫= schnorrsig_sign32 i kp) as [sg|] eqn:Esg; [|by eexists]. rewrite bind_some.
  destruct (draw e1).1 as [aux|]; [|done]. destruct Hk as (kp' & Hkp & Hc & Hpk). injection Hkp as <-.
  destruct (sign_bytes _ _ _ _ Esg) as [Hsb Hsl]. set (nev := Keys.set_sig (Event.set_id (nev_of ev k) i) sg).
  assert (Hn2 : event_ok nev) by (apply set_sig_ok; [destruct Hn; split; try done; apply sha256_digest|done]).
  destruct (make_event_message ev nev (CC p2 (files w1) (journal w1) (drawn w1)) Hev Hn2) as (t & Em & Hp).
  exists t. eexists. exists k. split; [exact Em|]. split; [done|]. split; [by exists kp|].
  split; [split; [exact Hn2|]; split; [done|]|done]. by eapply sign_verifies.
Qed.

(** What the rest of the development uses of it. *)
Lemma make_event_returns ev seckey w :
  event_typed ev -> len (content ev) < 2 ^ 31 ->
  exists t ev' w', make_event junk ev seckey w = (Returned (inr (t, ev')), w') /\ files w' = files w /\
    ((t = [] /\ ev' = ev) \/
     exists nev k, key_ok k /\ valid_event nev /\ ev' = published ev nev /\
       commitment nev = commitment (nev_of ev k) /\ Event.pubkey nev = key_pubkey k /\
       parse t = Ok (canon (JArray [JString (cs "EVENT"); event_object ev']))).
Proof using All.
  intros Hev Hl. pose proof (make_event_exact ev seckey w Hev Hl) as Hx.
  destruct (expected _ _ _) as [nev|].
  - destruct Hx as (t & w' & k & E & Hf & ?). exists t, (published ev nev), w'. split; [done|]. split; [done|]. right.
    exists nev, k. tauto.
  - destruct Hx as (w' & E & Hf). exists [], ev, w'. auto.
Qed.
End Making.

(** ** Identifiers *)

Definition upper_hex (c : Z) : bool := between 48 57 c || between 65 70 c.
Definition variant (c : Z) : bool := existsb (Z.eqb c) (cs "89AB").

(** A text of the form of a pattern, in which x is any digit and y a variant. *)
Fixpoint fits (pattern u : list Z) : bool :=
  match pattern, u with
  | [], [] => true
  | p :: pattern, c :: u =>
      (if p =? 120 then upper_hex c else if p =? 121 then variant c else c =? p) && fits pattern u
  | _, _ => false
  end.

(** The form of RFC 4122, version 4. *)
Definition uuid_v4 (u : list Z) : bool := fits (cs "xxxxxxxx-xxxx-4xxx-yxxx-xxxxxxxxxxxx") u.

Lemma toupper_hex v : 0 <= v <= 15 -> upper_hex (toupper (Hex.hex_digit v)) = true.
Proof. intros Hv. unfold upper_hex, toupper, Hex.hex_digit, between. repeat case_match; lia. Qed.

Lemma toupper_variant v : 8 <= v <= 11 -> variant (toupper (Hex.hex_digit v)) = true.
Proof. intros Hv. assert (v = 8 \/ v = 9 \/ v = 10 \/ v = 11) as [-> |[-> |[-> | ->]]] by lia; reflexivity. Qed.

Lemma uuid_utf8 `{Random} w : exists u w', generate_uuid_v4 w = (Returned (inr u), w') /\ utf8 u.
Proof.
  eexists _, _. split; [reflexivity|]. apply ascii_utf8. unfold hex_numbers. set (i := drawn w). clearbody i.
  assert (Hhex : forall v, 0 <= v <= 15 -> between 0 127 (toupper (Hex.hex_digit v)) = true).
  { intros v Hv. pose proof (toupper_hex v Hv) as Hu. unfold upper_hex, between in *. lia. }
  assert (Hvar : forall n, between 0 127 (toupper (Hex.hex_digit (dis2 n))) = true).
  { intros n. apply Hhex. pose proof (dis2_range n). lia. }
  rewrite !map_app, !map_map. cbv -[toupper Hex.hex_digit dis dis2 between Nat.add].
  rewrite !Hvar, !Hhex by apply dis_range. reflexivity.
Qed.

(** ** Properties *)

(** [make_request] serialises every well-typed filter, and
    [parse_request] reads the subscription and the filter back, except that
    the times are not sent: the reader keeps its own [since] and [until], and
    its own lists where the sent ones are empty. *)
Theorem request_round_trip `{Floats} (sub : list Z) (f f0 : filter_t) (rid : list Z) (w w' : cc)
    (Hsub : utf8 sub) (Hf : filter_typed f) :
  exists t, make_request sub f w = (Returned (inr t), w) /\
    parse_request t rid f0 w' = (Returned (inr (0, (sub, received f f0))), w').
Proof.
  destruct (make_request_reads sub f w Hsub Hf) as (t & j & Ej & Er & Hp). exists t. split; [done|].
  unfold parse_request, attempt.
  by rewrite (subscribed_reads (cs "REQ") filter_from_json t sub _ f0 _ rid Hp (filter_from_to f f0 j Hf Ej)).
Qed.

Lemma request_round_trip_witness :
  let f := Filter_t [] [cs "ab"] [1] [] [] 0 1700000000 2 in let w := CC (World 0 [] []) ∅ [] 0 in
  exists t, make_request (H := zero_floats) (cs "sub") f w = (Returned (inr t), w) /\
    parse_request (H := zero_floats) t [] (filter_new 5) w = (Returned (inr (0, (cs "sub", received f (filter_new 5)))), w).
Proof.
  intros f w. apply (request_round_trip (H := zero_floats) (cs "sub") f (filter_new 5) [] w w); [by apply ascii_utf8|].
  split; cbn; try lia; repeat constructor; try lia. by apply ascii_utf8.
Defined.

(** C14: [make_event] always returns, and [expected] says what: when it names an
    event (random bytes come, the context and the secret key are accepted, the
    text is shorter than the buffer, the library signs), the message is read by
    [parse_client_event] as the given event with the key, id and signature of
    that event filled in, and the event is valid: its signature verifies and its
    id is the digest of its NIP-01 text while the time has at most 15 digits.
    But it has no tags and a content that ends at a NUL: when the given event has
    tags, no event with these tags has the NIP-01 text that was hashed.  When
    [expected] names none, the message is empty and the event is unchanged. *)
Theorem make_event_publishes `{Floats} `{Secp256k1Laws} (junk : Z) (ev : event_t) (seckey : option (list Z)) (w : cc)
    (Hev : event_typed ev) (Hl : len (content ev) < 2 ^ 31) :
  match expected ev seckey (entropy (process w)) with
  | None => exists w', make_event junk ev seckey w = (Returned (inr ([], ev)), w')
  | Some nev => exists t w', make_event junk ev seckey w = (Returned (inr (t, published ev nev)), w') /\
      valid_event nev /\
      (forall ev0 w0, parse_client_event t ev0 w0 = (Returned (inr (0, published ev nev)), w0)) /\
      (tags ev <> [] -> 0 <= created_at ev < 10 ^ 15 -> forall full, event_ok full -> Event.explicit_tags full = None ->
         Event.created_at full = created_at ev -> Event.tags full = tags ev -> nip01 full <> nip01 nev)
  end.
Proof.
  pose proof (make_event_exact junk ev seckey w Hev Hl) as Hx. unfold silent in Hx.
  destruct (expected _ _ _) as [nev|]; [|destruct Hx as (w' & Hx & _); by exists w'].
  destruct Hx as (t & w' & k & E & _ & Hk & Hv & Hc & _ & Hct & Hp). exists t, w'. split; [done|]. split; [done|]. split.
  - intros. apply parse_client_reads; [|done]. apply published_typed; [done|apply Hv].
  - intros Ht Ha full Hf Hx Hfc Hft Hcm. pose proof (nev_ok ev k Hev Hl Hk) as Hn.
    assert (Hu : u64 (created_at ev) = created_at ev) by (apply wrap_id; split; lia).
    assert (Hcf : commitment full = commitment (nev_of ev k)).
    { rewrite <- Hc. unfold commitment. rewrite Hfc, Hct, Hu. by destruct (Z.ltb_spec (created_at ev) (10 ^ 15)); [|lia]. }
    destruct (commitment_determines full (nev_of ev k) Hf Hn Hx eq_refl ltac:(lia) ltac:(cbn; lia) Hcf) as (_ & _ & _ & Htags & _).
    rewrite Hft in Htags. by apply Ht.
Qed.

Definition tagged : event_t := Event_t [] [] 1700000000 1 [[cs "t"; cs "x"]] (cs "hello") [].

Lemma make_event_publishes_witness :
  let w := CC (World 0 [Some (repeat 1 32); Some (repeat 2 32)] []) ∅ [] 0 in
  exists nev, expected (H := Toy.lib) tagged (Some (hex_text alice)) (entropy (process w)) = Some nev /\
    exists t w', make_event (H := zero_floats) (H0 := Toy.lib) 0 tagged (Some (hex_text alice)) w =
        (Returned (inr (t, published tagged nev)), w') /\
      valid_event (H := Toy.lib) nev /\
      (forall ev0 w0, parse_client_event (H := zero_floats) t ev0 w0 = (Returned (inr (0, published tagged nev)), w0)) /\
      (tags tagged <> [] -> 0 <= created_at tagged < 10 ^ 15 -> forall full, event_ok full -> Event.explicit_tags full = None ->
         Event.created_at full = created_at tagged -> Event.tags full = tags tagged -> nip01 full <> nip01 nev).
Proof.
  intros w.
  assert (Hev : event_typed tagged).
  { split; cbn; try lia; try by apply ascii_utf8. repeat constructor; by apply ascii_utf8. }
  pose proof (make_event_publishes (H := zero_floats) (H1 := Toy.lib_laws) 0 tagged (Some (hex_text alice)) w Hev eq_refl) as Hx.
  assert (Hs : is_Some (expected (H := Toy.lib) tagged (Some (hex_text alice)) (entropy (process w))))
    by (vm_compute; by eexists).
  destruct Hs as [nev Hs]. exists nev. split; [exact Hs|]. by rewrite Hs in Hx.
Defined.

(** [generate_uuid_v4] makes an identifier of the form
    xxxxxxxx-xxxx-4xxx-yxxx-xxxxxxxxxxxx, in upper-case hexadecimal with y one of
    8, 9, A and B, whatever numbers are drawn. *)
Theorem uuid_format `{Random} (w : cc) :
  exists u w', generate_uuid_v4 w = (Returned (inr u), w') /\ uuid_v4 u = true /\ drawn w' = (drawn w + 31)%nat.
Proof.
  eexists _, _. split; [reflexivity|]. split; [|done].
  unfold uuid_v4, hex_numbers. set (i := drawn w). clearbody i. rewrite !map_app, !map_map. cbv -[toupper Hex.hex_digit dis dis2 upper_hex variant Nat.add].
  rewrite !toupper_hex by apply dis_range. rewrite toupper_variant by apply dis2_range. reflexivity.
Qed.
