(* ===== verification/Relay.v ===== *)
(** * The relay: [src/database.cc], [src/relay.cc], [src/wss_relay.cc]

    A relay keeps the events in memory ([relay_t]) and in the file
    [database.json]; it answers one message after the other on one thread.  The
    abstract relay ([spec_state], [respond]) is two lists of events and the
    message as a JSON value; the theorems say that the program refines it, with
    its files and JSON texts, and what becomes of published events. *)
From stdpp Require Import gmap.
From S2P Require Import Prelude Hex Process Event Keys Dm Gnostr Json JsonParse JsonSpec JsonGrammar JsonRound Comm Client.

Definition database_json : list Z := cs "database.json".

Section Database.
Context `{Floats} `{Disk} (now : Z).

(** ** [database.cc] *)

Definition read : cpp (list event_t) :=
  try_catch
    (ifs ← read_file database_json;
     js_database ← of_result (parse ifs);
     of_result (from_json_array (get_event now) js_database))
    (fun e => _ ← log_what e; mret []).

(** A vector of events as JSON. *)
Definition to_json (database : list event_t) : result json :=
  l ← mapM (event_to_json JNull) database; Ok (JArray l).

(** The statements that serialise and write the file. *)
Definition write_database (database : list event_t) : cpp Z :=
  js_database ← of_result (to_json database);
  json ← of_result (dump (Some 2) js_database);
  _ ← write_file database_json json;
  mret 0.

Definition save (database : list event_t) : cpp Z :=
  try_catch (write_database database) (fun e => _ ← log_what e; mret (-1)).

Definition append (events : list event_t) : cpp Z :=
  try_catch
    (database ← read; write_database (database ++ events))
    (fun e => _ ← log_what e; mret (-1)).

(** The loop over the authors: whether it takes the event. *)
Definition matches (filter : filter_t) (ev : event_t) : bool :=
  existsb (fun author => bool_decide (pubkey ev = author)) (authors filter).

Definition request (filter : filter_t) : cpp (list event_t) :=
  try_catch
    (database ← read; mret (List.filter (matches filter) database))
    (fun e => _ ← log_what e; mret []).

(** ** [relay.cc] *)

(** The constructor: the events in memory. *)
Definition relay_t : cpp (list event_t) := read.

Definition publish (msg : list Z) (database : list event_t) : cpp (list Z * list event_t) :=
  '(_, ev) ← parse_client_event msg (event_new now);
  let database := database ++ [ev] in
  _ ← append database;
  json ← of_result (dump None (JArray [JString (cs "EOSE"); JString (id ev)]));
  mret (json, database).

Definition query (msg : list Z) (database : list event_t) : cpp (list Z * list event_t) :=
  '(_, (request_id, filter)) ← parse_request msg [] (filter_new now);
  events ← request filter;
  js ← of_result
    (match events with
     | ev :: _ => j ← event_to_json JNull ev; Ok (JArray [JString (cs "EVENT"); JString request_id; j])
     | [] => Ok (JArray [JString (cs "EOSE"); JString request_id])
     end);
  json ← of_result (dump None js);
  mret (json, database).

Definition make_response (msg : list Z) (database : list event_t) : cpp (list Z * list event_t) :=
  _ ← json_to_file (cs "relay_message.json") msg;
  type ← get_message_type msg;
  '(json, database) ←
    match type with
    | EVENT => publish msg database
    | REQ => query msg database
    | _ => json ← of_result (dump None (JArray [JString (cs "NOTICE"); JString (cs "Error")])); mret (json, database)
    end;
  _ ← json_to_file (cs "relay_response.json") json;
  mret (json, database).

(** ** [wss_relay.cc] *)

(** [connection] is its address as a text. *)
Definition on_message (connection msg : list Z) (database : list event_t) : cpp (list Z * list event_t) :=
  _ ← log (cs "Server: Message received: " ++ [quote] ++ msg ++ [quote] ++ cs " from " ++ connection);
  make_response msg database.

Definition on_open (connection : list Z) : cpp unit := log (cs "Opened connection: " ++ connection).
Definition on_close (connection : list Z) (status : Z) : cpp unit :=
  log (cs "Closed connection: " ++ connection ++ cs " code " ++ fmt_int status).
Definition on_error (connection what : list Z) : cpp unit :=
  log (cs "Error: " ++ connection ++ cs ". " ++ what ++ [10]).

(** [main] up to the messages: the relay of the database, and the server on [port]. *)
Definition start (port : Z) : cpp (list event_t) :=
  database ← relay_t; _ ← log (cs "Listening on port: " ++ fmt_u64 port); mret database.
End Database.

(** ** The abstract relay *)

(** What the file holds: an unreadable file holds nothing. *)
Definition load `{Floats} (now : Z) (bytes : list Z) : result (list event_t) :=
  match parse bytes with
  | Ok j => match from_json_array (get_event now) j with Ok l => Ok l | Throw _ => Ok [] | Ub => Ub end
  | Throw _ => Ok []
  | Ub => Ub
  end.

Record spec_state := Spec_state { memory : list event_t; stored : list event_t }.

(** A published event, from the message as JSON: what [from_json] leaves of a new
    event. *)
Definition event_of (now : Z) (msg : json) : result event_t :=
  match at_index msg 1 with
  | Ok j => match event_from_json j (event_new now) with (Ub, _) => Ub | (_, ev) => Ok ev end
  | _ => Ok (event_new now)
  end.

Definition filter_of (now : Z) (msg : json) : result (list Z * filter_t) :=
  match at_index msg 1 ≫= from_json_string with
  | Ok sub =>
      match at_index msg 2 with
      | Ok j => match filter_from_json j (filter_new now) with (Ub, _) => Ub | (_, f) => Ok (sub, f) end
      | _ => Ok (sub, filter_new now)
      end
  | _ => Ok ([], filter_new now)
  end.

(** The answer, a JSON array, and the new state. *)
Definition respond `{Floats} (now : Z) (msg : list Z) (s : spec_state) : result (json * spec_state) :=
  match (j ← parse msg; t ← message_type j; Ok (j, t)) with
  | Ok (j, t) =>
      if decide (t = cs "EVENT") then
        ev ← event_of now j;
        let memory := memory s ++ [ev] in
        Ok (JArray [JString (cs "EOSE"); JString (id ev)], Spec_state memory (stored s ++ memory))
      else if decide (t = cs "REQ") then
        '(sub, f) ← filter_of now j;
        Ok (match List.filter (matches f) (stored s) with
            | ev :: _ => JArray [JString (cs "EVENT"); JString sub; event_object ev]
            | [] => JArray [JString (cs "EOSE"); JString sub]
            end, s)
      else Ok (JArray [JString (cs "NOTICE"); JString (cs "Error")], s)
  | _ => Ok (JArray [JString (cs "NOTICE"); JString (cs "Error")], s)
  end.

(** ** Reading events back *)

Section Stored.
Context `{Floats}.

(** A conversion that succeeds does not depend on the event it fills in. *)
Lemma event_from_json_new j s s' :
  match event_from_json j s with
  | (Ok u, ev) => event_from_json j s' = (Ok u, ev)
  | (Throw e, _) => exists ev, event_from_json j s' = (Throw e, ev)
  | (Ub, _) => exists ev, event_from_json j s' = (Ub, ev)
  end.
Proof.
  unfold event_from_json, mbind, edit_bind, value, assign.
  repeat match goal with |- context [match result_bind _ _ ?f ?m with _ => _ end] =>
    destruct (result_bind _ _ f m); [|by eexists..] end.
  done.
Qed.

Lemma get_event_now now now' j : get_event now j = get_event now' j.
Proof.
  unfold get_event. pose proof (event_from_json_new j (event_new now) (event_new now')) as Hn.
  destruct (event_from_json j (event_new now)) as [[[]|e|] ev]; [by rewrite Hn|by destruct Hn as [? ->]..].
Qed.

Lemma load_now now now' bytes : load now bytes = load now' bytes.
Proof.
  unfold load. destruct (parse bytes) as [j| |]; try done. destruct j; try done. unfold from_json_array.
  assert (transform (get_event now) l = transform (get_event now') l) as ->; [|done].
  induction l as [|j l IH]; [done|]. cbn. rewrite (get_event_now now now'). by rewrite IH.
Qed.

Lemma get_event_typed now j ev :
  - 2 ^ 63 <= now < 2 ^ 63 -> typed j -> get_event now j = Ok ev -> event_typed ev.
Proof.
  intros Hn Hj. unfold get_event. pose proof (event_from_json_keeps j Hj (event_new now)) as Hk.
  destruct (event_from_json j (event_new now)) as [[[]|e|] ev']; try done. intros [= <-]. apply Hk.
  split; try done; try (by constructor). 
Qed.

Lemma from_objects now l : Forall event_typed l -> from_json_array (get_event now) (canon (JArray (map event_object l))) = Ok l.
Proof.
  intros Hl. cbn [canon from_json_array]. rewrite map_map.
  rewrite (transform_map (get_event now) (fun s => canon (event_object s))); [done|].
  eapply Forall_impl; [exact Hl|]. intros s Hs. unfold get_event. by rewrite event_from_object.
Qed.

Lemma load_object now t l : 
  Forall event_typed l -> parse t = Ok (canon (JArray (map event_object l))) -> load now t = Ok l.
Proof.
  intros Hl Hp. unfold load. rewrite Hp. by rewrite from_objects.
Qed.

Lemma to_json_objects l : to_json l = Ok (JArray (map event_object l)).
Proof.
  unfold to_json. assert (mapM (event_to_json JNull) l = Ok (map event_object l)) as ->; [|done].
  induction l as [|s l IH]; [done|]. change (mapM (event_to_json JNull) (s :: l)) with (l' ← mapM (event_to_json JNull) l; mret (event_object s :: l')).
  by rewrite IH.
Qed.
End Stored.

(** ** The program refines the abstract relay *)

(** The state of the program stands for the state of the abstract relay. *)
Record represents `{Floats} (w : cc) (database : list event_t) (s : spec_state) : Prop := {
  rep_memory : database = memory s;
  rep_stored : load 0 (default [] (files w !! database_json)) = Ok (stored s);
  rep_memory_typed : Forall event_typed (memory s);
  rep_stored_typed : Forall event_typed (stored s)
}.

Section Refinement.
Context `{Floats} `{Disk} (now : Z) (Hnow : - 2 ^ 63 <= now < 2 ^ 63) (Hdisk : writable database_json = true).

Lemma represents_files w w' database s :
  files w' !! database_json = files w !! database_json -> represents w database s -> represents w' database s.
Proof using Type. intros E []. split; try done. by rewrite E. Qed.

Lemma read_file_bind {B} name (f : list Z -> cpp B) w : (read_file name ≫= f) w = f (default [] (files w !! name)) w.
Proof using Type. done. Qed.

(** [read] returns what the file holds. *)
Lemma read_bind {B} (f : list event_t -> cpp B) w l :
  load 0 (default [] (files w !! database_json)) = Ok l ->
  exists w', (read now ≫= f) w = f l w' /\ files w' = files w /\ process w' = process w.
Proof using Type.
  rewrite (load_now 0 now). unfold load, read. unfold mbind at 1, cpp_bind at 1. unfold try_catch.
  rewrite read_file_bind.
  destruct (parse (default [] (files w !! database_json))) as [j|e|] eqn:Ep; [|intros [= <-]; eexists; split; [reflexivity|done]|done].
  rewrite of_result_ok. destruct (from_json_array (get_event now) j) as [l'|e|]; [|intros [= <-]; eexists; split; [reflexivity|done]|done].
  intros [= ->]. eexists; split; [reflexivity|done].
Qed.

Lemma append_spec events w l :
  load 0 (default [] (files w !! database_json)) = Ok l -> Forall event_typed (l ++ events) ->
  exists w', append now events w = (Returned (inr 0), w') /\
    load 0 (default [] (files w' !! database_json)) = Ok (l ++ events).
Proof using Hdisk.
  intros Hl Ht. unfold append, try_catch. 
  destruct (read_bind (fun database => write_database (database ++ events)) w l Hl) as (w1 & -> & Hf & _).
  unfold write_database. rewrite to_json_objects, of_result_ok.
  assert (Hp : plain_json (JArray (map event_object (l ++ events)))).
  { apply array_plain, Forall_map. eapply Forall_impl; [exact Ht|]. intros. by apply event_plain. }
  destruct Hp as [Hty Hnf]. destruct (dump_parse_spec (Some 2) _ Hty Hnf ltac:(done)) as (t & Et & Hp).
  rewrite Et, of_result_ok, write_file_bind, Hdisk. eexists. split; [reflexivity|]. cbn [files].
  rewrite lookup_insert, decide_True by done. by apply load_object.
Qed.

Lemma new_typed : event_typed (event_new now).
Proof using Hnow. split; try done; by constructor. Qed.

Lemma event_of_typed j ev : typed j -> event_of now j = Ok ev -> event_typed ev.
Proof using Hnow.
  intros Hj. unfold event_of. destruct (at_index j 1) as [j'|e|] eqn:E; [|intros [= <-]; apply new_typed..].
  pose proof (event_from_json_keeps j' (at_index_typed _ _ _ Hj E) _ new_typed) as Hk.
  destruct (event_from_json j' (event_new now)) as [[[]|e|] ev']; try done; by intros [= <-].
Qed.

Lemma client_event_bind {B} msg j (f : Z * event_t -> cpp B) w :
  parse msg = Ok j -> message_type j = Ok (cs "EVENT") ->
  match event_of now j with
  | Ok ev => exists code w', (parse_client_event msg (event_new now) ≫= f) w = f (code, ev) w' /\ files w' = files w
  | _ => ((parse_client_event msg (event_new now) ≫= f) w).1 = Undefined
  end.
Proof using Type.
  intros Hp Ht. unfold parse_client_event, attempt, event_of.
  assert (E : client_event msg (event_new now) =
    match at_index j 1 with
    | Ok j' => match event_from_json j' (event_new now) with
               | (Ok _, ev) => (Ok 0, ev) | (Throw e, ev) => (Throw e, ev) | (Ub, ev) => (Ub, ev) end
    | Throw e => (Throw e, event_new now) | Ub => (Ub, event_new now) end).
  { unfold client_event. unfold mbind, edit_bind, value. rewrite Hp, Ht. rewrite decide_True by done. by destruct (at_index j 1). }
  rewrite E. assert (Hub : at_index j 1 <> Ub) by (destruct j; cbn; repeat case_match; done).
  destruct (at_index j 1) as [j'|e|]; [|by eexists _, _|done].
  destruct (event_from_json j' (event_new now)) as [[[]|e|] ev]; [by eexists _, _|by eexists _, _|done].
Qed.

Lemma publish_spec msg database s w j :
  represents w database s -> typed j -> parse msg = Ok j -> message_type j = Ok (cs "EVENT") ->
  match event_of now j with
  | Ok ev => exists t w', publish now msg database w = (Returned (inr (t, memory s ++ [ev])), w') /\
      represents w' (memory s ++ [ev]) (Spec_state (memory s ++ [ev]) (stored s ++ memory s ++ [ev])) /\
      dump None (JArray [JString (cs "EOSE"); JString (id ev)]) = Ok t
  | _ => (publish now msg database w).1 = Undefined
  end.
Proof using Hnow Hdisk.
  intros [-> Hst Hm Hs] Hj Hp Ht. unfold publish.
  match goal with |- context [(parse_client_event _ _ ≫= ?f) w] => pose proof (client_event_bind msg j f w Hp Ht) as Hc end.
  destruct (event_of now j) as [ev| |] eqn:Ee; [|done..]. destruct Hc as (code & w1 & -> & Hf1).
  pose proof (event_of_typed j ev Hj Ee) as Hev. rewrite <- Hf1 in Hst.
  assert (Hm' : Forall event_typed (memory s ++ [ev])) by (apply Forall_app; split; [done|by constructor]).
  destruct (append_spec (memory s ++ [ev]) w1 (stored s) Hst) as (w2 & Ea & Hl); [by apply Forall_app|].
  rewrite (cpp_returned _ _ _ _ _ Ea).
  destruct (dump_reads (JArray [JString (cs "EOSE"); JString (id ev)])) as (t & Et & _).
  { apply array_plain. repeat apply Forall_cons_2; try apply Forall_nil_2; apply string_plain; [by apply ascii_utf8|by apply typed_id]. }
  rewrite Et, of_result_ok. exists t, w2. split; [done|]. split; [|done]. split; try done. by apply Forall_app.
Qed.

Lemma request_bind {B} f (g : list event_t -> cpp B) w l :
  load 0 (default [] (files w !! database_json)) = Ok l ->
  exists w', (request now f ≫= g) w = g (List.filter (matches f) l) w' /\ files w' = files w.
Proof using Type.
  intros Hl. unfold request, try_catch. unfold mbind at 1, cpp_bind at 1.
  destruct (read_bind (fun database => mret (List.filter (matches f) database)) w l Hl) as (w' & -> & Hf & _). by exists w'.
Qed.

Lemma filter_of_utf8 j sub f : typed j -> filter_of now j = Ok (sub, f) -> utf8 sub.
Proof using Type.
  intros Hj. unfold filter_of. destruct (at_index j 1 ≫= from_json_string) as [s'|e|] eqn:E; [|intros [= <- _]; constructor..].
  apply result_bind_inv in E as (v & Ev & Es). apply (at_index_typed _ _ _ Hj) in Ev. apply (from_string_typed _ _ Ev) in Es.
  destruct (at_index j 2) as [j'| |]; [|by intros [= <- _]..].
  destruct (filter_from_json j' (filter_new now)) as [[]]; try done; by intros [= <- _].
Qed.

Lemma client_request_bind {B} msg j (g : Z * (list Z * filter_t) -> cpp B) w :
  parse msg = Ok j -> message_type j = Ok (cs "REQ") ->
  match filter_of now j with
  | Ok f => exists code w', (parse_request msg [] (filter_new now) ≫= g) w = g (code, f) w' /\ files w' = files w
  | _ => ((parse_request msg [] (filter_new now) ≫= g) w).1 = Undefined
  end.
Proof using Type.
  intros Hp Ht. unfold parse_request, attempt, filter_of.
  assert (E : subscribed (cs "REQ") filter_from_json msg ([], filter_new now) =
    match at_index j 1 ≫= from_json_string with
    | Ok sub => match at_index j 2 with
        | Ok j' => match filter_from_json j' (filter_new now) with
                   | (Ok _, f) => (Ok 0, (sub, f)) | (Throw e, f) => (Throw e, (sub, f)) | (Ub, f) => (Ub, (sub, f)) end
        | Throw e => (Throw e, (sub, filter_new now)) | Ub => (Ub, (sub, filter_new now)) end
    | Throw e => (Throw e, ([], filter_new now)) | Ub => (Ub, ([], filter_new now)) end).
  { unfold subscribed. unfold mbind at 1 2 3 4 5 6, edit_bind, value. rewrite Hp, Ht. rewrite decide_True by done.
    destruct (at_index j 1 ≫= from_json_string); [|done..]. cbn [on_fst assign]. destruct (at_index j 2); [|done..].
    cbn [on_snd]. by destruct (filter_from_json _ _) as [[]]. }
  rewrite E. clear E.
  assert (Hub : forall n, at_index j n <> Ub) by (intros; destruct j; cbn; repeat case_match; done).
  assert (Hub1 : at_index j 1 ≫= from_json_string <> Ub).
  { unfold mbind, result_bind. pose proof (Hub 1%nat). destruct (at_index j 1) as [v| |]; try done. by destruct v. }
  destruct (at_index j 1 ≫= from_json_string) as [sub|e|]; [|by eexists _, _|done].
  pose proof (Hub 2%nat). destruct (at_index j 2) as [j'|e|]; [|by eexists _, _|done].
  destruct (filter_from_json j' (filter_new now)) as [[[]|e|] f]; [by eexists _, _|by eexists _, _|done].
Qed.

(** The message with its type, when it has one. *)
Definition typed_message (msg : list Z) : result (json * list Z) := j ← parse msg; t ← message_type j; Ok (j, t).

Definition type_of (t : list Z) : Type_ :=
  if decide (t = cs "EVENT") then EVENT else if decide (t = cs "REQ") then REQ else if decide (t = cs "CLOSE") then CLOSE
  else if decide (t = cs "EOSE") then EOSE else if decide (t = cs "NOTICE") then NOTICE else UNKNOWN.

Lemma get_message_type_bind {B} msg (g : Type_ -> cpp B) w : exists w', files w' = files w /\
  (get_message_type msg ≫= g) w = g (match typed_message msg with Ok (_, t) => type_of t | _ => UNKNOWN end) w'.
Proof using Type.
  unfold get_message_type, typed_message. unfold mbind at 1, cpp_bind at 1. unfold try_catch. 
  pose proof (parse_outcome_spec msg) as Ho.
  destruct (parse msg) as [j|e|]; [|by eexists; split; [|reflexivity]|done]. rewrite of_result_ok.
  assert (Hub : message_type j <> Ub).
  { unfold message_type. destruct j as [| |l| | | | |]; try done. by destruct l as [|[]]. }
  cbn [mbind result_bind]. destruct (message_type j) as [t|e|]; [by exists w|by eexists; split; [|reflexivity]|done].
Qed.

Lemma json_to_file_keeps {B} name buf (g : unit -> cpp B) w :
  (forall v, parse buf = Ok v -> typed v) -> name <> database_json ->
  exists w', (json_to_file name buf ≫= g) w = g tt w' /\ files w' !! database_json = files w !! database_json.
Proof using Type.
  intros Hb Hn. destruct (json_to_file_returns name buf w Hb) as (w' & E & _ & Hf). exists w'.
  rewrite (cpp_returned _ _ _ _ _ E). split; [done|]. destruct (parse buf) as [v| |]; [|by rewrite Hf..].
  destruct Hf as (t & _ & ->). destruct (writable name); [|done]. by rewrite lookup_insert_ne.
Qed.

(** An answer of the relay: an array of a type and at most two more elements,
    well typed. *)
Lemma eose_plain s : utf8 s -> plain_json (JArray [JString (cs "EOSE"); JString s]).
Proof using Type.
  intros Hs. apply array_plain. repeat apply Forall_cons_2; try apply Forall_nil_2; apply string_plain; [by apply ascii_utf8|done].
Qed.

Lemma notice_plain : plain_json (JArray [JString (cs "NOTICE"); JString (cs "Error")]).
Proof using Type.
  apply array_plain. repeat apply Forall_cons_2; try apply Forall_nil_2; apply string_plain; by apply ascii_utf8.
Qed.

Lemma event_answer_plain sub ev : utf8 sub -> event_typed ev -> plain_json (JArray [JString (cs "EVENT"); JString sub; event_object ev]).
Proof using Type.
  intros Hs He. apply array_plain. repeat apply Forall_cons_2; try apply Forall_nil_2; [apply string_plain; by apply ascii_utf8| |].
  - by apply string_plain.
  - by apply event_plain.
Qed.

Lemma query_spec msg database s w j :
  represents w database s -> typed j -> parse msg = Ok j -> message_type j = Ok (cs "REQ") ->
  match filter_of now j with
  | Ok (sub, f) =>
      let a := match List.filter (matches f) (stored s) with
               | ev :: _ => JArray [JString (cs "EVENT"); JString sub; event_object ev]
               | [] => JArray [JString (cs "EOSE"); JString sub] end in
      exists t w', query now msg database w = (Returned (inr (t, memory s)), w') /\ files w' = files w /\
        plain_json a /\ dump None a = Ok t
  | _ => (query now msg database w).1 = Undefined
  end.
Proof using Type.
  intros [-> Hst Hm Hs] Hj Hp Ht. unfold query.
  match goal with |- context [(parse_request _ _ _ ≫= ?f) w] => pose proof (client_request_bind msg j f w Hp Ht) as Hc end.
  destruct (filter_of now j) as [[sub f]| |] eqn:Ef; [|done..]. destruct Hc as (code & w1 & -> & Hf1).
  pose proof (filter_of_utf8 j sub f Hj Ef) as Hsub. cbn iota beta. rewrite <- Hf1 in Hst.
  match goal with |- context [(request _ _ ≫= ?g) w1] => destruct (request_bind f g w1 (stored s) Hst) as (w2 & -> & Hf2) end.
  assert (Ha : match List.filter (matches f) (stored s) with ev :: _ => event_typed ev | [] => True end).
  { destruct (List.filter _ _) as [|ev l] eqn:E; [done|]. rewrite List.Forall_forall in Hs. apply Hs.
    apply (filter_In (matches f) ev (stored s)). rewrite E. by left. }
  destruct (List.filter (matches f) (stored s)) as [|ev l].
  - pose proof (eose_plain sub Hsub) as Hpl. destruct (dump_reads _ Hpl) as (t & Et & _). 
    rewrite of_result_ok, Et, of_result_ok. eexists _, _. split; [reflexivity|]. split; [congruence|done].
  - pose proof (event_answer_plain sub ev Hsub Ha) as Hpl. destruct (dump_reads _ Hpl) as (t & Et & _).
    rewrite event_to_json_object. cbn [mbind result_bind]. rewrite of_result_ok, Et, of_result_ok.
    eexists _, _. split; [reflexivity|]. split; [congruence|done].
Qed.

(** The whole handler. *)
Lemma make_response_spec msg database s w :
  (forall v, parse msg = Ok v -> typed v) -> represents w database s ->
  match respond now msg s with
  | Ok (a, s') => exists t w', make_response now msg database w = (Returned (inr (t, memory s')), w') /\
      represents w' (memory s') s' /\ dump None a = Ok t /\ parse t = Ok (canon a)
  | _ => (make_response now msg database w).1 = Undefined
  end.
Proof using Hnow Hdisk.
  intros Hty Hr. unfold make_response, respond. fold (typed_message msg).
  match goal with |- context [(json_to_file _ msg ≫= ?g) w] =>
    destruct (json_to_file_keeps (cs "relay_message.json") msg g w Hty ltac:(done)) as (w1 & -> & Hf1) end.
  match goal with |- context [(get_message_type msg ≫= ?g) w1] =>
    destruct (get_message_type_bind msg g w1) as (w2 & Hf2 & ->) end.
  assert (Hr2 : represents w2 database s) by (apply (represents_files w); [congruence|done]). clear Hr Hf1 Hf2.
  (* the last steps *)
  assert (Hlast : forall (m : cpp (list Z * list event_t)) a s' t w3, m w2 = (Returned (inr (t, memory s')), w3) ->
    represents w3 (memory s') s' -> plain_json a -> dump None a = Ok t ->
    exists t' w', ('(json, database) ← m; _ ← json_to_file (cs "relay_response.json") json; mret (json, database)) w2 =
        (Returned (inr (t', memory s')), w') /\ represents w' (memory s') s' /\ dump None a = Ok t' /\ parse t' = Ok (canon a)).
  { intros m a s' t w3 E Hr [Ha Hn] Et. destruct (dump_parse_spec None a Ha Hn narrow_none) as (t' & Et' & Hp).
    assert (t' = t) as -> by congruence. rewrite (cpp_returned _ _ _ _ _ E).
    match goal with |- context [(json_to_file _ t ≫= ?g) w3] =>
      destruct (json_to_file_keeps (cs "relay_response.json") t g w3) as (w4 & -> & Hf4) end; [|done|].
    - intros v Hv. assert (v = canon a) as -> by congruence. by apply canon_typed.
    - eexists _, _. split; [reflexivity|]. split_and!; [by apply (represents_files w3)|done..]. }
  assert (Hub : forall (m : cpp (list Z * list event_t)), (m w2).1 = Undefined ->
    (('(json, database) ← m; _ ← json_to_file (cs "relay_response.json") json; mret (json, database)) w2).1 = Undefined).
  { intros m E. unfold mbind at 1, cpp_bind at 1. by destruct (m w2) as [[] ?]; try done. }
  pose proof notice_plain as Hnp. destruct (dump_reads _ Hnp) as (nt & Ent & _).
  assert (Hnotice : exists t w', ('(json, database) ← (json ← of_result (dump None (JArray [JString (cs "NOTICE"); JString (cs "Error")])); mret (json, database));
      _ ← json_to_file (cs "relay_response.json") json; mret (json, database)) w2 = (Returned (inr (t, memory s)), w') /\
      represents w' (memory s) s /\ dump None (JArray [JString (cs "NOTICE"); JString (cs "Error")]) = Ok t /\
      parse t = Ok (canon (JArray [JString (cs "NOTICE"); JString (cs "Error")]))).
  { eapply Hlast; [|..|exact Ent]; [rewrite Ent, of_result_ok; by rewrite (rep_memory _ _ _ Hr2)| |done].
    by rewrite <- (rep_memory _ _ _ Hr2) at 1. }
  destruct (typed_message msg) as [[j t]|e|] eqn:Em; [|exact Hnotice..].
  apply result_bind_inv in Em as (j' & Hp & Em). apply result_bind_inv in Em as (t' & Ht & [= -> ->]).
  unfold type_of. destruct (decide (t = cs "EVENT")) as [->|_]; [|destruct (decide (t = cs "REQ")) as [->|_]].
  - pose proof (publish_spec msg database s w2 j Hr2 (Hty j Hp) Hp Ht) as Hs.
    destruct (event_of now j) as [ev| |] eqn:Ee; [|by apply Hub..]. destruct Hs as (t & w3 & E & Hr3 & Et).
    cbn [mbind result_bind]. eapply Hlast; [exact E|exact Hr3| |exact Et].
    apply eose_plain, typed_id. by apply (event_of_typed j); [apply Hty|].
  - pose proof (query_spec msg database s w2 j Hr2 (Hty j Hp) Hp Ht) as Hs.
    destruct (filter_of now j) as [[sub f]| |] eqn:Ee; [|by apply Hub..]. destruct Hs as (t & w3 & E & Hf3 & Hpl & Et).
    cbn [mbind result_bind]. eapply Hlast; [exact E| |exact Hpl|exact Et].
    apply (represents_files w2); [by rewrite Hf3|]. by rewrite <- (rep_memory _ _ _ Hr2) at 1.
  - repeat case_decide; exact Hnotice.
Qed.
End Refinement.

(** ** Runs *)

Record server := Server { world_of : cc; database_of : list event_t }.

Section Runs.
Context `{Floats} `{Disk}.

(** A message with the time, the connection and the answer, or a new start of
    the program. *)
Inductive happening := Message (now : Z) (connection msg reply : list Z) | Started (now : Z).

Definition message_ok (h : happening) : Prop :=
  match h with Message now _ msg _ => Bytes msg /\ - 2 ^ 63 <= now < 2 ^ 63 | Started _ => True end.

Inductive step : server -> happening -> server -> Prop :=
| step_message now connection msg reply w database w' database' :
    on_message now connection msg database w = (Returned (inr (reply, database')), w') ->
    step (Server w database) (Message now connection msg reply) (Server w' database')
| step_start now w database w' database' :
    relay_t now w = (Returned (inr database'), w') -> step (Server w database) (Started now) (Server w' database').

Inductive steps : server -> list happening -> server -> Prop :=
| steps_none c : steps c [] c
| steps_more c h c' hs c'' : step c h c' -> steps c' hs c'' -> steps c (h :: hs) c''.

Definition stands_for (c : server) (s : spec_state) : Prop := represents (world_of c) (database_of c) s.

Lemma on_message_spec now connection msg database s w :
  - 2 ^ 63 <= now < 2 ^ 63 -> writable database_json = true -> (forall v, parse msg = Ok v -> typed v) -> represents w database s ->
  match respond now msg s with
  | Ok (a, s') => exists t w', on_message now connection msg database w = (Returned (inr (t, memory s')), w') /\
      represents w' (memory s') s' /\ dump None a = Ok t /\ parse t = Ok (canon a)
  | _ => (on_message now connection msg database w).1 = Undefined
  end.
Proof. intros Hn Hd Hm Hr. unfold on_message. apply (make_response_spec now Hn Hd); [done|]. by apply (represents_files w). Qed.

(** What a step can do to the abstract state. *)
Definition spec_step (s : spec_state) (h : happening) (s' : spec_state) : Prop :=
  match h with
  | Message now _ msg reply => exists a, respond now msg s = Ok (a, s') /\ parse reply = Ok (canon a)
  | Started _ => s' = Spec_state (stored s) (stored s)
  end.

Lemma step_spec c h c' s :
  writable database_json = true -> message_ok h -> stands_for c s -> step c h c' -> exists s', spec_step s h s' /\ stands_for c' s'.
Proof.
  intros Hd Hm Hs Hst. destruct Hst as [now connection msg reply w database w' database' E|now w database w' database' E].
  - destruct Hm as [Hb Hn]. pose proof (on_message_spec now connection msg database s w Hn Hd) as Hr.
    specialize (Hr ltac:(intros v; by apply parse_typed_spec) Hs).
    destruct (respond now msg s) as [[a s']| |] eqn:Ea; [|by rewrite E in Hr..].
    destruct Hr as (t & w2 & E2 & Hr & _ & Hp). rewrite E in E2. injection E2 as -> -> ->. exists s'. split; [|done]. exists a. split; [exact Ea|exact Hp].
  - destruct Hs as [_ Hl _ Hty]. destruct (read_bind now (fun l => mret l) w (stored s) Hl) as (w2 & E2 & Hf & _).
    assert (E3 : (read now ≫= (fun l => mret l)) w = (Returned (inr database'), w')).
    { unfold relay_t in E. unfold mbind, cpp_bind. by rewrite E. }
    rewrite E3 in E2. injection E2 as -> ->. exists (Spec_state (stored s) (stored s)). split; [done|].
    split; try done. cbn [world_of]. by rewrite Hf.
Qed.

Lemma steps_spec (P : spec_state -> spec_state -> Prop) c hs c' s :
  (forall s, P s s) -> (forall s h s' s'', spec_step s h s' -> P s' s'' -> P s s'') ->
  writable database_json = true -> Forall message_ok hs -> stands_for c s -> steps c hs c' ->
  exists s', P s s' /\ stands_for c' s'.
Proof.
  intros Hrefl Htrans Hd Hm Hs Hst. revert s Hs. induction Hst as [c|c h c' hs c'' Hh _ IH]; intros s Hs; [by exists s|].
  apply Forall_cons in Hm as [Hm Hms]. destruct (step_spec c h c' s Hd Hm Hs Hh) as (s1 & H1 & Hs1).
  destruct (IH Hms s1 Hs1) as (s2 & H2 & Hs2). exists s2. split; [by eapply Htrans|done].
Qed.

(** Every step keeps the stored events and appends. *)
Lemma respond_stored now msg s a s' : respond now msg s = Ok (a, s') ->
  (memory s' = memory s /\ stored s' = stored s) \/
  exists ev, memory s' = memory s ++ [ev] /\ stored s' = stored s ++ memory s ++ [ev].
Proof.
  unfold respond. destruct (typed_message msg) as [[j t]|e|] eqn:E; unfold typed_message in E; rewrite E; [|intros [= _ <-]; left; done..].
  destruct (decide (t = cs "EVENT")).
  - intros (ev & _ & [= _ <-])%result_bind_inv. right. by exists ev.
  - destruct (decide (t = cs "REQ")); [|intros [= _ <-]; by left].
    intros ([sub f] & _ & [= _ <-])%result_bind_inv. by left.
Qed.

Lemma spec_step_grows s h s' : spec_step s h s' -> exists l, stored s' = stored s ++ l.
Proof.
  destruct h as [now c msg reply|now].
  - intros (a & E & _). apply respond_stored in E as [[_ ->]|(ev & _ & ->)]; [exists []; by rewrite app_nil_r|eauto].
  - intros ->. exists []. by rewrite app_nil_r.
Qed.

(** The copies of [n] events published one after the other. *)
Definition prefixes {A} (l : list A) : list A := concat (map (fun n => take n l) (seq 1 (length l))).

Lemma prefixes_snoc {A} (l : list A) x : prefixes (l ++ [x]) = prefixes l ++ l ++ [x].
Proof.
  unfold prefixes. rewrite length_app. cbn [length]. rewrite Nat.add_comm. cbn [Nat.add].
  rewrite seq_S, map_app, concat_app. f_equal.
  - f_equal. apply map_ext_in. intros n Hn. apply in_seq in Hn. apply take_app_le. lia.
  - cbn [map concat]. rewrite app_nil_r. apply take_ge. rewrite length_app. cbn. lia.
Qed.

Lemma prefixes_length {A} (l : list A) : 2 * len (prefixes l) = len l * (len l + 1).
Proof. induction l as [|x l IH] using rev_ind; [done|]. rewrite prefixes_snoc, !len_app. change (len [x]) with 1. lia. Qed.
End Runs.

(** ** Messages without floating-point numbers *)

Lemma find_no_float k m v : forallb (fun kv => no_float kv.2) m = true -> find k m = Some v -> no_float v = true.
Proof. intros Hm [k' Hk]%find_in. rewrite forallb_forall in Hm. exact (Hm _ Hk). Qed.

Lemma at_key_defined {A} j k (get : json -> result A) :
  no_float j = true -> (forall v, no_float v = true -> get v <> Ub) -> at_key j k ≫= get <> Ub.
Proof.
  intros Hj Hg. destruct j; try done. cbn in *. destruct (find k m) as [v|] eqn:E; [|done].
  apply Hg. by eapply find_no_float.
Qed.

Lemma from_array_defined {A} (f : json -> result A) j :
  no_float j = true -> (forall v, no_float v = true -> f v <> Ub) -> from_json_array f j <> Ub.
Proof.
  intros Hj Hf. destruct j; try done. cbn in *. induction l as [|v l IH]; [done|]. cbn in *.
  apply andb_true_iff in Hj as [Hv Hl]. specialize (Hf v Hv). specialize (IH Hl).
  destruct (f v); [|done..]. cbn. by destruct (transform f l).
Qed.

Lemma from_string_defined v : no_float v = true -> from_json_string v <> Ub.
Proof. by destruct v. Qed.

Lemma from_numbers_defined v :
  no_float v = true -> from_json_int64 v <> Ub /\ from_json_int v <> Ub /\ from_json_uint64 v <> Ub.
Proof. by destruct v. Qed.

(** A block that has defined behaviour. *)
Definition defined {S A} (m : edit S A) : Prop := forall s, (m s).1 <> Ub.

Lemma defined_value {S A B} (r : result A) (f : A -> edit S B) : r <> Ub -> (forall a, defined (f a)) -> defined (value r ≫= f).
Proof. intros Hr Hf s. unfold mbind, edit_bind, value. destruct r; [apply Hf|done..]. Qed.

Lemma defined_assign {S B} g (f : unit -> edit S B) : defined (f tt) -> defined (assign g ≫= f).
Proof. intros Hf s. apply Hf. Qed.

Lemma defined_bind {S A B} (m : edit S A) (f : A -> edit S B) : defined m -> (forall a, defined (f a)) -> defined (m ≫= f).
Proof.
  intros Hm Hf s. unfold mbind, edit_bind. pose proof (Hm s) as H. destruct (m s) as [[a|e|] s']; [apply Hf|done..].
Qed.

Lemma event_from_json_defined j : no_float j = true -> defined (event_from_json j).
Proof.
  intros Hj. unfold event_from_json.
  assert (Hstrings : forall v, no_float v = true -> from_json_array (from_json_array from_json_string) v <> Ub).
  { intros v Hv. apply from_array_defined; [done|]. intros v' Hv'. apply from_array_defined; [done|]. apply from_string_defined. }
  repeat (apply defined_value; [apply at_key_defined; [done|]; first [apply from_string_defined|apply Hstrings|intros; by apply from_numbers_defined]|];
    intros; try apply defined_assign).
  by intros s.
Qed.

Lemma get_to_defined {S A} j k (get : json -> result A) (set : S -> A -> S) :
  no_float j = true -> (forall v, no_float v = true -> get v <> Ub) -> defined (get_to j k get set).
Proof.
  intros Hj Hg. unfold get_to. destruct (contains j k); [|by intros s]. apply defined_value; [by apply at_key_defined|]. by intros a s.
Qed.

Lemma filter_from_json_defined j : no_float j = true -> defined (filter_from_json j).
Proof.
  intros Hj. unfold filter_from_json.
  assert (Hs : forall v, no_float v = true -> from_json_array from_json_string v <> Ub)
    by (intros; apply from_array_defined; [done|]; apply from_string_defined).
  assert (Hi : forall v, no_float v = true -> from_json_array from_json_int v <> Ub)
    by (intros; apply from_array_defined; [done|]; intros; by apply from_numbers_defined).
  repeat (apply defined_bind; [apply get_to_defined; [done|]; first [apply Hs|apply Hi|intros; by apply from_numbers_defined]|intros]).
  apply get_to_defined; [done|]. intros; by apply from_numbers_defined.
Qed.

Lemma at_index_no_float j n v : no_float j = true -> at_index j n = Ok v -> no_float v = true.
Proof.
  destruct j; try done. cbn. intros Hl. destruct (l !! n) eqn:E; [|done]. intros [= <-].
  rewrite forallb_forall in Hl. apply Hl. by eapply list_elem_of_In, list_elem_of_lookup_2.
Qed.

(** The kinds of answers. *)
Definition answer_type (t : list Z) : Prop := t = cs "EVENT" \/ t = cs "EOSE" \/ t = cs "NOTICE".

Lemma respond_defined `{Floats} now msg s :
  (forall j, parse msg = Ok j -> no_float j = true) ->
  exists t rest s', respond now msg s = Ok (JArray (JString t :: rest), s') /\ answer_type t.
Proof.
  intros Hm. unfold respond. assert (Hn : exists t rest s', Ok (JArray [JString (cs "NOTICE"); JString (cs "Error")], s) =
    @Ok (json * spec_state) (JArray (JString t :: rest), s') /\ answer_type t) by (eexists _, _, _; split; [reflexivity|by right; right]).
  fold (typed_message msg). destruct (typed_message msg) as [[j t]|e|] eqn:E; [|exact Hn..].
  apply result_bind_inv in E as (j' & Hp & E). apply result_bind_inv in E as (t' & _ & [= -> ->]). specialize (Hm j Hp).
  destruct (decide (t = cs "EVENT")) as [->|_]; [|destruct (decide (t = cs "REQ")) as [->|_]; [|exact Hn]].
  - assert (Hev : exists ev, event_of now j = Ok ev).
    { unfold event_of. destruct (at_index j 1) as [v| |] eqn:Ei; [|by eexists..].
      pose proof (event_from_json_defined v (at_index_no_float _ _ _ Hm Ei) (event_new now)) as Hd.
      destruct (event_from_json v (event_new now)) as [[[]|e|] ev]; [by exists ev|by exists ev|done]. }
    destruct Hev as [ev ->]. eexists _, _, _. split; [reflexivity|by right; left].
  - assert (Hf : exists sub f, filter_of now j = Ok (sub, f)).
    { unfold filter_of. destruct (at_index j 1 ≫= from_json_string) as [s0| |]; [|by eexists _, _..].
      destruct (at_index j 2) as [v| |] eqn:Ei; [|by eexists _, _..].
      pose proof (filter_from_json_defined v (at_index_no_float _ _ _ Hm Ei) (filter_new now)) as Hd.
      destruct (filter_from_json v (filter_new now)) as [[[]|e|] f]; [by exists s0, f|by exists s0, f|done]. }
    destruct Hf as (sub & f & ->). cbn [mbind result_bind].
    destruct (List.filter _ _); eexists _, _, _; (split; [reflexivity|]); [by right; left|by left].
Qed.

(** The answers to the two kinds of messages. *)
Lemma respond_event `{Floats} now msg s j ev : typed_message msg = Ok (j, cs "EVENT") -> event_of now j = Ok ev ->
  respond now msg s = Ok (JArray [JString (cs "EOSE"); JString (id ev)], Spec_state (memory s ++ [ev]) (stored s ++ memory s ++ [ev])).
Proof. intros Ht He. unfold respond. fold (typed_message msg). by rewrite Ht, decide_True, He. Qed.

Lemma respond_request `{Floats} now msg s j sub f : typed_message msg = Ok (j, cs "REQ") -> filter_of now j = Ok (sub, f) ->
  respond now msg s = Ok (match List.filter (matches f) (stored s) with
    | ev :: _ => JArray [JString (cs "EVENT"); JString sub; event_object ev]
    | [] => JArray [JString (cs "EOSE"); JString sub] end, s).
Proof. intros Ht Hf. unfold respond. fold (typed_message msg). by rewrite Ht, decide_False, decide_True, Hf. Qed.

Lemma typed_message_array `{Floats} msg t l : parse msg = Ok (JArray (JString t :: l)) -> typed_message msg = Ok (JArray (JString t :: l), t).
Proof. intros Hp. unfold typed_message. by rewrite Hp. Qed.

Lemma matches_author f a e : authors f = [a] -> matches f e = bool_decide (pubkey e = a).
Proof. intros Hf. unfold matches. rewrite Hf. cbn. by rewrite orb_false_r. Qed.

(** ** Fresh relays and published events *)

(** An event that a message of the run published. *)
Definition published_in `{Floats} (hs : list happening) (ev : event_t) : Prop :=
  exists now connection msg reply j, In (Message now connection msg reply) hs /\
    typed_message msg = Ok (j, cs "EVENT") /\ event_of now j = Ok ev.

Definition fresh_server (c : server) : Prop := database_of c = [] /\ files (world_of c) !! database_json = None.

Lemma fresh_stands `{Floats} c : fresh_server c -> stands_for c (Spec_state [] []).
Proof. intros [Hd Hf]. split; try done; [|by constructor..]. by rewrite Hf. Qed.

Lemma published_stored `{Floats} s now connection msg reply s' ev :
  spec_step s (Message now connection msg reply) s' -> published_in [Message now connection msg reply] ev -> In ev (stored s').
Proof.
  intros (a & E & _) (now' & c' & msg' & r' & j & [[= <- <- <- <-]|[]] & Ht & He). 
  rewrite (respond_event now msg s j ev Ht He) in E. injection E as _ <-. cbn. rewrite !in_app_iff. right. right. by left.
Qed.

(** ** A run *)

#[local] Existing Instance zero_floats.
#[local] Existing Instance all_writable.

Definition server_0 : server := Server (CC (World 0 [] []) ∅ [] 0) [].
Definition said : list Z :=
  quoted (cs "[`EVENT`,{`id`:`a`,`pubkey`:`b`,`created_at`:5,`kind`:1,`tags`:[],`content`:`hi`,`sig`:`c`}]").
Definition asked : list Z := quoted (cs "[`REQ`,`s`,{`authors`:[`b`]}]").
Definition event_said : event_t := Event_t (cs "a") (cs "b") 5 1 [] (cs "hi") (cs "c").

(** The answer to a message and the server after it. *)
Definition serve (now : Z) (msg : list Z) (c : server) : list Z * server :=
  match on_message now (cs "0x1") msg (database_of c) (world_of c) with
  | (Returned (inr (r, db)), w) => (r, Server w db)
  | _ => ([], c)
  end.

Definition server_1 : server := (serve 7 said server_0).2.
Definition reply_1 : list Z := (serve 7 said server_0).1.

Lemma steps_1 : steps server_0 [Message 7 (cs "0x1") said reply_1] server_1.
Proof. eapply steps_more; [|apply steps_none]. vm_compute. constructor. vm_compute. reflexivity. Qed.

Lemma fresh_0 : fresh_server server_0.
Proof. split; reflexivity. Qed.

Lemma message_1 : message_ok (Message 7 (cs "0x1") said reply_1).
Proof. split; [by_compute|lia]. Qed.

Lemma asked_Bytes : Bytes asked.
Proof. by_compute. Qed.

(** ** Properties *)

(** C4: the message handler refines the abstract relay: from states that stand
    for each other it gives the abstract answer as a JSON text, and new states
    that stand for each other, the events in [database.json] included; its
    behaviour is undefined exactly when a floating-point number of the message
    has no value in the type of its field. *)
Theorem relay_refines `{Floats} `{Disk} (now : Z) (connection msg : list Z) (database : list event_t) (s : spec_state) (w : cc)
    (Hnow : - 2 ^ 63 <= now < 2 ^ 63) (Hdisk : writable database_json = true) (Hmsg : Bytes msg) (Hs : represents w database s) :
  match respond now msg s with
  | Ok (a, s') => exists t w', on_message now connection msg database w = (Returned (inr (t, memory s')), w') /\
      represents w' (memory s') s' /\ parse t = Ok (canon a)
  | _ => (on_message now connection msg database w).1 = Undefined
  end.
Proof.
  pose proof (on_message_spec now connection msg database s w Hnow Hdisk) as Hr.
  specialize (Hr ltac:(intros v; by apply parse_typed_spec) Hs).
  destruct (respond now msg s) as [[a s']| |]; [|done..]. destruct Hr as (t & w' & ? & ? & _ & ?). by exists t, w'.
Qed.

Lemma relay_refines_witness :
  exists t w', on_message 7 (cs "0x1") said [] (world_of server_0) = (Returned (inr (t, [event_said])), w') /\
    represents w' [event_said] (Spec_state [event_said] [event_said]) /\
    parse t = Ok (canon (JArray [JString (cs "EOSE"); JString (cs "a")])).
Proof.
  pose proof (relay_refines (H := zero_floats) (H0 := all_writable) 7 (cs "0x1") said [] (Spec_state [] []) (world_of server_0) ltac:(lia) eq_refl (proj1 message_1)
    (fresh_stands server_0 fresh_0)) as Hr.
  assert (E : respond 7 said (Spec_state [] []) =
    Ok (JArray [JString (cs "EOSE"); JString (cs "a")], Spec_state [event_said] [event_said])) by (vm_compute; reflexivity).
  rewrite E in Hr. exact Hr.
Defined.

(** C33: whatever bytes a client sends, as long as they hold no JSON
    floating-point number, the relay stays up and answers: with an array whose
    first element is EVENT, EOSE or NOTICE. *)
Theorem relay_answers `{Floats} `{Disk} (now : Z) (connection msg : list Z) (database : list event_t) (s : spec_state) (w : cc)
    (Hnow : - 2 ^ 63 <= now < 2 ^ 63) (Hdisk : writable database_json = true) (Hmsg : Bytes msg) (Hs : represents w database s)
    (Hfloat : forall j, parse msg = Ok j -> no_float j = true) :
  exists t database' w' type rest, on_message now connection msg database w = (Returned (inr (t, database')), w') /\
    parse t = Ok (JArray (JString type :: rest)) /\ answer_type type.
Proof.
  destruct (respond_defined now msg s Hfloat) as (ty & rest & s' & E & Ht).
  pose proof (on_message_spec now connection msg database s w Hnow Hdisk) as Hr.
  specialize (Hr ltac:(intros v; by apply parse_typed_spec) Hs). rewrite E in Hr.
  destruct Hr as (t & w' & ? & _ & _ & Hp). by exists t, (memory s'), w', ty, (map canon rest).
Qed.

Lemma relay_answers_witness :
  exists t database' w' type rest, on_message 7 (cs "0x1") said [] (world_of server_0) = (Returned (inr (t, database')), w') /\
    parse t = Ok (JArray (JString type :: rest)) /\ answer_type type.
Proof.
  apply (relay_answers (H := zero_floats) (H0 := all_writable) 7 (cs "0x1") said [] (Spec_state [] []) (world_of server_0)); [lia|reflexivity|apply message_1| |].
  - exact (fresh_stands server_0 fresh_0).
  - intros j Hj. assert (E : exists j0, parse said = Ok j0 /\ no_float j0 = true) by (eexists; split; vm_compute; reflexivity).
    destruct E as (j0 & E & Hn). rewrite E in Hj. injection Hj as <-. exact Hn.
Defined.

(** C19: from a fresh relay on, through any sequence of messages and restarts,
    the events in memory are in the database, no published event is ever lost,
    and the database file stays a readable array of well-typed events. *)
Theorem relay_keeps_events `{Floats} `{Disk} (c c' : server) (hs : list happening)
    (Hdisk : writable database_json = true) (Hc : fresh_server c) (Hms : Forall message_ok hs) (Hrun : steps c hs c') :
  exists s, stands_for c' s /\ incl (memory s) (stored s) /\ (forall ev, published_in hs ev -> In ev (stored s)).
Proof.
  assert (Hgen : forall s, incl (memory s) (stored s) -> stands_for c s -> exists s', stands_for c' s' /\
    incl (memory s') (stored s') /\ incl (stored s) (stored s') /\ (forall ev, published_in hs ev -> In ev (stored s'))).
  { clear Hc. induction Hrun as [c|c h c' hs c'' Hh _ IH]; intros s Hi Hs.
    - exists s. split_and!; [done|done|apply incl_refl|]. by intros ev (? & ? & ? & ? & ? & [] & _).
    - apply Forall_cons in Hms as [Hm Hms]. destruct (step_spec c h c' s Hdisk Hm Hs Hh) as (s1 & H1 & Hs1).
      destruct (spec_step_grows _ _ _ H1) as [l Hl].
      assert (Hi1 : incl (memory s1) (stored s1)).
      { destruct h as [now cn msg reply|now]; [|cbn in H1; subst s1; apply incl_refl]. destruct H1 as (a & E & _).
        apply respond_stored in E as [[-> ->]|(ev & -> & ->)]; [done|]. apply incl_appr, incl_refl. }
      destruct (IH Hms s1 Hi1 Hs1) as (s2 & Hs2 & Hi2 & Hl2 & Hp2). exists s2. split_and!; [done|done|..].
      + intros e He. apply Hl2. rewrite Hl. apply in_app_iff. by left.
      + intros ev (now & cn & msg & reply & j & [->|Hin] & Ht & He).
        * apply Hl2. eapply published_stored; [exact H1|]. exists now, cn, msg, reply, j. split; [by left|done].
        * apply Hp2. by exists now, cn, msg, reply, j. }
  destruct (Hgen (Spec_state [] []) ltac:(by apply incl_refl) (fresh_stands c Hc)) as (s & ? & ? & _ & ?). by exists s.
Qed.

Lemma relay_keeps_events_witness :
  exists s, stands_for server_1 s /\ incl (memory s) (stored s) /\
    (forall ev, published_in [Message 7 (cs "0x1") said reply_1] ev -> In ev (stored s)).
Proof.
  apply (relay_keeps_events (H := zero_floats) (H0 := all_writable) server_0 server_1 _ eq_refl fresh_0); [constructor; [exact message_1|constructor]|exact steps_1].
Defined.

(** Publishing appends the whole memory to the file, which already holds
    most of it: after [n] events on a fresh relay that is not restarted, the
    database holds every prefix of the list of events, n(n+1)/2 events in all. *)
Theorem relay_duplicates `{Floats} `{Disk} (c c' : server) (hs : list happening)
    (Hdisk : writable database_json = true) (Hc : fresh_server c) (Hms : Forall message_ok hs)
    (Hup : Forall (fun h => match h with Started _ => False | _ => True end) hs) (Hrun : steps c hs c') :
  exists s, stands_for c' s /\ stored s = prefixes (memory s) /\
    2 * len (stored s) = len (database_of c') * (len (database_of c') + 1).
Proof.
  assert (Hgen : forall s, stored s = prefixes (memory s) -> stands_for c s -> exists s', stands_for c' s' /\ stored s' = prefixes (memory s')).
  { clear Hc. induction Hrun as [c|c h c' hs c'' Hh _ IH]; intros s Hi Hs; [by exists s|].
    apply Forall_cons in Hms as [Hm Hms]. apply Forall_cons in Hup as [Hu Hup].
    destruct (step_spec c h c' s Hdisk Hm Hs Hh) as (s1 & H1 & Hs1). apply (IH Hms Hup s1); [|done].
    destruct h as [now cn msg reply|now]; [|done]. destruct H1 as (a & E & _).
    apply respond_stored in E as [[-> ->]|(ev & -> & ->)]; [done|]. by rewrite prefixes_snoc, Hi. }
  destruct (Hgen (Spec_state [] []) eq_refl (fresh_stands c Hc)) as (s & Hs & Hp). exists s. split_and!; [done..|].
  rewrite (rep_memory _ _ _ Hs), Hp. apply prefixes_length.
Qed.

Lemma relay_duplicates_witness :
  exists s, stands_for server_1 s /\ stored s = prefixes (memory s) /\
    2 * len (stored s) = len (database_of server_1) * (len (database_of server_1) + 1).
Proof.
  apply (relay_duplicates (H := zero_floats) (H0 := all_writable) server_0 server_1 [Message 7 (cs "0x1") said reply_1] eq_refl fresh_0);
    [constructor; [exact message_1|constructor]|constructor; [exact I|constructor]|exact steps_1].
Defined.

(** C38: a request is answered with the oldest matching event only, for ever:
    once an event is the first of the database that a filter takes, every later
    request with that filter is answered with it, whatever is published in
    between and whatever limit, time and kinds the filter asks for. *)
Theorem relay_oldest_answers `{Floats} `{Disk} (c c' : server) (hs : list happening) (s : spec_state) (ev : event_t)
    (l : list event_t) (now : Z) (connection msg : list Z) (j : json) (sub : list Z) (f : filter_t)
    (Hdisk : writable database_json = true) (Hs : stands_for c s) (Hms : Forall message_ok hs) (Hrun : steps c hs c')
    (Hfirst : List.filter (matches f) (stored s) = ev :: l) (Hnow : - 2 ^ 63 <= now < 2 ^ 63) (Hmsg : Bytes msg)
    (Hreq : typed_message msg = Ok (j, cs "REQ")) (Hf : filter_of now j = Ok (sub, f)) :
  exists t database' w', on_message now connection msg (database_of c') (world_of c') = (Returned (inr (t, database')), w') /\
    parse t = Ok (canon (JArray [JString (cs "EVENT"); JString sub; event_object ev])).
Proof.
  destruct (steps_spec (fun s s' => exists l, stored s' = stored s ++ l) c hs c' s) as (s' & [l' Hl'] & Hs'); try done.
  { intros s0. exists []. by rewrite app_nil_r. }
  { intros s0 h s1 s2 Hh [l2 ->]. destruct (spec_step_grows _ _ _ Hh) as [l1 ->]. exists (l1 ++ l2). by rewrite app_assoc. }
  pose proof (on_message_spec now connection msg (database_of c') s' (world_of c') Hnow Hdisk) as Hr.
  specialize (Hr ltac:(intros v; by apply parse_typed_spec) Hs').
  rewrite (respond_request now msg s' j sub f Hreq Hf) in Hr.
  rewrite Hl', List.filter_app, Hfirst in Hr. cbn [app] in Hr. destruct Hr as (t & w' & E & _ & _ & Hp).
  by exists t, (memory s'), w'.
Qed.

Lemma relay_oldest_answers_witness :
  exists t database' w', on_message 9 (cs "0x2") asked (database_of server_1) (world_of server_1) = (Returned (inr (t, database')), w') /\
    parse t = Ok (canon (JArray [JString (cs "EVENT"); JString (cs "s"); event_object event_said])).
Proof.
  assert (Hs : stands_for server_1 (Spec_state [event_said] [event_said])).
  { split; [vm_compute; reflexivity|vm_compute; reflexivity|..]; (constructor; [|constructor]);
      (split; cbn; try lia; try (by apply ascii_utf8); constructor). }
  apply (relay_oldest_answers (H := zero_floats) (H0 := all_writable) server_1 server_1 [] (Spec_state [event_said] [event_said]) event_said [] 9 (cs "0x2") asked
    (JArray [JString (cs "REQ"); JString (cs "s"); JObject [(cs "authors", JArray [JString (cs "b")])]]) (cs "s")
    (set_authors (filter_new 9) [cs "b"]) eq_refl Hs);
    [constructor|apply steps_none|reflexivity|lia|exact asked_Bytes|vm_compute; reflexivity|vm_compute; reflexivity].
Defined.

(** C6: the first event of an author goes from one client through the relay to
    another: when the relay holds no event of that author, neither in its file
    nor in memory, the event that [make_event] publishes is what
    [parse_relay_event] reads from the answer to a request [make_request] makes
    for its author.  (With an older event of the author, the relay answers with
    the oldest: [relay_oldest_answers].) *)
Theorem relay_round_trip `{Floats} `{Disk} `{Secp256k1Laws} (junk : Z) (ev ev' : event_t) (seckey : option (list Z))
    (t sub : list Z) (f : filter_t) (wc wc' wr : cc) (database : list event_t) (s : spec_state) (now now' : Z) (c1 c2 : list Z)
    (Hdisk : writable database_json = true) (Hs : represents wr database s)
    (Hnow : - 2 ^ 63 <= now < 2 ^ 63) (Hnow' : - 2 ^ 63 <= now' < 2 ^ 63)
    (Hev : event_typed ev) (Hl : len (content ev) < 2 ^ 31)
    (Hmake : make_event junk ev seckey wc = (Returned (inr (t, ev')), wc')) (Ht : t <> [])
    (Hsub : utf8 sub) (Hf : filter_typed f) (Hauthors : authors f = [pubkey ev'])
    (Hnew : Forall (fun e => pubkey e <> pubkey ev') (stored s ++ memory s)) :
  exists r1 db1 wr1 q r2 db2 wr2,
    on_message now c1 t database wr = (Returned (inr (r1, db1)), wr1) /\
    make_request sub f wc = (Returned (inr q), wc) /\
    on_message now' c2 q db1 wr1 = (Returned (inr (r2, db2)), wr2) /\
    forall sub0 ev0 w0, parse_relay_event r2 sub0 ev0 w0 = (Returned (inr (0, (sub, ev'))), w0).
Proof.
  destruct (make_event_returns junk ev seckey wc Hev Hl) as (t' & ev2 & w2 & E & _ & Hr). rewrite Hmake in E.
  injection E as <- <- <-. destruct Hr as [[Ht0 _]|(nev & k & _ & Hv & Hpub & _ & _ & Hp)]; [by destruct Ht|].
  assert (Hty : event_typed ev') by (rewrite Hpub; apply published_typed; [done|apply Hv]).
  assert (Htt : forall v, parse t = Ok v -> typed v).
  { intros v Hpv. assert (v = canon (JArray [JString (cs "EVENT"); event_object ev'])) as -> by congruence. apply canon_typed.
    constructor. repeat apply Forall_cons_2; try apply Forall_nil_2; [by constructor; apply ascii_utf8|by apply event_object_typed]. }
  pose proof (on_message_spec now c1 t database s wr Hnow Hdisk) as Hone.
  specialize (Hone Htt Hs).
  rewrite (respond_event now t s _ ev' (typed_message_array t _ _ Hp)) in Hone.
  2: { unfold event_of. change (at_index _ 1) with (Ok (canon (event_object ev'))). cbv iota beta. by rewrite event_from_object. }
  destruct Hone as (r1 & wr1 & E1 & Hr1 & _ & _). cbn [memory] in *.
  destruct (make_request_reads sub f wc Hsub Hf) as (q & j & Ej & Eq & Hq).
  assert (Hqt : forall v, parse q = Ok v -> typed v).
  { intros v Hv'. rewrite Hq in Hv'. injection Hv' as <-.
    assert (Hjp : plain_json j) by (eapply filter_to_json_plain; [exact Hf| |exact Ej]; by split; [constructor|]).
    constructor. repeat apply Forall_cons_2; try apply Forall_nil_2; [by constructor; apply ascii_utf8|by constructor|].
    by apply canon_typed, Hjp. }
  pose proof (on_message_spec now' c2 q _ _ wr1 Hnow' Hdisk Hqt Hr1) as Htwo.
  rewrite (respond_request now' q _ _ sub (received f (filter_new now')) (typed_message_array q _ _ Hq)) in Htwo.
  2: { unfold filter_of. change (at_index _ 1 ≫= from_json_string) with (Ok sub). change (at_index _ 2) with (Ok (canon j)).
       cbv iota beta. by rewrite (filter_from_to f (filter_new now') j Hf Ej). }
  cbn [stored] in Htwo.
  assert (Hauthors' : authors (received f (filter_new now')) = [pubkey ev']) by (cbn [received authors]; by rewrite Hauthors).
  assert (Hm : List.filter (matches (received f (filter_new now'))) (stored s ++ memory s ++ [ev']) = [ev']).
  { rewrite app_assoc, List.filter_app. cbn [List.filter]. rewrite (matches_author _ _ ev' Hauthors'), bool_decide_true by done.
    clear - Hnew Hauthors'. induction Hnew as [|e es He _ IH]; [done|]. cbn [List.filter].
    by rewrite (matches_author _ _ e Hauthors'), bool_decide_false. }
  rewrite Hm in Htwo. destruct Htwo as (r2 & wr2 & E2 & _ & _ & Hp2).
  exists r1, (memory s ++ [ev']), wr1, q, r2. eexists _, wr2. split; [exact E1|]. split; [exact Eq|]. split; [exact E2|].
  intros sub0 ev0 w0. unfold parse_relay_event, attempt.
  by rewrite (subscribed_reads (cs "EVENT") event_from_json r2 sub _ ev0 ev' sub0 Hp2 (event_from_object ev' ev0 Hty)).
Qed.

Definition wc_0 : cc := CC (World 0 [Some (repeat 1 32); Some (repeat 2 32)] []) ∅ [] 0.

Definition result_of {A} (d : A) (r : outcome (exn + A) * cc) : A :=
  match r with (Returned (inr a), _) => a | _ => d end.

(** What [make_event] gives for [tagged] and the key of alice. *)
Definition made : list Z * event_t :=
  result_of ([], tagged) (make_event (H0 := Toy.lib) 0 tagged (Some (hex_text alice)) wc_0).

Lemma relay_round_trip_witness :
  let f := Filter_t [] [pubkey made.2] [1] [] [] 0 0 1 in
  exists r1 db1 wr1 q r2 db2 wr2,
    on_message 7 (cs "0x1") made.1 [] (world_of server_0) = (Returned (inr (r1, db1)), wr1) /\
    make_request (cs "sub") f wc_0 = (Returned (inr q), wc_0) /\
    on_message 8 (cs "0x2") q db1 wr1 = (Returned (inr (r2, db2)), wr2) /\
    forall sub0 ev0 w0, parse_relay_event r2 sub0 ev0 w0 = (Returned (inr (0, (cs "sub", made.2))), w0).
Proof.
  intros f. eapply (relay_round_trip (H := zero_floats) (H0 := all_writable) (H2 := Toy.lib_laws) 0 tagged made.2 (Some (hex_text alice)) made.1 (cs "sub") f wc_0 _
    (world_of server_0) [] (Spec_state [] [])); try lia.
  - reflexivity.
  - exact (fresh_stands server_0 fresh_0).
  - split; cbn; try lia; try by apply ascii_utf8. repeat constructor; by apply ascii_utf8.
  - reflexivity.
  - vm_compute. reflexivity.
  - vm_compute. discriminate.
  - by apply ascii_utf8.
  - split; cbn [f ids authors kinds e_ p_ since until limit]; try lia; try apply Forall_nil_2.
    + apply Forall_cons_2; [|apply Forall_nil_2]. apply ascii_utf8. vm_compute. reflexivity.
    + apply Forall_cons_2; [lia|apply Forall_nil_2].
  - reflexivity.
  - constructor.
Defined.
