(* ===== verification/Interop.v ===== *)
(** * The command line tool and the relay

    What [print_event] of [gnostr.c] prints is JSON that the relay's library
    reads as the same event, when the texts of the event are UTF-8 without the
    control characters that [cursor_push_escaped_char] leaves as they are.  The
    proof builds a parse tree of the printed text. *)
From S2P Require Import Prelude Hex Process Event Keys Dm Json JsonParse JsonSpec JsonGrammar JsonRound Comm Client Relay.

(** ** Texts *)

(** A character that is written as an escape of one letter, or as it is. *)
Definition sendable_char (c : Z) : bool := (32 <=? c) || (c =? 8) || (c =? 9) || (c =? 10) || (c =? 12) || (c =? 13).

Definition sendable (s : list Z) : Prop := utf8 s /\ forallb sendable_char s = true.

Lemma json_char_text c : 0 <= c < 128 -> sendable_char c = true -> str_text [c] (json_char c).
Proof.
  intros Hc Hs. unfold json_char.
  do 7 (match goal with |- context [c =? ?d] => destruct (Z.eqb_spec c d) as [->|]; [by apply st_escape; [exact eq_refl|constructor]|] end).
  apply (st_char [c] [] []); [cbn; between_lia| |constructor]. unfold sendable_char in Hs. cbn. unfold quote, backslash in *. lia.
Qed.

Lemma json_chars_high c : Forall (fun b => 128 <= b) c -> concat (map json_char c) = c.
Proof.
  induction 1 as [|b c Hb _ IH]; [done|]. cbn [map concat]. rewrite IH. unfold json_char, quote, backslash.
  repeat (match goal with |- context [b =? ?d] => destruct (Z.eqb_spec b d); [lia|] end). done.
Qed.

Lemma json_chars_text s : utf8 s -> forallb sendable_char s = true -> str_text s (concat (map json_char s)).
Proof.
  induction 1 as [|c s Hc Hs IH]; intros Hp; [constructor|]. rewrite forallb_app in Hp. apply andb_true_iff in Hp as [Hpc Hps].
  rewrite map_app, concat_app. apply str_text_app; [|by apply IH]. destruct c as [|a c]; [done|].
  destruct (first_byte a c Hc) as [[Ha ->]|(Ha & Hb & Hn & Hn0 & Ht)].
  - cbn [map concat]. rewrite app_nil_r. cbn in Hpc. rewrite andb_true_r in Hpc. by apply json_char_text.
  - rewrite json_chars_high.
    + pose proof (st_char (a :: c) [] [] Hc) as HT. rewrite !app_nil_r in HT. apply HT; [|constructor].
      destruct c; [cbn in Hc; between_lia|done].
    + constructor; [done|]. eapply tail_high; [|exact Hn0|exact Ht]. destruct (next_in 0 a ltac:(by left)); done.
Qed.

(** ** Texts of values *)

Section Texts.
Context `{Floats}.

Definition spelt (v : json) (t : list Z) : Prop := exists ts, tree v ts /\ spells ts t.

Lemma spelt_json_string s : sendable s -> spelt (JString s) (json_string s).
Proof.
  intros [Hu Hp]. exists [value_string s]. split; [by apply tree_atom|]. apply spells_one, tt_string. by apply json_chars_text.
Qed.

(** A text that needs no escapes. *)
Definition quotable (s : list Z) : bool := forallb (fun c => between 32 126 c && negb (c =? quote) && negb (c =? backslash)) s.

Lemma spells_quoted s : quotable s = true -> spells [value_string s] (Event.quoted s).
Proof.
  intros Hs. apply spells_one, tt_string. unfold quotable in Hs.
  induction s as [|c s IH]; [constructor|]. cbn in Hs. apply andb_true_iff in Hs as [Hc Hs].
  apply (st_char [c] s s); [|cbn; unfold between in *; lia|by apply IH]. cbn. between_lia.
Qed.

Lemma spelt_quoted s : quotable s = true -> spelt (JString s) (Event.quoted s).
Proof. intros Hs. exists [value_string s]. split; [by apply tree_atom|by apply spells_quoted]. Qed.

Lemma spelt_unsigned z : 0 <= z < 2 ^ 64 -> spelt (JUnsigned z) (fmt_u64 z).
Proof.
  intros Hz. exists [value_unsigned z]. split; [by apply tree_atom|]. apply spells_one, tt_number.
  pose proof (decimal_unsigned z Hz) as Hd. unfold decimal in Hd. by destruct (Z.ltb_spec z 0); [lia|].
Qed.

Lemma fmt_int_decimal z : - 2 ^ 31 <= z < 2 ^ 31 -> fmt_int z = decimal z.
Proof.
  intros Hz. unfold fmt_int, decimal.
  destruct (Z.ltb_spec z 0); rewrite (digits_fuel 10 20) by lia; done.
Qed.

Lemma spelt_int z : - 2 ^ 31 <= z < 2 ^ 31 -> spelt (canon (JInteger z)) (fmt_int z).
Proof.
  intros Hz. rewrite fmt_int_decimal by done. cbn [canon]. destruct (Z.ltb_spec z 0).
  - exists [value_integer z]. split; [by apply tree_atom|]. apply spells_one, tt_number, decimal_negative. lia.
  - exists [value_unsigned z]. split; [by apply tree_atom|]. apply spells_one, tt_number, decimal_unsigned. lia.
Qed.

Lemma join_snoc l x : l <> [] -> join (l ++ [x]) = join l ++ cs "," ++ x.
Proof.
  induction l as [|y [|z l] IH]; [done|done|]. intros _. specialize (IH ltac:(done)).
  change (join ((y :: z :: l) ++ [x])) with (y ++ cs "," ++ join ((z :: l) ++ [x])). rewrite IH.
  change (join (y :: z :: l)) with (y ++ cs "," ++ join (z :: l)). by rewrite <- !app_assoc.
Qed.

(** Elements, from the left. *)
Lemma elements_spelt l ts0 : Forall2 spelt l ts0 -> l <> [] -> exists ts, elements l ts /\ spells ts (join ts0).
Proof.
  intros Hl. induction l as [|v l IH] using rev_ind in ts0, Hl |- *; [done|]. intros _.
  apply Forall2_app_inv_l in Hl as (t1 & t2 & H1 & H2 & ->). apply Forall2_cons_inv_l in H2 as (x & t3 & (ts' & Ht & Hs) & H3 & ->).
  apply Forall2_nil_inv_l in H3 as ->. destruct l as [|v0 l].
  - apply Forall2_nil_inv_l in H1 as ->. exists ts'. split; [by constructor|done].
  - destruct (IH t1 H1) as (ts & He & Hts); [done|]. exists (ts ++ value_separator :: ts'). split; [by constructor|].
    rewrite join_snoc by (by destruct t1; [inversion H1|]). apply spells_concat; [done|].
    apply (spells_concat [value_separator] (cs ",") ts' x); [|done]. apply spells_one. constructor.
Qed.

Lemma spelt_array l ts : Forall2 spelt l ts -> spelt (JArray l) (json_array ts).
Proof.
  intros Hl. unfold json_array. destruct l as [|v l].
  - apply Forall2_nil_inv_l in Hl as ->. exists [begin_array; end_array]. split; [constructor|].
    apply (spells_concat [begin_array] (cs "[") [end_array] (cs "]")); apply spells_one; constructor.
  - destruct (elements_spelt (v :: l) ts Hl) as (tk & He & Hs); [done|]. exists (begin_array :: tk ++ [end_array]).
    split; [by constructor|]. apply (spells_concat [begin_array] (cs "[")); [apply spells_one; constructor|].
    apply spells_concat; [done|apply spells_one; constructor].
Qed.

(** Members, from the left. *)
Definition members_spelt (m : list (list Z * json)) (t : list Z) : Prop := exists ts, members m ts /\ spells ts t.

Lemma field_spells k v t : quotable k = true -> spelt v t ->
  exists ts, tree v ts /\ spells (value_string k :: name_separator :: ts) (json_field k t).
Proof.
  intros Hk (ts & Ht & Hs). exists ts. split; [done|].
  assert (json_field k t = Event.quoted k ++ cs ":" ++ [32] ++ t) as -> by (unfold json_field, Event.quoted; by rewrite <- !app_assoc).
  apply (spells_concat [value_string k]); [by apply spells_quoted|].
  apply (spells_concat [name_separator]); [apply spells_one; constructor|].
  apply spells_white; [by repeat constructor|by eapply tree_tokens|done].
Qed.

Lemma member_spelt k v t : quotable k = true -> spelt v t -> members_spelt [(k, v)] (json_field k t).
Proof. intros Hk Hv. destruct (field_spells k v t Hk Hv) as (ts & Ht & Hs). eexists. split; [by constructor|exact Hs]. Qed.

Lemma members_spelt_more m tm k v t :
  members_spelt m tm -> quotable k = true -> spelt v t -> members_spelt (insert k v m) (tm ++ cs "," ++ json_field k t).
Proof.
  intros (ts & Hm & Hts) Hk Hv. destruct (field_spells k v t Hk Hv) as (tv & Ht & Hs).
  exists (ts ++ value_separator :: value_string k :: name_separator :: tv). split; [by constructor|].
  apply spells_concat; [done|]. apply (spells_concat [value_separator]); [apply spells_one; constructor|done].
Qed.

Lemma spelt_object m t : members_spelt m t -> spelt (JObject m) (cs "{" ++ t ++ cs "}").
Proof.
  intros (ts & Hm & Hs). exists (begin_object :: ts ++ [end_object]). split; [by constructor|].
  apply (spells_concat [begin_object]); [apply spells_one; constructor|].
  apply spells_concat; [done|apply spells_one; constructor].
Qed.

Lemma spelt_parses v t ws : spelt v t -> Forall white ws -> parse (t ++ ws) = Ok v.
Proof. intros (ts & Ht & Hs) Hw. apply parse_text. by exists ts, t, ws. Qed.

(** ** The printed event *)

(** The event as the relay's library holds it. *)
Definition received_event (ev : nostr_event) : event_t :=
  Event_t (hex_text (Event.id ev)) (hex_text (Event.pubkey ev)) (Event.created_at ev) (Event.kind ev) (Event.tags ev)
    (Event.content ev) (hex_text (Event.sig ev)).

(** What the relay can read: texts that can be sent, a time that fits [time_t]. *)
Record readable (ev : nostr_event) : Prop := {
  readable_ok : event_ok ev;
  readable_tags : Event.explicit_tags ev = None;
  readable_time : Event.created_at ev < 2 ^ 63;
  readable_content : sendable (Event.content ev);
  readable_texts : Forall (Forall sendable) (Event.tags ev)
}.

Lemma received_typed ev : readable ev -> event_typed (received_event ev).
Proof.
  intros [[] _ Ht [Hc _] Htx]. split; cbn; try (apply hex_text_utf8; tauto); try done.
  - destruct ok_created_at. lia.
  - eapply Forall_impl; [exact Htx|]. intros tag Htag. eapply Forall_impl; [exact Htag|]. by intros s [].
Qed.

Lemma hex_text_quotable b : Bytes b -> quotable (hex_text b) = true.
Proof.
  assert (Hd : forall v, 0 <= v < 16 -> quotable [Hex.hex_digit v] = true).
  { intros v Hv. unfold Hex.hex_digit, quotable, between, quote, backslash. cbn. destruct (Z.ltb_spec v 10); lia. }
  induction 1 as [|c b Hc _ IH]; [done|]. destruct Hc as [? Hc]. change (2 ^ 8) with 256 in Hc.
  change (hex_text (c :: b)) with ([Hex.hex_digit (c / 16)] ++ [Hex.hex_digit (c mod 16)] ++ hex_text b).
  unfold quotable in *. by rewrite !forallb_app, !Hd, IH by dlia.
Qed.

Lemma spelt_tags ts : Forall (Forall sendable) ts -> spelt (JArray (map strings ts)) (json_array (map json_tag ts)).
Proof.
  intros Ht. apply spelt_array. induction Ht as [|tag ts Htag _ IH]; [constructor|]. constructor; [|exact IH].
  apply spelt_array. induction Htag as [|s tag Hs _ IHs]; [constructor|]. constructor; [by apply spelt_json_string|exact IHs].
Qed.

Lemma event_json_spelt ev : readable ev -> spelt (canon (event_object (received_event ev))) (event_json ev).
Proof.
  intros [Hok Hx Ht Hc Htx].
  assert (Hhex : forall b, Bytes b -> spelt (JString (hex_text b)) (Event.quoted (hex_text b))).
  { intros b Hb. by apply spelt_quoted, hex_text_quotable. }
  pose proof (member_spelt (cs "id") _ _ eq_refl (Hhex _ (proj1 (ok_id _ Hok)))) as M.
  apply (fun M => members_spelt_more _ _ (cs "pubkey") _ _ M eq_refl (Hhex _ (proj1 (ok_pubkey _ Hok)))) in M.
  apply (fun M => members_spelt_more _ _ (cs "created_at") _ _ M eq_refl (spelt_unsigned _ (ok_created_at _ Hok))) in M.
  apply (fun M => members_spelt_more _ _ (cs "kind") _ _ M eq_refl (spelt_int _ (ok_kind _ Hok))) in M.
  apply (fun M => members_spelt_more _ _ (cs "tags") _ _ M eq_refl (spelt_tags _ Htx)) in M.
  apply (fun M => members_spelt_more _ _ (cs "content") _ _ M eq_refl (spelt_json_string _ Hc)) in M.
  apply (fun M => members_spelt_more _ _ (cs "sig") _ _ M eq_refl (Hhex _ (proj1 (ok_sig _ Hok)))) in M.
  destruct (ok_created_at _ Hok) as [Hc0 Hc1].
  apply spelt_object in M.
  assert (E : canon (event_object (received_event ev)) = JObject
    [(cs "content", JString (Event.content ev)); (cs "created_at", JUnsigned (Event.created_at ev)); (cs "id", JString (hex_text (Event.id ev)));
     (cs "kind", canon (JInteger (Event.kind ev))); (cs "pubkey", JString (hex_text (Event.pubkey ev)));
     (cs "sig", JString (hex_text (Event.sig ev))); (cs "tags", JArray (map strings (Event.tags ev)))]).
  { unfold event_object, received_event. cbn [canon map fst snd id pubkey created_at kind tags content sig]. 
    destruct (Z.ltb_spec (Event.created_at ev) 0); [lia|]. rewrite map_map, (map_ext _ strings) by (intros; apply canon_strings). done. }
  rewrite E. unfold event_json, json_tags. rewrite Hx. rewrite <- !app_assoc in M. exact M.
Qed.

Lemma event_message_parses ev : readable ev ->
  parse (event_message ev true) = Ok (canon (JArray [JString (cs "EVENT"); event_object (received_event ev)])).
Proof.
  intros Hev. unfold event_message. apply spelt_parses; [|by repeat constructor].
  pose proof (spelt_array [JString (cs "EVENT"); canon (event_object (received_event ev))]
    [Event.quoted (cs "EVENT"); event_json ev]) as Ha.
  unfold json_array, join in Ha. rewrite <- !app_assoc in Ha. apply Ha. constructor; [by apply spelt_quoted|].
  constructor; [by apply event_json_spelt|constructor].
Qed.
End Texts.

(** A text that reads as an event message is stored with all its fields. *)
Lemma event_text_published `{Floats} `{Disk} (t : list Z) (e : event_t) (now : Z) (connection : list Z) (database : list event_t)
    (s : spec_state) (w : cc) :
  parse t = Ok (canon (JArray [JString (cs "EVENT"); event_object e])) -> event_typed e ->
  - 2 ^ 63 <= now < 2 ^ 63 -> writable database_json = true -> represents w database s ->
  exists t' w', on_message now connection t database w = (Returned (inr (t', memory s ++ [e])), w') /\
    represents w' (memory s ++ [e]) (Spec_state (memory s ++ [e]) (stored s ++ memory s ++ [e])) /\
    parse t' = Ok (JArray [JString (cs "EOSE"); JString (id e)]).
Proof.
  intros Hp Hty Hnow Hdisk Hs. pose proof (on_message_spec now connection t database s w Hnow Hdisk) as Hr.
  assert (Htt : forall v, parse t = Ok v -> typed v).
  { intros v Hv. assert (v = canon (JArray [JString (cs "EVENT"); event_object e])) as -> by congruence. apply canon_typed.
    constructor. repeat apply Forall_cons_2; try apply Forall_nil_2; [by constructor; apply ascii_utf8|by apply event_object_typed]. }
  specialize (Hr Htt Hs). rewrite (respond_event now _ s _ e (typed_message_array _ _ _ Hp)) in Hr.
  2: { unfold event_of. change (at_index _ 1) with (Ok (canon (event_object e))). cbv iota beta.
       by rewrite event_from_object. }
  destruct Hr as (t' & w' & E & Hr & _ & Ht). by exists t', w'.
Qed.

(** ** Properties *)

(** C11: what [print_event] of gnostr.c prints for an event with an envelope is
    accepted by the relay: the event is stored with all its fields and
    acknowledged with its id, when the event has tags given one by one (no
    explicit tags), UTF-8 texts whose control characters have a letter escape,
    and a time that fits [time_t], and [print_event] succeeds (its tags and its
    content each fit its buffer). *)
Theorem gnostr_message_published `{Floats} `{Disk} (ev : nostr_event) (text : list Z) (now : Z) (connection : list Z)
    (database : list event_t) (s : spec_state) (w : cc)
    (Hprint : Event.print_event ev true = Some (1, text)) (Hev : readable ev)
    (Hnow : - 2 ^ 63 <= now < 2 ^ 63) (Hdisk : writable database_json = true) (Hs : represents w database s) :
  exists t w', on_message now connection text database w =
      (Returned (inr (t, memory s ++ [received_event ev])), w') /\
    represents w' (memory s ++ [received_event ev])
      (Spec_state (memory s ++ [received_event ev]) (stored s ++ memory s ++ [received_event ev])) /\
    parse t = Ok (JArray [JString (cs "EOSE"); JString (hex_text (Event.id ev))]).
Proof.
  pose proof (print_event_spec ev true (readable_ok ev Hev)) as Hp. rewrite Hprint in Hp.
  assert (text = event_message ev true) as -> by (destruct (printable ev); [congruence|destruct Hp as [? [=]]]).
  apply event_text_published; [by apply event_message_parses|by apply received_typed|done..].
Qed.

#[local] Existing Instance zero_floats.
#[local] Existing Instance all_writable.

Lemma gnostr_message_published_witness :
  exists text t w', Event.print_event sample_event true = Some (1, text) /\
    on_message 7 (cs "0x1") text [] (world_of server_0) = (Returned (inr (t, [received_event sample_event])), w') /\
    represents w' [received_event sample_event] (Spec_state [received_event sample_event] [received_event sample_event]) /\
    parse t = Ok (JArray [JString (cs "EOSE"); JString (hex_text (Event.id sample_event))]).
Proof.
  assert (Hprint : Event.print_event sample_event true = Some (1, event_message sample_event true)).
  { pose proof (print_event_spec sample_event true sample_event_ok) as Hp.
    assert (Ep : printable sample_event = true) by (vm_compute; reflexivity). rewrite Ep in Hp. exact Hp. }
  assert (Hev : readable sample_event).
  { split; [apply sample_event_ok|reflexivity|reflexivity| |].
    - split; [by apply ascii_utf8|reflexivity].
    - repeat constructor; by apply ascii_utf8. }
  destruct (gnostr_message_published (H := zero_floats) (H0 := all_writable) sample_event _ 7 (cs "0x1") [] (Spec_state [] [])
    (world_of server_0) Hprint Hev ltac:(lia) eq_refl (fresh_stands server_0 fresh_0)) as (t & w' & Hm & Hr & Hp).
  exists (event_message sample_event true), t, w'. split; [exact Hprint|]. split; [exact Hm|]. split; [exact Hr|exact Hp].
Defined.
