(* ===== verification/Nostro.v ===== *)
(** * The command line client: [src/wss_client.cc], [src/wss_req.cc]

    The two files are identical.  The program takes its options, makes a request
    or an event with the client library, sends it to a relay and logs the
    answers.  An option at the end of the line without its value reads the null
    pointer behind the arguments. *)
From S2P Require Import Prelude Hex Process Event Keys Dm Json JsonParse JsonSpec JsonGrammar JsonRound Comm Client.

(** ** Options *)

Record options := Options {
  uri : list Z;
  content_ : list Z;
  authors_ : list Z;
  seckey : option (list Z);
  kind_ : Z;
  is_req : bool
}.

Definition defaults : options := Options [] [] [] None 1 false.

Definition set_uri o v := Options v (content_ o) (authors_ o) (seckey o) (kind_ o) (is_req o).
Definition set_content_ o v := Options (uri o) v (authors_ o) (seckey o) (kind_ o) (is_req o).
Definition set_authors_ o v := Options (uri o) (content_ o) v (seckey o) (kind_ o) (is_req o).
Definition set_seckey o v := Options (uri o) (content_ o) (authors_ o) (Some v) (kind_ o) (is_req o).
Definition set_kind_ o v := Options (uri o) (content_ o) (authors_ o) (seckey o) v (is_req o).
Definition set_req o := Options (uri o) (content_ o) (authors_ o) (seckey o) (kind_ o) true.

(** [std::stoi] *)
Definition stoi (s : list Z) : result Z :=
  let s := skip_space s in
  let '(neg, s) := match s with
    | c :: r => if c =? 45 then (true, r) else if c =? 43 then (false, r) else (false, s)
    | [] => (false, [])
    end in
  match s with
  | c :: _ =>
      let v := if (neg : bool) then - read_digits 0 s else read_digits 0 s in
      if negb (is_digit c) then Throw invalid_argument
      else if (- 2 ^ 31 <=? v) && (v <? 2 ^ 31) then Ok v else Throw out_of_range
  | [] => Throw invalid_argument
  end.

Definition exit_ {A} (code : Z) : cpp A := fun w => (Exited code, w).
Definition undefined_ {A} : cpp A := fun w => (Undefined, w).
Definition out_of_fuel_ {A} : cpp A := fun w => (OutOfFuel, w).

Definition say (line : list Z) : cpp unit := note (Printed (line ++ [10])).

Definition usage {A} : cpp A :=
  _ ← say (cs "./nostro [OPTIONS]");
  _ ← say (cs "[OPTIONS]:");
  _ ← say (cs "  --uri <wss URI>      Wss URI to send");
  _ ← say (cs "  --req                message is a request (REQ). EVENT parameters are ignored");
  _ ← say (cs "REQ OPTIONS: These are for the REQ filter, per NIP-01");
  _ ← say (cs "  --authors <string>   a list of pubkeys or prefixes");
  _ ← say (cs "EVENT OPTIONS: These are to publish an EVENT, per NIP-01");
  _ ← say (cs "  --content <string>   the content of the note");
  _ ← say (cs "  --kind <number>      set kind");
  _ ← say (cs "  --sec <hex seckey>   set the secret key for signing, otherwise one will be randomly generated");
  exit_ 0.

(** [argv[++i]]: the arguments after [i], and nothing behind the last. *)
Definition next {B} (argv : list (list Z)) (f : list Z -> list (list Z) -> cpp B) : cpp B :=
  match argv with v :: rest => f v rest | [] => undefined_ end.

(** The loop over the arguments from the second on; [fuel] bounds their number. *)
Fixpoint parse_options (fuel : nat) (o : options) (argv : list (list Z)) : cpp options :=
  match fuel, argv with
  | _, [] => mret o
  | O, _ => out_of_fuel_
  | S fuel, arg :: argv =>
      if decide (arg = cs "--help") then usage
      else if decide (arg = cs "--req") then parse_options fuel (set_req o) argv
      else if decide (arg = cs "--uri") then next argv (fun v => parse_options fuel (set_uri o v))
      else if decide (arg = cs "--authors") then next argv (fun v => parse_options fuel (set_authors_ o v))
      else if decide (arg = cs "--content") then next argv (fun v => parse_options fuel (set_content_ o v))
      else if decide (arg = cs "--sec") then next argv (fun v => parse_options fuel (set_seckey o v))
      else if decide (arg = cs "--kind") then
        next argv (fun v rest => k ← of_result (stoi v); parse_options fuel (set_kind_ o k) rest)
      else parse_options fuel o argv
  end.

(** ** The program *)

Section Nostro.
Context `{Floats} `{Disk} `{Secp256k1} `{Network} `{Random} (junk now : Z).

(** The JSON message, a request or an event. *)
Definition message_of (o : options) : cpp (list Z) :=
  if is_req o then
    subscription_id ← generate_uuid_v4;
    let filter := filter_new now in
    let filter := if 0 <? len (authors_ o) then set_kinds (set_authors filter [authors_ o]) [1] else filter in
    json ← make_request subscription_id filter;
    _ ← json_to_file (cs "nostro_request.json") json;
    mret json
  else
    let ev := set_kind (set_content (event_new now) (content_ o)) (kind_ o) in
    '(json, _) ← make_event junk ev (seckey o);
    _ ← json_to_file (cs "nostro_event.json") json;
    mret json.

(** The handlers of the connection; the messages received. *)
Fixpoint handle (json : list Z) (events : list net_event) (store : list (list Z)) : cpp (list (list Z)) :=
  match events with
  | [] => mret store
  | Opened http :: events =>
      _ ← log (cs "Opened connection: HTTP " ++ http);
      _ ← log (cs "Sending: " ++ json);
      handle json events store
  | Received str :: events =>
      _ ← log (cs "Received: " ++ str);
      _ ← json_to_file (cs "response.txt") str;
      handle json events (store ++ [str])
  | Closed status :: events => _ ← log (cs "Closed: " ++ fmt_int status); handle json events store
  | Failed what :: events => _ ← log (cs "Error: " ++ what); handle json events store
  end.

(** After the options. *)
Definition run_main_from (o : options) : cpp Z :=
  let uri := if len (uri o) =? 0 then cs "localhost:8080" else uri o in
  _ ← log uri;
  _ ← log (content_ o);
  _ ← (match seckey o with Some s => log s | None => mret tt end);
  _ ← log (fmt_int (kind_ o));
  json ← message_of o;
  events ← of_result (exchange uri json);
  store ← handle json events [];
  _ ← log (cs "Received " ++ fmt_u64 (len store) ++ cs " messages: ");
  _ ← log_all store;
  mret 0.

Definition run_main (argv : list (list Z)) : cpp Z :=
  o ← parse_options (length argv) defaults (tail argv); run_main_from o.

Definition main (argv : list (list Z)) : prog cc Z := terminate (run_main argv).
End Nostro.

(** ** The language of the command line *)

Inductive opt := Req | Uri (v : list Z) | Authors (v : list Z) | Content (v : list Z) | Sec (v : list Z) | Kind (k : Z) | Other (v : list Z).

Definition render (o : opt) : list (list Z) :=
  match o with
  | Req => [cs "--req"]
  | Uri v => [cs "--uri"; v]
  | Authors v => [cs "--authors"; v]
  | Content v => [cs "--content"; v]
  | Sec v => [cs "--sec"; v]
  | Kind k => [cs "--kind"; fmt_int k]
  | Other v => [v]
  end.

Definition apply_opt (o : options) (x : opt) : options :=
  match x with
  | Req => set_req o
  | Uri v => set_uri o v
  | Authors v => set_authors_ o v
  | Content v => set_content_ o v
  | Sec v => set_seckey o v
  | Kind k => set_kind_ o k
  | Other _ => o
  end.

Definition option_names : list (list Z) :=
  map cs ["--help"; "--req"; "--uri"; "--authors"; "--content"; "--sec"; "--kind"]%string.

Definition opt_ok (x : opt) : Prop :=
  match x with Kind k => - 2 ^ 31 <= k < 2 ^ 31 | Other v => ~ In v option_names | _ => True end.

Lemma stoi_fmt k : - 2 ^ 31 <= k < 2 ^ 31 -> stoi (fmt_int k) = Ok k.
Proof.
  intros Hk. unfold fmt_int, stoi.
  assert (Hd : forall n, 0 <= n <= 2 ^ 31 -> exists c ds, digits 10 n = c :: ds /\ is_digit c = true /\ read_digits 0 (digits 10 n) = n).
  { intros n Hn. pose proof (digits_chars 10 n ltac:(lia)) as Hc.
    assert (Hr : read_digits 0 (digits 10 n) = n).
    { rewrite read_digits_undigits; [apply undigits_digits; change (10 ^ Z.of_nat 10) with (10 ^ 10); lia|].
      eapply Forall_impl; [exact Hc|]. intros c Hc'. unfold digit. cbv beta in Hc'. between_lia. }
    destruct (digits 10 n) as [|c ds] eqn:E; [|exists c, ds; split_and!; [done| |done]].
    - exfalso. cbn in E. destruct (n <? 10); [done|]. by apply app_eq_nil in E as [_ E].
    - apply Forall_cons in Hc as [Hc _]. unfold is_digit. lia. }
  destruct (Z.ltb_spec k 0).
  - destruct (Hd (- k) ltac:(lia)) as (c & ds & E & Hc & Hr). rewrite E in *.
    change (skip_space (45 :: c :: ds)) with (45 :: c :: ds). cbn [Z.eqb Pos.eqb]. rewrite Hc, Hr, Z.opp_involutive. cbn [negb].
    by replace ((- 2 ^ 31 <=? k) && (k <? 2 ^ 31)) with true by lia.
  - destruct (Hd k ltac:(lia)) as (c & ds & E & Hc & Hr). rewrite E in *.
    assert (Hsp : skip_space (c :: ds) = c :: ds) by (unfold is_digit in Hc; cbn; unfold is_space; by replace (_ || _) with false by lia).
    rewrite Hsp. unfold is_digit in Hc. replace (c =? 45) with false by lia. replace (c =? 43) with false by lia.
    unfold is_digit. rewrite Hc, Hr. cbn [negb]. by replace ((- 2 ^ 31 <=? k) && (k <? 2 ^ 31)) with true by lia.
Qed.

Lemma option_turn fuel o x rest w :
  opt_ok x -> parse_options (S fuel) o (render x ++ rest) w = parse_options fuel (apply_opt o x) rest w.
Proof.
  destruct x as [|v|v|v|v|k|v]; intros Hx; try reflexivity.
  - cbn [render app apply_opt]. change (parse_options (S fuel) o (cs "--kind" :: fmt_int k :: rest) w) with
      ((k' ← of_result (stoi (fmt_int k)); parse_options fuel (set_kind_ o k') rest) w).
    by rewrite stoi_fmt.
  - cbn [render app parse_options]. rewrite !decide_False; [done|..]; intros ->; apply Hx; cbn; tauto.
Qed.

(** More fuel than arguments makes no difference. *)
Lemma parse_fuel_more argv o fuel fuel' w :
  (length argv <= fuel)%nat -> (length argv <= fuel')%nat -> parse_options fuel o argv w = parse_options fuel' o argv w.
Proof.
  revert argv o fuel' w. induction fuel as [|fuel IH]; intros [|arg argv] o [|fuel'] w Hf Hf'; try (cbn in *; lia); try done.
  cbn [length parse_options] in *. repeat (case_decide; [solve [done|apply IH; lia|destruct argv; [done|cbn in *; apply IH; lia]|
    destruct argv as [|v argv]; [done|]; cbn [next length] in *; destruct (stoi v); [rewrite !of_result_ok; apply IH; lia|done..]]|]).
  apply IH; lia.
Qed.

Lemma parse_rendered opts o rest fuel w :
  Forall opt_ok opts -> (length (concat (map render opts) ++ rest) <= fuel)%nat ->
  parse_options fuel o (concat (map render opts) ++ rest) w = parse_options fuel (fold_left apply_opt opts o) rest w.
Proof.
  intros Ho. revert o fuel. induction Ho as [|x opts Hx Ho IH]; intros o fuel Hf; [done|].
  cbn [map concat fold_left] in *. rewrite <- app_assoc in *.
  assert (Hl : (1 <= length (render x))%nat) by (destruct x; cbn; lia). rewrite length_app in Hf.
  destruct fuel as [|fuel]; [lia|]. rewrite option_turn by done. rewrite IH by lia.
  apply parse_fuel_more; rewrite length_app in Hf; lia.
Qed.

(** ** Complete runs *)

Section Complete.
Context `{Floats} `{Disk} `{Secp256k1Laws} `{Network} `{Random} (junk now : Z) (Hnow : - 2 ^ 63 <= now < 2 ^ 63).

(** A computation that ends without an exception. *)
Definition completes {A} (m : cpp A) : Prop := forall w, exists a w', m w = (Returned (inr a), w').

Lemma completes_bind {A B} (m : cpp A) (f : A -> cpp B) : completes m -> (forall a, completes (f a)) -> completes (m ≫= f).
Proof using Type. intros Hm Hf w. destruct (Hm w) as (a & w' & E). rewrite (cpp_returned _ _ _ _ _ E). apply Hf. Qed.

Definition ends_with {A} (b : A) (m : cpp A) : Prop := forall w, exists w', m w = (Returned (inr b), w').

Lemma ends_with_bind {A B} (b : B) (m : cpp A) (f : A -> cpp B) : completes m -> (forall a, ends_with b (f a)) -> ends_with b (m ≫= f).
Proof using Type. intros Hm Hf w. destruct (Hm w) as (a & w' & E). rewrite (cpp_returned _ _ _ _ _ E). apply Hf. Qed.

Lemma completes_ret {A} (a : A) : completes (mret a).
Proof using Type. intros w. by exists a, w. Qed.

Lemma completes_log m : completes (log m).
Proof using Type. intros w. by eexists _, _. Qed.

Lemma completes_file name buf : (forall v, parse buf = Ok v -> typed v) -> completes (json_to_file name buf).
Proof using Type. intros Hb w. destruct (json_to_file_returns name buf w Hb) as (w' & E & _). eauto. Qed.

Lemma completes_log_all store : completes (log_all store).
Proof using Type. induction store as [|m store IH]; [apply completes_ret|]. by apply completes_bind; [apply completes_log|]. Qed.

(** The bytes of a message. *)
Definition event_ok_ (e : net_event) : Prop := match e with Received m => Bytes m | _ => True end.

Lemma completes_handle json events store : Forall event_ok_ events -> completes (handle json events store).
Proof using Type.
  intros He. revert store. induction He as [|e events He _ IH]; intros store; [apply completes_ret|].
  destruct e; cbn [handle]; repeat (apply completes_bind; [apply completes_log|intros]); [apply IH| |apply IH..].
  apply completes_bind; [|done]. apply completes_file. intros v. by apply parse_typed_spec.
Qed.

(** Options whose texts are UTF-8. *)
Record good (o : options) : Prop := {
  good_content : utf8 (content_ o) /\ len (content_ o) < 2 ^ 31;
  good_authors : utf8 (authors_ o);
  good_kind : - 2 ^ 31 <= kind_ o < 2 ^ 31
}.

Lemma completes_message o : good o -> completes (message_of junk now o).
Proof using Hnow H2.
  intros [[Hc Hl] Ha Hk] w. unfold message_of. destruct (is_req o).
  - set (f := if 0 <? len (authors_ o) then _ else _).
    assert (Hf : filter_typed f).
    { unfold f. destruct (0 <? len (authors_ o)); split; cbn; try lia; repeat first [apply Forall_nil_2|apply Forall_cons_2]; done || lia. }
    destruct (uuid_utf8 w) as (sub & w1 & E & Hsub). rewrite (cpp_returned _ _ _ _ _ E).
    destruct (make_request_reads sub f w1 Hsub Hf) as (t & j & Ej & Er & Hp). cbv zeta. rewrite (cpp_returned _ _ _ _ _ Er).
    apply completes_bind; [|intros; apply completes_ret]. apply completes_file. intros v Hv.
    assert (Hjp : plain_json j) by (eapply filter_to_json_plain; [exact Hf| |exact Ej]; by split; [constructor|]).
    rewrite Hp in Hv. injection Hv as <-. constructor.
    repeat apply Forall_cons_2; try apply Forall_nil_2; [by constructor; apply ascii_utf8|by constructor|].
    apply canon_typed, Hjp.
  - set (ev := set_kind (set_content (event_new now) (content_ o)) (kind_ o)).
    assert (Hev : event_typed ev) by (split; cbn; try done; constructor).
    destruct (make_event_returns junk ev (seckey o) w Hev Hl) as (t & ev' & w' & E & _ & Hr).
    cbv zeta. rewrite (cpp_returned _ _ _ _ _ E). apply completes_bind; [|intros; apply completes_ret].
    apply completes_file. intros v Hv. destruct Hr as [[-> _]|(nev & k & _ & Hval & Hpub & _ & _ & Hp)]; [discriminate|].
    assert (v = canon (JArray [JString (cs "EVENT"); event_object ev'])) as -> by congruence. apply canon_typed.
    constructor. repeat apply Forall_cons_2; try apply Forall_nil_2; [by constructor; apply ascii_utf8|].
    apply event_object_typed. rewrite Hpub. apply published_typed; [done|apply Hval].
Qed.

(** What a good option leaves. *)
Definition good_opt (x : opt) : Prop :=
  opt_ok x /\ match x with Content v => utf8 v /\ len v < 2 ^ 31 | Authors v => utf8 v | _ => True end.

Lemma good_fold opts o : good o -> Forall good_opt opts -> good (fold_left apply_opt opts o).
Proof using Type.
  intros Ho Hx. revert o Ho. induction Hx as [|x opts [Hk Hx] _ IH]; intros o Ho; [done|]. apply IH.
  destruct Ho. by destruct x; split.
Qed.
End Complete.

(** ** Properties *)

(** The options of a command line are taken in order, each later one
    overriding an earlier one of its kind, and unknown arguments are passed over;
    [--kind] takes any int. *)
Theorem nostro_options (opts : list opt) (name : list Z) (w : cc) (Ho : Forall opt_ok opts) :
  let argv := name :: concat (map render opts) in
  parse_options (length argv) defaults (tail argv) w = (Returned (inr (fold_left apply_opt opts defaults)), w).
Proof.
  cbv zeta. cbn [tail]. rewrite <- (app_nil_r (concat (map render opts))) at 2.
  rewrite parse_rendered by (done || rewrite app_nil_r; cbn; lia). done.
Qed.

Lemma nostro_options_witness :
  let argv := cs "nostro" :: concat (map render [Kind (-3); Req; Content (cs "hi"); Content (cs "ho")]) in
  let w := CC (World 0 [] []) ∅ [] 0 in
  parse_options (length argv) defaults (tail argv) w = (Returned (inr (Options [] (cs "ho") [] None (-3) true)), w).
Proof.
  apply (nostro_options [Kind (-3); Req; Content (cs "hi"); Content (cs "ho")] (cs "nostro")).
  repeat constructor; cbn; lia.
Defined.

(** An option at the end of the line without its value makes the program
    read the null pointer behind its arguments, and a [--kind] that starts with
    a letter ends it with an exception that nothing catches. *)
Theorem nostro_option_errors `{Floats} `{Disk} `{Secp256k1} `{Network} `{Random} (junk now : Z) (opts : list opt) (name arg v : list Z)
    (w : cc) (Ho : Forall opt_ok opts) (Harg : In arg (map cs ["--uri"; "--authors"; "--content"; "--sec"; "--kind"]%string))
    (Hv : match v with c :: _ => between 97 122 c = true | [] => False end) :
  main junk now (name :: concat (map render opts) ++ [arg]) w = (Undefined, w) /\
  main junk now (name :: concat (map render opts) ++ [cs "--kind"; v]) w = (Aborted, w).
Proof.
  assert (Hrun : forall rest, main junk now (name :: concat (map render opts) ++ rest) w =
    terminate (o ← parse_options (S (length (concat (map render opts) ++ rest))) (fold_left apply_opt opts defaults) rest;
      run_main_from junk now o) w).
  { intros rest. unfold main, run_main, terminate, mbind, cpp_bind. cbn [tail length].
    rewrite parse_rendered by (done || lia). done. }
  split; rewrite Hrun; clear Hrun.
  - cbn in Harg. unfold terminate, mbind, cpp_bind.
    repeat (destruct Harg as [<-|Harg]; [reflexivity|]). done.
  - destruct v as [|c v]; [done|]. unfold terminate. unfold mbind at 1, cpp_bind at 1.
    assert (E : stoi (c :: v) = Throw invalid_argument).
    { unfold stoi. assert (Hs : skip_space (c :: v) = c :: v) by (cbn; unfold is_space, between in *; by replace (_ || _) with false by lia).
      rewrite Hs. unfold between in Hv. replace (c =? 45) with false by lia. replace (c =? 43) with false by lia.
      unfold is_digit. by replace ((48 <=? c) && (c <=? 57)) with false by lia. }
    change (parse_options (S ?n) ?o [cs "--kind"; c :: v] w) with ((k ← of_result (stoi (c :: v)); parse_options n (set_kind_ o k) []) w).
    by rewrite E.
Qed.

Definition no_relay : Network := {| exchange := fun _ _ => Ok [Opened (cs "1.1 , code 101"); Received (cs "[]"); Closed 1000] |}.
Program Definition zero_random : Random := {| dis := fun _ => 0; dis2 := fun _ => 8 |}.
Solve Obligations with lia.

Lemma nostro_option_errors_witness :
  let w := CC (World 0 [] []) ∅ [] 0 in
  main (H := zero_floats) (H0 := all_writable) (H1 := Toy.lib) (H2 := no_relay) (H3 := zero_random) 0 7
    (cs "nostro" :: concat (map render [Req]) ++ [cs "--uri"]) w = (Undefined, w) /\
  main (H := zero_floats) (H0 := all_writable) (H1 := Toy.lib) (H2 := no_relay) (H3 := zero_random) 0 7
    (cs "nostro" :: concat (map render [Req]) ++ [cs "--kind"; cs "one"]) w = (Aborted, w).
Proof.
  intros w. apply (nostro_option_errors 0 7 [Req] (cs "nostro") (cs "--uri") (cs "one") w);
    [by repeat constructor|by left|reflexivity].
Defined.

(** C39: with UTF-8 texts, a kind that is an int and a relay whose connection does
    not throw, the program runs to its end, whatever the relay answers: the
    message is made or left empty, sent, and the answers logged. *)
Theorem nostro_completes `{Floats} `{Disk} `{Secp256k1Laws} `{Network} `{Random} (junk now : Z) (opts : list opt) (name : list Z) (w : cc)
    (Hnow : - 2 ^ 63 <= now < 2 ^ 63) (Ho : Forall good_opt opts)
    (Hnet : forall uri json, exists events, exchange uri json = Ok events /\ Forall event_ok_ events) :
  exists w', main junk now (name :: concat (map render opts)) w = (Returned 0, w').
Proof.
  assert (Hok : Forall opt_ok opts) by (eapply Forall_impl; [exact Ho|]; by intros x []).
  set (o := fold_left apply_opt opts defaults).
  assert (Hg : good o) by (apply good_fold; [split; cbn; [split; [constructor|done]|constructor|lia]|done]).
  assert (Hc : ends_with 0 (run_main_from junk now o)).
  { unfold run_main_from. cbv zeta. repeat (apply ends_with_bind; [apply completes_log|intros]).
    apply ends_with_bind; [destruct (seckey o); [apply completes_log|apply completes_ret]|intros].
    apply ends_with_bind; [apply completes_log|intros]. apply ends_with_bind; [by apply completes_message|intros json].
    match goal with |- context [exchange ?u json] => destruct (Hnet u json) as (events & E & Hev) end. rewrite E.
    intros w0. rewrite of_result_ok. revert w0. match goal with |- forall w, exists w', ?m w = _ => change (ends_with 0 m) end. apply ends_with_bind; [by apply completes_handle|intros store].
    apply ends_with_bind; [apply completes_log|intros]. apply ends_with_bind; [apply completes_log_all|intros]. intros w0. by exists w0. }
  destruct (Hc w) as (w' & E). exists w'. unfold main, run_main, terminate, mbind, cpp_bind. cbn [tail length].
  rewrite <- (app_nil_r (concat (map render opts))). rewrite parse_rendered by (done || lia). fold o.
  change (parse_options ?n o [] w) with (@Returned (exn + options) (inr o), w).
  cbv iota beta. by rewrite E.
Qed.

Lemma nostro_completes_witness :
  exists w', main (H := zero_floats) (H0 := all_writable) (H1 := Toy.lib) (H2 := no_relay) (H3 := zero_random) 0 7
    (cs "nostro" :: concat (map render [Content (cs "hello"); Kind 1])) (CC (World 0 [] []) ∅ [] 0) = (Returned 0, w').
Proof.
  apply (nostro_completes (H := zero_floats) (H0 := all_writable) (H2 := Toy.lib_laws) (H3 := no_relay) (H4 := zero_random) 0 7
    [Content (cs "hello"); Kind 1] (cs "nostro")); [lia| |].
  - constructor; [|constructor; [|constructor]]; (split; [cbn; try exact I; lia|]); [|exact I].
    split; [by apply ascii_utf8|reflexivity].
  - intros uri json. eexists. split; [reflexivity|]. repeat constructor; done.
Defined.
