(* ===== verification/Http.v ===== *)
(** * HTTP over a connection: [src/http/http.cc], [src/http/http.hh]

    The messages of the HTTP variant of the relay, and the two functions of asio
    that read them from a socket.  What the system's calls of [recv] return on a
    connection, one after the other until the end of the stream, is a list of
    segments: how a message is cut into them is up to the system, and the
    theorems hold for every way.  [takes] says which text is the message that a
    stream begins with, without segments and without the parser. *)
From S2P Require Import Prelude Event Process Json JsonParse JsonSpec JsonGrammar JsonRound Comm Client.

(** ** [std::string] *)

Definition npos : Z := 2 ^ 64 - 1.

Fixpoint find_from (pos : Z) (s needle : list Z) : Z :=
  if starts_with needle s then pos else match s with _ :: r => find_from (pos + 1) r needle | [] => npos end.

(** [s.find(needle)] *)
Definition string_find (s needle : list Z) : Z := find_from 0 s needle.

(** [s.substr(pos, n)] *)
Definition substr (s : list Z) (pos n : Z) : result (list Z) :=
  if pos <=? len s then Ok (slice pos (Z.min n (len s - pos)) s) else Throw out_of_range.

(** [v.at(i)] *)
Definition vector_at {A} (v : list A) (i : nat) : result A := match v !! i with Some a => Ok a | None => Throw out_of_range end.

(** [std::atoi]; the value must fit an int. *)
Definition atoi (s : list Z) : result Z :=
  let s := skip_space s in
  let '(neg, s) := match s with
    | c :: r => if c =? 45 then (true, r) else if c =? 43 then (false, r) else (false, s)
    | [] => (false, [])
    end in
  let v := if (neg : bool) then - read_digits 0 s else read_digits 0 s in
  if (- 2 ^ 31 <=? v) && (v <? 2 ^ 31) then Ok v else Ub.

(** ** Blocks that fill in an object and may throw

    The object keeps what was assigned before the exception. *)

Definition member (S A : Type) : Type := S -> cpp ((exn + A) * S).

#[export] Instance member_ret {S} : MRet (member S) := fun A a s => mret (inr a, s).
#[export] Instance member_bind {S} : MBind (member S) := fun A B f m s =>
  '(r, s) ← m s; match r with inr a => f a s | inl e => mret (inl e, s) end.

Definition call {S A} (m : cpp A) : member S A := fun s => try_catch (a ← m; mret (inr a, s)) (fun e => mret (inl e, s)).
Definition update {S} (f : S -> S) : member S unit := fun s => mret (inr tt, f s).
Definition object {S} : member S S := fun s => mret (inr s, s).

(** [try { m } catch (const std::exception& e) { comm::log(e.what()); }], then [after]. *)
Definition guarded {S A} (m : member S A) (after : A) (s : S) : cpp (A * S) :=
  '(r, s) ← m s; match r with inr a => mret (a, s) | inl e => _ ← log_what e; mret (after, s) end.

(** ** Reading from a socket: asio *)

Inductive comparison_ := Full | Partial | Differs.

(** The inner loop of [partial_search], from one position on. *)
Fixpoint compare_at (s delim : list Z) {struct delim} : comparison_ :=
  match delim, s with
  | [], _ => Full
  | _ :: _, [] => Partial
  | d :: delim, c :: s => if c =? d then compare_at s delim else Differs
  end.

(** The position of a full match, or of a partial match at the end, or the end. *)
Fixpoint partial_search (pos : Z) (s delim : list Z) : Z * bool :=
  match s with
  | [] => (pos, false)
  | _ :: r =>
      match compare_at s delim with
      | Full => (pos, true)
      | Partial => (pos, false)
      | Differs => partial_search (pos + 1) r delim
      end
  end.

(** [read_until(s, buffers, delim)]: the buffer, with the delimiter somewhere in
    it, and what is left on the connection.  The end of the stream is an error. *)
Fixpoint read_until (sock : list (list Z)) (b delim : list Z) (search_position : Z) : result (list Z * list (list Z)) :=
  let '(first, found) := partial_search search_position (drop (Z.to_nat search_position) b) delim in
  if found then Ok (b, sock)
  else
    match sock with
    | [] | [] :: _ => Throw system_error
    | data :: sock => read_until sock (b ++ data) delim first
    end.

(** [read(s, buffers, transfer_exactly(n))] *)
Fixpoint read_exactly (sock : list (list Z)) (b : list Z) (n : Z) : result (list Z * list (list Z)) :=
  if n =? 0 then Ok (b, sock)
  else
    match sock with
    | [] | [] :: _ => Throw system_error
    | data :: sock =>
        if n <? len data then Ok (b ++ take (Z.to_nat n) data, drop (Z.to_nat n) data :: sock)
        else read_exactly sock (b ++ data) (n - len data)
    end.

(** ** [http.hh], [http.cc] *)

Record http_msg_t := Http_msg_t {
  content_size : Z;          (* size_t *)
  method : list Z;
  url : list Z;
  header : list (list Z);
  msg : list Z
}.

Definition http_new : http_msg_t := Http_msg_t 0 [] [] [] [].

Definition set_content_size v h := Http_msg_t v (method h) (url h) (header h) (msg h).
Definition set_method v h := Http_msg_t (content_size h) v (url h) (header h) (msg h).
Definition set_url v h := Http_msg_t (content_size h) (method h) v (header h) (msg h).
Definition set_header v h := Http_msg_t (content_size h) (method h) (url h) v (msg h).
Definition set_msg v h := Http_msg_t (content_size h) (method h) (url h) (header h) v.

Definition CR : Z := 13.
Definition LF : Z := 10.
Definition crlf : list Z := [CR; LF].

Definition make_post (host json : list Z) : list Z :=
  cs "POST / HTTP/1.1" ++ crlf ++
  cs "Host: " ++ host ++ crlf ++
  cs "Connection: close" ++ crlf ++
  cs "Content-Type: application/json" ++ crlf ++
  cs "Content-Length: " ++ fmt_u64 (len json) ++ crlf ++
  crlf ++
  json.

Definition get_method (header : list Z) : cpp (list Z) :=
  s ← of_result (substr header 0 4);
  if decide (s = cs "HTTP") then mret []
  else
    let pos := string_find header (cs " ") in
    if pos =? npos then _ ← log (cs "HTTP bad format"); mret []
    else of_result (substr header 0 pos).

Definition get_url (header : list Z) : cpp (list Z) :=
  s ← of_result (substr header 0 4);
  if decide (s = cs "HTTP") then mret []
  else
    let pos := string_find header (cs " ") in
    let ver_pos := string_find header (cs " HTTP") in
    if pos =? npos then _ ← log (cs "HTTP bad format"); mret []
    else if pos =? ver_pos then mret []
    else of_result (substr header (pos + 1) (u64 (ver_pos - pos - 1))).

(** The lines up to the one that is a lone CR, and the bytes after it; [line] is
    the line so far.  A last line without LF counts, unless it is empty. *)
Fixpoint header_lines (line s : list Z) : list (list Z) * list Z :=
  match s with
  | [] => (if decide (line = [] \/ line = [CR]) then [] else [line], [])
  | c :: s =>
      if c =? LF then
        if decide (line = [CR]) then ([], s) else let '(l, r) := header_lines [] s in (line :: l, r)
      else header_lines (line ++ [c]) s
  end.

(** The number of a line with the field, as [parse] cuts it out. *)
Definition length_of (line : list Z) : result Z :=
  let start := string_find line (cs ":") + 2 in
  let end_ := string_find line [CR] in
  s ← substr line start (u64 (end_ - 1));
  atoi (c_str s).

(** The loop that looks for Content-Length. *)
Fixpoint find_content_length (lines : list (list Z)) : member http_msg_t unit :=
  match lines with
  | [] => mret tt
  | line :: lines =>
      if string_find line (cs "Content-Length: ") =? npos then find_content_length lines
      else
        n ← call (of_result (length_of line));
        _ ← update (set_content_size (u64 n));
        find_content_length lines
  end.

(** What is left of the message, after the bytes the buffer already has. *)
Definition read_body (buf : list Z) (sock : list (list Z)) : member http_msg_t (option (list Z)) :=
  h ← object;
  if content_size h =? 0 then mret None
  else
    let read_left := if 0 <? len buf then u64 (content_size h - len buf) else content_size h in
    '(recv, _) ← call (of_result (read_exactly sock [] read_left));
    mret (Some (buf ++ recv)).

(** The [try] block: the text of the message, or nothing when there is none to read. *)
Definition parse_message (sock : list (list Z)) : member http_msg_t (option (list Z)) :=
  '(buf, sock) ← call (of_result (read_until sock [] (crlf ++ crlf) 0));
  let '(lines, buf) := header_lines [] buf in
  _ ← update (fun h => set_header (header h ++ lines) h);
  h ← object;
  line ← call (of_result (vector_at (header h) 0));
  v ← call (get_method line); _ ← update (set_method v);
  v ← call (get_url line); _ ← update (set_url v);
  _ ← find_content_length (header h);
  read_body buf sock.

(** [http::parse]: the return value and the message. *)
Definition parse_http (sock : list (list Z)) (http : http_msg_t) : cpp (Z * http_msg_t) :=
  '(r, http) ← parse_message sock http;
  match r with
  | inr (Some ss) => mret (0, set_msg ss http)
  | inr None => mret (0, http)
  | inl e => _ ← log_what e; mret (-1, http)
  end.

(** ** Searching *)

Definition holds (s needle : list Z) : Prop := exists p q, s = p ++ needle ++ q.

Lemma starts_with_app p s : starts_with p s = true <-> exists r, s = p ++ r.
Proof.
  revert s. induction p as [|x p IH]; intros s; cbn; [split; eauto|]. destruct s as [|y s].
  - split; [done|]. by intros [r ?].
  - rewrite andb_true_iff, IH, Z.eqb_eq. split.
    + intros [-> [r ->]]. by exists r.
    + intros [r [= -> ->]]. eauto.
Qed.

Lemma find_from_none pos s needle c : In c needle -> Forall (fun x => x <> c) s -> find_from pos s needle = npos.
Proof.
  intros Hc Hs. revert pos. induction Hs as [|x s Hx Hs IH]; intros pos; cbn [find_from].
  - by destruct needle.
  - destruct (starts_with needle (x :: s)) eqn:E; [|by apply IH]. apply starts_with_app in E as [r E]. exfalso.
    assert (Hin : In c (x :: s)) by (rewrite E; apply in_or_app; by left).
    destruct Hin as [->|Hin]; [done|]. rewrite List.Forall_forall in Hs. by apply (Hs c).
Qed.

Lemma find_from_char pos l c r : Forall (fun x => x <> c) l -> find_from pos (l ++ c :: r) [c] = pos + len l.
Proof.
  intros Hl. revert pos. induction Hl as [|x l Hx _ IH]; intros pos; cbn.
  - rewrite Z.eqb_refl. cbn [andb]. unfold len. cbn. lia.
  - replace (c =? x) with false by lia. cbn [andb]. rewrite IH. len_lia.
Qed.

Lemma compare_at_full s delim : compare_at s delim = Full <-> exists r, s = delim ++ r.
Proof.
  revert s. induction delim as [|d delim IH]; intros s; [by destruct s; split; eauto|]. destruct s as [|c s]; cbn [compare_at].
  { split; [done|]. by intros [r ?]. }
  destruct (Z.eqb_spec c d) as [->|Hd].
  - rewrite IH. split; [intros [r ->]; by exists r|intros [r [= ->]]; eauto].
  - split; [done|]. by intros [r [= ? ?]].
Qed.

Lemma compare_at_partial s delim : compare_at s delim = Partial -> len s < len delim.
Proof.
  revert s. induction delim as [|d delim IH]; intros s; cbn; [done|]. destruct s as [|c s]; [intros _; len_lia|].
  destruct (c =? d); [|done]. intros H%IH. len_lia.
Qed.

Lemma compare_at_differs s delim x r : compare_at s delim = Differs -> s ++ x <> delim ++ r.
Proof.
  revert s. induction delim as [|d delim IH]; intros s; cbn; [done|]. destruct s as [|c s]; [done|].
  destruct (Z.eqb_spec c d) as [->|Hd]; intros HE; [|by intros [= ? ?]]. intros [= E]. by apply (IH s HE).
Qed.

Lemma partial_search_found pos s delim i : partial_search pos s delim = (i, true) -> holds s delim.
Proof.
  revert pos. induction s as [|c s IH]; intros pos; cbn; [done|]. destruct (compare_at (c :: s) delim) eqn:E; [|done|].
  - intros _. apply compare_at_full in E as [r E]. exists [], r. exact E.
  - intros (p & q & ->)%IH. by exists (c :: p), q.
Qed.

Lemma partial_search_not pos s delim i :
  partial_search pos s delim = (i, false) -> delim <> [] ->
  pos <= i <= pos + len s /\ ~ holds s delim /\ forall x p q, s ++ x = p ++ delim ++ q -> i <= pos + len p.
Proof.
  intros H Hd. revert pos H. induction s as [|c s IH]; intros pos; cbn [partial_search].
  - intros [= ->]. split; [len_lia|]. split; [|intros; len_lia]. intros (p & q & E). destruct p; [|done]. by destruct delim.
  - destruct (compare_at (c :: s) delim) eqn:E; [done| |].
    + intros [= ->]. split; [len_lia|]. split; [|intros; len_lia]. intros (p & q & E').
      apply compare_at_partial in E. rewrite E', !len_app in E. len_lia.
    + intros H. destruct (IH _ H) as (Hi & Hn & Hx). split; [len_lia|]. split.
      * intros (p & q & E'). destruct p as [|c' p].
        -- apply (compare_at_differs _ _ [] q E). by rewrite app_nil_r.
        -- injection E' as _ E'. apply Hn. by exists p, q.
      * intros x p q E'. destruct p as [|c' p]; [by apply (compare_at_differs _ _ x q E) in E'|].
        injection E' as _ E'. specialize (Hx x p q E'). len_lia.
Qed.

(** ** What is read *)

Definition segments (sock : list (list Z)) : Prop := Forall (fun s => s <> []) sock.

(** [read_until] keeps the bytes, and ends with the delimiter in the buffer when
    the stream has one.  [sp] is the position before which no match starts. *)
Lemma read_until_from sock b delim sp :
  segments sock -> delim <> [] -> 0 <= sp <= len b -> (forall x p q, b ++ x = p ++ delim ++ q -> sp <= len p) ->
  match read_until sock b delim sp with
  | Ok (b', sock') => b' ++ concat sock' = b ++ concat sock /\ holds b' delim /\ segments sock'
  | Throw e => e = system_error /\ ~ holds (b ++ concat sock) delim
  | Ub => False
  end.
Proof.
  intros Hs Hd. revert b sp. induction Hs as [|s sock Hs0 Hs IH]; intros b sp Hsp Hinv; cbn [read_until];
    destruct (partial_search sp (drop (Z.to_nat sp) b) delim) as [i found] eqn:E;
    assert (Hb : b = take (Z.to_nat sp) b ++ drop (Z.to_nat sp) b) by (by rewrite take_drop);
    assert (Ht : len (take (Z.to_nat sp) b) = sp) by (rewrite len_take; lia).
  1,2: destruct found;
    [apply partial_search_found in E as (p & q & E); split_and!; [done| |by constructor];
     exists (take (Z.to_nat sp) b ++ p), q; rewrite Hb at 1; by rewrite E, app_assoc|].
  (* an occurrence starts at [sp] or later *)
  1,2: apply partial_search_not in E as (Hi & Hno & Hx); [|done].
  1,2: assert (Hat : forall x p q, b ++ x = p ++ delim ++ q -> exists p', drop (Z.to_nat sp) b ++ x = p' ++ delim ++ q /\ len p = sp + len p');
    [intros x p q E'; specialize (Hinv x p q E'); exists (drop (Z.to_nat sp) p); split;
      [rewrite <- (take_drop (Z.to_nat sp) p) in E' |rewrite len_drop; lia]|].
  1,3: rewrite Hb, <- !app_assoc in E'; apply app_inj_1 in E' as [_ E']; [done|]; rewrite !length_take; unfold len in *; lia.
  - split; [done|]. intros (p & q & E'). rewrite app_nil_r in E'. destruct (Hat [] p q) as (p' & Ep & _); [by rewrite app_nil_r|].
    rewrite app_nil_r in Ep. apply Hno. by exists p', q.
  - destruct s as [|c s]; [done|]. set (d := c :: s) in *.
    specialize (IH (b ++ d) i). cbn [concat]. rewrite app_assoc. apply IH.
    + rewrite len_drop in Hi. len_lia.
    + intros x p q E'. rewrite <- app_assoc in E'. destruct (Hat _ p q E') as (p' & Ep & ->). exact (Hx _ _ _ Ep).
Qed.

Lemma read_until_spec sock delim :
  segments sock -> delim <> [] ->
  match read_until sock [] delim 0 with
  | Ok (b, sock') => b ++ concat sock' = concat sock /\ holds b delim /\ segments sock'
  | Throw e => e = system_error /\ ~ holds (concat sock) delim
  | Ub => False
  end.
Proof. intros Hs Hd. apply (read_until_from sock [] delim 0 Hs Hd); [len_lia|]. intros. len_lia. Qed.

Lemma read_until_one s delim : delim <> [] -> holds s delim -> read_until [s] [] delim 0 = Ok (s, []).
Proof.
  intros Hd Hs. cbn [read_until]. change (partial_search 0 (drop (Z.to_nat 0) []) delim) with (0, false). cbv iota beta.
  destruct s as [|c s]; [by destruct Hs as ([] & q & Hs); destruct delim|]. cbn [app read_until].
  change (drop (Z.to_nat 0) (c :: s)) with (c :: s).
  destruct (partial_search 0 (c :: s) delim) as [i [|]] eqn:E; [done|]. by apply partial_search_not in E as (_ & [] & _).
Qed.

Lemma read_exactly_spec sock b n :
  segments sock -> 0 <= n ->
  if n <=? len (concat sock) then
    exists sock', read_exactly sock b n = Ok (b ++ take (Z.to_nat n) (concat sock), sock') /\
      concat sock' = drop (Z.to_nat n) (concat sock) /\ segments sock'
  else read_exactly sock b n = Throw system_error.
Proof.
  intros Hs. revert b n. induction Hs as [|s sock Hs0 Hs IH]; intros b n Hn; cbn [read_exactly concat].
  - change (len []) with 0. destruct (Z.eqb_spec n 0) as [->|Hz].
    + exists []. rewrite app_nil_r. split_and!; [done..|constructor].
    + by replace (n <=? 0) with false by lia.
  - destruct (Z.eqb_spec n 0) as [->|].
    + destruct (Z.leb_spec 0 (len (s ++ concat sock))); [|len_lia]. exists (s :: sock). rewrite app_nil_r. split_and!; [done..|by constructor].
    + destruct s as [|c s]; [done|]. set (d := c :: s) in *. clearbody d. destruct (Z.ltb_spec n (len d)).
      * destruct (Z.leb_spec n (len (d ++ concat sock))); [|len_lia].
        assert (Hl : (Z.to_nat n <= length d)%nat) by (unfold len in *; lia).
        exists (drop (Z.to_nat n) d :: sock). rewrite take_app_le by done. split_and!; [done| |].
        -- cbn [concat]. by rewrite drop_app_le.
        -- constructor; [|done]. intros E%(f_equal length). rewrite length_drop in E. cbn [length] in E. unfold len in *. lia.
      * specialize (IH (b ++ d) (n - len d) ltac:(lia)). rewrite len_app.
        assert (Hl : (length d <= Z.to_nat n)%nat) by (unfold len in *; lia).
        destruct (Z.leb_spec (n - len d) (len (concat sock))), (Z.leb_spec n (len d + len (concat sock))); try lia; [|done].
        destruct IH as (sock' & -> & Ec & Hss). exists sock'. split_and!; [|rewrite Ec|done].
        -- rewrite take_app_ge by done. rewrite app_assoc. repeat f_equal. unfold len. lia.
        -- rewrite drop_app_ge by done. f_equal. unfold len. lia.
Qed.

(** ** Header lines *)

Lemma header_lines_line cur l s : Forall (fun c => c <> LF) l ->
  header_lines cur (l ++ LF :: s) =
  if decide (cur ++ l = [CR]) then ([], s) else let '(ls, r) := header_lines [] s in ((cur ++ l) :: ls, r).
Proof.
  intros Hl. revert cur. induction Hl as [|c l Hc _ IH]; intros cur; cbn [app header_lines].
  - rewrite app_nil_r. by rewrite Z.eqb_refl.
  - replace (c =? LF) with false by lia. rewrite IH. by rewrite <- app_assoc.
Qed.

Lemma header_lines_all ls rest : Forall (fun l => Forall (fun c => c <> LF) l /\ l <> [CR]) ls ->
  header_lines [] (concat (map (fun l => l ++ [LF]) ls) ++ crlf ++ rest) = (ls, rest).
Proof.
  induction 1 as [|l ls [Hl Hcr] _ IH]; [done|]. cbn [map concat]. rewrite <- !app_assoc. cbn [app].
  rewrite header_lines_line by done. cbn [app]. rewrite decide_False by done. by rewrite IH.
Qed.

(** Once a buffer holds an empty line, what follows does not change its lines. *)
Lemma header_lines_more b x cur : holds b (crlf ++ crlf) ->
  header_lines cur (b ++ x) = let '(l, r) := header_lines cur b in (l, r ++ x).
Proof.
  intros (p & q & ->). revert cur. induction p as [|c p IH]; intros cur.
  - cbn [app crlf header_lines]. change (CR =? LF) with false. change (LF =? LF) with true. cbv iota.
    destruct (decide (cur ++ [CR] = [CR])); [done|]. cbn [app]. by rewrite decide_True.
  - cbn [app header_lines]. destruct (c =? LF); [|by apply IH]. destruct (decide (cur = [CR])); [done|].
    rewrite IH. by destruct (header_lines [] _).
Qed.

(** The lines and the rest make up the bytes. *)
Lemma header_lines_split cur b l r : holds b (crlf ++ crlf) -> header_lines cur b = (l, r) ->
  exists p, b = p ++ r /\ header_lines cur p = (l, []).
Proof.
  intros (p & q & ->). revert cur l. induction p as [|c p IH]; intros cur l.
  - cbn [app crlf header_lines]. change (CR =? LF) with false. change (LF =? LF) with true. cbv iota.
    destruct (decide (cur ++ [CR] = [CR])) as [E|E].
    + intros [= <- <-]. exists [CR; LF]. split; [done|]. cbn [header_lines]. change (CR =? LF) with false. cbn. by rewrite decide_True.
    + cbn [app]. rewrite decide_True by done. intros [= <- <-]. exists [CR; LF; CR; LF]. split; [done|].
      cbn [header_lines]. change (CR =? LF) with false. change (LF =? LF) with true. cbv iota. rewrite decide_False by done. cbn [app]. by rewrite decide_True.
  - cbn [app header_lines]. destruct (c =? LF) eqn:Ec.
    + destruct (decide (cur = [CR])) as [->|Hcur].
      * intros [= <- <-]. exists [c]. split; [done|]. cbn [header_lines]. by rewrite Ec, decide_True.
      * destruct (header_lines [] _) as [l' r'] eqn:E. intros HE. injection HE as <- ->.
        destruct (IH _ _ E) as (p' & Ep & El). exists (c :: p'). cbn [app header_lines]. rewrite Ec, El, decide_False by done.
        split; [|done]. f_equal. exact Ep.
    + intros E. destruct (IH _ _ E) as (p' & Ep & El). exists (c :: p'). cbn [app header_lines]. rewrite Ec, El. split; [|done]. f_equal. exact Ep.
Qed.

(** The header of [make_post]. *)
Definition post_header (host json : list Z) : list (list Z) :=
  map (fun l => l ++ [CR])
    [cs "POST / HTTP/1.1"; cs "Host: " ++ host; cs "Connection: close"; cs "Content-Type: application/json";
     cs "Content-Length: " ++ fmt_u64 (len json)].

(** A host name: no spaces, no line feeds. *)
Definition host_name (host : list Z) : Prop := Forall (fun c => c <> 32 /\ c <> LF) host.

Lemma make_post_lines host json :
  make_post host json = concat (map (fun l => l ++ [LF]) (post_header host json)) ++ crlf ++ json.
Proof. unfold make_post, post_header, crlf. cbn [map concat]. rewrite <- !app_assoc. reflexivity. Qed.

Lemma fmt_u64_chars n : 0 <= n -> Forall (fun c => 48 <= c <= 57) (fmt_u64 n).
Proof. apply digits_chars. Qed.

Lemma post_header_lines host json : host_name host ->
  Forall (fun l => Forall (fun c => c <> LF) l /\ l <> [CR]) (post_header host json).
Proof.
  intros Hh. pose proof (fmt_u64_chars (len json) (len_nonneg json)) as Hd. unfold post_header. cbn [map].
  assert (Hcs : forall s, forallb (fun c => negb (c =? LF)) s = true -> Forall (fun c => c <> LF) s).
  { intros s Hs. apply List.Forall_forall. rewrite forallb_forall in Hs. intros c Hc. specialize (Hs c Hc). lia. }
  assert (Hcr : Forall (fun c => c <> LF) [CR]) by (by repeat constructor).
  repeat apply Forall_cons_2; try apply Forall_nil_2; (split; [repeat (apply Forall_app; split)|]);
    try (by apply Hcs); try exact Hcr; try discriminate.
  - eapply Forall_impl; [exact Hh|]. by intros c [].
  - eapply Forall_impl; [exact Hd|]. intros c Hc. unfold LF. cbv beta in Hc. lia.
Qed.

Lemma header_lines_post host json : host_name host -> header_lines [] (make_post host json) = (post_header host json, json).
Proof. intros Hh. rewrite make_post_lines. by apply header_lines_all, post_header_lines. Qed.

Lemma make_post_holds host json : holds (make_post host json) (crlf ++ crlf).
Proof.
  exists (cs "POST / HTTP/1.1" ++ crlf ++ cs "Host: " ++ host ++ crlf ++ cs "Connection: close" ++ crlf ++
    cs "Content-Type: application/json" ++ crlf ++ cs "Content-Length: " ++ fmt_u64 (len json)), json.
  unfold make_post. by rewrite <- !app_assoc.
Qed.

(** ** Content-Length *)

Lemma read_digits_stop acc ds c r : Forall (fun c => 48 <= c <= 57) ds -> is_digit c = false ->
  read_digits acc (ds ++ c :: r) = read_digits acc ds.
Proof.
  intros Hd Hc. revert acc. induction Hd as [|d ds Hd _ IH]; intros acc; cbn [app read_digits]; [by rewrite Hc|].
  unfold is_digit. replace (_ && _) with true by lia. apply IH.
Qed.

Lemma atoi_fmt n r : 0 <= n < 2 ^ 31 -> atoi (fmt_u64 n ++ CR :: r) = Ok n.
Proof.
  intros Hn. pose proof (fmt_u64_chars n ltac:(lia)) as Hd. unfold atoi, fmt_u64 in *.
  assert (Hr : read_digits 0 (digits 20 n) = n).
  { rewrite read_digits_undigits; [apply undigits_digits; change (10 ^ Z.of_nat 20) with (10 ^ 20); lia|].
    eapply Forall_impl; [exact Hd|]. intros c Hc. unfold digit. cbv beta in Hc. between_lia. }
  rewrite <- (read_digits_stop 0 _ CR r Hd eq_refl) in Hr.
  assert (Hc : exists c ds, digits 20 n = c :: ds /\ 48 <= c <= 57).
  { destruct (digits 20 n) as [|c ds] eqn:E; [|exists c, ds; split; [done|by apply Forall_cons in Hd as [? _]]].
    exfalso. cbn in E. destruct (n <? 10); [done|]. by apply app_eq_nil in E as [_ E]. }
  destruct Hc as (c & ds & E & Hc). rewrite E in *. cbn [app] in *.
  assert (Hsp : skip_space (c :: ds ++ CR :: r) = c :: ds ++ CR :: r) by (cbn; unfold is_space; by replace (_ || _) with false by lia).
  rewrite Hsp. replace (c =? 45) with false by lia. replace (c =? 43) with false by lia.
  rewrite Hr. by replace ((- 2 ^ 31 <=? n) && (n <? 2 ^ 31)) with true by lia.
Qed.

Lemma length_of_post n : 0 <= n < 2 ^ 31 -> length_of ((cs "Content-Length: " ++ fmt_u64 n) ++ [CR]) = Ok n.
Proof.
  intros Hn. pose proof (fmt_u64_chars n ltac:(lia)) as Hd. unfold length_of. rewrite <- app_assoc.
  change (string_find (cs "Content-Length: " ++ fmt_u64 n ++ [CR]) (cs ":")) with 14.
  unfold string_find. rewrite app_assoc, find_from_char.
  2: { apply Forall_app. split; [by repeat (constructor; [done|])|]. eapply Forall_impl; [exact Hd|]. intros c Hc. unfold CR. cbv beta in Hc. lia. }
  rewrite len_app. change (len (cs "Content-Length: ")) with 16.
  assert (Hf : 0 <= len (fmt_u64 n) <= 20).
  { split; [apply len_nonneg|]. unfold fmt_u64. pose proof (digits_length 20 n). unfold len. lia. }
  unfold substr. rewrite wrap_id by (split; lia). rewrite !len_app. change (len (cs "Content-Length: ")) with 16. change (len [CR]) with 1.
  replace (14 + 2 <=? 16 + len (fmt_u64 n) + 1) with true by lia. rewrite Z.min_r by lia.
  unfold slice. rewrite <- app_assoc. change (drop (Z.to_nat (14 + 2)) (cs "Content-Length: " ++ fmt_u64 n ++ [CR])) with (fmt_u64 n ++ [CR]).
  rewrite take_ge. 2: { rewrite length_app. unfold len in *. cbn [length]. lia. }
  cbn [mbind result_bind]. rewrite c_str_id; [by apply atoi_fmt|].
  apply Forall_app. split; [|by repeat constructor]. eapply Forall_impl; [exact Hd|]. intros c Hc. cbv beta in Hc. lia.
Qed.

(** ** Running a block *)

Lemma call_returned {S A B} (m : cpp A) (f : A -> member S B) s w a w' :
  m w = (Returned (inr a), w') -> (call m ≫= f) s w = f a s w'.
Proof. intros E. unfold mbind, member_bind, call, try_catch. unfold mbind, cpp_bind. by rewrite E. Qed.

Lemma call_thrown {S A B} (m : cpp A) (f : A -> member S B) s w e w' :
  m w = (Returned (inl e), w') -> (call m ≫= f) s w = (Returned (inr (inl e, s)), w').
Proof. intros E. unfold mbind, member_bind, call, try_catch. unfold mbind, cpp_bind. by rewrite E. Qed.

Lemma call_undefined {S A B} (m : cpp A) (f : A -> member S B) s w w' :
  m w = (Undefined, w') -> (call m ≫= f) s w = (Undefined, w').
Proof. intros E. unfold mbind, member_bind, call, try_catch. unfold mbind, cpp_bind. by rewrite E. Qed.

Lemma member_returned {S A B} (m : member S A) (f : A -> member S B) s w a s' w' :
  m s w = (Returned (inr (inr a, s')), w') -> (m ≫= f) s w = f a s' w'.
Proof. intros E. unfold mbind, member_bind. by rewrite (cpp_returned _ _ _ _ _ E). Qed.

Lemma member_assoc {S A B C} (m : member S A) (g : A -> member S B) (f : B -> member S C) s w :
  ((m ≫= g) ≫= f) s w = (m ≫= (fun a => g a ≫= f)) s w.
Proof. unfold mbind, member_bind, mbind, cpp_bind. by destruct (m s w) as [[[e|[[e|a] s']]| | | | |] w']. Qed.

Lemma find_content_length_post host json h w : host_name host -> len json < 2 ^ 31 ->
  find_content_length (post_header host json) h w = (Returned (inr (inr tt, set_content_size (len json) h)), w).
Proof.
  intros Hh Hl. unfold post_header. cbn [map find_content_length].
  change (string_find (cs "POST / HTTP/1.1" ++ [CR]) (cs "Content-Length: ")) with npos.
  change (string_find (cs "Connection: close" ++ [CR]) (cs "Content-Length: ")) with npos.
  change (string_find (cs "Content-Type: application/json" ++ [CR]) (cs "Content-Length: ")) with npos.
  replace (string_find ((cs "Host: " ++ host) ++ [CR]) (cs "Content-Length: ")) with npos.
  2: { symmetry. change (string_find ((cs "Host: " ++ host) ++ [CR]) (cs "Content-Length: "))
         with (find_from 6 (host ++ [CR]) (cs "Content-Length: ")).
       apply (find_from_none _ _ _ 32); [cbn; tauto|]. apply Forall_app. split; [|by repeat constructor].
       eapply Forall_impl; [exact Hh|]. by intros c []. }
  change (string_find ((cs "Content-Length: " ++ fmt_u64 (len json)) ++ [CR]) (cs "Content-Length: ")) with 0.
  rewrite !Z.eqb_refl. change (0 =? npos) with false. cbv iota. pose proof (len_nonneg json) as H0.
  rewrite length_of_post by lia. rewrite (call_returned _ _ _ _ (len json) w) by done.
  rewrite wrap_id by (split; lia). reflexivity.
Qed.

Lemma object_bind {S B} (f : S -> member S B) s w : (object ≫= f) s w = f s s w.
Proof. done. Qed.

Lemma update_bind {S B} g (f : unit -> member S B) s w : (update g ≫= f) s w = f tt (g s) w.
Proof. done. Qed.

Lemma read_body_exact buf sock h w : segments sock -> content_size h = len (buf ++ concat sock) -> len (buf ++ concat sock) < 2 ^ 63 ->
  read_body buf sock h w = (Returned (inr (inr (if content_size h =? 0 then None else Some (buf ++ concat sock)), h)), w).
Proof.
  intros Hs Hc Hl. unfold read_body. rewrite object_bind. destruct (Z.eqb_spec (content_size h) 0) as [_|_]; [done|]. cbv zeta.
  assert (Hn : (if 0 <? len buf then u64 (content_size h - len buf) else content_size h) = len (concat sock)).
  { rewrite Hc, len_app in *. pose proof (len_nonneg buf). pose proof (len_nonneg (concat sock)).
    destruct (Z.ltb_spec 0 (len buf)); [|lia]. rewrite wrap_id by (split; lia). lia. }
  rewrite Hn. pose proof (read_exactly_spec sock [] (len (concat sock)) Hs (len_nonneg _)) as Hx.
  rewrite Z.leb_refl in Hx. destruct Hx as (rest & -> & _ & _).
  rewrite (call_returned _ _ _ _ _ w) by done. cbv beta iota. rewrite take_ge by (unfold len; lia). done.
Qed.

(** What [parse] leaves of a message of [make_post]. *)
Definition posted (host json : list Z) : http_msg_t := Http_msg_t (len json) (cs "POST") (cs "/") (post_header host json) json.

(** The part of [parse] up to the text, when the header is that of [make_post]. *)
Lemma parse_message_post host json sock b sock' buf w : host_name host -> len json < 2 ^ 31 ->
  read_until sock [] (crlf ++ crlf) 0 = Ok (b, sock') -> header_lines [] b = (post_header host json, buf) ->
  parse_message sock http_new w = read_body buf sock' (set_msg [] (posted host json)) w.
Proof.
  intros Hh Hl E El. unfold parse_message. rewrite E, (call_returned _ _ _ _ (b, sock') w) by done. cbv beta iota. rewrite El.
  rewrite update_bind, object_bind. cbn [header set_header http_new app].
  rewrite (call_returned _ _ _ _ (cs "POST / HTTP/1.1" ++ [CR]) w) by done.
  rewrite (call_returned _ _ _ _ (cs "POST") w), update_bind by done.
  rewrite (call_returned _ _ _ _ (cs "/") w), update_bind by done.
  by rewrite (member_returned _ _ _ _ _ _ _ (find_content_length_post host json _ w Hh Hl)).
Qed.

Lemma parse_post_spec host json sock w : host_name host -> len json < 2 ^ 31 -> segments sock -> concat sock = make_post host json ->
  parse_http sock http_new w = (Returned (inr (0, posted host json)), w).
Proof.
  intros Hh Hl Hs Hc. unfold parse_http.
  pose proof (read_until_spec sock (crlf ++ crlf) Hs ltac:(done)) as Hr.
  destruct (read_until sock [] (crlf ++ crlf) 0) as [[b sock']|e|] eqn:E; [|destruct Hr as [_ []]; rewrite Hc; apply make_post_holds|done].
  destruct Hr as (Hb & Hh2 & Hs'). rewrite Hc in Hb.
  pose proof (header_lines_more b (concat sock') [] Hh2) as Hm. rewrite Hb, header_lines_post in Hm by done.
  destruct (header_lines [] b) as [lines buf] eqn:El. injection Hm as <- Hj.
  assert (Hp : parse_message sock http_new w =
    (Returned (inr (inr (if len json =? 0 then None else Some json), set_msg [] (posted host json))), w)).
  { rewrite (parse_message_post host json sock b sock' buf w Hh Hl E El).
    rewrite read_body_exact; [|done|by rewrite <- Hj|rewrite <- Hj; lia]. by rewrite <- Hj. }
  unfold mbind, cpp_bind. rewrite Hp. destruct (Z.eqb_spec (len json) 0) as [E0|]; [|done].
  unfold posted, set_msg. cbn. by destruct json.
Qed.

(** ** Every outcome *)

(** A block that returns, with a value or an exception, and leaves the files. *)
Definition returns {A} (m : cpp A) : Prop := forall w, exists r w', m w = (Returned r, w') /\ files w' = files w.

Lemma returns_bind {A B} (m : cpp A) (f : A -> cpp B) : returns m -> (forall a, returns (f a)) -> returns (m ≫= f).
Proof.
  intros Hm Hf w. destruct (Hm w) as (r & w1 & E & E1). unfold mbind, cpp_bind. rewrite E.
  destruct r as [e|a]; [by eexists _, _|]. destruct (Hf a w1) as (r & w2 & ? & ?). exists r, w2. split; [done|congruence].
Qed.

Lemma returns_result {A} (r : result A) : r <> Ub -> returns (of_result r).
Proof. intros Hr w. destruct r; [by eexists _, _..|done]. Qed.

Lemma returns_ret {A} (a : A) : returns (mret a).
Proof. intros w. by eexists _, _. Qed.

Lemma returns_log text : returns (log text).
Proof. intros w. by eexists _, _. Qed.

Lemma substr_defined s pos n : substr s pos n <> Ub.
Proof. unfold substr. by destruct (_ <=? _). Qed.
Create HintDb returns.
#[export] Hint Resolve returns_bind returns_result returns_ret returns_log substr_defined : returns.

Lemma get_method_returns line : returns (get_method line).
Proof.
  unfold get_method. apply returns_bind; [auto with returns|]. intros s. case_decide; [auto with returns|]. cbv zeta.
  destruct (_ =? npos); auto with returns.
Qed.

Lemma get_url_returns line : returns (get_url line).
Proof.
  unfold get_url. apply returns_bind; [auto with returns|]. intros s. case_decide; [auto with returns|]. cbv zeta.
  destruct (_ =? npos); [auto with returns|]. destruct (_ =? _); auto with returns.
Qed.

(** A call that may throw, at the start of a block: what holds of the two
    outcomes holds of the block. *)
Lemma call_cases {S A B} (m : cpp A) (f : A -> member S B) s w (P : outcome (exn + ((exn + B) * S)) * cc -> Prop) :
  returns m -> (forall e w', files w' = files w -> P (Returned (inr (inl e, s)), w')) ->
  (forall a w', files w' = files w -> P (f a s w')) -> P ((call m ≫= f) s w).
Proof.
  intros Hm He Ha. destruct (Hm w) as (r & w' & E & Hw). destruct r as [e|a].
  - rewrite (call_thrown _ _ _ _ _ _ E). by apply He.
  - rewrite (call_returned _ _ _ _ _ _ E). by apply Ha.
Qed.

Lemma find_content_length_cases {B} lines (f : unit -> member http_msg_t B) h w (P : outcome (exn + ((exn + B) * http_msg_t)) * cc -> Prop) :
  (forall line, In line lines -> length_of line = Ub -> P (Undefined, w)) ->
  (forall e n, P (Returned (inr (inl e, set_content_size n h)), w)) ->
  (forall n, 0 <= n < 2 ^ 64 \/ n = content_size h -> P (f tt (set_content_size n h) w)) ->
  P ((find_content_length lines ≫= f) h w).
Proof.
  intros Hu He Hf. assert (Hh : h = set_content_size (content_size h) h) by (by destruct h).
  assert (Hgen : forall ls n, (0 <= n < 2 ^ 64 \/ n = content_size h) -> incl ls lines ->
    P ((find_content_length ls ≫= f) (set_content_size n h) w)).
  { induction ls as [|line ls IH]; intros n Hn Hi; [by apply Hf|]. cbn [find_content_length].
    assert (Hls : incl ls lines) by (intros x Hx; apply Hi; by right).
    destruct (string_find line _ =? npos); [by apply IH|].
    rewrite member_assoc. destruct (length_of line) as [v|e|] eqn:E.
    - rewrite (call_returned _ _ _ _ v w), member_assoc, update_bind by done. apply (IH (u64 v)); [left; by apply in_width_wrap|done].
    - rewrite (call_thrown _ _ _ _ e w) by done. apply He.
    - rewrite (call_undefined _ _ _ w w) by done. apply (Hu line); [apply Hi; by left|done]. }
  rewrite Hh at 1. apply Hgen; [by right|by apply incl_refl].
Qed.

(** The bytes that a message takes from a stream: the header up to the empty line,
    then as many bytes as the field says. *)
Definition message_in (stream : list Z) (h : http_msg_t) (text : list Z) : Prop :=
  exists p rest, stream = p ++ text ++ rest /\ header_lines [] p = (header h, []) /\ len text = content_size h.

(** A field of the header whose number does not fit an int. *)
Definition bad_length (stream : list Z) : Prop := exists line, In line (header_lines [] stream).1 /\ length_of line = Ub.

(** *** The text that is taken from a stream *)

(** The number of the last Content-Length field, [n] when there is none. *)
Fixpoint content_length (lines : list (list Z)) (n : Z) : result Z :=
  match lines with
  | [] => Ok n
  | line :: lines =>
      if string_find line (cs "Content-Length: ") =? npos then content_length lines n
      else m ← length_of line; content_length lines (u64 m)
  end.

(** A header up to an empty line, with at least one line before it, and the
    number of bytes it announces. *)
Definition announces (stream : list Z) (n : Z) : Prop :=
  holds stream (crlf ++ crlf) /\ (header_lines [] stream).1 <> [] /\ content_length (header_lines [] stream).1 0 = Ok n.

(** The text of a message that ends with the stream is the bytes behind the
    header; there is none when the header is incomplete or announces more bytes
    than come.  When more bytes come than announced, the text is what was
    announced or nothing, depending on how the stream is cut. *)
Inductive takes (stream : list Z) : list Z -> Prop :=
| takes_whole n : announces stream n -> len (header_lines [] stream).2 = n -> takes stream (header_lines [] stream).2
| takes_short n : announces stream n -> len (header_lines [] stream).2 < n -> takes stream []
| takes_more n text : announces stream n -> n < len (header_lines [] stream).2 ->
    text = take (Z.to_nat n) (header_lines [] stream).2 \/ text = [] -> takes stream text
| takes_none : (forall n, ~ announces stream n) -> takes stream [].

(** The text is determined, but for streams with bytes behind the message. *)
Lemma takes_functional stream text text' :
  (forall n, announces stream n -> len (header_lines [] stream).2 <= n) -> takes stream text -> takes stream text' -> text = text'.
Proof.
  intros Hm.
  assert (Hn : forall n n', announces stream n -> announces stream n' -> n = n')
    by (intros n n' (_ & _ & E) (_ & _ & E'); congruence).
  intros [n Ha Hl|n Ha Hl|n t Ha Hl|Ha] [n' Ha' Hl'|n' Ha' Hl'|n' t' Ha' Hl'|Ha']; try done;
    try (pose proof (Hn _ _ Ha Ha'); lia); try (by apply Ha in Ha'); try (by apply Ha' in Ha);
    try (specialize (Hm _ Ha); lia); try (specialize (Hm _ Ha'); lia).
Qed.

Definition outcome_ok (stream : list Z) (w : cc) (r : outcome (exn + ((exn + option (list Z)) * http_msg_t)) * cc) : Prop :=
  files r.2 = files w /\
  match r.1 with
  | Returned (inr (inr (Some text), h)) => message_in stream h text
  | Returned (inr (inr None, h)) => message_in stream h [] /\ msg h = []
  | Returned (inr (inl _, h)) => msg h = []
  | Undefined => bad_length stream
  | _ => False
  end.

Lemma read_body_cases stream p buf sock h w :
  segments sock -> stream = p ++ buf ++ concat sock -> header_lines [] p = (header h, []) -> msg h = [] ->
  0 <= content_size h < 2 ^ 64 -> len stream < 2 ^ 63 -> outcome_ok stream w (read_body buf sock h w).
Proof.
  intros Hs Hst Hp Hm Hc Hl. unfold read_body. rewrite object_bind.
  assert (Hlen : len buf + len (concat sock) < 2 ^ 63) by (rewrite Hst, !len_app in Hl; pose proof (len_nonneg p); lia).
  pose proof (len_nonneg buf). pose proof (len_nonneg (concat sock)).
  destruct (Z.eqb_spec (content_size h) 0) as [E|E].
  - split; [done|]. split; [|done]. exists p, (buf ++ concat sock). split_and!; [done..|]. by rewrite E.
  - cbv zeta. set (n := if 0 <? len buf then _ else _).
    assert (Hn : n = content_size h - len buf \/ len (concat sock) < n).
    { unfold n, wrap. destruct (Z.ltb_spec 0 (len buf)); [|left; lia].
      destruct (Z.le_gt_cases (len buf) (content_size h)); [left; apply Z.mod_small; lia|right].
      rewrite <- (Z.mod_add _ 1) by done. rewrite Z.mod_small; lia. }
    assert (Hn0 : 0 <= n).
    { unfold n. destruct (0 <? len buf); [apply in_width_wrap; lia|lia]. }
    pose proof (read_exactly_spec sock [] n Hs Hn0) as Hx. destruct (Z.leb_spec n (len (concat sock))).
    + destruct Hx as (sock' & -> & Hrest & _). rewrite (call_returned _ _ _ _ _ w) by done. cbv beta iota.
      split; [done|]. exists p, (drop (Z.to_nat n) (concat sock)). split_and!; [|done|].
      * cbn [app]. rewrite Hst, <- (app_assoc buf). by rewrite take_drop.
      * cbn [app]. rewrite len_app, len_take. lia.
    + rewrite Hx. rewrite (call_thrown _ _ _ w system_error w) by done. by split.
Qed.

Lemma parse_message_cases sock w : segments sock -> len (concat sock) < 2 ^ 63 ->
  outcome_ok (concat sock) w (parse_message sock http_new w).
Proof.
  intros Hs Hl. unfold parse_message. pose proof (read_until_spec sock (crlf ++ crlf) Hs ltac:(done)) as Hr.
  destruct (read_until sock [] (crlf ++ crlf) 0) as [[b sock']|e|]; [|by rewrite (call_thrown _ _ _ w e w)|done].
  destruct Hr as (Hb & Hh & Hs'). rewrite (call_returned _ _ _ _ (b, sock') w) by done. cbv beta iota.
  pose proof (header_lines_more b (concat sock') [] Hh) as Hmore.
  destruct (header_lines [] b) as [lines buf] eqn:El. destruct (header_lines_split [] b lines buf Hh El) as (p & -> & Hp).
  rewrite Hb in Hmore. rewrite update_bind, object_bind. cbn [header set_header http_new app].
  apply call_cases; [apply returns_result; by destruct lines|done|]. intros line w1 F1.
  apply call_cases; [apply get_method_returns|intros e w2 F2; split; [cbn; congruence|done]|]. intros m w2 F2. rewrite update_bind.
  apply call_cases; [apply get_url_returns|intros e w3 F3; split; [cbn; congruence|done]|]. intros u w3 F3. rewrite update_bind.
  assert (F : files w3 = files w) by congruence. apply find_content_length_cases.
  - intros l Hin Hu. split; [done|]. exists l. by rewrite Hmore.
  - intros e n. by split.
  - intros n Hn. unfold outcome_ok. rewrite <- F. apply (read_body_cases _ p); cbn [content_size set_content_size set_url set_method set_header http_new] in *;
      [done|by rewrite app_assoc|done|done|lia|done].
Qed.

Lemma parse_http_cases (sock : list (list Z)) (w : cc) : segments sock -> len (concat sock) < 2 ^ 63 ->
  files (parse_http sock http_new w).2 = files w /\
  match (parse_http sock http_new w).1 with
  | Returned (inr (code, h)) => code = 0 /\ message_in (concat sock) h (msg h) \/ code = -1 /\ msg h = []
  | Undefined => bad_length (concat sock)
  | _ => False
  end.
Proof.
  intros Hs Hl. destruct (parse_message_cases sock w Hs Hl) as [Hf Hm]. unfold parse_http, mbind, cpp_bind.
  destruct (parse_message sock http_new w) as [[[e|[[e|[text|]] h]]| | | | |] w']; cbn in *; try done; (split; [done|]).
  - by right.
  - by left.
  - destruct Hm as [Hm ->]. left. split; [done|]. exact Hm.
Qed.

(** *** What [parse] takes *)

Lemma find_from_range pos s needle : needle <> [] -> 0 <= pos ->
  find_from pos s needle = npos \/ pos <= find_from pos s needle < pos + len s.
Proof.
  intros Hn. revert pos. induction s as [|c s IH]; intros pos Hp; cbn [find_from].
  - left. by destruct needle.
  - destruct (starts_with needle (c :: s)); [right; len_lia|]. destruct (IH (pos + 1) ltac:(lia)); [by left|right; len_lia].
Qed.

Lemma substr_ok s pos n : 0 <= pos <= len s -> exists t, substr s pos n = Ok t.
Proof. intros Hp. unfold substr. destruct (Z.leb_spec pos (len s)); [by eexists|lia]. Qed.

(** The two functions on the first line do not throw. *)
Lemma get_method_ok line w : exists m w', get_method line w = (Returned (inr m), w') /\ files w' = files w.
Proof.
  unfold get_method. destruct (substr_ok line 0 4) as [t Et]; [len_lia|]. rewrite Et, of_result_ok.
  case_decide; [by eexists _, _|]. cbv zeta. pose proof (find_from_range 0 line (cs " ") ltac:(done) ltac:(lia)) as Hf.
  fold (string_find line (cs " ")) in Hf. destruct (Z.eqb_spec (string_find line (cs " ")) npos); [by eexists _, _|].
  destruct (substr_ok line 0 (string_find line (cs " "))) as [t' Et']; [len_lia|]. rewrite Et'. by eexists _, _.
Qed.

Lemma get_url_ok line w : exists m w', get_url line w = (Returned (inr m), w') /\ files w' = files w.
Proof.
  unfold get_url. destruct (substr_ok line 0 4) as [t Et]; [len_lia|]. rewrite Et, of_result_ok.
  case_decide; [by eexists _, _|]. cbv zeta. pose proof (find_from_range 0 line (cs " ") ltac:(done) ltac:(lia)) as Hf.
  fold (string_find line (cs " ")) in Hf. destruct (Z.eqb_spec (string_find line (cs " ")) npos); [by eexists _, _|].
  destruct (_ =? _); [by eexists _, _|].
  match goal with |- context [substr line ?q ?m] => destruct (substr_ok line q m) as [t' Et']; [lia|] end.
  rewrite Et'. by eexists _, _.
Qed.

Lemma find_content_length_exact {B} lines (f : unit -> member http_msg_t B) h w :
  match content_length lines (content_size h) with
  | Ok n => (find_content_length lines ≫= f) h w = f tt (set_content_size n h) w
  | Throw e => exists n, (find_content_length lines ≫= f) h w = (Returned (inr (inl e, set_content_size n h)), w)
  | Ub => (find_content_length lines ≫= f) h w = (Undefined, w)
  end.
Proof.
  revert h. induction lines as [|line lines IH]; intros h; cbn [content_length find_content_length]; [by destruct h|].
  destruct (string_find line _ =? npos); [apply IH|]. rewrite member_assoc.
  destruct (length_of line) as [v|e|]; unfold mbind at 1, result_bind at 1.
  - rewrite (call_returned _ _ _ _ v w), member_assoc, update_bind by done. by apply (IH (set_content_size (u64 v) h)).
  - exists (content_size h). rewrite (call_thrown _ _ _ _ e w) by done. by destruct h.
  - by rewrite (call_undefined _ _ _ w w).
Qed.

Lemma content_length_range lines m n : 0 <= m < 2 ^ 64 -> content_length lines m = Ok n -> 0 <= n < 2 ^ 64.
Proof.
  revert m. induction lines as [|line lines IH]; intros m Hm; cbn [content_length]; [by intros [= <-]|].
  destruct (string_find line _ =? npos); [by apply IH|]. intros (v & _ & E)%result_bind_inv. apply (IH _ (in_width_wrap 64 v ltac:(done)) E).
Qed.

Definition text_of (r : exn + option (list Z)) : list Z := match r with inr (Some t) => t | _ => [] end.

Lemma read_body_takes stream buf sock h w :
  segments sock -> (header_lines [] stream).2 = buf ++ concat sock -> announces stream (content_size h) ->
  0 <= content_size h < 2 ^ 64 -> len (buf ++ concat sock) < 2 ^ 63 ->
  exists r, read_body buf sock h w = (Returned (inr (r, h)), w) /\ takes stream (text_of r).
Proof.
  intros Hs Hb Ha Hc Hl. rewrite len_app in Hl. pose proof (len_nonneg buf). pose proof (len_nonneg (concat sock)).
  unfold read_body. rewrite object_bind. destruct (Z.eqb_spec (content_size h) 0) as [E|E].
  { eexists. split; [reflexivity|]. cbn [text_of]. rewrite E in Ha. destruct (Z.eq_dec (len buf + len (concat sock)) 0) as [E0|E0].
    - assert (Hn : (header_lines [] stream).2 = []) by (rewrite Hb; apply nil_length_inv; unfold len in *; rewrite length_app; lia).
      rewrite <- Hn. apply (takes_whole _ 0 Ha). by rewrite Hn.
    - apply (takes_more _ 0 _ Ha); [rewrite Hb, len_app; lia|by right]. }
  cbv zeta. set (n := if 0 <? len buf then _ else _).
  assert (Hn : n = content_size h - len buf /\ 0 <= n \/ content_size h < len buf /\ len (concat sock) < n).
  { unfold n. destruct (Z.ltb_spec 0 (len buf)); [|left; lia].
    destruct (Z.le_gt_cases (len buf) (content_size h)); [left; rewrite wrap_id by (split; lia); lia|right; split; [done|]].
    unfold wrap. rewrite <- (Z.mod_add _ 1) by done. rewrite Z.mod_small; lia. }
  clearbody n. pose proof (read_exactly_spec sock [] n Hs ltac:(lia)) as Hx.
  destruct (Z.leb_spec n (len (concat sock))) as [Hle|Hlt].
  - destruct Hn as [[Hn Hn0]|]; [|lia]. destruct Hx as (sock' & -> & _ & _). rewrite (call_returned _ _ _ _ _ w) by done. cbv beta iota.
    eexists. split; [reflexivity|]. cbn [text_of app].
    assert (Ht : buf ++ take (Z.to_nat n) (concat sock) = take (Z.to_nat (content_size h)) (header_lines [] stream).2).
    { rewrite Hb, take_app_ge by (unfold len in *; lia). do 2 f_equal. unfold len in *. lia. }
    rewrite Ht. destruct (Z.eq_dec (len (buf ++ concat sock)) (content_size h)) as [Ee|Ee].
    + rewrite take_ge by (rewrite Hb; unfold len in *; lia). apply (takes_whole _ _ Ha). by rewrite Hb.
    + apply (takes_more _ _ _ Ha); [rewrite Hb; rewrite len_app in *; lia|by left].
  - rewrite Hx, (call_thrown _ _ _ w system_error w) by done. eexists. split; [reflexivity|]. cbn [text_of].
    destruct Hn as [[Hn _]|[Hn _]].
    + apply (takes_short _ _ Ha). rewrite Hb, len_app. lia.
    + apply (takes_more _ _ _ Ha); [rewrite Hb, len_app; lia|by right].
Qed.

Lemma parse_message_takes sock w : segments sock -> len (concat sock) < 2 ^ 63 ->
  match (parse_message sock http_new w).1 with
  | Returned (inr (r, h)) => takes (concat sock) (text_of r)
  | _ => True
  end.
Proof.
  intros Hs Hl. unfold parse_message. pose proof (read_until_spec sock (crlf ++ crlf) Hs ltac:(done)) as Hr.
  destruct (read_until sock [] (crlf ++ crlf) 0) as [[b sock']|e|]; [| |done].
  2: { destruct Hr as [_ Hr]. rewrite (call_thrown _ _ _ w e w) by done. apply takes_none. by intros n (Hh & _). }
  destruct Hr as (Hb & Hh & Hs'). rewrite (call_returned _ _ _ _ (b, sock') w) by done. cbv beta iota.
  pose proof (header_lines_more b (concat sock') [] Hh) as Hmore. cbn [app] in Hb. rewrite Hb in Hmore.
  assert (Hhs : holds (concat sock) (crlf ++ crlf)).
  { destruct Hh as (x & y & Hh). exists x, (y ++ concat sock'). rewrite <- Hb, Hh. by rewrite <- !app_assoc. }
  destruct (header_lines [] b) as [lines buf] eqn:El. rewrite update_bind, object_bind. cbn [header set_header http_new app].
  destruct lines as [|line lines]; [rewrite (call_thrown _ _ _ w out_of_range w) by done; apply takes_none; intros n (_ & Hne & _); by rewrite Hmore in Hne|].
  rewrite (call_returned _ _ _ _ line w) by done.
  destruct (get_method_ok line w) as (m & w2 & Em & _). rewrite (call_returned _ _ _ _ _ _ Em), update_bind.
  destruct (get_url_ok line w2) as (u & w3 & Eu & _). rewrite (call_returned _ _ _ _ _ _ Eu), update_bind. cbn [header set_method set_url].
  match goal with |- context [(find_content_length ?ls ≫= ?f) ?h ?w] => pose proof (find_content_length_exact ls f h w) as Hf end.
  cbn [header content_size set_method set_url set_header http_new] in *.
  destruct (content_length (line :: lines) 0) as [n|e|] eqn:Ec.
  - rewrite Hf. pose proof (content_length_range _ _ _ ltac:(split; [done|reflexivity]) Ec) as Hn.
    edestruct (read_body_takes (concat sock) buf sock') as (r & -> & Ht); [done|by rewrite Hmore| | | |exact Ht]; cbn [content_size set_content_size set_url set_method set_header].
    + split; [done|]. rewrite Hmore. by split.
    + done.
    + apply (f_equal len) in Hb. pose proof (header_lines_split [] b _ _ Hh El) as (q & -> & _). rewrite !len_app in Hb. rewrite len_app.
      pose proof (len_nonneg q). lia.
  - destruct Hf as [n ->]. apply takes_none. intros k (_ & _ & Hk). rewrite Hmore in Hk. cbn [fst] in Hk. congruence.
  - by rewrite Hf.
Qed.

Lemma parse_http_takes (sock : list (list Z)) (w : cc) : segments sock -> len (concat sock) < 2 ^ 63 ->
  match (parse_http sock http_new w).1 with
  | Returned (inr (_, h)) => takes (concat sock) (msg h)
  | _ => True
  end.
Proof.
  intros Hs Hl. destruct (parse_message_cases sock w Hs Hl) as [_ Hm]. pose proof (parse_message_takes sock w Hs Hl) as Ht.
  unfold parse_http, mbind, cpp_bind.
  destruct (parse_message sock http_new w) as [[[e|[[e|[text|]] h]]| | | | |] w']; cbn in *; try done.
  - by rewrite Hm.
  - destruct Hm as [_ ->]. exact Ht.
Qed.

(** C36: Whatever arrives on a connection, [parse] returns 0 and the message that the
    stream begins with, header and text, or -1 without a text; it is undefined
    only when the number of a Content-Length field does not fit an int. *)
Theorem http_parse_outcomes (sock : list (list Z)) (w : cc) (Hs : segments sock) (Hl : len (concat sock) < 2 ^ 63) :
  match (parse_http sock http_new w).1 with
  | Returned (inr (code, h)) => code = 0 /\ message_in (concat sock) h (msg h) \/ code = -1 /\ msg h = []
  | Undefined => bad_length (concat sock)
  | _ => False
  end.
Proof. by apply parse_http_cases. Qed.

(** C27: From the text through the connection, however it is cut into segments. *)
Theorem http_round_trip (host json : list Z) (sock : list (list Z)) (w : cc)
    (Hh : host_name host) (Hl : len json < 2 ^ 31) (Hs : segments sock) (Hc : concat sock = make_post host json) :
  parse_http sock http_new w = (Returned (inr (0, posted host json)), w).
Proof. by apply parse_post_spec. Qed.

(** Bytes behind the text, when they come in the same segment: the number of bytes
    left to read wraps round, and [parse] waits for more than will ever come. *)
Theorem http_excess_refused (host json extra : list Z) (w : cc)
    (Hh : host_name host) (Hl : 0 < len json < 2 ^ 31) (He : 0 < len extra < 2 ^ 62) :
  exists w', parse_http [make_post host json ++ extra] http_new w = (Returned (inr (-1, set_msg [] (posted host json))), w').
Proof.
  assert (Eu : read_until [make_post host json ++ extra] [] (crlf ++ crlf) 0 = Ok (make_post host json ++ extra, [])).
  { apply read_until_one; [done|]. destruct (make_post_holds host json) as (p & q & ->). exists p, (q ++ extra). by rewrite <- !app_assoc. }
  assert (El : header_lines [] (make_post host json ++ extra) = (post_header host json, json ++ extra)).
  { rewrite header_lines_more by apply make_post_holds. by rewrite header_lines_post. }
  assert (Hb : read_body (json ++ extra) [] (set_msg [] (posted host json)) w = (Returned (inr (inl system_error, set_msg [] (posted host json))), w)).
  { unfold read_body. rewrite object_bind. cbn [content_size set_msg posted]. destruct (Z.eqb_spec (len json) 0); [lia|]. cbv zeta.
    rewrite len_app. destruct (Z.ltb_spec 0 (len json + len extra)); [|lia].
    assert (Hw : 0 < u64 (len json - (len json + len extra))).
    { unfold wrap. rewrite <- (Z.mod_add _ 1) by done. rewrite Z.mod_small; lia. }
    cbn [read_exactly]. destruct (Z.eqb_spec (u64 (len json - (len json + len extra))) 0); [lia|].
    by rewrite (call_thrown _ _ _ w system_error w). }
  unfold parse_http, mbind, cpp_bind. rewrite (parse_message_post host json _ _ _ _ w Hh ltac:(lia) Eu El), Hb.
  by eexists.
Qed.

(** ** Concrete streams *)

Definition one_post : list (list Z) := [take 70 (make_post (cs "127.0.0.1") (cs "[1]")); drop 70 (make_post (cs "127.0.0.1") (cs "[1]"))].

Lemma one_post_segments : segments one_post.
Proof. by repeat constructor. Qed.

Lemma http_parse_outcomes_witness :
  let w := CC (World 0 [] []) ∅ [] 0 in
  match (parse_http one_post http_new w).1 with
  | Returned (inr (code, h)) => code = 0 /\ message_in (concat one_post) h (msg h) \/ code = -1 /\ msg h = []
  | Undefined => bad_length (concat one_post)
  | _ => False
  end.
Proof. intros w. apply (http_parse_outcomes one_post w); [exact one_post_segments|reflexivity]. Defined.

Lemma http_round_trip_witness :
  let w := CC (World 0 [] []) ∅ [] 0 in
  parse_http one_post http_new w = (Returned (inr (0, posted (cs "127.0.0.1") (cs "[1]"))), w).
Proof.
  intros w. apply (http_round_trip (cs "127.0.0.1") (cs "[1]") one_post w); [by_compute|reflexivity|exact one_post_segments|reflexivity].
Defined.

Lemma http_excess_refused_witness :
  let w := CC (World 0 [] []) ∅ [] 0 in
  exists w', parse_http [make_post (cs "h") (cs "[1]") ++ cs "GET"] http_new w = (Returned (inr (-1, set_msg [] (posted (cs "h") (cs "[1]")))), w').
Proof.
  intros w. apply (http_excess_refused (cs "h") (cs "[1]") (cs "GET") w); [by_compute|split; reflexivity|split; reflexivity].
Defined.
