(* ===== verification/HttpRelay.v ===== *)
(** * The HTTP relay: [src/http/http_relay.cc]

    One connection after the other: a message is read with [http::parse], and an
    event or a request is answered on the same connection.  The database is that
    of the WebSocket relay ([Relay]), emptied at the start; here an event that
    cannot be read is refused, and a request is answered with every event that
    matches.  The theorems say that the handler refines an abstract relay
    ([http_respond]) over the same two lists of events, on the text that the
    stream of the connection begins with ([takes]). *)
From stdpp Require Import gmap.
From S2P Require Import Prelude Event Process Json JsonParse JsonSpec JsonGrammar JsonRound Comm Client Relay Http.

(** ** [main] *)

(** A connection: the peer's address, what arrives, and whether writing works. *)
Record connection := Connection { client_ip : list Z; incoming : list (list Z); open_ : bool }.

(** What was sent on the connection, and the events in memory. *)
Definition session : Type := list Z * list event_t.

Definition ok_response : list Z := cs "HTTP/1.1 200 OK" ++ crlf ++ crlf.

(** [asio::write] *)
Definition write (c : connection) (data : list Z) : member session unit :=
  if open_ c then update (fun s => (s.1 ++ data, s.2)) else call (of_result (Throw system_error)).

Section Relay.
Context `{Floats} `{Disk} (now : Z).

(** [from_json] into a new filter. *)
Definition get_filter (j : json) : result filter_t :=
  let '(r, filter) := filter_from_json j (filter_new now) in _ ← r; Ok filter.

Definition event_message (c : connection) (js_message : json) : member session unit :=
  ev ← call (of_result (at_index js_message 1 ≫= get_event now));
  _ ← call (log (cs "event received: " ++ content ev));
  _ ← update (fun s => (s.1, s.2 ++ [ev]));
  s ← object;
  _ ← call (append now s.2);
  _ ← write c ok_response;
  call (log (cs "send response: " ++ client_ip c)).

Definition request_message (c : connection) (js_message : json) : member session unit :=
  subscription_id ← call (of_result (at_index js_message 1 ≫= from_json_string));
  filter ← call (of_result (at_index js_message 2 ≫= get_filter));
  _ ← call (log (cs "filter received: " ++ subscription_id));
  events ← call (request now filter);
  js_events ← call (of_result (to_json events));
  json ← call (of_result (dump (Some 2) js_events));
  _ ← write c (make_post (client_ip c) json);
  call (log (cs "send response: " ++ client_ip c)).

(** The [try] block, from the accepted connection on. *)
Definition serve_message (c : connection) : member session unit :=
  '(code, http) ← call (parse_http (incoming c) http_new);
  _ ← call (if code <? 0 then log (cs "HTTP parse failed") else mret tt);
  _ ← call (log (cs "received POST from " ++ client_ip c ++ cs " " ++ fmt_u64 (len (msg http)) ++ cs " bytes"));
  js_message ← call (of_result (parse (msg http)));
  type ← call (of_result (message_type js_message));
  if decide (type = cs "EVENT") then event_message c js_message
  else if decide (type = cs "REQ") then request_message c js_message
  else mret tt.

(** One turn of the loop: what is sent, and the events in memory. *)
Definition serve_connection (c : connection) (database : list event_t) : cpp (list Z * list event_t) :=
  '(_, s) ← guarded (serve_message c) tt ([], database); mret s.
End Relay.

Section Run.
Context `{Floats} `{Disk}.

(** The loop over the connections, each with its time. *)
Fixpoint connections (cs : list (Z * connection)) (database : list event_t) : cpp (list (list Z) * list event_t) :=
  match cs with
  | [] => mret ([], database)
  | (now, c) :: cs =>
      '(sent, database) ← serve_connection now c database;
      '(rest, database) ← connections cs database;
      mret (sent :: rest, database)
  end.

Definition http_relay (accepted : list (Z * connection)) : cpp (list (list Z) * list event_t) :=
  _ ← save [];
  _ ← log (cs "Listening on port:" ++ fmt_u64 2000);
  connections accepted [].
End Run.

(** ** The abstract relay *)

Inductive http_answer := Silence | Acknowledged | Answered (events : list event_t).

Definition answer_state (s : spec_state) (ev : event_t) : spec_state :=
  Spec_state (memory s ++ [ev]) (stored s ++ memory s ++ [ev]).

(** The answer to a text and the new state; an exception is silence. *)
Definition http_respond `{Floats} (now : Z) (text : list Z) (s : spec_state) : result (http_answer * spec_state) :=
  match typed_message text with
  | Ok (j, t) =>
      if decide (t = cs "EVENT") then
        match at_index j 1 ≫= get_event now with
        | Ok ev => Ok (Acknowledged, answer_state s ev)
        | Throw _ => Ok (Silence, s)
        | Ub => Ub
        end
      else if decide (t = cs "REQ") then
        match (_ ← at_index j 1 ≫= from_json_string; at_index j 2 ≫= get_filter now) with
        | Ok f => Ok (Answered (List.filter (matches f) (stored s)), s)
        | Throw _ => Ok (Silence, s)
        | Ub => Ub
        end
      else Ok (Silence, s)
  | Throw _ => Ok (Silence, s)
  | Ub => Ub
  end.

(** The bytes of an answer. *)
Definition answer_bytes `{Floats} (c : connection) (a : http_answer) (sent : list Z) : Prop :=
  if open_ c then
    match a with
    | Silence => sent = []
    | Acknowledged => sent = ok_response
    | Answered events => exists t, sent = make_post (client_ip c) t /\ parse t = Ok (canon (JArray (map event_object events)))
    end
  else sent = [].

(** ** Refinement *)

Section Refinement.
Context `{Floats} `{Disk} (now : Z) (Hnow : - 2 ^ 63 <= now < 2 ^ 63) (Hdisk : writable database_json = true).

(** What a block does: it ends, with a value or an exception, in a session that
    stands for the abstract answer. *)
Definition does (c : connection) (m : member session unit) (database : list event_t) (w : cc) (a : http_answer) (s' : spec_state) : Prop :=
  exists r sent w', m ([], database) w = (Returned (inr (r, (sent, memory s'))), w') /\ represents w' (memory s') s' /\ answer_bytes c a sent.

Lemma does_throw c e database w s : represents w database s ->
  does c (fun s => mret (inl e, s)) database w Silence s.
Proof using Type.
  intros Hr. eexists _, _, _. split; [by rewrite (rep_memory _ _ _ Hr)|]. split.
  - by rewrite <- (rep_memory _ _ _ Hr) at 1.
  - unfold answer_bytes. by destruct (open_ c).
Qed.

Lemma write_log c data sent database w :
  exists r w', (_ ← write c data; call (log (cs "send response: " ++ client_ip c))) (sent, database) w =
    (Returned (inr (r, (if open_ c then sent ++ data else sent, database))), w') /\ files w' = files w.
Proof using Type. unfold write. destruct (open_ c); by eexists _, _. Qed.

Lemma log_bind {B} text (f : unit -> member session B) s w :
  exists w', (call (log text) ≫= f) s w = f tt s w' /\ files w' = files w.
Proof using Type. by eexists. Qed.

(** Goes past a line of the log, to the state [w'] with the same files. *)
Ltac log_step w' Hf :=
  match goal with |- context [(call (log ?t) ≫= ?f) ?s ?w] => destruct (log_bind t f s w) as (w' & -> & Hf) end.

Lemma represents_log w w' database s : files w' = files w -> represents w database s -> represents w' database s.
Proof using Type. intros Hf. apply represents_files. by rewrite Hf. Qed.

Lemma event_message_does c j database s w : represents w database s -> typed j ->
  match at_index j 1 ≫= get_event now with
  | Ok ev => does c (event_message now c j) database w Acknowledged (answer_state s ev)
  | Throw _ => does c (event_message now c j) database w Silence s
  | Ub => (event_message now c j ([], database) w).1 = Undefined
  end.
Proof using Hnow Hdisk.
  intros Hr Hj. unfold event_message. destruct (at_index j 1 ≫= get_event now) as [ev|e|] eqn:E.
  - assert (Hev : event_typed ev).
    { apply result_bind_inv in E as (v & Ev & E). eapply get_event_typed; [exact Hnow|by eapply at_index_typed|exact E]. }
    destruct Hr as [-> Hst Hm Hs]. unfold does.
    assert (Hm' : Forall event_typed (memory s ++ [ev])) by (apply Forall_app; split; [done|by constructor]).
    rewrite (call_returned _ _ _ _ ev w) by done.
    log_step w1 Hf1. rewrite update_bind, object_bind. cbn [fst snd].
    destruct (append_spec now Hdisk (memory s ++ [ev]) w1 (stored s)) as (w2 & Ea & Hl); [by rewrite Hf1|by apply Forall_app|].
    rewrite (call_returned _ _ _ _ _ _ Ea). destruct (write_log c ok_response [] (memory s ++ [ev]) w2) as (r & w3 & -> & Hf3).
    eexists r, _, w3. split; [reflexivity|]. split; [split; cbn; try done; [by rewrite Hf3|by apply Forall_app]|].
    unfold answer_bytes. by destruct (open_ c).
  - destruct (does_throw c e database w s Hr) as (r & sent & w' & E' & ?). exists r, sent, w'. split; [|done].
    by rewrite (call_thrown _ _ _ w e w).
  - by rewrite (call_undefined _ _ _ w w).
Qed.

Lemma request_message_does c j database s w : represents w database s -> typed j ->
  match (_ ← at_index j 1 ≫= from_json_string; at_index j 2 ≫= get_filter now) with
  | Ok f => does c (request_message now c j) database w (Answered (List.filter (matches f) (stored s))) s
  | Throw _ => does c (request_message now c j) database w Silence s
  | Ub => (request_message now c j ([], database) w).1 = Undefined
  end.
Proof using Type.
  intros Hr Hj. unfold request_message.
  destruct (at_index j 1 ≫= from_json_string) as [sub|e|] eqn:E1; unfold mbind at 1, result_bind at 1.
  2: { destruct (does_throw c e database w s Hr) as (r & sent & w' & E' & ?). exists r, sent, w'. split; [|done].
       by rewrite (call_thrown _ _ _ w e w). }
  2: { by rewrite (call_undefined _ _ _ w w). }
  destruct (at_index j 2 ≫= get_filter now) as [f|e|] eqn:E2.
  - unfold does. rewrite (call_returned _ _ _ _ sub w), (call_returned _ _ _ _ f w) by done.
    log_step w1 Hf1. pose proof (represents_log _ _ _ _ Hf1 Hr) as Hr1.
    destruct (request_bind now f (fun l => mret l) w1 (stored s) (rep_stored _ _ _ Hr1)) as (w2 & Eq & Hf2).
    assert (Eq' : request now f w1 = (Returned (inr (List.filter (matches f) (stored s))), w2)).
    { unfold mbind, cpp_bind in Eq. by destruct (request now f w1) as [[[]| | | | |] ?]. }
    rewrite (call_returned _ _ _ _ _ _ Eq'), to_json_objects, (call_returned _ _ _ _ (JArray (map event_object (List.filter (matches f) (stored s)))) w2) by done.
    set (l := List.filter (matches f) (stored s)) in *.
    assert (Hp : plain_json (JArray (map event_object l))).
    { apply array_plain, Forall_map. pose proof (rep_stored_typed _ _ _ Hr) as Hs. rewrite List.Forall_forall in *.
      intros ev Hev. apply event_plain, Hs. by apply filter_In in Hev as [? _]. }
    destruct Hp as [Hty Hnf]. destruct (dump_parse_spec (Some 2) _ Hty Hnf ltac:(done)) as (t & Et & Hpt).
    rewrite Et, (call_returned _ _ _ _ t w2) by done.
    destruct (write_log c (make_post (client_ip c) t) [] database w2) as (r & w3 & -> & Hf3).
    eexists r, _, w3. split; [by rewrite (rep_memory _ _ _ Hr)|]. split.
    + rewrite <- (rep_memory _ _ _ Hr) at 1. apply (represents_log w1); [congruence|done].
    + unfold answer_bytes. destruct (open_ c); [|done]. by exists t.
  - destruct (does_throw c e database w s Hr) as (r & sent & w' & E' & ?). exists r, sent, w'. split; [|done].
    by rewrite (call_returned _ _ _ _ sub w), (call_thrown _ _ _ w e w).
  - by rewrite (call_returned _ _ _ _ sub w), (call_undefined _ _ _ w w).
Qed.

(** The whole block, once [parse] has returned. *)
Lemma serve_message_does c database s w code h w1 :
  parse_http (incoming c) http_new w = (Returned (inr (code, h)), w1) -> files w1 = files w ->
  represents w database s -> (forall v, parse (msg h) = Ok v -> typed v) ->
  match http_respond now (msg h) s with
  | Ok (a, s') => does c (serve_message now c) database w a s'
  | _ => (serve_message now c ([], database) w).1 = Undefined
  end.
Proof using Hnow Hdisk.
  intros Ep F1 Hr Hty.
  assert (E : exists w2, files w2 = files w /\ serve_message now c ([], database) w =
    (js_message ← call (of_result (parse (msg h)));
     type ← call (of_result (message_type js_message));
     if decide (type = cs "EVENT") then event_message now c js_message
     else if decide (type = cs "REQ") then request_message now c js_message
     else mret tt) ([], database) w2).
  { unfold serve_message. rewrite (call_returned _ _ _ _ _ _ Ep). cbv beta iota. destruct (code <? 0).
    - log_step w2 F2. log_step w3 F3. exists w3. split; [congruence|done].
    - rewrite (call_returned _ _ _ _ tt w1) by done. log_step w3 F3. exists w3. split; [congruence|done]. }
  destruct E as (w2 & F2 & E). apply (represents_log _ w2) in Hr; [|done]. unfold does. rewrite E. clear E Ep F1 F2 w1 w.
  unfold http_respond, typed_message. pose proof (parse_outcome_spec (msg h)) as Ho.
  destruct (does_throw c parse_error_101 database w2 s Hr) as (r0 & sent0 & w0 & Hsilent & Hrep & Hans). injection Hsilent as <- <- Hm <-.
  destruct (parse (msg h)) as [j|e|] eqn:Ej; [|rewrite (call_thrown _ _ _ w2 e w2) by done; by rewrite Hm; eexists _, _, _|done].
  rewrite (call_returned _ _ _ _ j w2) by done. unfold mbind at 1, result_bind at 1.
  destruct (message_type j) as [t|e|] eqn:Et.
  - rewrite (call_returned _ _ _ _ t w2) by done. unfold mbind at 1, result_bind at 1.
    destruct (decide (t = cs "EVENT")); [|destruct (decide (t = cs "REQ"))].
    + pose proof (event_message_does c j database s w2 Hr (Hty j eq_refl)) as Hd. by destruct (at_index j 1 ≫= get_event now).
    + pose proof (request_message_does c j database s w2 Hr (Hty j eq_refl)) as Hd. by destruct (_ ← at_index j 1 ≫= from_json_string; _).
    + rewrite Hm. by eexists _, _, _.
  - rewrite (call_thrown _ _ _ w2 e w2) by done. rewrite Hm. by eexists _, _, _.
  - by rewrite (call_undefined _ _ _ w2 w2).
Qed.

Lemma serve_spec c database s w code h w1 :
  parse_http (incoming c) http_new w = (Returned (inr (code, h)), w1) -> files w1 = files w ->
  represents w database s -> (forall v, parse (msg h) = Ok v -> typed v) ->
  match http_respond now (msg h) s with
  | Ok (a, s') => exists sent w', serve_connection now c database w = (Returned (inr (sent, memory s')), w') /\
      represents w' (memory s') s' /\ answer_bytes c a sent
  | _ => (serve_connection now c database w).1 = Undefined
  end.
Proof using Hnow Hdisk.
  intros Ep F1 Hr Hty. pose proof (serve_message_does c database s w code h w1 Ep F1 Hr Hty) as Hd.
  unfold serve_connection, guarded. destruct (http_respond now (msg h) s) as [[a s']|e|].
  - destruct Hd as (r & sent & w' & E & Hr' & Ha). unfold mbind, cpp_bind. rewrite E.
    destruct r as [e|[]]; [|by exists sent, w']. eexists sent, _. split; [reflexivity|]. by split; [apply (represents_log w')|].
  - unfold mbind, cpp_bind. by destruct (serve_message now c ([], database) w) as [[] ?].
  - unfold mbind, cpp_bind. by destruct (serve_message now c ([], database) w) as [[] ?].
Qed.
End Refinement.

(** The text of [make_post], however it is cut. *)
Lemma serve_post `{Floats} `{Disk} now c database s w host text :
  - 2 ^ 63 <= now < 2 ^ 63 -> writable database_json = true -> host_name host -> len text < 2 ^ 31 ->
  segments (incoming c) -> concat (incoming c) = make_post host text ->
  represents w database s -> (forall v, parse text = Ok v -> typed v) ->
  match http_respond now text s with
  | Ok (a, s') => exists sent w', serve_connection now c database w = (Returned (inr (sent, memory s')), w') /\
      represents w' (memory s') s' /\ answer_bytes c a sent
  | _ => (serve_connection now c database w).1 = Undefined
  end.
Proof.
  intros Hn Hd Hh Hl Hs Hc Hr Hty.
  by apply (serve_spec now Hn Hd c database s w 0 (posted host text) w (parse_post_spec host text _ w Hh Hl Hs Hc)).
Qed.

(** Starting the relay empties the database. *)
Lemma save_empty `{Floats} `{Disk} w : writable database_json = true ->
  exists w', save [] w = (Returned (inr 0), w') /\ represents w' [] (Spec_state [] []).
Proof.
  intros Hd. destruct (dump_parse_spec (Some 2) (JArray [])) as (t & Et & Hp); [by constructor|done|done|].
  unfold save, try_catch, write_database. rewrite to_json_objects, of_result_ok. cbn [map]. rewrite Et, of_result_ok, write_file_bind, Hd.
  eexists. split; [reflexivity|]. split; cbn; [done| |by constructor..].
  rewrite lookup_insert, decide_True by done. by apply (load_object 0 t []).
Qed.

(** ** Runs *)

(** The texts of a run with their times, one after the other. *)
Fixpoint http_run `{Floats} (texts : list (Z * list Z)) (s : spec_state) : result (list http_answer * spec_state) :=
  match texts with
  | [] => Ok ([], s)
  | (now, text) :: texts =>
      '(a, s) ← http_respond now text s;
      '(answers, s) ← http_run texts s;
      Ok (a :: answers, s)
  end.

(** A connection that carries the post of a text. *)
Record carries (nc : Z * connection) (nt : Z * list Z) : Prop := {
  carries_now : nc.1 = nt.1;
  carries_time : - 2 ^ 63 <= nt.1 < 2 ^ 63;
  carries_segments : segments (incoming nc.2);
  carries_post : exists host, host_name host /\ concat (incoming nc.2) = make_post host nt.2;
  carries_Bytes : Bytes nt.2;
  carries_len : len nt.2 < 2 ^ 31
}.

Lemma connections_spec `{Floats} `{Disk} accepted texts database s w :
  writable database_json = true -> Forall2 carries accepted texts -> represents w database s ->
  match http_run texts s with
  | Ok (answers, s') => exists sents w', connections accepted database w = (Returned (inr (sents, memory s')), w') /\
      represents w' (memory s') s' /\ Forall2 (fun ac sent => answer_bytes ac.2 ac.1 sent) (zip answers (map snd accepted)) sents
  | _ => (connections accepted database w).1 = Undefined
  end.
Proof.
  intros Hd Hc. revert database s w. induction Hc as [|[n c] [n' t] accepted texts [Hn Ht Hs (host & Hh & Hp) Hb Hl] _ IH]; intros database s w Hr.
  - pose proof (rep_memory _ _ _ Hr) as ->. cbn [http_run]. exists [], w. split; [done|]. split; [exact Hr|constructor].
  - cbn [fst snd] in *. subst n'. cbn [http_run connections].
    pose proof (serve_post n c database s w host t Ht Hd Hh Hl Hs Hp Hr) as Ho.
    specialize (Ho ltac:(intros v; by apply parse_typed_spec)).
    destruct (http_respond n t s) as [[a s1]|e|]; [|unfold mbind, cpp_bind; by destruct (serve_connection n c database w) as [[] ?]..].
    destruct Ho as (sent & w1 & E1 & Hr1 & Ha). rewrite (cpp_returned _ _ _ _ _ E1). cbn [mbind result_bind].
    specialize (IH _ _ _ Hr1). destruct (http_run texts s1) as [[answers s2]|e|];
      [|unfold mbind, cpp_bind; by destruct (connections accepted (memory s1) w1) as [[] ?]..].
    destruct IH as (sents & w2 & E2 & Hr2 & Has). rewrite (cpp_returned _ _ _ _ _ E2).
    eexists (sent :: sents), w2. split; [done|]. split; [done|]. by constructor.
Qed.

Lemma http_respond_state `{Floats} now text s a s' : http_respond now text s = Ok (a, s') ->
  s' = s \/ exists ev, a = Acknowledged /\ s' = answer_state s ev.
Proof.
  unfold http_respond. destruct (typed_message text) as [[j t]|e|]; [|by intros [= _ <-]; left|done].
  destruct (decide (t = cs "EVENT")).
  - destruct (at_index j 1 ≫= get_event now) as [ev|e'|]; [|by intros [= _ <-]; left|done]. intros [= <- <-]. right. by exists ev.
  - destruct (decide (t = cs "REQ")); [|by intros [= _ <-]; left].
    destruct (_ ← at_index j 1 ≫= from_json_string; _) as [f|e'|]; [by intros [= _ <-]; left|by intros [= _ <-]; left|done].
Qed.

(** The copies in the database: every prefix of the events. *)
Lemma http_run_stored `{Floats} texts s answers s' :
  http_run texts s = Ok (answers, s') -> stored s = prefixes (memory s) -> stored s' = prefixes (memory s').
Proof.
  revert s answers. induction texts as [|[n t] texts IH]; intros s answers; cbn [http_run]; [by intros [= _ <-]|].
  intros ([a s1] & E1 & E)%result_bind_inv. apply result_bind_inv in E as ([as1 s2] & E2 & [= _ ->]). intros Hs.
  apply (IH _ _ E2). apply http_respond_state in E1 as [->|(ev & _ & ->)]; [done|].
  cbn [stored memory answer_state]. by rewrite prefixes_snoc, Hs.
Qed.

(** ** Properties *)

(** C21: Whatever a peer sends, in whatever segments, the HTTP relay answers as
    the abstract relay answers the text of the stream: an unreadable text changes
    nothing and is not answered, a readable event is stored and acknowledged, a
    request is answered with every stored event that matches.  The text is the
    bytes behind the header when they are as many as the header announces, and
    empty (no answer, nothing changed) when the header or the text is broken off;
    only when more bytes come than announced does it depend on the segments
    whether the announced part or nothing is taken ([takes]).  A Content-Length
    that does not fit an int is excluded. *)
Theorem http_relay_refines `{Floats} `{Disk} (now : Z) (c : connection) (database : list event_t) (s : spec_state) (w : cc)
    (Hnow : - 2 ^ 63 <= now < 2 ^ 63) (Hdisk : writable database_json = true) (Hs : segments (incoming c))
    (Hb : Bytes (concat (incoming c))) (Hl : len (concat (incoming c)) < 2 ^ 63) (Hc : bad_length (concat (incoming c)) -> False)
    (Hr : represents w database s) :
  exists text, takes (concat (incoming c)) text /\
    match http_respond now text s with
    | Ok (a, s') => exists sent w', serve_connection now c database w = (Returned (inr (sent, memory s')), w') /\
        represents w' (memory s') s' /\ answer_bytes c a sent
    | _ => (serve_connection now c database w).1 = Undefined
    end.
Proof.
  destruct (parse_http_cases (incoming c) w Hs Hl) as [Hf Hp]. pose proof (parse_http_takes (incoming c) w Hs Hl) as Ht.
  destruct (parse_http (incoming c) http_new w) as [o w1] eqn:E. cbn in Hf, Hp, Ht. destruct o as [[e|[code h]]| | | | |]; try done.
  exists (msg h). split; [exact Ht|].
  apply (serve_spec now Hnow Hdisk c database s w code h w1 E Hf Hr).
  intros v Hv. apply parse_typed_spec with (msg h); [|done].
  destruct Hp as [[_ (p & rest & Hst & _)]|[_ ->]]; [|constructor]. rewrite Hst in Hb.
  apply Bytes_app in Hb as [_ Hb]. by apply Bytes_app in Hb as [Hb _].
Qed.

(** C20: The program: whatever was in the database before, the relay starts empty
    and answers the connections it accepts, each as the abstract relay answers
    the text it carries; at the end memory holds the events in the order in which
    they were acknowledged, and the file every prefix of that list. *)
Theorem http_relay_runs `{Floats} `{Disk} (accepted : list (Z * connection)) (texts : list (Z * list Z)) (w : cc)
    (Hdisk : writable database_json = true) (Hc : Forall2 carries accepted texts) :
  match http_run texts (Spec_state [] []) with
  | Ok (answers, s) => exists sents w', http_relay accepted w = (Returned (inr (sents, memory s)), w') /\
      represents w' (memory s) s /\ stored s = prefixes (memory s) /\
      Forall2 (fun ac sent => answer_bytes ac.2 ac.1 sent) (zip answers (map snd accepted)) sents
  | _ => (http_relay accepted w).1 = Undefined
  end.
Proof.
  destruct (save_empty w Hdisk) as (w1 & E1 & Hr1). unfold http_relay. rewrite (cpp_returned _ _ _ _ _ E1).
  match goal with |- context [(log ?t ≫= ?f) w1] =>
    assert (El : exists w2, (log t ≫= f) w1 = f tt w2 /\ files w2 = files w1) by (by eexists) end.
  destruct El as (w2 & -> & F2). apply (represents_log w1 w2) in Hr1; [|done].
  pose proof (connections_spec accepted texts [] _ w2 Hdisk Hc Hr1) as Hs.
  destruct (http_run texts (Spec_state [] [])) as [[answers s]|e|] eqn:E; [|done..].
  destruct Hs as (sents & w' & Ec & Hr & Ha). exists sents, w'. split; [done|]. split; [done|]. split; [|done].
  by apply (http_run_stored _ _ _ _ E).
Qed.

#[local] Existing Instance zero_floats.
#[local] Existing Instance all_writable.

(** The post of an event, cut in the header and in the text. *)
Definition said_post : list Z := make_post (cs "127.0.0.1") said.
Definition said_connection : connection :=
  Connection (cs "10.0.0.1") [take 20 said_post; take 130 (drop 20 said_post); drop 150 said_post] true.

Lemma http_relay_refines_witness :
  exists text, takes (concat (incoming said_connection)) text /\
    match http_respond 7 text (Spec_state [] []) with
    | Ok (a, s') => exists sent w', serve_connection 7 said_connection [] (world_of server_0) = (Returned (inr (sent, memory s')), w') /\
        represents w' (memory s') s' /\ answer_bytes said_connection a sent
    | _ => (serve_connection 7 said_connection [] (world_of server_0)).1 = Undefined
    end.
Proof.
  apply (http_relay_refines (H := zero_floats) (H0 := all_writable) 7 said_connection [] (Spec_state [] []) (world_of server_0)).
  - lia.
  - reflexivity.
  - by repeat constructor.
  - by_compute.
  - reflexivity.
  - intros (line & Hin & Hu). vm_compute in Hin. repeat (destruct Hin as [<-|Hin]; [revert Hu; vm_compute; discriminate|]). destruct Hin.
  - exact (fresh_stands server_0 fresh_0).
Defined.

Definition asked_post : list Z := make_post (cs "127.0.0.1") asked.
Definition asked_connection : connection := Connection (cs "10.0.0.2") [asked_post] true.

(** What the relay answers to the two. *)
Definition two_answers : list http_answer := [Acknowledged; Answered [event_said]].

Lemma http_relay_runs_witness :
  Forall2 carries [(7, said_connection); (8, asked_connection)] [(7, said); (8, asked)] /\
  exists sents w', http_relay (H := zero_floats) (H0 := all_writable) [(7, said_connection); (8, asked_connection)] (world_of server_0) =
      (Returned (inr (sents, [event_said])), w') /\
    represents (H := zero_floats) w' [event_said] (Spec_state [event_said] [event_said]) /\ [event_said] = prefixes [event_said] /\
    Forall2 (fun ac sent => answer_bytes (H := zero_floats) ac.2 ac.1 sent)
      (zip two_answers (map snd [(7, said_connection); (8, asked_connection)])) sents.
Proof.
  assert (Hc : Forall2 carries [(7, said_connection); (8, asked_connection)] [(7, said); (8, asked)]).
  { constructor; [|constructor; [|constructor]].
    - split; [reflexivity|cbn; lia|by repeat constructor|exists (cs "127.0.0.1"); split; [by_compute|reflexivity]|exact (proj1 message_1)|reflexivity].
    - split; [reflexivity|cbn; lia|by repeat constructor|exists (cs "127.0.0.1"); split; [by_compute|reflexivity]|exact asked_Bytes|reflexivity]. }
  split; [exact Hc|].
  pose proof (http_relay_runs (H := zero_floats) (H0 := all_writable) _ _ (world_of server_0) eq_refl Hc) as Hr.
  assert (E : http_run (H := zero_floats) [(7, said); (8, asked)] (Spec_state [] []) = Ok (two_answers, Spec_state [event_said] [event_said]))
    by (vm_compute; reflexivity).
  rewrite E in Hr. exact Hr.
Defined.
