(* ===== verification/HttpClient.v ===== *)
(** * The HTTP client: [src/http/http_client.cc]

    The client publishes one simulated event (its id and signature are random
    numbers) and asks for the events of its author.  The connection to the relay
    is the interface [Http_network].  The last theorem goes through both
    programs: from the client to the relay and back, over connections that cut
    the messages anywhere. *)
From stdpp Require Import gmap.
From S2P Require Import Prelude Event Process Json JsonParse JsonSpec JsonGrammar JsonRound Comm Client Relay Http HttpRelay.

(** The numbers of [rand], by the number of calls before; [srand] only chooses them. *)
Class Rand := { rand : nat -> Z; rand_nonneg n : 0 <= rand n }.

(** Connecting to a host and a port and sending bytes: what arrives then; an
    exception of asio otherwise.  [http_close] is shutting down and closing. *)
Class Http_network := {
  http_exchange : list Z -> list Z -> list Z -> result (list (list Z));
  http_close : result unit
}.

Definition tolower (c : Z) : Z := if between 65 90 c then c + 32 else c.

Definition hex_characters : list Z := cs "0123456789ABCDEF".

Section Client.
Context `{Floats} `{Disk} `{Rand} `{Http_network} (now : Z).

Definition hex_string (length to_lower : Z) : cpp (list Z) := fun w =>
  let hex := map (fun k => get hex_characters (rand k mod 16)) (seq (drawn w) (Z.to_nat length)) in
  (Returned (inr (if to_lower =? 0 then hex else map tolower hex)),
   CC (process w) (files w) (journal w) (drawn w + Z.to_nat length)).

Definition pubkey_ : list Z := cs "b2b41e936821bb48572c2295ec5f1741".

Definition make_event : cpp (list Z) :=
  id ← hex_string 32 1;
  let e := [cs "e"; id] in
  let p := [cs "p"; pubkey_] in
  sig ← hex_string 64 0;
  let ev := Event_t id pubkey_ now 1 [e; p] (cs "some great content") sig in
  js_ev ← of_result (event_to_json JNull ev);
  json ← of_result (dump (Some 2) (JArray [JString (cs "EVENT"); js_ev]));
  _ ← write_file (cs "event.json") json;
  mret json.

Definition make_request : cpp (list Z) :=
  id ← hex_string 32 1;
  let filter := Filter_t [id] [pubkey_] [1] [id] [pubkey_] 1643873040 now 100 in
  js_fil ← of_result (filter_to_json JNull filter false);
  json ← of_result (dump (Some 2) (JArray [JString (cs "REQ"); JString (cs "subscription_1"); js_fil]));
  _ ← write_file (cs "request.json") json;
  mret json.

(** What [send] logs of a response. *)
Definition show_response (http : http_msg_t) : cpp unit :=
  _ ← log_all (map (fun line => cs "header: " ++ line) (header http));
  _ ← log (cs "message: " ++ msg http);
  _ ← of_result (vector_at (header http) 0);
  if 0 <? len (msg http) then
    js_events ← of_result (parse (msg http));
    events ← of_result (from_json_array (get_event now) js_events);
    _ ← log (cs "received " ++ fmt_u64 (len events) ++ cs " events");
    log_all (map content events)
  else log (cs "received empty message").

Definition send (host json : list Z) : cpp Z :=
  let buf_http := make_post host json in
  _ ← try_catch
    (sock ← of_result (http_exchange host (cs "2000") buf_http);
     _ ← log (cs "sent " ++ fmt_u64 (len buf_http) ++ cs " bytes");
     '(code, http) ← parse_http sock http_new;
     _ ← (if code <? 0 then log (cs "HTTP parse failed") else show_response http);
     of_result http_close)
    log_what;
  mret 0.

Definition http_client : cpp Z :=
  let url_relay := cs "127.0.0.1" in
  json ← make_event;
  _ ← send url_relay json;
  json ← make_request;
  _ ← send url_relay json;
  mret 0.

(** ** The messages *)

Lemma hex_character n : 0 <= n -> exists c, get hex_characters (n mod 16) = c /\ between 0 127 c = true /\ between 0 127 (tolower c) = true.
Proof.
  intros Hn. assert (Hr : 0 <= n mod 16 < 16) by (apply Z.mod_pos_bound; lia). revert Hr. generalize (n mod 16). intros k Hk.
  assert (Hk' : In k (map Z.of_nat (seq 0 16))) by (apply in_map_iff; exists (Z.to_nat k); split; [lia|apply in_seq; lia]).
  cbn in Hk'. repeat destruct Hk' as [<-|Hk']; try done; by eexists.
Qed.

Lemma hex_string_returns n to_lower w :
  exists s w', hex_string n to_lower w = (Returned (inr s), w') /\ utf8 s /\ files w' = files w /\ journal w' = journal w.
Proof.
  eexists _, _. split; [reflexivity|]. split; [|done]. apply ascii_utf8. apply forallb_forall. intros c.
  destruct (to_lower =? 0); [|intros Hc; apply in_map_iff in Hc as (d & <- & Hc); revert Hc; rename d into c];
    rewrite in_map_iff; intros (k & <- & _); by destruct (hex_character (rand k) (rand_nonneg k)) as (? & <- & ? & ?).
Qed.

(** The event the client makes. *)
Definition simulated (id sig : list Z) : event_t := Event_t id pubkey_ now 1 [[cs "e"; id]; [cs "p"; pubkey_]] (cs "some great content") sig.

Lemma simulated_typed id sig : - 2 ^ 63 <= now < 2 ^ 63 -> utf8 id -> utf8 sig -> event_typed (simulated id sig).
Proof.
  intros Hn Hi Hs. split; cbn; try done; try lia; try (by apply ascii_utf8).
  repeat constructor; try done; by apply ascii_utf8.
Qed.

Lemma make_event_reads w : - 2 ^ 63 <= now < 2 ^ 63 -> exists t id sig w', make_event w = (Returned (inr t), w') /\
  event_typed (simulated id sig) /\ parse t = Ok (canon (JArray [JString (cs "EVENT"); event_object (simulated id sig)])).
Proof.
  intros Hn. unfold make_event.
  destruct (hex_string_returns 32 1 w) as (id & w1 & E1 & Hi & _). rewrite (cpp_returned _ _ _ _ _ E1). cbv zeta.
  destruct (hex_string_returns 64 0 w1) as (sig & w2 & E2 & Hs & _). rewrite (cpp_returned _ _ _ _ _ E2).
  pose proof (simulated_typed id sig Hn Hi Hs) as Ht. fold (simulated id sig). rewrite event_to_json_object, of_result_ok.
  destruct (dump_parse_spec (Some 2) (JArray [JString (cs "EVENT"); event_object (simulated id sig)])) as (t & Et & Hp).
  - constructor. repeat apply Forall_cons_2; try apply Forall_nil_2; [by constructor; apply ascii_utf8|by apply event_object_typed].
  - cbn [no_float forallb]. by rewrite event_object_no_float.
  - done.
  - rewrite Et, of_result_ok, write_file_bind. eexists t, id, sig, _. split; [reflexivity|]. split; [exact Ht|exact Hp].
Qed.

(** The filter of the request. *)
Definition asked_for (id : list Z) : filter_t := Filter_t [id] [pubkey_] [1] [id] [pubkey_] 1643873040 now 100.

Lemma asked_for_typed id : - 2 ^ 63 <= now < 2 ^ 63 -> utf8 id -> filter_typed (asked_for id).
Proof.
  intros Hn Hi. split; cbn; try lia; repeat apply Forall_cons_2; try apply Forall_nil_2; try done; try lia; by apply ascii_utf8.
Qed.

Lemma make_request_gives w : - 2 ^ 63 <= now < 2 ^ 63 -> exists q id j w', make_request w = (Returned (inr q), w') /\
  filter_typed (asked_for id) /\ filter_to_json JNull (asked_for id) false = Ok j /\
  parse q = Ok (JArray [JString (cs "REQ"); JString (cs "subscription_1"); canon j]).
Proof.
  intros Hn. unfold make_request.
  destruct (hex_string_returns 32 1 w) as (id & w1 & E1 & Hi & _). rewrite (cpp_returned _ _ _ _ _ E1). cbv zeta.
  pose proof (asked_for_typed id Hn Hi) as Hf. fold (asked_for id). destruct (filter_members (asked_for id)) as (m & E & _).
  rewrite E, of_result_ok.
  assert (Hp : plain_json (JArray [JString (cs "REQ"); JString (cs "subscription_1"); JObject m])).
  { apply array_plain. repeat apply Forall_cons_2; try apply Forall_nil_2; [by apply string_plain, ascii_utf8..|].
    eapply filter_to_json_plain; [exact Hf| |exact E]. by split; [constructor|]. }
  destruct Hp as [Hty Hnf]. destruct (dump_parse_spec (Some 2) _ Hty Hnf ltac:(done)) as (q & Eq & Hq).
  rewrite Eq, of_result_ok, write_file_bind. eexists q, id, (JObject m), _. split; [reflexivity|]. split; [exact Hf|]. split; [exact E|exact Hq].
Qed.

(** ** The response *)

Definition logged (text : list Z) (w : cc) : cc := CC (process w) (files w) (journal w ++ [Logged text]) (drawn w).

Lemma log_then {B} text (f : unit -> cpp B) w : (log text ≫= f) w = f tt (logged text w).
Proof. done. Qed.

Lemma log_all_logs store w : exists w', log_all store w = (Returned (inr tt), w') /\ journal w' = journal w ++ map Logged store.
Proof.
  revert w. induction store as [|m store IH]; intros w; [exists w; by rewrite app_nil_r|].
  destruct (IH (logged m w)) as (w' & E & Hj). exists w'. cbn [log_all]. rewrite log_then. split; [exact E|].
  rewrite Hj. cbn. by rewrite <- app_assoc.
Qed.

Lemma show_events ip t events w : Forall event_typed events -> parse t = Ok (canon (JArray (map event_object events))) ->
  exists w' before, show_response (posted ip t) w = (Returned (inr tt), w') /\ journal w' = before ++ map Logged (map content events).
Proof.
  intros He Hp. unfold show_response. cbn [header msg posted].
  destruct (log_all_logs (map (fun line => cs "header: " ++ line) (post_header ip t)) w) as (w1 & E1 & _).
  rewrite (cpp_returned _ _ _ _ _ E1), log_then.
  change (vector_at (post_header ip t) 0) with (Ok (cs "POST / HTTP/1.1" ++ [CR])). rewrite of_result_ok.
  assert (Ht : (0 <? len t) = true) by (destruct t; [vm_compute in Hp; discriminate|len_lia]).
  rewrite Ht, Hp, of_result_ok, from_objects, of_result_ok, log_then by done.
  destruct (log_all_logs (map content events)
    (logged (cs "received " ++ fmt_u64 (len events) ++ cs " events") (logged (cs "message: " ++ t) w1))) as (w2 & E2 & Hj).
  exists w2. eexists. split; [exact E2|exact Hj].
Qed.
End Client.

(** ** From the client through the relay and back *)

Definition localhost : list Z := cs "127.0.0.1".

Lemma http_respond_event `{Floats} now t s ev :
  event_typed ev -> parse t = Ok (canon (JArray [JString (cs "EVENT"); event_object ev])) ->
  http_respond now t s = Ok (Acknowledged, answer_state s ev).
Proof.
  intros He Hp. unfold http_respond. rewrite (typed_message_array t _ _ Hp), decide_True by done.
  change (at_index _ 1 ≫= get_event now) with (get_event now (canon (event_object ev))). unfold get_event.
  by rewrite event_from_object.
Qed.

Lemma http_respond_request `{Floats} now t s sub f j :
  filter_typed f -> filter_to_json JNull f false = Ok j -> parse t = Ok (JArray [JString (cs "REQ"); JString sub; canon j]) ->
  http_respond now t s = Ok (Answered (List.filter (matches (received f (filter_new now))) (stored s)), s).
Proof.
  intros Hf Hj Hp. unfold http_respond. rewrite (typed_message_array t _ _ Hp), decide_False, decide_True by done.
  change (at_index _ 1 ≫= from_json_string) with (Ok sub). change (at_index _ 2 ≫= get_filter now) with (get_filter now (canon j)).
  cbn [mbind result_bind]. unfold get_filter. by rewrite (filter_from_to f (filter_new now) j Hf Hj).
Qed.

(** A relay that answers with the segments [sock]. *)
Definition answering (sock : list (list Z)) : Http_network := {| http_exchange _ _ _ := Ok sock; http_close := Ok tt |}.

Lemma send_shows `{Floats} now host ip q t events sock w :
  host_name ip -> len t < 2 ^ 31 -> segments sock -> concat sock = make_post ip t ->
  Forall event_typed events -> parse t = Ok (canon (JArray (map event_object events))) ->
  exists w' before, send (H2 := answering sock) now host q w = (Returned (inr 0), w') /\
    journal w' = before ++ map Logged (map content events).
Proof.
  intros Hip Hl Hs Hc He Hp. unfold send. cbv zeta.
  destruct (show_events now ip t events (logged (cs "sent " ++ fmt_u64 (len (make_post host q)) ++ cs " bytes") w) He Hp)
    as (w' & before & E & Hj).
  exists w', before. split; [|exact Hj].
  assert (Eb : forall m : cpp unit, m w = (Returned (inr tt), w') -> (_ ← try_catch m log_what; mret 0) w = (Returned (inr 0), w')).
  { intros m Em. unfold try_catch, mbind, cpp_bind. by rewrite Em. }
  apply Eb. change (http_exchange host (cs "2000") (make_post host q)) with (@Ok (list (list Z)) sock). rewrite of_result_ok, log_then.
  rewrite (cpp_returned _ _ _ _ _ (parse_post_spec ip t sock _ Hip Hl Hs Hc)). cbv beta iota. change (0 <? 0) with false. cbv iota.
  rewrite (cpp_returned _ _ _ _ _ E). reflexivity.
Qed.

Lemma filter_author f a (l : list event_t) : authors f = [a] -> List.filter (matches f) l = List.filter (fun e => bool_decide (pubkey e = a)) l.
Proof. intros Hf. apply filter_ext. intros e. by apply matches_author. Qed.

(** C12: The client publishes its event through the HTTP relay and gets back every
    event of its author that the relay has stored, its own included, in the
    order in which they were stored, however the four messages are cut on their
    way. *)
Theorem http_delivers `{Floats} `{Disk} `{Rand} (now n1 n2 : Z) (wc wc1 wc2 wc3 wc4 wr : cc) (t q : list Z) (c1 c2 : connection)
    (database : list event_t) (s : spec_state)
    (Hnow : - 2 ^ 63 <= now < 2 ^ 63) (Hn1 : - 2 ^ 63 <= n1 < 2 ^ 63) (Hn2 : - 2 ^ 63 <= n2 < 2 ^ 63)
    (Hdisk : writable database_json = true) (Hr : represents wr database s)
    (Hmake : make_event now wc = (Returned (inr t), wc1)) (Hask : make_request now wc2 = (Returned (inr q), wc3))
    (Hs1 : segments (incoming c1)) (Hc1 : concat (incoming c1) = make_post localhost t) (Hl1 : len t < 2 ^ 31)
    (Hs2 : segments (incoming c2)) (Hc2 : concat (incoming c2) = make_post localhost q) (Hl2 : len q < 2 ^ 31)
    (Hopen : open_ c1 = true /\ open_ c2 = true) (Hip : host_name (client_ip c2)) :
  exists db1 wr1 r wr2 ev, serve_connection n1 c1 database wr = (Returned (inr (ok_response, db1)), wr1) /\
    serve_connection n2 c2 db1 wr1 = (Returned (inr (make_post (client_ip c2) r, db1)), wr2) /\
    content ev = cs "some great content" /\
    forall sock, segments sock -> concat sock = make_post (client_ip c2) r -> len r < 2 ^ 31 ->
      exists wc5 before, send (H2 := answering sock) now localhost q wc4 = (Returned (inr 0), wc5) /\
        journal wc5 = before ++ map Logged (map content
          (List.filter (fun e => bool_decide (pubkey e = pubkey_)) (stored s ++ memory s) ++ [ev])).
Proof.
  destruct (make_event_reads now wc Hnow) as (t' & id & sig & w1' & E & Hty & Hp). rewrite Hmake in E. injection E as <- <-.
  destruct (make_request_gives now wc2 Hnow) as (q' & idq & j & w3' & E & Hf & Hj & Hq). rewrite Hask in E. injection E as <- <-.
  set (ev := simulated now id sig) in *. destruct Hopen as [Ho1 Ho2].
  assert (Hh : host_name localhost) by by_compute.
  pose proof (serve_post n1 c1 database s wr localhost t Hn1 Hdisk Hh Hl1 Hs1 Hc1 Hr) as Hone.
  rewrite (http_respond_event n1 t s ev Hty Hp) in Hone. destruct Hone as (r1 & wr1 & E1 & Hr1 & Ha1).
  { intros v Hv. assert (v = canon (JArray [JString (cs "EVENT"); event_object ev])) as -> by congruence. apply canon_typed.
    constructor. repeat apply Forall_cons_2; try apply Forall_nil_2; [by constructor; apply ascii_utf8|by apply event_object_typed]. }
  unfold answer_bytes in Ha1. rewrite Ho1 in Ha1. subst r1.
  pose proof (serve_post n2 c2 _ _ wr1 localhost q Hn2 Hdisk Hh Hl2 Hs2 Hc2 Hr1) as Htwo.
  rewrite (http_respond_request n2 q _ _ _ j Hf Hj Hq) in Htwo.
  rewrite (filter_author _ pubkey_) in Htwo by done. cbn [stored memory answer_state] in Htwo.
  set (l := List.filter _ (stored s ++ memory s ++ [ev])) in *. destruct Htwo as (r2 & wr2 & E2 & Hr2 & Ha2).
  { intros v Hv. assert (v = JArray [JString (cs "REQ"); JString (cs "subscription_1"); canon j]) as -> by congruence.
    assert (Hjp : plain_json j) by (eapply filter_to_json_plain; [exact Hf| |exact Hj]; by split; [constructor|]).
    constructor. repeat apply Forall_cons_2; try apply Forall_nil_2; [by constructor; apply ascii_utf8..|]. by apply canon_typed, Hjp. }
  unfold answer_bytes in Ha2. rewrite Ho2 in Ha2. destruct Ha2 as (r & -> & Hrp).
  assert (Hl : l = List.filter (fun e => bool_decide (pubkey e = pubkey_)) (stored s ++ memory s) ++ [ev]).
  { unfold l. rewrite app_assoc, List.filter_app. reflexivity. }
  assert (Hlt : Forall event_typed l).
  { pose proof (rep_stored_typed _ _ _ Hr2) as Hst. cbn in Hst. rewrite List.Forall_forall in *. intros e He.
    apply Hst. by apply filter_In in He as [? _]. }
  exists (memory s ++ [ev]), wr1, r, wr2, ev. split; [exact E1|]. split; [exact E2|]. split; [done|].
  intros sock Hs Hc Hlr. rewrite <- Hl. by apply (send_shows now localhost (client_ip c2) q r l sock wc4).
Qed.

(** The same numbers again and again. *)
#[local] Instance counting : Rand := { rand := Z.of_nat; rand_nonneg n := Nat2Z.is_nonneg n }.

Definition text_made (m : cpp (list Z)) (w : cc) : list Z := match m w with (Returned (inr t), _) => t | _ => [] end.
Definition after (m : cpp (list Z)) (w : cc) : cc := (m w).2.

Definition published_text : list Z := text_made (make_event (H := zero_floats) (H0 := all_writable) 1700000000) (world_of server_0).
Definition asked_text : list Z := text_made (make_request (H := zero_floats) (H0 := all_writable) 1700000000) (world_of server_0).

(** A connection that cuts a post in the middle of its header and of its text. *)
Definition cut_post (text : list Z) : connection :=
  Connection localhost [take 30 (make_post localhost text); take 100 (drop 30 (make_post localhost text)); drop 130 (make_post localhost text)] true.

Lemma http_delivers_witness :
  let w := world_of server_0 in
  let w1 := after (make_event (H := zero_floats) (H0 := all_writable) 1700000000) w in
  let w2 := after (make_request (H := zero_floats) (H0 := all_writable) 1700000000) w in
  make_event (H := zero_floats) (H0 := all_writable) 1700000000 w = (Returned (inr published_text), w1) /\
  exists db1 wr1 r wr2 ev,
    serve_connection (H := zero_floats) (H0 := all_writable) 5 (cut_post published_text) [] w = (Returned (inr (ok_response, db1)), wr1) /\
    serve_connection (H := zero_floats) (H0 := all_writable) 6 (cut_post asked_text) db1 wr1 = (Returned (inr (make_post localhost r, db1)), wr2) /\
    content ev = cs "some great content" /\
    forall sock, segments sock -> concat sock = make_post localhost r -> len r < 2 ^ 31 ->
      exists wc5 before, send (H := zero_floats) (H2 := answering sock) 1700000000 localhost asked_text w2 = (Returned (inr 0), wc5) /\
        journal wc5 = before ++ map Logged (map content
          (List.filter (fun e => bool_decide (pubkey e = pubkey_)) ([] ++ []) ++ [ev])).
Proof.
  intros w w1 w2. assert (E : make_event (H := zero_floats) (H0 := all_writable) 1700000000 w = (Returned (inr published_text), w1)) by (vm_compute; reflexivity).
  split; [exact E|].
  apply (http_delivers (H := zero_floats) (H0 := all_writable) 1700000000 5 6 w w1 w w2 w2 w published_text asked_text (cut_post published_text) (cut_post asked_text)
    [] (Spec_state [] [])); try lia; try exact E.
  - reflexivity.
  - exact (fresh_stands server_0 fresh_0).
  - vm_compute. reflexivity.
  - by_compute.
  - vm_compute. reflexivity.
  - vm_compute. reflexivity.
  - by_compute.
  - vm_compute. reflexivity.
  - vm_compute. reflexivity.
  - by split.
  - by_compute.
Defined.
