(* ===== verification/Variants.v ===== *)
(** * Variants of the tool: [devtools/gnostr-git.c], [devtools/.gnostr-relay.c]

    Two programs that grew from [gnostr.c] and differ from it in their texts, in
    options that only print and end the program, and in the names of their
    subcommands.  What differs is the class [Tool]; the option loop and [main]
    are written over it, and each program is an instance.

    Whatever a variant returns, gnostr returns for the same arguments, with the
    same effects, and conversely; so a variant prints valid events. *)
From S2P Require Import Prelude Hex Cursor Event Process Args Keys Mining Dm Gnostr.

(** ** What differs *)

Class Tool `{OS} := {
  tool_about : proc unit;
  tool_usage : proc unit;
  tool_init : list Z -> proc unit;      (* the options that end the program, tested before --hash *)
  sub_prefix : list Z;                  (* in front of the name of a subcommand *)
  sub_length : Z                        (* the least length of a subcommand *)
}.

Section Programs.
Context `{OS}.

(** [gnostr-git.c] *)
Definition git_about : proc unit := _ ← line "gnostr-git: the gnostr git command line interface.."; exit 0.

Definition git_usage : proc unit :=
  _ ← line "usage: gnostr-git [OPTIONS]";
  _ ← line "";
  _ ← line "  GIT OPTIONS";
  _ ← line "";
  _ ← line "      --commit <string>               a git commit";
  _ ← line "      --content <string>              the content of a blob";
  _ ← line "      --blob <string>                 the id of a blob";
  _ ← line "";
  _ ← line "      --hash <value>                  return sha256 of <value>";
  _ ← line "";
  exit 0.

(** [.gnostr-relay.c] *)
Definition relay_about : proc unit := _ ← line "gnostr-relay: gnostr relay interface."; exit 0.

Definition relay_usage : proc unit :=
  _ ← line "usage: gnostr-relay [OPTIONS]";
  _ ← line "";
  _ ← line "  RELAY OPTIONS";
  _ ← line "";
  _ ← line "  gnostr-relay --initialize [--init] [-i]";
  _ ← line "";
  exit 0.

Definition init : proc unit := _ ← line "gnostr-relay --init."; exit 0.

Definition relay_init (arg : list Z) : proc unit :=
  when (streq arg "--initialize" || streq arg "--init" || streq arg "-i") init.

#[export] Instance git : Tool := {|
  tool_about := git_about; tool_usage := git_usage; tool_init := fun _ => mret tt;
  sub_prefix := cs "gnostr-"; sub_length := 1
|}.

#[export] Instance relay : Tool := {|
  tool_about := relay_about; tool_usage := relay_usage; tool_init := relay_init;
  sub_prefix := cs "gnostr-relay-"; sub_length := 7
|}.
End Programs.

(** ** The programs *)

Section Variant.
Context `{OS} {T : Tool}.

Fixpoint parse_loop (has_added_tags : bool) (args : args) (ev : nostr_event) (argv : list (list Z))
    : proc (Z * Args.args * nostr_event) :=
  match argv with
  | [] => mret (1, args, ev)
  | arg :: argv =>
      _ ← when (streq arg "--help" || streq arg "-h") tool_usage;
      _ ← when (streq arg "--version" || streq arg "-v") version;
      _ ← when (streq arg "--about" || streq arg "-a") tool_about;
      _ ← tool_init arg;
      _ ← when (streq arg "--hash") (openssl_hash (head argv));
      match argv with
      | [] => _ ← eprintf (cs "expected argument: '" ++ arg ++ cs "'" ++ [10]); mret (0, args, ev)
      | next :: rest =>
          if streq arg "--sec" || streq arg "-s" then parse_loop has_added_tags (set_sec args next) ev rest
          else if streq arg "--created-at" then
            '(ok, t) ← parse_num next;
            let args := set_created_at args t in
            if ok =? 0 then _ ← eprintf (cs "created-at must be a unix timestamp" ++ [10]); mret (0, args, ev)
            else parse_loop has_added_tags (set_flag args HAS_CREATED_AT) ev rest
          else if streq arg "--kind" then
            '(ok, n) ← parse_num next;
            if ok =? 0 then
              _ ← eprintf (cs "kind should be a number, got '" ++ next ++ cs "'" ++ [10]); mret (0, args, ev)
            else parse_loop has_added_tags (set_flag (set_kind args (to_signed 32 n)) HAS_KIND) ev rest
          else if streq arg "--envelope" then parse_loop has_added_tags (set_flag args HAS_ENVELOPE) ev argv
          else if streq arg "--tags" then
            if has args HAS_DIFFICULTY then
              _ ← eprintf (cs "can't combine --tags and --pow (yet)" ++ [10]); mret (0, args, ev)
            else if has_added_tags then
              _ ← eprintf (cs "can't combine --tags and --tag (yet)"); mret (0, args, ev)
            else parse_loop has_added_tags (set_explicit args next) ev rest
          else if streq arg "-e" then
            '(ok, ev) ← lift (nostr_add_tag ev (cs "e") next);
            if ok =? 0 then _ ← eprintf (cs "couldn't add e tag"); mret (0, args, ev)
            else parse_loop true args ev rest
          else if streq arg "-p" then
            '(ok, ev) ← lift (nostr_add_tag ev (cs "p") next);
            if ok =? 0 then _ ← eprintf (cs "couldn't add p tag"); mret (0, args, ev)
            else parse_loop true args ev rest
          else if streq arg "-t" then
            '(ok, ev) ← lift (nostr_add_tag ev (cs "t") next);
            if ok =? 0 then _ ← eprintf (cs "couldn't add t tag"); mret (0, args, ev)
            else parse_loop true args ev rest
          else if streq arg "--tag" then
            if bool_decide (is_Some (args_tags args)) then
              _ ← eprintf (cs "can't combine --tag and --tags (yet)"); mret (0, args, ev)
            else
              match rest with
              | [] => _ ← eprintf (cs "expected two arguments to --tag" ++ [10]); mret (0, args, ev)
              | arg2 :: rest =>
                  '(ok, ev) ← lift (nostr_add_tag ev next arg2);
                  if ok =? 0 then
                    _ ← eprintf (cs "couldn't add tag '" ++ next ++ cs "' '" ++ arg2 ++ cs "'" ++ [10]);
                    mret (0, args, ev)
                  else parse_loop true args ev rest
              end
          else if streq arg "--mine-pubkey" then parse_loop has_added_tags (set_flag args HAS_MINE_PUBKEY) ev argv
          else if streq arg "--pow" then
            if bool_decide (is_Some (args_tags args)) then
              _ ← eprintf (cs "can't combine --tags and --pow (yet)" ++ [10]); mret (0, args, ev)
            else
              '(ok, n) ← parse_num next;
              if ok =? 0 then
                _ ← eprintf (cs "could not parse difficulty as number: '" ++ next ++ cs "'" ++ [10]);
                mret (0, args, ev)
              else parse_loop has_added_tags (set_flag (set_difficulty args (to_signed 32 n)) HAS_DIFFICULTY) ev rest
          else if streq arg "--dm" then
            let '(ok, to) := hex_decode next (encrypt_to args) in
            let args := set_encrypt_to args to in
            if ok =? 0 then _ ← eprintf (cs "could not decode encrypt-to pubkey"); mret (0, args, ev)
            else parse_loop has_added_tags (set_flag args HAS_ENCRYPT) ev rest
          else if streq arg "--content" then parse_loop has_added_tags (set_content args next) ev rest
          else
            _ ← eprintf (cs "unexpected argument '" ++ arg ++ cs "'" ++ [10]); mret (0, args, ev)
      end
  end.

Definition parse_args (argv : list (list Z)) (args : args) (ev : nostr_event)
    : proc (Z * Args.args * nostr_event) :=
  '(ok, args, ev) ← parse_loop false args ev (tail argv);
  if ok =? 0 then mret (0, args, ev)
  else
    let args := match args_content args with None => set_content args [] | Some _ => args end in
    mret (1, args, ev).

Definition try_subcommand (argv : list (list Z)) : proc unit :=
  let sub := nth 1 argv [] in
  when ((sub_length <=? len sub) && negb (sub.[0] =? 45)) (execvp (snprintf 127 (sub_prefix ++ sub)) (tail argv)).

(** From the key on, as in [gnostr.c]. *)
Definition main `{Secp256k1} (junk : Z) (fuel : nat) (argv : list (list Z)) : proc Z :=
  _ ← when (len argv <? 2) tool_usage;
  ok ← init_secp_context;
  if ok =? 0 then mret 2
  else
    _ ← try_subcommand argv;
    '(ok, a, ev) ← parse_args argv args_zero event_zero;
    if ok =? 0 then _ ← tool_usage; mret 10
    else
      let ev := make_event a ev in
      '(code, k) ← main_key junk quiet fuel a;
      if negb (code =? 0) then mret code else main_event junk fuel a k ev.
End Variant.

(** ** What the programs promise *)

(** The words [parse_loop] gives a meaning to, besides those that end the program. *)
Definition option_words : list (list Z) :=
  map cs ["--sec"; "-s"; "--created-at"; "--kind"; "--envelope"; "--tags"; "-e"; "-p"; "-t"; "--tag"; "--mine-pubkey";
          "--pow"; "--dm"; "--content"]%string.

(** Lines on standard output. *)
Definition lines_out (ls : list string) : list effect := map (fun l => Stdout (cs l ++ [10])) ls.

Class ToolLaws `{T : Tool} := {
  tool_help : list effect;              (* the help *)
  usage_law w : tool_usage w = (Exited 0, World (errno w) (entropy w) (log w ++ tool_help));
  about_exits_law : exits 0 tool_about;
  init_law arg : tool_init arg = mret tt \/ exits 0 (tool_init arg) /\ (arg ∉ option_words) /\ (arg.[0]) = 45;
  sub_length_law : 1 <= sub_length
}.

Ltac prints_and_exits := unfold line; repeat apply exits_printf; apply exits_exit.

Lemma usage_exits_law `{L : ToolLaws} : exits 0 tool_usage.
Proof. intros w. rewrite usage_law. by eexists. Qed.

Ltac prints_lines :=
  intros [e en l]; unfold git_usage, relay_usage, line, printf, emit, mbind, prog_bind; cbn -[cs]; by rewrite <- !app_assoc.

#[export] Instance git_laws `{OS} : ToolLaws (T := git).
Proof.
  refine {| tool_help := lines_out ["usage: gnostr-git [OPTIONS]"; ""; "  GIT OPTIONS"; "";
      "      --commit <string>               a git commit";
      "      --content <string>              the content of a blob";
      "      --blob <string>                 the id of a blob"; "";
      "      --hash <value>                  return sha256 of <value>"; ""]%string |};
    cbn [git tool_about tool_usage tool_init sub_length].
  - prints_lines.
  - unfold git_about. prints_and_exits.
  - by left.
  - lia.
Defined.

#[export] Instance relay_laws `{OS} : ToolLaws (T := relay).
Proof.
  refine {| tool_help := lines_out ["usage: gnostr-relay [OPTIONS]"; ""; "  RELAY OPTIONS"; "";
      "  gnostr-relay --initialize [--init] [-i]"; ""]%string |};
    cbn [relay tool_about tool_usage tool_init sub_length].
  - prints_lines.
  - unfold relay_about. prints_and_exits.
  - intros arg. unfold relay_init. destruct (_ || _) eqn:E; [right|by left].
    split; [unfold when, init; prints_and_exits|].
    apply orb_true_iff in E as [[E|E]%orb_true_iff|E]; apply streq_true in E as ->; (split; [by_compute|done]).
  - lia.
Defined.

Section Laws.
Context `{ToolLaws}.

(** Both parses accept with the same settings, event and world, or neither does. *)
Definition agree (r1 r2 : outcome (Z * args * nostr_event) * world) : Prop :=
  forall ok a ev w, ok <> 0 -> r1 = (Returned (ok, a, ev), w) <-> r2 = (Returned (ok, a, ev), w).

(** The parse did not accept. *)
Definition no_accept (r : outcome (Z * args * nostr_event) * world) : Prop :=
  forall ok a ev w, ok <> 0 -> r <> (Returned (ok, a, ev), w).

Lemma agree_none r1 r2 : no_accept r1 -> no_accept r2 -> agree r1 r2.
Proof using Type. intros H1 H2 ok a ev w Ho. split; intros E; [by apply H1 in E|by apply H2 in E]. Qed.

Lemma agree_refl r : agree r r.
Proof using Type. done. Qed.

Lemma exits_no_accept {A} code (m : proc A) f w : exits code m -> no_accept ((m ≫= f) w).
Proof using Type. intros Hm ok a ev w' _ E. by apply (exits_not code) in E. Qed.

Lemma streq_word arg s : arg ∉ option_words -> cs s ∈ option_words -> streq arg s = false.
Proof using Type. intros Ha Hs. unfold streq. apply bool_decide_eq_false. by intros ->. Qed.

(** The loop of gnostr refuses a word that it does not know. *)
Lemma gnostr_refuses h a ev arg argv w : arg ∉ option_words -> no_accept (Args.parse_loop h a ev (arg :: argv) w).
Proof using Type.
  intros Ho. destruct (parse_starts h a ev (arg :: argv) w) as [E|[(o & rest & E & _)|[Hr|[[w1 E]|(x & rest & w1 & _ & _ & E)]]]].
  - done.
  - exfalso. apply Ho. destruct o as [[]| | | | | | | | | | | |]; cbn in E; injection E as -> _; by_compute.
  - destruct Hr as (a1 & e1 & w1 & ->). intros ok ? ? ? Hok. congruence.
  - rewrite E. by intros ? ? ? ?.
  - rewrite E. by intros ? ? ? ?.
Qed.

Lemma parse_loop_agrees n : forall argv h a ev w,
  (length argv <= n)%nat -> agree (parse_loop h a ev argv w) (Args.parse_loop h a ev argv w).
Proof using All.
  induction n as [|n IH]; intros argv h a ev w Hn; [by destruct argv; [|cbn in Hn; lia]|].
  destruct argv as [|arg argv]; [done|]. cbn [length] in Hn.
  destruct (init_law arg) as [Hi|(Hi & Harg & _)].
  2: { apply agree_none; [|by apply gnostr_refuses]. cbn [parse_loop]. rewrite when_bind.
       destruct (_ || _); [apply (exits_no_accept 0), usage_exits_law|]. rewrite when_bind.
       destruct (_ || _); [apply (exits_no_accept 0), version_exits|]. rewrite when_bind.
       destruct (_ || _); [apply (exits_no_accept 0), about_exits_law|]. by apply (exits_no_accept 0). }
  assert (Ht : forall (f : unit -> proc (Z * args * nostr_event)) w, (tool_init arg ≫= f) w = f tt w)
    by (intros f w'; by rewrite Hi).
  cbn [parse_loop Args.parse_loop]. rewrite !when_bind.
  destruct (streq arg "--help" || streq arg "-h").
  { apply agree_none; apply (exits_no_accept 0); [apply usage_exits_law|apply usage_exits]. }
  rewrite ?when_bind. destruct (streq arg "--version" || streq arg "-v").
  { apply agree_none; apply (exits_no_accept 0), version_exits. }
  rewrite ?when_bind. destruct (streq arg "--about" || streq arg "-a").
  { apply agree_none; apply (exits_no_accept 0); [apply about_exits_law|apply about_exits]. }
  rewrite Ht, ?when_bind. destruct argv as [|next rest]; [exact (agree_refl _)|]. cbn [length] in Hn.
  assert (Hnext : forall h a ev w, agree (parse_loop h a ev (next :: rest) w) (Args.parse_loop h a ev (next :: rest) w))
    by (intros; apply IH; cbn [length]; lia).
  assert (Hrest : forall h a ev w, agree (parse_loop h a ev rest w) (Args.parse_loop h a ev rest w))
    by (intros; apply IH; lia).
  assert (Htag : forall h a ev w arg2 rest2, rest = arg2 :: rest2 ->
    agree (parse_loop h a ev rest2 w) (Args.parse_loop h a ev rest2 w)).
  { intros h' a' ev' w' arg2 rest2 ->. apply IH. cbn in Hn. lia. }
  clear IH Hi Ht. unfold mbind, prog_bind.
  repeat lazymatch goal with
  | |- agree ?x ?x => apply agree_refl
  | |- agree (parse_loop _ _ _ _ _) _ => first [apply Hnext | apply Hrest | by eapply Htag]
  | _ => case_match
  end.
Qed.

Lemma parse_args_agrees argv a ev w : agree (parse_args argv a ev w) (Args.parse_args argv a ev w).
Proof using All.
  pose proof (parse_loop_agrees _ (tail argv) false a ev w (le_n _)) as Hl. intros ok a' ev' w' Hok.
  unfold parse_args, Args.parse_args.
  split; intros ([[ok1 a1] ev1] & w1 & E & Er)%bind_inv; (destruct (Z.eqb_spec ok1 0) as [->|Hn]; [injection Er; congruence|]);
    apply (Hl _ _ _ _ Hn) in E; rewrite (bind_returned _ _ _ _ _ E); by destruct (Z.eqb_spec ok1 0).
Qed.

(** A first argument that could be a subcommand is no option. *)
Lemma subcommand_refused name sub rest a ev w :
  1 <= len sub -> sub.[0] <> 45 -> no_accept (Args.parse_args (name :: sub :: rest) a ev w).
Proof using Type.
  intros Hl Hd ok a' ev' w' Hok E.
  destruct (parse_args_flag _ _ _ _ _ _ _ _ _ E) as [->| ->]; [done|].
  apply parse_args_spec in E as (os & c & E & _). destruct os as [|o os]; [done|].
  destruct o as [[]| | | | | | | | | | | |]; cbn in E; injection E as -> _; by apply Hd.
Qed.

Lemma streq_dash sub s : sub.[0] <> 45 -> (cs s).[0] = 45 -> streq sub s = false.
Proof using Type. intros Hs Hd. unfold streq. apply bool_decide_eq_false. by intros ->. Qed.

(** What a variant says of an argument that it does not know. *)
Definition refusal (sub : list Z) (rest : list (list Z)) : effect :=
  Stderr ((match rest with [] => cs "expected argument: '" | _ => cs "unexpected argument '" end) ++ sub ++ cs "'" ++ [10]).

(** A variant refuses it as well, with a message. *)
Lemma subcommand_message name sub rest a ev w :
  sub.[0] <> 45 -> parse_args (name :: sub :: rest) a ev w =
    (Returned (0, a, ev), World (errno w) (entropy w) (log w ++ [refusal sub rest])).
Proof using All.
  intros Hd. assert (Hi : tool_init sub = mret tt) by (destruct (init_law sub) as [Hi|(_ & _ & Hi)]; [done|by destruct Hd]).
  unfold parse_args. cbn [tail parse_loop].
  repeat match goal with |- context [streq sub ?s] => rewrite (streq_dash sub s Hd eq_refl) end.
  rewrite Hi. by destruct rest.
Qed.

Lemma try_subcommand_dash argv w : (nth 1 argv []).[0] = 45 \/ nth 1 argv [] = [] ->
  try_subcommand argv w = (Returned tt, w) /\ Gnostr.try_subcommand argv w = (Returned tt, w).
Proof using All.
  pose proof sub_length_law. unfold try_subcommand, Gnostr.try_subcommand. intros [->| ->].
  - by rewrite !andb_false_r.
  - change (len []) with 0. by destruct (Z.leb_spec sub_length 0); [lia|].
Qed.

#[local] Opaque Args.usage Args.parse_args parse_args Gnostr.try_subcommand main_key main_event init_secp_context.

(** After the arguments are accepted, both programs are the same. *)
Lemma main_agrees `{Secp256k1} junk fuel argv w c w' :
  main junk fuel argv w = (Returned c, w') <-> Gnostr.main junk fuel argv w = (Returned c, w').
Proof using H0.
  unfold main, Gnostr.main. rewrite !when_bind. destruct (Z.ltb_spec (len argv) 2) as [Hl|Hl].
  { split; intros E; exfalso; revert E; apply (exits_not 0); [apply usage_exits_law|apply usage_exits]. }
  destruct argv as [|name [|sub rest]]; [done..|]. clear Hl.
  set (argv := name :: sub :: rest).
  destruct (decide ((nth 1 argv []).[0] = 45 \/ nth 1 argv [] = [])) as [Hd|Hd].
  - split; intros (ok & w1 & E1 & E)%bind_inv; rewrite (bind_returned _ _ _ _ _ E1); (destruct (ok =? 0); [done|]);
      destruct (try_subcommand_dash argv w1 Hd) as [T1 T2]; apply bind_inv in E as ([] & w2 & Et & E);
      (assert (w2 = w1) as -> by congruence);
      [rewrite (bind_returned _ _ _ _ _ T2)|rewrite (bind_returned _ _ _ _ _ T1)];
      apply bind_inv in E as ([[ok2 a] ev] & w3 & Ep & E);
      (destruct (Z.eqb_spec ok2 0) as [->|Hn];
       [exfalso; revert E; apply (exits_not 0); first [apply usage_exits_law|apply usage_exits]|]);
      apply (parse_args_agrees _ _ _ _ _ _ _ _ Hn) in Ep; rewrite (bind_returned _ _ _ _ _ Ep);
      (destruct (Z.eqb_spec ok2 0) as [Ho|_]; [by destruct Hn|exact E]).
  - assert (Hs : 1 <= len sub /\ sub.[0] <> 45).
    { split; [|naive_solver]. destruct sub; [naive_solver|]. len_lia. }
    destruct Hs as [Hs1 Hs2]. 
    split; intros (ok & w1 & E1 & E)%bind_inv; rewrite (bind_returned _ _ _ _ _ E1); (destruct (ok =? 0); [done|]);
      exfalso; apply bind_inv in E as ([] & w2 & _ & E); apply bind_inv in E as ([[ok2 a] ev] & w3 & Ep & E);
      (destruct (Z.eqb_spec ok2 0) as [->|Hn];
       [revert E; apply (exits_not 0); first [apply usage_exits_law|apply usage_exits]|]).
    + apply parse_args_agrees in Ep; [|done]. by apply subcommand_refused in Ep.
    + by apply subcommand_refused in Ep.
Qed.

(** The world of a run that refused a subcommand: a program that could not be
    executed left its error number. *)
Definition refused_world (sub : list Z) (rest : list (list Z)) (w : world) : world :=
  let e := if sub_length <=? len sub then default (errno w) (os_execvp (snprintf 127 (sub_prefix ++ sub)) (sub :: rest)) else errno w in
  World e (entropy w) (log w ++ refusal sub rest :: tool_help).

(** A subcommand replaces the process or ends it. *)
Lemma subcommand_spec `{Secp256k1} junk fuel name sub rest w w1 :
  init_secp_context w = (Returned 1, w1) -> 1 <= len sub -> sub.[0] <> 45 ->
  let file := snprintf 127 (sub_prefix ++ sub) in
  if (sub_length <=? len sub) && bool_decide (os_execvp file (sub :: rest) = None)
  then main junk fuel (name :: sub :: rest) w = (Replaced file (sub :: rest), w1)
  else main junk fuel (name :: sub :: rest) w = (Exited 0, refused_world sub rest w1).
Proof using H0.
  intros Hi Hl Hd. cbv zeta. unfold main. rewrite when_bind.
  destruct (Z.ltb_spec (len (name :: sub :: rest)) 2); [exfalso; len_lia|].
  rewrite (bind_returned _ _ _ _ _ Hi). change (1 =? 0) with false. cbv iota.
  assert (Hr : forall e, (('(ok, a, ev) ← parse_args (name :: sub :: rest) args_zero event_zero;
    if ok =? 0 then _ ← tool_usage; mret 10
    else let ev := make_event a ev in '(code, k) ← main_key junk quiet fuel a;
         if negb (code =? 0) then mret code else main_event junk fuel a k ev) : proc Z) (World e (entropy w1) (log w1)) =
    (Exited 0, World e (entropy w1) (log w1 ++ refusal sub rest :: tool_help))).
  { intros e. rewrite (bind_returned _ _ _ _ _ (subcommand_message name sub rest args_zero event_zero _ Hd)).
    change (0 =? 0) with true. cbv iota. unfold mbind, prog_bind. rewrite usage_law. cbn [errno entropy log]. by rewrite <- app_assoc. }
  unfold try_subcommand, refused_world. cbn [nth tail]. rewrite when_bind.
  destruct (Z.eqb_spec (sub.[0]) 45) as [?|_]; [done|]. rewrite andb_true_r.
  destruct (sub_length <=? len sub); [|destruct w1; apply Hr]. cbn [andb].
  case_bool_decide as He.
  - unfold mbind, prog_bind, execvp. by rewrite He.
  - destruct (os_execvp _ _) as [e|] eqn:Ee; [|done].
    rewrite (bind_returned (execvp _ _) _ w1 tt (World e (entropy w1) (log w1))); [apply Hr|]. unfold execvp. by rewrite Ee.
Qed.
End Laws.

(** ** Properties *)

(** C16: a variant of the tool returns, with a status and an effect on the
    process, exactly when gnostr returns with the same arguments, and then with
    the same status and effect; the variants differ only in how they refuse,
    print help or run a subcommand. *)
Theorem variants_agree `{OS} `{Secp256k1} (junk : Z) (fuel : nat) (argv : list (list Z)) (w w' : world) (c : Z) :
  (main (T := git) junk fuel argv w = (Returned c, w') <-> Gnostr.main junk fuel argv w = (Returned c, w')) /\
  (main (T := relay) junk fuel argv w = (Returned c, w') <-> Gnostr.main junk fuel argv w = (Returned c, w')).
Proof. split; apply main_agrees. Qed.

(** What is proved of gnostr holds for its variants: with status 0 a variant
    has printed one event of the key that was read or generated, with the
    requested fields, whose id is the digest of its serialisation and whose
    signature verifies, or nothing but the message on standard error when the
    encryption was refused. *)
Theorem variant_prints_valid_event `{OS} `{Secp256k1Laws} (T : Tool) (L : ToolLaws (T := T)) (junk : Z) (fuel : nat)
    (argv : list (list Z)) (w w' : world)
    (Htime : in_width 64 time_now) (Hargv : Forall c_string argv) (Hargc : 2 <= len argv) (Hw : entropy_ok w)
    (Hmain : main junk fuel argv w = (Returned 0, w')) :
  exists a ev0 k w2 w3, main_key junk quiet fuel a w2 = (Returned (0, k), w3) /\
    ((not_encrypted a k (make_event a ev0) w3 w' /\ stdout_of (log w') = stdout_of (log w)) \/
     exists ev, stdout_of (log w') = stdout_of (log w) ++ event_message ev (has a HAS_ENVELOPE) /\
       valid_event ev /\ pubkey ev = key_pubkey k /\ requested a ev0 ev).
Proof.
  apply main_agrees in Hmain.
  destruct (main_prints_spec junk fuel argv w w' Htime Hargv Hargc Hw Hmain) as (a & ev0 & k & w1 & w2 & w3 & _ & Hk & Hr).
  by exists a, ev0, k, w2, w3.
Qed.

#[local] Existing Instance Toy.lib.
#[local] Existing Instance Toy.lib_laws.
#[local] Existing Instance test_os.

Definition git_argv : list (list Z) :=
  [cs "gnostr-git"; cs "--sec"; hex_text alice; cs "--envelope"; cs "--content"; cs "a blob"].

Lemma variant_prints_valid_event_witness :
  let w' := (main (T := git) 0 3 git_argv run_world).2 in
  exists a ev0 k w2 w3, main_key 0 quiet 3 a w2 = (Returned (0, k), w3) /\
    ((not_encrypted a k (make_event a ev0) w3 w' /\ stdout_of (log w') = []) \/
     exists ev, stdout_of (log w') = [] ++ event_message ev (has a HAS_ENVELOPE) /\
       valid_event ev /\ pubkey ev = key_pubkey k /\ requested a ev0 ev).
Proof.
  apply (variant_prints_valid_event git git_laws 0 3 git_argv run_world (main (T := git) 0 3 git_argv run_world).2);
    [by_compute|by_compute|vm_compute; discriminate| |vm_compute; reflexivity].
  repeat apply Forall_cons_2; [cbn [from_option]; by_compute..|constructor].
Defined.

(** C30: a first argument that does not begin with a dash is the name of a
    subcommand: when it is as long as the variant asks for and the program of
    that name can be executed, it replaces the process, with the remaining
    arguments; otherwise, whatever follows, the variant writes to standard error
    that the argument is unexpected (or that one is expected after it, when it is
    the last), prints its help on standard output and exits with status 0. *)
Theorem subcommand_dispatch `{OS} `{Secp256k1} (T : Tool) (L : ToolLaws (T := T)) (junk : Z) (fuel : nat)
    (name sub : list Z) (rest : list (list Z)) (w w1 : world)
    (Hinit : init_secp_context w = (Returned 1, w1)) (Hlen : 1 <= len sub) (Hdash : sub.[0] <> 45) :
  let file := snprintf 127 (sub_prefix ++ sub) in
  let error := if sub_length <=? len sub then default (errno w1) (os_execvp file (sub :: rest)) else errno w1 in
  if (sub_length <=? len sub) && bool_decide (os_execvp file (sub :: rest) = None)
  then main junk fuel (name :: sub :: rest) w = (Replaced file (sub :: rest), w1)
  else main junk fuel (name :: sub :: rest) w =
    (Exited 0, World error (entropy w1) (log w1 ++ refusal sub rest :: tool_help)).
Proof. by apply subcommand_spec. Qed.

(** A system where every program can be executed. *)
Definition any_program : OS := {| time_now := 0; os_execvp := fun _ _ => None; strtol_einval := false |}.

(** The relay variant passes over [clone], which has less than seven
    characters, and runs [publish]. *)
Lemma subcommand_dispatch_witness :
  @main any_program relay Toy.lib 0 3 [cs "gnostr-relay"; cs "clone"; cs "x"] run_world =
    (Exited 0, World 0 [Some (repeat 2 32)]
      [Stderr (cs "unexpected argument 'clone'" ++ [10]); Stdout (cs "usage: gnostr-relay [OPTIONS]" ++ [10]); Stdout [10];
       Stdout (cs "  RELAY OPTIONS" ++ [10]); Stdout [10]; Stdout (cs "  gnostr-relay --initialize [--init] [-i]" ++ [10]); Stdout [10]]) /\
  @main any_program relay Toy.lib 0 3 [cs "gnostr-relay"; cs "publish"; cs "x"] run_world =
    (Replaced (cs "gnostr-relay-publish") [cs "publish"; cs "x"], World 0 [Some (repeat 2 32)] []).
Proof.
  split.
  - apply (@subcommand_dispatch any_program Toy.lib relay (@relay_laws any_program) 0 3 (cs "gnostr-relay") (cs "clone") [cs "x"] run_world
      (World 0 [Some (repeat 2 32)] [])); [reflexivity|vm_compute; discriminate|vm_compute; discriminate].
  - apply (@subcommand_dispatch any_program Toy.lib relay (@relay_laws any_program) 0 3 (cs "gnostr-relay") (cs "publish") [cs "x"] run_world
      (World 0 [Some (repeat 2 32)] [])); [reflexivity|vm_compute; discriminate|vm_compute; discriminate].
Defined.

(** The help of the git variant shows two options that its parser refuses. *)
Theorem git_options_refused `{OS} (word : list Z) (rest : list (list Z)) (a : args) (ev : nostr_event) (w : world) :
  word ∈ [cs "--commit"; cs "--blob"] -> exists w', parse_args (T := git) (cs "gnostr-git" :: word :: rest) a ev w = (Returned (0, a, ev), w').
Proof.
  rewrite !elem_of_cons, elem_of_nil. intros [->|[->|[]]]; destruct rest; by eexists.
Qed.

(** The relay variant's own option, wherever an option can stand, only prints. *)
Theorem relay_init_exits `{OS} `{Secp256k1} (junk : Z) (fuel : nat) (name word : list Z) (rest : list (list Z)) (w w1 : world) :
  word ∈ [cs "--initialize"; cs "--init"; cs "-i"] -> init_secp_context w = (Returned 1, w1) ->
  main (T := relay) junk fuel (name :: word :: rest) w =
    (Exited 0, World (errno w1) (entropy w1) (log w1 ++ [Stdout (cs "gnostr-relay --init." ++ [10])])).
Proof.
  intros Hw Hi. unfold main. rewrite when_bind.
  destruct (Z.ltb_spec (len (name :: word :: rest)) 2); [exfalso; len_lia|].
  rewrite (bind_returned _ _ _ _ _ Hi).
  rewrite !elem_of_cons, elem_of_nil in Hw. by destruct Hw as [->|[->|[->|[]]]].
Qed.
