(* ===== verification/Web.v ===== *)
(** * The web client: [web/web.cc], [web/home.cc], [web/feed.cc], [web/follows.cc]

    The handlers of the client's three pages.  A page is a record of what its
    widgets hold when a handler runs; a handler is a computation of [Comm.cpp]
    that returns the page it leaves.  The layout of the page, its styles and the
    server are the library Wt.

    [Home] generates a message, a request or an event that the library of
    nostril signs, and sends it; [Feed] and [Follows] list what the client
    library fetches. *)
From stdpp Require Import gmap.
From S2P Require Import Prelude Hex Event Process Args Keys Dm Gnostr Nostril.
From S2P Require Import Json JsonParse JsonSpec JsonGrammar JsonRound Comm Client Relay Interop.

(** ** Widgets *)

(** A text as [WText::text()] gives it back: [WText] takes its text for XHTML. *)
Class Wt := { wtext : list Z -> list Z }.

(** [WTable]: the texts added to a cell, by row and column. *)
Abbreviation table := (gmap (Z * Z) (list (list Z))).

(** [elementAt(row, column)->addNew<WText>(text)] *)
Definition add_text (row column : Z) (text : list Z) (t : table) : table :=
  <[(row, column) := default [] (t !! (row, column)) ++ [text]]> t.

(** A quoted word of a JSON text. *)
Definition word (s : string) : list Z := [quote] ++ cs s ++ [quote].

(** ** [web.cc] *)

Definition relays : list (list Z) :=
  map cs ["eden.nostr.land"; "nos.lol"; "relay.snort.social"; "relay.damus.io"; "nostr.wine"]%string.

(** [relays.at(1)] *)
Definition default_relay : list Z := nth 1 relays [].

(** ** The row of a table *)

(** [row_text], the same in the three pages. *)
Definition row_text `{Floats} `{Disk} (message : list Z) : cpp unit :=
  try_catch
    (js ← of_result (parse message);
     json ← of_result (dump (Some 1) js);
     json_to_file (cs "row_text.json") json)
    log_what.

(** A click on a text of the table. *)
Definition click `{Floats} `{Disk} `{Wt} (text : list Z) : cpp unit := row_text (wtext text).

(** ** [home.cc] *)

Module Home.

Record page := Page {
  edit_uri : list Z;
  pubkey_ : list Z;             (* the global variable *)
  is_req : bool;                (* the radio buttons *)
  edit_seckey : list Z;
  edit_pubkey : list Z;
  area_content : list Z;
  combo_kind : Z;               (* 0: short text note, 1: contacts *)
  edit_event_id : list Z;
  edit_author : list Z;
  area_message : list Z;
  check_raw : bool;
  m_row : Z;
  table_messages : table
}.

Definition set_pubkey_ s v := Page (edit_uri s) v (is_req s) (edit_seckey s) (edit_pubkey s) (area_content s) (combo_kind s)
  (edit_event_id s) (edit_author s) (area_message s) (check_raw s) (m_row s) (table_messages s).
Definition set_edit_author s v := Page (edit_uri s) (pubkey_ s) (is_req s) (edit_seckey s) (edit_pubkey s) (area_content s) (combo_kind s)
  (edit_event_id s) v (area_message s) (check_raw s) (m_row s) (table_messages s).
Definition set_area_message s v := Page (edit_uri s) (pubkey_ s) (is_req s) (edit_seckey s) (edit_pubkey s) (area_content s) (combo_kind s)
  (edit_event_id s) (edit_author s) v (check_raw s) (m_row s) (table_messages s).
Definition set_rows s r t := Page (edit_uri s) (pubkey_ s) (is_req s) (edit_seckey s) (edit_pubkey s) (area_content s) (combo_kind s)
  (edit_event_id s) (edit_author s) (area_message s) (check_raw s) r t.

Definition def_pubkey : list Z := cs "4ea843d54a8fdab39aa45f61f19f3ff79cc19385370f6a272dda81fade0a052b".

(** The constructor. *)
Definition ContainerHome : page :=
  Page default_relay def_pubkey true [] def_pubkey [] 0 [] [] [] true 0 ∅.

(** The handlers of [m_edit_pubkey->changed()] and [m_combo_kind->changed()]. *)
Definition pubkey_changed (s : page) : page := set_pubkey_ s (edit_pubkey s).
Definition kind_changed (s : page) : page := if combo_kind s =? 1 then set_edit_author s (edit_pubkey s) else s.

Section Home.
Context `{Floats} `{Disk} `{OS} `{Secp256k1} `{Network} `{Random} (junk now : Z).

(** *** [make_message] *)

(** The filter of a request. *)
Definition request_filter (s : page) : filter_t :=
  let kind := if combo_kind s =? 0 then 1 else if combo_kind s =? 1 then 3 else 0 in
  let filter := set_kinds (filter_new now) [kind] in
  if kind =? 3 then set_limit (set_authors filter [edit_pubkey s]) 1
  else if kind =? 1 then
    set_limit (if 0 <? len (edit_author s) then set_authors filter [edit_author s] else filter) 50
  else filter.

Definition request_text (s : page) : cpp (list Z) :=
  subscription_id ← generate_uuid_v4;
  let subscription_id := if 0 <? len (edit_event_id s) then edit_event_id s else subscription_id in
  make_request subscription_id (request_filter s).

(** The settings of an event. *)
Definition event_args (s : page) : args :=
  let a := Args.set_content args_zero (Client.c_str (area_content s)) in
  if 0 <? len (edit_seckey s) then Args.set_sec a (Client.c_str (edit_seckey s)) else a.

(** The text of an event; when the library writes none, the buffer from malloc is
    read as it is. *)
Definition event_text (s : page) : cpp (list Z) :=
  '(_, json) ← run (Nostril.make_message junk 0 (event_args s) event_zero);
  match json with Some buf => mret buf | None => of_result Ub end.

Definition make_message (s : page) : cpp page :=
  json_message ← (if is_req s then request_text s else event_text s);
  try_catch
    (js_message ← of_result (parse json_message);
     json_indent ← of_result (dump (Some 1) js_message);
     _ ← json_to_file (cs "send_message.json") json_indent;
     mret (set_area_message s json_indent))
    (fun e => _ ← log_what e; mret s).

(** *** [send_message] *)

(** The text that a received message gets in the table. *)
Definition received_text (raw : bool) (str : list Z) : cpp (list Z) :=
  try_catch
    (js_message ← of_result (parse str);
     json ← of_result (dump None js_message);
     _ ← json_to_file (cs "on_message.json") json;
     type ← of_result (message_type js_message);
     if decide (type = cs "EVENT") then
       ev ← of_result (at_index js_message 2 ≫= get_event now);
       _ ← log (cs "event received: " ++ content ev);
       mret (if raw then str else content ev)
     else mret str)
    (fun e => _ ← log_what e; mret str).

(** The handlers of the connection; the page and the messages received. *)
Fixpoint handle (message : list Z) (events : list net_event) (s : page) (store : list (list Z)) : cpp (page * list (list Z)) :=
  match events with
  | [] => mret (s, store)
  | Opened http :: events =>
      _ ← log (cs "Opened connection: HTTP " ++ http);
      _ ← log (cs "Sending: " ++ message);
      _ ← json_to_file (cs "on_open_message.json") message;
      handle message events (set_rows s 0 ∅) store
  | Received str :: events =>
      _ ← log (cs "Received: " ++ str);
      text ← received_text (check_raw s) str;
      handle message events (set_rows s (m_row s + 1) (add_text (m_row s) 0 text (table_messages s))) (store ++ [str])
  | Closed status :: events => _ ← log (cs "Closed: " ++ fmt_int status); handle message events s store
  | Failed what :: events => _ ← log (cs "Error: " ++ what); handle message events s store
  end.

Definition send_message (s : page) : cpp page :=
  events ← of_result (exchange (edit_uri s) (area_message s));
  '(s, store) ← handle (area_message s) events s [];
  _ ← log (cs "Received " ++ fmt_u64 (len store) ++ cs " messages: ");
  _ ← log_all store;
  mret s.
End Home.
End Home.

(** ** [feed.cc] and [follows.cc] *)

Section Lists.
Context `{Floats} `{Disk} `{Network} `{Random} (now : Z).

(** The row of an event, its JSON or its author and content; [keep] is what
    follows for the content. *)
Definition list_row (raw : bool) (keep : Z -> list Z -> cpp unit) (pubkey : list Z) (row : Z) (t : table) (js : json) (ev : event_t)
    : cpp (Z * table) :=
  json ← of_result (dump (Some 1) js);
  _ ← json_to_file (cs "follow." ++ fmt_int (row + 1) ++ cs ".json") json;
  if raw then mret (row + 1, add_text row 0 json t)
  else
    _ ← keep row (content ev);
    mret (row + 1, add_text row 1 (content ev) (add_text row 0 pubkey t)).

(** A message that is an event gets a row. *)
Definition list_event (raw : bool) (keep : Z -> list Z -> cpp unit) (pubkey message : list Z) (rt : Z * table) : cpp (Z * table) :=
  let '(row, t) := rt in
  try_catch
    (js ← of_result (parse message);
     type ← of_result (message_type js);
     if decide (type = cs "EVENT") then
       ev ← of_result (at_index js 2 ≫= get_event now); list_row raw keep pubkey row t js ev
     else mret (row, t))
    (fun e => _ ← log_what e; mret (row, t)).

Fixpoint list_events (raw : bool) (keep : Z -> list Z -> cpp unit) (pubkey : list Z) (events : list (list Z)) (rt : Z * table) : cpp (Z * table) :=
  match events with
  | [] => mret rt
  | message :: events => rt ← list_event raw keep pubkey message rt; list_events raw keep pubkey events rt
  end.

(** The loop over the followed keys; [fetch] asks the relay for the events of one. *)
Fixpoint list_keys (raw : bool) (keep : Z -> list Z -> cpp unit) (fetch : list Z -> cpp (list (list Z))) (pubkeys : list (list Z)) (rt : Z * table)
    : cpp (Z * table) :=
  match pubkeys with
  | [] => mret rt
  | pubkey :: pubkeys =>
      events ← fetch pubkey;
      rt ← list_events raw keep pubkey events rt;
      list_keys raw keep fetch pubkeys rt
  end.

(** From the global [pubkey] to the table, the common part of the two pages. *)
Definition list_page (raw : bool) (keep : Z -> list Z -> cpp unit) (fetch : list Z -> cpp (list (list Z))) (pubkey : list Z) : cpp table :=
  '(_, pubkeys) ← Client.get_follows now default_relay pubkey [];
  _ ← to_file_lines (cs "pubkeys.txt") pubkeys;
  '(_, t) ← list_keys raw keep fetch pubkeys (0, ∅);
  mret t.

(** The messages that the client library returns for a key. *)
Definition fetch_feed (pubkey : list Z) : cpp (list (list Z)) :=
  '(_, events) ← Client.get_feed now default_relay pubkey []; mret events.
Definition fetch_metadata (pubkey : list Z) : cpp (list (list Z)) :=
  '(_, events) ← Client.get_metadata now default_relay pubkey []; mret events.

(** The content of an event in a file of its own, in [follows.cc] only. *)
Definition keep_content (row : Z) (content : list Z) : cpp unit :=
  json_to_file (cs "content." ++ fmt_int (row + 1) ++ cs ".json") content.

(** [ContainerFeed::get_feed] and [ContainerFollows::get_follows]; the table they
    leave. *)
Definition feed_page (raw : bool) (pubkey : list Z) : cpp table := list_page raw (fun _ _ => mret tt) fetch_feed pubkey.
Definition follows_page (raw : bool) (pubkey : list Z) : cpp table := list_page raw keep_content fetch_metadata pubkey.
End Lists.

(** ** The menu *)

Inductive container :=
| Home_ (p : Home.page)
| Feed (check_raw : bool) (t : table)
| Follows (check_raw : bool) (t : table).

(** [selected]: the container of an item, and the global [pubkey] it leaves. *)
Definition selected `{Floats} `{Disk} `{Network} `{Random} (now index : Z) (pubkey : list Z) : cpp (option container * list Z) :=
  if index =? 0 then mret (Some (Home_ Home.ContainerHome), Home.pubkey_ Home.ContainerHome)
  else if index =? 1 then mret (Some (Feed true ∅), pubkey)
  else if index =? 2 then t ← follows_page now true pubkey; mret (Some (Follows true t), pubkey)
  else mret (None, pubkey).

(** ** Generating a message *)

Section Generating.
Context `{Floats} `{Disk} `{OS} `{Secp256k1Laws} `{Network} `{Random} (junk now : Z).

(** The text of a message, laid out for the page. *)
Definition show_message (s : Home.page) (json_message : list Z) : cpp Home.page :=
  try_catch
    (js_message ← of_result (parse json_message);
     json_indent ← of_result (dump (Some 1) js_message);
     _ ← json_to_file (cs "send_message.json") json_indent;
     mret (Home.set_area_message s json_indent))
    (fun e => _ ← log_what e; mret s).

Lemma make_message_shows s :
  Home.make_message junk now s = (json_message ← (if Home.is_req s then Home.request_text now s else Home.event_text junk s); show_message s json_message).
Proof using Type. done. Qed.

Lemma show_message_reads s t v w :
  plain_json v -> parse t = Ok (canon v) ->
  exists t' w', show_message s t w = (Returned (inr (Home.set_area_message s t')), w') /\ parse t' = Ok (canon v) /\
    files w' = if writable (cs "send_message.json") then <[cs "send_message.json" := t']> (files w) else files w.
Proof using Type.
  intros [Hv Hn] Hp. pose proof (canon_typed v Hv) as Hc.
  destruct (dump_parse_spec (Some 1) (canon v) Hc) as (t' & Ed & Hp'); [by rewrite no_float_canon|done|]. rewrite canon_canon in Hp'.
  destruct (json_to_file_returns (cs "send_message.json") t' w) as (w' & Ef & _ & Hw); [by intros ? [= <-]%(eq_trans (eq_sym Hp'))|].
  exists t', w'. unfold show_message, try_catch. rewrite Hp, of_result_ok, Ed, of_result_ok, (cpp_returned _ _ _ _ _ Ef).
  split; [done|]. split; [done|]. rewrite Hp' in Hw. destruct Hw as (t2 & E2 & Hw). assert (t2 = t') as -> by congruence. exact Hw.
Qed.

Lemma request_filter_typed s :
  - 2 ^ 63 <= now < 2 ^ 63 -> utf8 (Home.edit_author s) -> utf8 (Home.edit_pubkey s) -> filter_typed (Home.request_filter now s).
Proof using Type.
  intros Hnow Ha Hp. unfold Home.request_filter.
  destruct (Home.combo_kind s =? 0); [|destruct (Home.combo_kind s =? 1)]; cbn [Z.eqb Pos.eqb].
  - destruct (0 <? len (Home.edit_author s)); split; cbn; try lia; repeat first [apply Forall_nil_2|apply Forall_cons_2]; done || lia.
  - split; cbn; try lia; repeat first [apply Forall_nil_2|apply Forall_cons_2]; done || lia.
  - split; cbn; try lia; repeat first [apply Forall_nil_2|apply Forall_cons_2]; done || lia.
Qed.

Lemma request_text_reads s w :
  - 2 ^ 63 <= now < 2 ^ 63 -> utf8 (Home.edit_event_id s) -> utf8 (Home.edit_author s) -> utf8 (Home.edit_pubkey s) ->
  exists sub t j w', Home.request_text now s w = (Returned (inr t), w') /\ files w' = files w /\ utf8 sub /\
    (0 < len (Home.edit_event_id s) -> sub = Home.edit_event_id s) /\
    filter_to_json JNull (Home.request_filter now s) false = Ok j /\ parse t = Ok (JArray [JString (cs "REQ"); JString sub; canon j]).
Proof using Type.
  intros Hnow Hid Ha Hp. unfold Home.request_text. destruct (uuid_utf8 w) as (u & w1 & E & Hu).
  assert (Hw1 : files w1 = files w) by (injection E as _ <-; done). rewrite (cpp_returned _ _ _ _ _ E). cbv zeta.
  set (sub := if 0 <? len (Home.edit_event_id s) then _ else _).
  destruct (make_request_reads sub (Home.request_filter now s) w1) as (t & j & Ej & Er & Hpt); [by unfold sub; destruct (_ <? _)|by apply request_filter_typed|].
  exists sub, t, j, w1. split_and!; try done; unfold sub.
  - by destruct (_ <? _).
  - intros Hl. by destruct (Z.ltb_spec 0 (len (Home.edit_event_id s))); [|lia].
Qed.

(** A page in request mode shows the text of its request, and saves it. *)
Lemma generate_request s w :
  - 2 ^ 63 <= now < 2 ^ 63 -> Home.is_req s = true ->
  utf8 (Home.edit_event_id s) -> utf8 (Home.edit_author s) -> utf8 (Home.edit_pubkey s) ->
  exists sub t j w', Home.make_message junk now s w = (Returned (inr (Home.set_area_message s t)), w') /\
    files w' = (if writable (cs "send_message.json") then <[cs "send_message.json" := t]> (files w) else files w) /\
    utf8 sub /\ (0 < len (Home.edit_event_id s) -> sub = Home.edit_event_id s) /\
    filter_to_json JNull (Home.request_filter now s) false = Ok j /\
    parse t = Ok (canon (JArray [JString (cs "REQ"); JString sub; j])) /\ plain_json (JArray [JString (cs "REQ"); JString sub; j]).
Proof using Type.
  intros Hnow Hreq Hid Ha Hp.
  destruct (request_text_reads s w Hnow Hid Ha Hp) as (sub & t & j & w1 & E & Hf1 & Hsub & Hs & Ej & Hpt).
  rewrite make_message_shows, Hreq, (cpp_returned _ _ _ _ _ E).
  set (v := JArray [JString (cs "REQ"); JString sub; j]).
  assert (Hv : plain_json v).
  { apply array_plain. repeat apply Forall_cons_2; try apply Forall_nil_2; [by apply string_plain, ascii_utf8|by apply string_plain|].
    eapply filter_to_json_plain; [by apply request_filter_typed| |exact Ej]. by split; [constructor|]. }
  destruct (show_message_reads s t v w1 Hv Hpt) as (t' & w2 & E2 & Hp2 & Hf2). exists sub, t', j, w2.
  split_and!; try done. by rewrite Hf2, Hf1.
Qed.

(** The settings of an event fit. *)
Lemma event_args_ok s :
  Bytes (Home.area_content s) -> len (Home.area_content s) < 2 ^ 31 -> Bytes (Home.edit_seckey s) -> len (Home.edit_seckey s) < 2 ^ 31 ->
  args_ok (Home.event_args s) /\ has (set_flag (Home.event_args s) HAS_ENVELOPE) HAS_ENCRYPT = false.
Proof using Type.
  intros Hc Hcl Hs Hsl. pose proof args_zero_ok as [].
  assert (Hcs : forall l, Bytes l -> len l < 2 ^ 31 -> c_string (Client.c_str l)).
  { intros l Hb Hl. split; [by apply c_str_Bytes|]. pose proof (c_str_len l). lia. }
  unfold Home.event_args. destruct (0 <? len (Home.edit_seckey s)); (split; [|done]); split; cbn; auto; done.
Qed.

(** What the page shows for an event is one that can be published. *)
Lemma event_text_returns s w t w' :
  in_width 64 time_now -> entropy_ok (process w) ->
  Bytes (Home.area_content s) -> len (Home.area_content s) < 2 ^ 31 -> Bytes (Home.edit_seckey s) -> len (Home.edit_seckey s) < 2 ^ 31 ->
  Home.event_text junk s w = (Returned (inr t), w') ->
  files w' = files w /\ exists ev, t = event_message ev true /\ valid_event ev /\ Event.content ev = Client.c_str (Home.area_content s) /\
    Event.kind ev = 1 /\ Event.created_at ev = time_now /\ Event.explicit_tags ev = None /\ Event.tags ev = [].
Proof using Type*.
  intros Ht Hw Hc Hcl Hs Hsl E. destruct (event_args_ok s Hc Hcl Hs Hsl) as [Ha Henc]. unfold Home.event_text in E.
  destruct (Nostril.make_message junk 0 (Home.event_args s) event_zero (process w)) as [[[code json]| | | | |] p] eqn:Em;
    unfold run, mbind, cpp_bind in E; rewrite Em in E; try done.
  destruct json as [t'|]; [|done]. injection E as -> <-. split; [done|].
  assert (code = 0) as -> by by eapply make_message_code.
  destruct (make_message_spec junk 0 _ _ _ _ _ Ht Ha event_zero_new Hw Em) as (ev & -> & Hv & Hr).
  exists ev. split; [done|]. split; [done|]. destruct Hr as [R1 R2 R3 _ (l & R5 & R6) _]. destruct (R3 Henc) as [R7 R8].
  rewrite (R6 Henc) in R5.
  2: { unfold Home.event_args. by destruct (0 <? len (Home.edit_seckey s)). }
  split_and!; [rewrite R7|rewrite R8|rewrite R1|rewrite R2|by rewrite R5, app_nil_r];
    unfold Home.event_args; by destruct (0 <? len (Home.edit_seckey s)).
Qed.
End Generating.

(** ** Listing events *)

(** A message of bytes without floating-point numbers. *)
Definition calm `{Floats} (m : list Z) : Prop := Bytes m /\ forall j, parse m = Ok j -> no_float j = true.

Definition calm_event `{Floats} (e : net_event) : Prop := match e with Received m => calm m | _ => True end.

(** The JSON and the event of a message that is one. *)
Definition event_of_message `{Floats} (now : Z) (m : list Z) : option (json * event_t) :=
  match parse m with
  | Ok js =>
      match message_type js with
      | Ok type =>
          if decide (type = cs "EVENT") then
            match at_index js 2 ≫= get_event now with Ok ev => Some (js, ev) | _ => None end
          else None
      | _ => None
      end
  | _ => None
  end.

(** The cells of its row. *)
Definition row_of `{Floats} (now : Z) (raw : bool) (pubkey m : list Z) : option (list (list Z)) :=
  match event_of_message now m with
  | Some (js, ev) =>
      match dump (Some 1) js with Ok json => Some (if raw then [json] else [pubkey; content ev]) | _ => None end
  | None => None
  end.

(** A row of cells, and rows from a number on. *)
Fixpoint put_row (row column : Z) (cells : list (list Z)) (t : table) : table :=
  match cells with [] => t | c :: cells => put_row row (column + 1) cells (add_text row column c t) end.

Fixpoint put_rows (row : Z) (rows : list (list (list Z))) (t : table) : table :=
  match rows with [] => t | r :: rows => put_rows (row + 1) rows (put_row row 0 r t) end.

Lemma put_rows_app row r1 r2 t : put_rows row (r1 ++ r2) t = put_rows (row + len r1) r2 (put_rows row r1 t).
Proof.
  revert row t. induction r1 as [|r r1 IH]; intros row t; cbn [app put_rows].
  - by rewrite len_nil, Z.add_0_r.
  - rewrite IH, len_cons. f_equal. lia.
Qed.

(** The table shows the rows, a text in each cell. *)
Definition shows (t : table) (rows : list (list (list Z))) : Prop :=
  forall i j : nat, t !! (Z.of_nat i, Z.of_nat j) = (fun c => [c]) <$> (rows !! i ≫= fun cells => cells !! j).

Lemma put_row_other row column cells t r c : r <> row \/ c < column -> put_row row column cells t !! (r, c) = t !! (r, c).
Proof.
  revert column t. induction cells as [|x cells IH]; intros column t Hr; [done|]. cbn [put_row]. rewrite IH by lia.
  unfold add_text. apply lookup_insert_ne. intros E. injection E. lia.
Qed.

Lemma put_row_lookup row column cells t (j : nat) :
  (forall c, column <= c -> t !! (row, c) = None) ->
  put_row row column cells t !! (row, column + Z.of_nat j) = (fun c => [c]) <$> cells !! j.
Proof.
  revert column t j. induction cells as [|x cells IH]; intros column t j Ht; cbn [put_row]; [rewrite Ht by lia; by destruct j|].
  destruct j as [|j].
  - rewrite put_row_other by lia. unfold add_text. rewrite Z.add_0_r, lookup_insert_eq, Ht by lia. done.
  - replace (column + Z.of_nat (S j)) with (column + 1 + Z.of_nat j) by lia. rewrite IH; [done|].
    intros c Hc. unfold add_text. rewrite lookup_insert_ne by (intros E; injection E; lia). apply Ht. lia.
Qed.

Lemma put_rows_other row rows t r c : r < row -> put_rows row rows t !! (r, c) = t !! (r, c).
Proof.
  revert row t. induction rows as [|cells rows IH]; intros row t Hr; [done|]. cbn [put_rows].
  rewrite IH by lia. apply put_row_other. lia.
Qed.

Lemma put_rows_lookup row rows t (i j : nat) :
  (forall r c, row <= r -> t !! (r, c) = None) ->
  put_rows row rows t !! (row + Z.of_nat i, Z.of_nat j) = (fun c => [c]) <$> (rows !! i ≫= fun cells => cells !! j).
Proof.
  revert row t i. induction rows as [|cells rows IH]; intros row t i Ht; cbn [put_rows]; [rewrite Ht by lia; by destruct i|].
  destruct i as [|i].
  - rewrite put_rows_other, Z.add_0_r by lia. apply (put_row_lookup row 0). intros c _. apply Ht. lia.
  - replace (row + Z.of_nat (S i)) with (row + 1 + Z.of_nat i) by lia. rewrite IH; [done|].
    intros r c Hr. rewrite put_row_other by lia. apply Ht. lia.
Qed.

Lemma put_rows_shows rows : shows (put_rows 0 rows ∅) rows.
Proof. intros i j. by apply (put_rows_lookup 0). Qed.

Section Listing.
Context `{Floats} `{Disk} `{Network} `{Random} (now : Z) (Hnow : - 2 ^ 63 <= now < 2 ^ 63).

Lemma calm_typed m j : calm m -> parse m = Ok j -> plain_json j.
Proof using Type. intros [Hb Hn] Hp. split; [by eapply parse_typed_spec|by apply Hn]. Qed.

Lemma log_what_bind {A} e (d : A) w : exists w', (log_what e ≫= fun _ => mret d) w = (Returned (inr d), w').
Proof using Type. by eexists. Qed.

Lemma event_new_typed : event_typed (event_new now).
Proof using Hnow. split; cbn; try done; try lia; constructor. Qed.

Lemma get_event_defined js : plain_json js -> (at_index js 2 ≫= get_event now) <> Ub.
Proof using Type.
  intros [_ Hn]. unfold mbind, result_bind. destruct (at_index js 2) as [j| |] eqn:Ei; [|done|by destruct js; cbn in Ei; repeat case_match].
  unfold get_event. pose proof (event_from_json_defined j (at_index_no_float _ _ _ Hn Ei) (event_new now)) as Hd.
  destruct (event_from_json j (event_new now)) as [r ev]. by destruct r.
Qed.

Lemma event_read_typed js ev : plain_json js -> (at_index js 2 ≫= get_event now) = Ok ev -> event_typed ev.
Proof using Hnow.
  intros [Ht _] (j & Ei & E)%result_bind_inv. unfold get_event in E.
  pose proof (event_from_json_keeps j (at_index_typed _ _ _ Ht Ei) _ event_new_typed) as Hk.
  destruct (event_from_json j (event_new now)) as [[]]; [|done..]. by injection E as <-.
Qed.

(** The block that the loops over messages share. *)
Lemma try_event {A} (F : json -> event_t -> cpp A) (d : A) m w :
  calm m ->
  let body := try_catch
    (js ← of_result (parse m);
     type ← of_result (message_type js);
     if decide (type = cs "EVENT") then ev ← of_result (at_index js 2 ≫= get_event now); F js ev else mret d)
    (fun e => _ ← log_what e; mret d) in
  match event_of_message now m with
  | Some (js, ev) => plain_json js /\ event_typed ev /\
      forall a w', F js ev w = (Returned (inr a), w') -> body w = (Returned (inr a), w')
  | None => exists w', body w = (Returned (inr d), w')
  end.
Proof using Hnow.
  intros Hm. cbv zeta. unfold event_of_message, try_catch. pose proof (parse_outcome_spec m) as Ho. pose proof (calm_typed m) as Hc.
  destruct (parse m) as [js|e|]; [|apply log_what_bind|done]. specialize (Hc js Hm eq_refl). rewrite of_result_ok.
  assert (Hmt : message_type js <> Ub) by (destruct js as [|m0|l| | | | |]; try done; destruct l as [|[] l]; done).
  destruct (message_type js) as [t|e|]; [|apply log_what_bind|done]. rewrite of_result_ok.
  destruct (decide (t = cs "EVENT")); [|by eexists].
  pose proof (get_event_defined js Hc) as Hd. pose proof (event_read_typed js) as Hty.
  destruct (at_index js 2 ≫= get_event now) as [ev|x|]; [|apply log_what_bind|done].
  rewrite of_result_ok. split; [done|]. split; [by apply Hty|]. intros a w' E. by rewrite E.
Qed.

(** A computation that ends without an exception. *)
Definition ends {A} (m : cpp A) : Prop := forall w, exists a w', m w = (Returned (inr a), w').

Lemma list_event_spec raw keep pubkey m row t w :
  calm m -> (forall r x, utf8 x -> ends (keep r x)) ->
  exists w', list_event now raw keep pubkey m (row, t) w =
    (Returned (inr (match row_of now raw pubkey m with Some cells => (row + 1, put_row row 0 cells t) | None => (row, t) end)), w').
Proof using Hnow.
  intros Hm Hk. unfold list_event, row_of.
  pose proof (try_event (list_row raw keep pubkey row t) (row, t) m w Hm) as Ht. cbv zeta in Ht.
  destruct (event_of_message now m) as [[js ev]|]; [|exact Ht]. destruct Ht as ([Hty Hn] & Hev & Ht).
  destruct (dump_parse_spec (Some 1) js Hty Hn ltac:(done)) as (json & Ed & Hp). rewrite Ed.
  assert (Hj : forall v, parse json = Ok v -> typed v) by (intros v Hv; assert (v = canon js) as -> by congruence; by apply canon_typed).
  destruct (json_to_file_returns (cs "follow." ++ fmt_int (row + 1) ++ cs ".json") json w Hj) as (w1 & Ef & _).
  assert (Hr : exists w', list_row raw keep pubkey row t js ev w =
    (Returned (inr (row + 1, put_row row 0 (if raw then [json] else [pubkey; content ev]) t)), w')).
  { unfold list_row. rewrite Ed, of_result_ok, (cpp_returned _ _ _ _ _ Ef). destruct raw; [by eexists|].
    destruct (Hk row (content ev) (typed_content ev Hev) w1) as ([] & w2 & Ek). rewrite (cpp_returned _ _ _ _ _ Ek). by eexists. }
  destruct Hr as [w' Hr]. exists w'. exact (Ht _ _ Hr).
Qed.

Lemma list_events_spec raw keep pubkey events row t w :
  Forall calm events -> (forall r x, utf8 x -> ends (keep r x)) ->
  let rows := omap (row_of now raw pubkey) events in
  exists w', list_events now raw keep pubkey events (row, t) w = (Returned (inr (row + len rows, put_rows row rows t)), w').
Proof using Hnow.
  intros He Hk. revert row t w. induction He as [|m events Hm _ IH]; intros row t w; cbn [omap list_omap list_events].
  - exists w. by rewrite len_nil, Z.add_0_r.
  - destruct (list_event_spec raw keep pubkey m row t w Hm Hk) as [w1 E]. rewrite (cpp_returned _ _ _ _ _ E).
    destruct (row_of now raw pubkey m) as [cells|]; [|apply IH].
    destruct (IH (row + 1) (put_row row 0 cells t) w1) as [w2 E2]. exists w2. rewrite E2. cbn [put_rows]. rewrite len_cons.
    by replace (row + (len (omap (row_of now raw pubkey) events) + 1)) with (row + 1 + len (omap (row_of now raw pubkey) events)) by lia.
Qed.

(** The rows of the messages fetched for each key. *)
Definition rows_of (raw : bool) (keys : list (list Z)) (fetched : list (list (list Z))) : list (list (list Z)) :=
  concat (zip_with (fun key ms => omap (row_of now raw key) ms) keys fetched).

Lemma list_keys_spec raw keep fetch keys row t w :
  (forall r x, utf8 x -> ends (keep r x)) -> Forall (fun key => forall w, exists ms w', fetch key w = (Returned (inr ms), w') /\ Forall calm ms) keys ->
  exists fetched w', list_keys now raw keep fetch keys (row, t) w =
      (Returned (inr (row + len (rows_of raw keys fetched), put_rows row (rows_of raw keys fetched) t)), w') /\
    Forall2 (fun key ms => Forall calm ms /\ exists w1 w2, fetch key w1 = (Returned (inr ms), w2)) keys fetched.
Proof using Hnow.
  intros Hk Hf. revert row t w. induction Hf as [|key keys Hkey _ IH]; intros row t w; cbn [list_keys].
  - exists [], w. split; [|done]. unfold rows_of. cbn. by rewrite len_nil, Z.add_0_r.
  - destruct (Hkey w) as (ms & w1 & E1 & Hms). rewrite (cpp_returned _ _ _ _ _ E1).
    destruct (list_events_spec raw keep key ms row t w1 Hms Hk) as [w2 E2]. rewrite (cpp_returned _ _ _ _ _ E2).
    set (r1 := omap (row_of now raw key) ms) in *. destruct (IH (row + len r1) (put_rows row r1 t) w2) as (fetched & w3 & E3 & HF).
    exists (ms :: fetched), w3. rewrite E3. split; [|constructor; [split; [done|by exists w, w1]|done]].
    change (rows_of raw (key :: keys) (ms :: fetched)) with (r1 ++ rows_of raw keys fetched).
    rewrite put_rows_app, len_app, Z.add_assoc. done.
Qed.

(** *** What the client library fetches *)

(** Relays that answer with calm messages. *)
Definition calm_network : Prop := forall uri text, exists events, exchange uri text = Ok events /\ Forall calm_event events.

Lemma answers_spec {A} (f : list Z -> event_t -> A) messages w :
  Forall calm messages ->
  exists w', answers now f messages w =
    (Returned (inr (omap (fun m => (fun x => f m x.2) <$> event_of_message now m) messages)), w').
Proof using Hnow.
  intros Hm. revert w. induction Hm as [|m messages Hm _ IH]; intros w; cbn [answers omap list_omap]; [by eexists|].
  assert (Ha : exists w1, answer now m w = (Returned (inr (snd <$> event_of_message now m)), w1)).
  { unfold answer. pose proof (try_event (fun js ev => _ ← json_to_file (cs "follows_event.json") m; mret (Some ev)) None m w Hm) as Ht.
    cbv zeta in Ht. destruct (event_of_message now m) as [[js ev]|]; [|exact Ht]. destruct Ht as (_ & _ & Ht).
    destruct (json_to_file_returns (cs "follows_event.json") m w) as (w1 & E & _); [intros v Hv; by apply (calm_typed m v Hm)|].
    exists w1. apply Ht. by rewrite (cpp_returned _ _ _ _ _ E). }
  destruct Ha as [w1 Ea]. rewrite (cpp_returned _ _ _ _ _ Ea). destruct (IH w1) as [w2 E2]. rewrite (cpp_returned _ _ _ _ _ E2).
  exists w2. by destruct (event_of_message now m) as [[js ev]|].
Qed.

Lemma keep_messages_calm events store : Forall calm_event events -> Forall calm store -> Forall calm (keep_messages events store).
Proof using Type.
  intros He. revert store. induction He as [|e events He _ IH]; intros store Hs; [done|].
  destruct e; cbn [keep_messages]; apply IH; try done. apply Forall_app. by split; [|constructor].
Qed.

Lemma ask_returns uri file f w : calm_network -> filter_typed f ->
  exists messages w', ask uri file f w = (Returned (inr messages), w') /\ Forall calm messages.
Proof using Type.
  intros Hnet Hf. unfold ask. destruct (uuid_utf8 w) as (sub & w1 & E & Hsub). rewrite (cpp_returned _ _ _ _ _ E).
  destruct (make_request_reads sub f w1 Hsub Hf) as (t & j & Ej & Er & Hp). rewrite (cpp_returned _ _ _ _ _ Er).
  destruct (json_to_file_returns file t w1) as (w2 & Ef & _).
  { intros v Hv. assert (v = JArray [JString (cs "REQ"); JString sub; canon j]) as -> by congruence. constructor.
    repeat apply Forall_cons_2; try apply Forall_nil_2; [by constructor; apply ascii_utf8|by constructor|].
    apply canon_typed. eapply filter_to_json_plain; [exact Hf| |exact Ej]. by split; [constructor|]. }
  rewrite (cpp_returned _ _ _ _ _ Ef). destruct (Hnet uri t) as (events & Ee & He). unfold relay_to. rewrite Ee.
  exists (keep_messages events []), w2. split; [done|]. by apply keep_messages_calm.
Qed.

Lemma key_filter_typed key ks l : utf8 key -> Forall (fun k => - 2 ^ 31 <= k < 2 ^ 31) ks -> 0 <= l < 2 ^ 64 ->
  filter_typed (set_limit (set_kinds (set_authors (filter_new now) [key]) ks) l).
Proof using Hnow. intros Hk Hks Hl. split; cbn; try done; try lia; repeat first [apply Forall_nil_2|apply Forall_cons_2]; done. Qed.

(** The keys of the tags are texts of the event. *)
Lemma get_follows_returns uri pubkey w : calm_network -> utf8 pubkey ->
  exists keys w', get_follows now uri pubkey [] w = (Returned (inr (0, keys)), w') /\ Forall utf8 keys.
Proof using Hnow.
  intros Hnet Hp. unfold get_follows.
  destruct (ask_returns uri (cs "follows_request.json") (set_limit (set_kinds (set_authors (filter_new now) [pubkey]) [3]) 1) w Hnet)
    as (messages & w1 & E1 & Hm); [apply key_filter_typed; [done|by repeat constructor|lia]|].
  cbv zeta. rewrite (cpp_returned _ _ _ _ _ E1). destruct (answers_spec (fun _ ev => ev) messages w1 Hm) as [w2 E2].
  rewrite (cpp_returned _ _ _ _ _ E2). destruct (omap _ messages) as [|ev evs] eqn:Eo; [by exists [], w2|].
  exists (concat (map followed (tags ev))), w2. split; [done|].
  assert (Hev : event_typed ev).
  { assert (Hin : ev ∈ ev :: evs) by apply list_elem_of_here. rewrite <- Eo in Hin.
    apply list_elem_of_omap in Hin as (m & Hin & Em). rewrite Forall_forall in Hm. specialize (Hm m Hin).
    pose proof (try_event (fun _ _ => mret tt) tt m w Hm) as Ht. cbv zeta in Ht.
    destruct (event_of_message now m) as [[js e]|]; [|done]. cbn in Em. injection Em as ->. tauto. }
  apply Forall_concat, Forall_map. eapply Forall_impl; [apply (typed_tags ev Hev)|]. intros tag Ht. unfold followed.
  destruct Ht as [|x [|y tag] Hx Ht]; try constructor. inversion Ht; subst. destruct (decide (x = cs "p")); by repeat constructor.
Qed.

Lemma get_feed_returns uri pubkey w : calm_network -> utf8 pubkey ->
  exists events w', get_feed now uri pubkey [] w = (Returned (inr (0, events)), w') /\ Forall calm events /\
    Forall (fun m => is_Some (event_of_message now m)) events.
Proof using Hnow.
  intros Hnet Hp. unfold get_feed.
  destruct (ask_returns uri (cs "req_feed.json") (set_limit (set_kinds (set_authors (filter_new now) [pubkey]) [1]) 2) w Hnet)
    as (messages & w1 & E1 & Hm); [apply key_filter_typed; [done|by repeat constructor|lia]|].
  cbv zeta. rewrite (cpp_returned _ _ _ _ _ E1). destruct (answers_spec (fun m _ => m) messages w1 Hm) as [w2 E2].
  rewrite (cpp_returned _ _ _ _ _ E2). eexists _, w2. split; [done|]. cbn [app].
  assert (Hall : Forall (fun m => calm m /\ is_Some (event_of_message now m))
    (omap (fun m => (fun _ => m) <$> event_of_message now m) messages)).
  { clear E1 E2. induction Hm as [|m messages Hc _ IH]; [constructor|]. cbn [omap list_omap].
    destruct (event_of_message now m) as [x|] eqn:Ex; [|exact IH]. constructor; [by rewrite Ex|done]. }
  by apply Forall_and in Hall.
Qed.

Lemma get_metadata_returns uri pubkey w : calm_network -> utf8 pubkey ->
  exists events w', get_metadata now uri pubkey [] w = (Returned (inr (0, events)), w') /\ Forall calm events.
Proof using Hnow.
  intros Hnet Hp. unfold get_metadata.
  destruct (ask_returns uri (cs "req_metadata.json") (set_kinds (set_authors (filter_new now) [pubkey]) [0]) w Hnet)
    as (messages & w1 & E1 & Hm); [split; cbn; try done; try lia; repeat first [apply Forall_nil_2|apply Forall_cons_2]; done|].
  cbv zeta. rewrite (cpp_returned _ _ _ _ _ E1). by exists messages, w1.
Qed.

(** A page, from what its requests return. *)
Lemma list_page_spec raw keep fetch (P : list Z -> list (list Z) -> Prop) pubkey w :
  calm_network -> utf8 pubkey -> (forall r x, utf8 x -> ends (keep r x)) ->
  (forall key w, utf8 key -> exists ms w', fetch key w = (Returned (inr ms), w') /\ Forall calm ms /\ P key ms) ->
  exists keys fetched w', list_page now raw keep fetch pubkey w = (Returned (inr (put_rows 0 (rows_of raw keys fetched) ∅)), w') /\
    (exists w1, get_follows now default_relay pubkey [] w = (Returned (inr (0, keys)), w1)) /\ Forall2 P keys fetched.
Proof using Hnow.
  intros Hnet Hkey Hk Hf. destruct (get_follows_returns default_relay pubkey w Hnet Hkey) as (keys & w1 & E1 & Hkeys).
  unfold list_page. rewrite (cpp_returned _ _ _ _ _ E1).
  destruct (to_file_lines_returns (cs "pubkeys.txt") keys w1) as [w2 E2]. rewrite (cpp_returned _ _ _ _ _ E2).
  destruct (list_keys_spec raw keep fetch keys 0 ∅ w2 Hk) as (fetched & w3 & E3 & HF).
  { eapply Forall_impl; [exact Hkeys|]. intros key Hu w3. destruct (Hf key w3 Hu) as (ms & w4 & ? & ? & _). eauto. }
  exists keys, fetched, w3. rewrite (cpp_returned _ _ _ _ _ E3). split; [done|]. split; [by eexists|].
  clear - Hf Hkeys HF. revert Hkeys. induction HF as [|key ms keys fetched (_ & wa & wb & E) _ IH]; [constructor|].
  intros [Hu Hkeys]%Forall_cons. constructor; [|by apply IH].
  destruct (Hf key wa Hu) as (ms' & w4 & E' & _ & HP). by assert (ms' = ms) as -> by congruence.
Qed.

Lemma keep_content_ends row x : utf8 x -> ends (keep_content row x).
Proof using Type.
  intros Hx w. destruct (json_to_file_returns (cs "content." ++ fmt_int (row + 1) ++ cs ".json") x w) as (w' & E & _).
  { intros v Hv. by eapply parse_typed_spec; [apply utf8_Bytes|]. }
  by eexists _, _.
Qed.

(** Messages that are events all get rows. *)
Lemma rows_of_all raw keys fetched :
  Forall2 (fun _ ms => Forall (fun m => calm m /\ is_Some (event_of_message now m)) ms) keys fetched ->
  length (rows_of raw keys fetched) = length (concat fetched).
Proof using Hnow.
  induction 1 as [|key ms keys fetched Hm _ IH]; [done|].
  change (rows_of raw (key :: keys) (ms :: fetched)) with (omap (row_of now raw key) ms ++ rows_of raw keys fetched).
  cbn [concat]. rewrite !length_app, IH. f_equal. clear IH. induction Hm as [|m ms [Hc [[js ev] He]] _ IH]; [done|].
  cbn [omap list_omap]. unfold row_of at 1. rewrite He.
  pose proof (try_event (fun _ _ => mret tt) tt m (CC (World 0 [] []) ∅ [] 0) Hc) as Ht. cbv zeta in Ht. rewrite He in Ht.
  destruct Ht as ([Hty Hn] & _). destruct (dump_parse_spec (Some 1) js Hty Hn ltac:(done)) as (json & -> & _). cbn [length]. by rewrite IH.
Qed.
End Listing.

(** ** The messages of a connection *)

Section Receiving.
Context `{Floats} `{Disk} `{OS} `{Secp256k1} `{Network} `{Random} (now : Z) (Hnow : - 2 ^ 63 <= now < 2 ^ 63).

(** The text of a row. *)
Definition row_message (raw : bool) (m : list Z) : list Z :=
  match event_of_message now m with Some (_, ev) => if raw then m else content ev | None => m end.

(** The rows since the connection opened. *)
Fixpoint rows_received (raw : bool) (events : list net_event) (rows : list (list (list Z))) : list (list (list Z)) :=
  match events with
  | [] => rows
  | Opened _ :: events => rows_received raw events []
  | Received m :: events => rows_received raw events (rows ++ [[row_message raw m]])
  | _ :: events => rows_received raw events rows
  end.

Lemma received_text_spec raw m w : calm m -> exists w', Home.received_text now raw m w = (Returned (inr (row_message raw m)), w').
Proof using Hnow.
  intros Hm. unfold Home.received_text, row_message, event_of_message, try_catch. pose proof (parse_outcome_spec m) as Ho.
  pose proof (calm_typed m) as Hc.
  destruct (parse m) as [js|e|]; [|by eexists|done]. specialize (Hc js Hm eq_refl). rewrite of_result_ok.
  destruct (dump_parse_spec None js (proj1 Hc) (proj2 Hc) narrow_none) as (t & Ed & Hp). rewrite Ed, of_result_ok.
  destruct (json_to_file_returns (cs "on_message.json") t w) as (w1 & Ef & _).
  { intros v Hv. assert (v = canon js) as -> by congruence. apply canon_typed, Hc. }
  rewrite (cpp_returned _ _ _ _ _ Ef).
  assert (Hmt : message_type js <> Ub) by (destruct js as [|m0|l| | | | |]; try done; destruct l as [|[] l]; done).
  destruct (message_type js) as [ty|e|]; [|by eexists|done]. rewrite of_result_ok.
  destruct (decide (ty = cs "EVENT")); [|by eexists]. pose proof (get_event_defined now js Hc) as Hd.
  destruct (at_index js 2 ≫= get_event now) as [ev|x|]; [|by eexists|done]. rewrite of_result_ok. by eexists.
Qed.

Lemma handle_spec message events s rows store w :
  (forall v, parse message = Ok v -> typed v) -> Forall calm_event events ->
  Home.m_row s = len rows -> Home.table_messages s = put_rows 0 rows ∅ ->
  exists store' w', let rows' := rows_received (Home.check_raw s) events rows in
    Home.handle now message events s store w = (Returned (inr (Home.set_rows s (len rows') (put_rows 0 rows' ∅), store')), w').
Proof using Hnow.
  intros Hm He. cbv zeta. revert s rows store w. induction He as [|e events He _ IH]; intros s rows store w Hr Ht; cbn [Home.handle rows_received].
  { exists store, w. rewrite <- Hr, <- Ht. by destruct s. }
  destruct e as [http|str|status|what]; cbn [rows_received].
  - rewrite (cpp_returned (log _) _ _ _ _ eq_refl), (cpp_returned (log _) _ _ _ _ eq_refl).
    destruct (json_to_file_returns (cs "on_open_message.json") message (CC (process w) (files w)
      ((journal w ++ [Logged (cs "Opened connection: HTTP " ++ http)]) ++ [Logged (cs "Sending: " ++ message)]) (drawn w)) Hm) as (w1 & Ef & _).
    cbn [process files journal drawn]. rewrite (cpp_returned _ _ _ _ _ Ef).
    destruct (IH (Home.set_rows s 0 ∅) [] store w1 eq_refl eq_refl) as (st & w2 & E). exists st, w2. etransitivity; [exact E|]. by destruct s.
  - rewrite (cpp_returned (log _) _ _ _ _ eq_refl). destruct (received_text_spec (Home.check_raw s) str
      (CC (process w) (files w) (journal w ++ [Logged (cs "Received: " ++ str)]) (drawn w)) He) as [w1 Er].
    rewrite (cpp_returned _ _ _ _ _ Er).
    set (s1 := Home.set_rows s _ _).
    destruct (IH s1 (rows ++ [[row_message (Home.check_raw s) str]]) (store ++ [str]) w1) as (st & w2 & E).
    { unfold s1. destruct s; cbn in *. rewrite len_app, Hr. done. }
    { unfold s1. destruct s; cbn in *. rewrite put_rows_app, Ht. cbn [put_rows put_row]. by rewrite Hr, Z.add_0_l. }
    exists st, w2. etransitivity; [exact E|]. by destruct s.
  - rewrite (cpp_returned (log _) _ _ _ _ eq_refl). by apply IH.
  - rewrite (cpp_returned (log _) _ _ _ _ eq_refl). by apply IH.
Qed.

Lemma log_all_returns store w : exists w', log_all store w = (Returned (inr tt), w').
Proof using Type.
  revert w. induction store as [|m store IH]; intros w; [by eexists|]. cbn [log_all].
  rewrite (cpp_returned (log m) _ _ _ _ eq_refl). apply IH.
Qed.

Lemma send_message_spec s events rows w :
  (forall v, parse (Home.area_message s) = Ok v -> typed v) ->
  exchange (Home.edit_uri s) (Home.area_message s) = Ok events -> Forall calm_event events ->
  Home.m_row s = len rows -> Home.table_messages s = put_rows 0 rows ∅ ->
  exists w', let rows' := rows_received (Home.check_raw s) events rows in
    Home.send_message now s w = (Returned (inr (Home.set_rows s (len rows') (put_rows 0 rows' ∅))), w').
Proof using Hnow.
  intros Hm Hnet He Hr Ht. destruct (handle_spec (Home.area_message s) events s rows [] w Hm He Hr Ht) as (store & w1 & E).
  cbv zeta in *. unfold Home.send_message. rewrite Hnet, of_result_ok, (cpp_returned _ _ _ _ _ E), (cpp_returned (log _) _ _ _ _ eq_refl).
  match goal with |- context [(log_all ?st ≫= _) ?v] => destruct (log_all_returns st v) as [w2 E2] end.
  rewrite (cpp_returned _ _ _ _ _ E2). by exists w2.
Qed.
End Receiving.

(** ** Properties *)

(** C28: the feed shows the events that the client library fetched for each
    followed key, in order, a row for each and none for anything else: the
    message laid out, or the key and the content. *)
Theorem feed_lists `{Floats} `{Disk} `{Network} `{Random} (now : Z) (raw : bool) (pubkey : list Z) (w : cc)
    (Hnow : - 2 ^ 63 <= now < 2 ^ 63) (Hkey : utf8 pubkey) (Hnet : calm_network) :
  exists keys fetched t w', feed_page now raw pubkey w = (Returned (inr t), w') /\
    (exists w1, Client.get_follows now default_relay pubkey [] w = (Returned (inr (0, keys)), w1)) /\
    Forall2 (fun key ms => exists w1 w2, Client.get_feed now default_relay key [] w1 = (Returned (inr (0, ms)), w2)) keys fetched /\
    shows t (rows_of now raw keys fetched) /\ length (rows_of now raw keys fetched) = length (concat fetched).
Proof.
  destruct (list_page_spec now Hnow raw (fun _ _ => mret tt) (fetch_feed now)
    (fun key ms => Forall (fun m => calm m /\ is_Some (event_of_message now m)) ms /\
       exists w1 w2, Client.get_feed now default_relay key [] w1 = (Returned (inr (0, ms)), w2)) pubkey w Hnet Hkey)
    as (keys & fetched & w' & E & Hk & HF).
  - intros r x _ w1. by eexists _, _.
  - intros key w1 Hk. destruct (get_feed_returns now Hnow default_relay key w1 Hnet Hk) as (ms & w2 & E & Hc & Hs).
    exists ms, w2. unfold fetch_feed. rewrite (cpp_returned _ _ _ _ _ E). split; [done|]. split; [done|].
    split; [by apply Forall_and|by exists w1, w2].
  - exists keys, fetched, (put_rows 0 (rows_of now raw keys fetched) ∅), w'. split; [done|]. split; [done|].
    split; [eapply Forall2_impl; [exact HF|by intros ? ? []]|]. split; [apply put_rows_shows|].
    apply (rows_of_all now Hnow raw keys fetched). eapply Forall2_impl; [exact HF|by intros ? ? []].
Qed.

(** The page of the followed profiles shows their metadata in the same way; what
    is no event is passed over. *)
Theorem follows_lists `{Floats} `{Disk} `{Network} `{Random} (now : Z) (raw : bool) (pubkey : list Z) (w : cc)
    (Hnow : - 2 ^ 63 <= now < 2 ^ 63) (Hkey : utf8 pubkey) (Hnet : calm_network) :
  exists keys fetched t w', follows_page now raw pubkey w = (Returned (inr t), w') /\
    Forall2 (fun key ms => exists w1 w2, Client.get_metadata now default_relay key [] w1 = (Returned (inr (0, ms)), w2)) keys fetched /\
    shows t (rows_of now raw keys fetched).
Proof.
  destruct (list_page_spec now Hnow raw keep_content (fetch_metadata now)
    (fun key ms => exists w1 w2, Client.get_metadata now default_relay key [] w1 = (Returned (inr (0, ms)), w2)) pubkey w Hnet Hkey)
    as (keys & fetched & w' & E & Hk & HF).
  - intros r x Hx. by apply keep_content_ends.
  - intros key w1 Hk. destruct (get_metadata_returns now Hnow default_relay key w1 Hnet Hk) as (ms & w2 & E & Hc).
    exists ms, w2. unfold fetch_metadata. rewrite (cpp_returned _ _ _ _ _ E). split; [done|]. split; [done|]. by exists w1, w2.
  - exists keys, fetched, (put_rows 0 (rows_of now raw keys fetched) ∅), w'. split; [done|]. split; [done|]. apply put_rows_shows.
Qed.

(** While a page sends a message, its table has a row for each message
    received since the connection opened, in order: the message, or the content
    of its event when raw messages are not asked for. *)
Theorem home_lists_answers `{Floats} `{Disk} `{Network} (now : Z) (s : Home.page) (events : list net_event) (w : cc)
    (Hnow : - 2 ^ 63 <= now < 2 ^ 63) (Hmsg : Bytes (Home.area_message s))
    (Hnet : exchange (Home.edit_uri s) (Home.area_message s) = Ok events) (Hcalm : Forall calm_event events)
    (Hnew : Home.m_row s = 0 /\ Home.table_messages s = ∅) :
  exists t w', let rows := rows_received now (Home.check_raw s) events [] in
    Home.send_message now s w = (Returned (inr (Home.set_rows s (len rows) t)), w') /\ shows t rows.
Proof.
  destruct (send_message_spec now Hnow s events [] w) as (w' & E); [intros v; by apply parse_typed_spec|done|done|apply Hnew|apply Hnew|].
  cbv zeta in E. eexists _, w'. split; [exact E|apply put_rows_shows].
Qed.

(** C29: a generated request says what the page asks for: the relay's parser
    reads from the text of the message area the event id as the subscription,
    if one is given, and the filter of the selected kind: the contacts of the
    public key, or the notes of the author, if one is given.  The same text is
    saved. *)
Theorem home_request_round_trip `{Floats} `{Disk} `{OS} `{Secp256k1} `{Network} `{Random} (junk now : Z) (s : Home.page)
    (rid : list Z) (f0 : filter_t) (w w0 : cc)
    (Hnow : - 2 ^ 63 <= now < 2 ^ 63) (Hreq : Home.is_req s = true) (Hkind : 0 <= Home.combo_kind s <= 1)
    (Hid : utf8 (Home.edit_event_id s)) (Ha : utf8 (Home.edit_author s)) (Hp : utf8 (Home.edit_pubkey s)) :
  exists sub t w', Home.make_message junk now s w = (Returned (inr (Home.set_area_message s t)), w') /\
    files w' = (if writable (cs "send_message.json") then <[cs "send_message.json" := t]> (files w) else files w) /\
    (Home.edit_event_id s <> [] -> sub = Home.edit_event_id s) /\
    parse_request t rid f0 w0 = (Returned (inr (0, (sub, Filter_t (ids f0)
      (if Home.combo_kind s =? 1 then [Home.edit_pubkey s]
       else match Home.edit_author s with [] => authors f0 | author => [author] end)
      [if Home.combo_kind s =? 1 then 3 else 1] (e_ f0) (p_ f0) (since f0) (until f0)
      (if Home.combo_kind s =? 1 then 1 else 50)))), w0).
Proof.
  destruct (generate_request junk now s w Hnow Hreq Hid Ha Hp) as (sub & t' & j & w' & E & Hf & Hsub & Hs & Ej & Hp2 & _).
  pose proof (request_filter_typed now s Hnow Ha Hp) as Hft.
  exists sub, t', w'. split; [done|]. split; [done|]. split.
  { intros Hne. apply Hs. destruct (Home.edit_event_id s); [done|]. len_lia. }
  unfold parse_request, attempt.
  rewrite (subscribed_reads (cs "REQ") filter_from_json t' sub _ f0 _ rid Hp2 (filter_from_to _ f0 j Hft Ej)).
  do 4 f_equal. unfold received, Home.request_filter, or_old.
  assert (Home.combo_kind s = 0 \/ Home.combo_kind s = 1) as [-> | ->] by lia; cbn [Z.eqb Pos.eqb].
  - destruct (Home.edit_author s) as [|c l] eqn:El; [done|]. rewrite len_cons.
    destruct (Z.ltb_spec 0 (len l + 1)); [|len_lia]. done.
  - done.
Qed.

(** C17: a generated event is published: when a page in event mode generates a
    message, the message area holds an event with the content of the page, the
    time and the kind of a note, whose id and signature are right, and every
    relay that gets this text stores exactly that event and acknowledges its id. *)
Theorem home_event_published `{Floats} `{Disk} `{OS} `{Secp256k1Laws} `{Network} `{Random} (junk now : Z) (s s' : Home.page) (w w' : cc)
    (Htime : 0 <= time_now < 2 ^ 63) (Hw : entropy_ok (process w)) (Hev : Home.is_req s = false)
    (Hc : Bytes (Home.area_content s)) (Hcl : len (Home.area_content s) < 2 ^ 31) (Hs : Bytes (Home.edit_seckey s))
    (Hsl : len (Home.edit_seckey s) < 2 ^ 31) (Hsend : sendable (Client.c_str (Home.area_content s)))
    (Hmake : Home.make_message junk now s w = (Returned (inr s'), w')) :
  exists ev, s' = Home.set_area_message s (Home.area_message s') /\ valid_event ev /\
    Event.content ev = Client.c_str (Home.area_content s) /\ Event.kind ev = 1 /\ Event.created_at ev = time_now /\ Event.tags ev = [] /\
    forall now' connection database st wr, - 2 ^ 63 <= now' < 2 ^ 63 -> writable database_json = true -> represents wr database st ->
      exists reply wr', on_message now' connection (Home.area_message s') database wr =
          (Returned (inr (reply, memory st ++ [received_event ev])), wr') /\
        parse reply = Ok (JArray [JString (cs "EOSE"); JString (hex_text (Event.id ev))]).
Proof.
  rewrite make_message_shows, Hev in Hmake.
  destruct (Home.event_text junk s w) as [[[e|t]| | | | |] w1] eqn:Et; unfold mbind, cpp_bind in Hmake; rewrite Et in Hmake; try done.
  destruct (event_text_returns junk s w t w1) as (_ & ev & -> & Hv & H1' & H2' & H3' & H4' & H5'); try done; [split; lia|].
  assert (Hr : readable ev).
  { split; [apply Hv|done|lia|by rewrite H1'|by rewrite H5']. }
  pose proof (event_message_parses ev Hr) as Hp. pose proof (received_typed ev Hr) as Hty.
  destruct (show_message_reads s (event_message ev true) (JArray [JString (cs "EVENT"); event_object (received_event ev)]) w1) as (t' & w2 & E2 & Hp2 & _); [|done|].
  { apply array_plain. repeat apply Forall_cons_2; try apply Forall_nil_2; [by apply string_plain, ascii_utf8|by apply event_plain]. }
  rewrite E2 in Hmake. injection Hmake as <- <-. exists ev. destruct s; cbn [Home.set_area_message Home.area_message].
  split_and!; try done. intros now' connection database st wr Hn' Hd Hrep.
  destruct (event_text_published t' (received_event ev) now' connection database st wr Hp2 Hty Hn' Hd Hrep) as (reply & wr' & E & _ & Ha).
  by exists reply, wr'.
Qed.

(** A secret key that cannot be decoded leaves the buffer of the message
    unwritten, and the page reads it all the same: the check for a negative
    result does not see the exit codes of the library. *)
Theorem home_bad_key_undefined `{Floats} `{Disk} `{OS} `{Secp256k1} `{Network} `{Random} (junk now : Z) (s : Home.page)
    (w : cc) (p : world)
    (Hev : Home.is_req s = false) (Hkey : Home.edit_seckey s <> [])
    (Hinit : init_secp_context (process w) = (Returned 1, p))
    (Hbad : (hex_decode (Client.c_str (Home.edit_seckey s)) (uninit junk 32)).1 = 0) :
  (Home.make_message junk now s w).1 = Undefined.
Proof.
  rewrite make_message_shows, Hev.
  assert (Hsec : sec (set_flag (Home.event_args s) HAS_ENVELOPE) = Some (Client.c_str (Home.edit_seckey s))).
  { unfold Home.event_args. destruct (Z.ltb_spec 0 (len (Home.edit_seckey s))); [done|].
    destruct (Home.edit_seckey s); [done|len_lia]. }
  assert (Hm : exists p', Nostril.make_message junk 0 (Home.event_args s) event_zero (process w) = (Returned (8, None), p')).
  { unfold Nostril.make_message. rewrite (bind_returned _ _ _ _ _ Hinit). change (1 =? 0) with false. cbv iota zeta.
    unfold main_key. rewrite Hsec. unfold decode_key. cbn [secret].
    destruct (hex_decode _ _) as [ok h]. cbn [fst] in Hbad. subst ok. by eexists. }
  destruct Hm as [p' Hm]. unfold Home.event_text, run, mbind, cpp_bind. by rewrite Hm.
Qed.

(** *** Concrete pages *)

#[local] Existing Instance zero_floats.
#[local] Existing Instance all_writable.
#[local] Existing Instance test_os.
#[local] Existing Instance Toy.lib.
#[local] Existing Instance Toy.lib_laws.

(** An event that names one profile. *)
Definition note_event : event_t := Event_t (cs "0a") (cs "ab") 1700000000 1 [[cs "p"; cs "cd"]] (cs "hello") (cs "ff").
Definition note_text : list Z :=
  match dump None (JArray [JString (cs "EVENT"); JString (cs "sub"); event_object note_event]) with Ok t => t | _ => [] end.

(** Relays that answer everything with it and a text that is no JSON. *)
Definition note_network : Network := {| exchange := fun _ _ => Ok [Opened (cs "1.1"); Received note_text; Received (cs "x"); Closed 1000] |}.
#[local] Existing Instance note_network.

(** Numbers that are always the same. *)
Definition constant_random : Random.
Proof. refine {| dis := fun _ => 7; dis2 := fun _ => 9 |}; intros; lia. Defined.
#[local] Existing Instance constant_random.

Lemma note_calm : Forall calm_event [Opened (cs "1.1"); Received note_text; Received (cs "x"); Closed 1000].
Proof.
  repeat apply Forall_cons_2; [exact I|..|exact I|constructor]; cbn [calm_event]; (split; [by_compute|]); intros j Hj.
  - assert (E : exists j0, parse note_text = Ok j0 /\ no_float j0 = true) by (eexists; split; vm_compute; reflexivity).
    destruct E as (j0 & E & Hn). rewrite E in Hj. by injection Hj as <-.
  - revert Hj. vm_compute. discriminate.
Qed.

Lemma note_network_calm : calm_network.
Proof. intros uri text. eexists. split; [reflexivity|apply note_calm]. Qed.

Definition server : cc := CC (World 0 [Some (repeat 1 32); Some (repeat 2 32)] []) ∅ [] 0.

Lemma feed_lists_witness :
  exists keys fetched t w', feed_page 7 true (cs "ab") server = (Returned (inr t), w') /\
    (exists w1, Client.get_follows 7 default_relay (cs "ab") [] server = (Returned (inr (0, keys)), w1)) /\
    Forall2 (fun key ms => exists w1 w2, Client.get_feed 7 default_relay key [] w1 = (Returned (inr (0, ms)), w2)) keys fetched /\
    shows t (rows_of 7 true keys fetched) /\ length (rows_of 7 true keys fetched) = length (concat fetched).
Proof. apply (feed_lists 7 true (cs "ab") server); [lia|by apply ascii_utf8|exact note_network_calm]. Defined.

Lemma home_lists_answers_witness :
  exists t w', let rows := rows_received 7 true [Opened (cs "1.1"); Received note_text; Received (cs "x"); Closed 1000] [] in
    Home.send_message 7 Home.ContainerHome server = (Returned (inr (Home.set_rows Home.ContainerHome (len rows) t)), w') /\ shows t rows.
Proof.
  apply (home_lists_answers 7 Home.ContainerHome [Opened (cs "1.1"); Received note_text; Received (cs "x"); Closed 1000] server);
    [lia|constructor|reflexivity|exact note_calm|split; reflexivity].
Defined.

Lemma home_request_round_trip_witness :
  exists sub t w', Home.make_message 0 7 Home.ContainerHome server = (Returned (inr (Home.set_area_message Home.ContainerHome t)), w') /\
    files w' = <[cs "send_message.json" := t]> ∅ /\ (@nil Z <> [] -> sub = []) /\
    parse_request t [] (filter_new 5) server =
      (Returned (inr (0, (sub, Filter_t [] [] [1] [] [] 0 5 50))), server).
Proof.
  destruct (home_request_round_trip 0 7 Home.ContainerHome [] (filter_new 5) server server) as (sub & t & w' & E1 & E2 & E3 & E4);
    [lia|reflexivity|cbn; lia|constructor|constructor|by apply ascii_utf8|].
  exists sub, t, w'. split; [exact E1|]. split; [exact E2|]. split; [exact E3|]. exact E4.
Defined.

(** A page in event mode. *)
Definition event_page : Home.page :=
  Home.Page default_relay [] false (hex_text alice) [] (cs "hello") 0 [] [] [] true 0 ∅.

Lemma home_event_published_witness :
  exists s' ev, s' = Home.set_area_message event_page (Home.area_message s') /\ valid_event ev /\
    Event.content ev = Client.c_str (cs "hello") /\ Event.kind ev = 1 /\ Event.created_at ev = time_now /\ Event.tags ev = [] /\
    forall now' connection database st wr, - 2 ^ 63 <= now' < 2 ^ 63 -> writable database_json = true -> represents wr database st ->
      exists reply wr', on_message now' connection (Home.area_message s') database wr =
          (Returned (inr (reply, memory st ++ [received_event ev])), wr') /\
        parse reply = Ok (JArray [JString (cs "EOSE"); JString (hex_text (Event.id ev))]).
Proof.
  assert (Hm : exists s' w', Home.make_message 0 7 event_page server = (Returned (inr s'), w')) by (eexists _, _; vm_compute; reflexivity).
  destruct Hm as (s' & w' & Hm). exists s'.
  apply (home_event_published 0 7 event_page s' server w');
    [by_compute| |reflexivity|by_compute|vm_compute; reflexivity|by_compute|vm_compute; reflexivity| |exact Hm].
  - repeat apply Forall_cons_2; [cbn [from_option]; by_compute..|constructor].
  - split; [by apply ascii_utf8|reflexivity].
Defined.

Lemma home_bad_key_undefined_witness :
  (Home.make_message 0 7 (Home.Page default_relay [] false (cs "xyz") [] (cs "hello") 0 [] [] [] true 0 ∅) server).1 = Undefined.
Proof.
  apply (home_bad_key_undefined 0 7 (Home.Page default_relay [] false (cs "xyz") [] (cs "hello") 0 [] [] [] true 0 ∅) server
    (World 0 [Some (repeat 2 32)] [])); [reflexivity|discriminate|reflexivity|reflexivity].
Defined.
