(* ===== verification/WebApp.v ===== *)
(** * The web client as a whole: [web/web.cc] over its pages

    The application keeps the global [pubkey] and the container in its layout;
    what the user does is an [action], and [act] runs the handler that the
    widget on the page is connected to.  An action whose widget is not on the
    page does nothing.  Every action has a time of its own.

    The reference is [view], what the user sees: the form of the home page, its
    message and the rows of a table, with the relation [does] of what an action
    may change.  From its start, through any actions of a user, the application
    follows it, up to a message that is generated in event mode and that the
    library does not write; the page reads the buffer all the same, and what
    follows is undefined. *)
From stdpp Require Import gmap.
From S2P Require Import Prelude Hex Event Run Process Args Keys Dm Gnostr Nostril.
From S2P Require Import Json JsonParse JsonSpec JsonGrammar JsonRound Comm Client Relay Interop Web.

(** ** The application *)

Record app := App { global_pubkey : list Z; layout_item : option container }.

(** [NostroApplication]: the menu and the first page. *)
Definition NostroApplication : app := App (Home.pubkey_ Home.ContainerHome) (Some (Home_ Home.ContainerHome)).

Inductive action :=
| Select (index : Z)                      (* an item of the menu *)
| Type_pubkey (text : list Z)
| Choose_kind (index : Z)
| Fill (uri seckey content event_id author message : list Z) (req : bool)   (* the widgets without a handler *)
| Check_raw (raw : bool)
| Generate
| Send
| Get_feed
| Click_text (text : list Z).             (* a text of a table *)

Section Application.
Context `{Floats} `{Disk} `{OS} `{Secp256k1} `{Network} `{Random} `{Wt} (junk : Z).

(** A handler of [ContainerHome] can set the global key. *)
Definition at_home (p : Home.page) : app := App (Home.pubkey_ p) (Some (Home_ p)).

Definition fill (uri seckey content event_id author message : list Z) (req : bool) (p : Home.page) : Home.page :=
  Home.Page uri (Home.pubkey_ p) req seckey (Home.edit_pubkey p) content (Home.combo_kind p) event_id author message
    (Home.check_raw p) (Home.m_row p) (Home.table_messages p).
Definition type_pubkey (text : list Z) (p : Home.page) : Home.page :=
  Home.pubkey_changed (Home.Page (Home.edit_uri p) (Home.pubkey_ p) (Home.is_req p) (Home.edit_seckey p) text (Home.area_content p)
    (Home.combo_kind p) (Home.edit_event_id p) (Home.edit_author p) (Home.area_message p) (Home.check_raw p) (Home.m_row p)
    (Home.table_messages p)).
Definition choose_kind (index : Z) (p : Home.page) : Home.page :=
  Home.kind_changed (Home.Page (Home.edit_uri p) (Home.pubkey_ p) (Home.is_req p) (Home.edit_seckey p) (Home.edit_pubkey p)
    (Home.area_content p) index (Home.edit_event_id p) (Home.edit_author p) (Home.area_message p) (Home.check_raw p) (Home.m_row p)
    (Home.table_messages p)).
Definition check_home (raw : bool) (p : Home.page) : Home.page :=
  Home.Page (Home.edit_uri p) (Home.pubkey_ p) (Home.is_req p) (Home.edit_seckey p) (Home.edit_pubkey p) (Home.area_content p)
    (Home.combo_kind p) (Home.edit_event_id p) (Home.edit_author p) (Home.area_message p) raw (Home.m_row p) (Home.table_messages p).

(** The box for raw messages has a handler on the page of the followed profiles
    only. *)
Definition check_raw_box (now : Z) (raw : bool) (a : app) : cpp app :=
  match layout_item a with
  | Some (Home_ p) => mret (at_home (check_home raw p))
  | Some (Feed _ t) => mret (App (global_pubkey a) (Some (Feed raw t)))
  | Some (Follows _ _) => t ← follows_page now raw (global_pubkey a); mret (App (global_pubkey a) (Some (Follows raw t)))
  | None => mret a
  end.

Definition act (now : Z) (x : action) (a : app) : cpp app :=
  match x, layout_item a with
  | Select index, _ => '(c, k) ← selected now index (global_pubkey a); mret (App k c)
  | Type_pubkey text, Some (Home_ p) => mret (at_home (type_pubkey text p))
  | Choose_kind index, Some (Home_ p) => mret (at_home (choose_kind index p))
  | Fill uri seckey content event_id author message req, Some (Home_ p) =>
      mret (at_home (fill uri seckey content event_id author message req p))
  | Check_raw raw, _ => check_raw_box now raw a
  | Generate, Some (Home_ p) => p ← Home.make_message junk now p; mret (at_home p)
  | Send, Some (Home_ p) => p ← Home.send_message now p; mret (at_home p)
  | Get_feed, Some (Feed raw _) => t ← feed_page now raw (global_pubkey a); mret (App (global_pubkey a) (Some (Feed raw t)))
  | Click_text text, Some _ => _ ← click text; mret a
  | _, _ => mret a
  end.

Fixpoint run_app (xs : list (Z * action)) (a : app) : cpp app :=
  match xs with [] => mret a | (now, x) :: xs => a ← act now x a; run_app xs a end.
End Application.

(** ** The reference *)

(** The widgets of the home page. *)
Record form := Form {
  relay_box : list Z; asks : bool; secret_box : list Z; key_box : list Z; content_box : list Z; kind_item : Z;
  id_box : list Z; author_box : list Z; raw_box : bool
}.

(** The message of the home page and the rows of a table, each a list of cells. *)
Inductive screen :=
| On_home (f : form) (message : list Z) (rows : list (list (list Z)))
| On_feed (raw : bool) (rows : list (list (list Z)))
| On_follows (raw : bool) (rows : list (list (list Z)))
| Nowhere.

Record view := View { on : screen; profile : list Z }.

Definition first_view : view :=
  View (On_home (Form default_relay true [] Home.def_pubkey [] 0 [] [] true) [] []) Home.def_pubkey.

Definition typed_key (text : list Z) (f : form) : form :=
  Form (relay_box f) (asks f) (secret_box f) text (content_box f) (kind_item f) (id_box f) (author_box f) (raw_box f).
(** The second kind, contacts, is asked of the key of the page. *)
Definition chosen_kind (index : Z) (f : form) : form :=
  Form (relay_box f) (asks f) (secret_box f) (key_box f) (content_box f) index (id_box f)
    (if index =? 1 then key_box f else author_box f) (raw_box f).
Definition filled (uri seckey content event_id author : list Z) (req : bool) (f : form) : form :=
  Form uri req seckey (key_box f) content (kind_item f) event_id author (raw_box f).
Definition checked (raw : bool) (f : form) : form :=
  Form (relay_box f) (asks f) (secret_box f) (key_box f) (content_box f) (kind_item f) (id_box f) (author_box f) raw.

(** The filter of a request: 50 notes, of an author if one is given; the contacts
    of the key; or profiles. *)
Definition asked (now : Z) (f : form) : filter_t :=
  match kind_item f with
  | 0 => Filter_t [] (match author_box f with [] => [] | author => [author] end) [1] [] [] 0 now 50
  | 1 => Filter_t [] [key_box f] [3] [] [] 0 now 1
  | _ => Filter_t [] [] [0] [] [] 0 now 1
  end.

(** An action that has no widget on the screen, or one that changes nothing. *)
Definition idle (x : action) (s : screen) : bool :=
  match x, s with
  | Select _, _ | Check_raw _, (On_home _ _ _ | On_feed _ _ | On_follows _ _) | Get_feed, On_feed _ _ => false
  | (Type_pubkey _ | Choose_kind _ | Fill _ _ _ _ _ _ _ | Generate | Send), On_home _ _ _ => false
  | _, _ => true
  end.

Section Reference.
Context `{Floats} `{Disk} `{OS} `{Secp256k1} `{Network} `{Random} (now : Z).

(** The rows of a list: those of the messages fetched for each followed key. *)
Definition listed (fetch : list Z -> cpp (list (list Z))) (raw : bool) (key : list Z) (rows : list (list (list Z))) : Prop :=
  exists keys fetched w w', Client.get_follows now default_relay key [] w = (Returned (inr (0, keys)), w') /\
    Forall2 (fun key ms => exists w1 w2, fetch key w1 = (Returned (inr ms), w2)) keys fetched /\ rows = rows_of now raw keys fetched.

Inductive does : action -> view -> view -> Prop :=
| does_home v : does (Select 0) v first_view
| does_feed v : does (Select 1) v (View (On_feed true []) (profile v))
| does_follows v rows :
    listed (fetch_metadata now) true (profile v) rows -> does (Select 2) v (View (On_follows true rows) (profile v))
| does_other index v : index <> 0 -> index <> 1 -> index <> 2 -> does (Select index) v (View Nowhere (profile v))
| does_type text f m rows k : does (Type_pubkey text) (View (On_home f m rows) k) (View (On_home (typed_key text f) m rows) text)
| does_choose index f m rows k : does (Choose_kind index) (View (On_home f m rows) k) (View (On_home (chosen_kind index f) m rows) k)
| does_fill uri seckey content event_id author message req f m rows k :
    does (Fill uri seckey content event_id author message req) (View (On_home f m rows) k)
      (View (On_home (filled uri seckey content event_id author req f) message rows) k)
| does_check raw f m rows k : does (Check_raw raw) (View (On_home f m rows) k) (View (On_home (checked raw f) m rows) k)
| does_check_feed raw raw' rows k : does (Check_raw raw) (View (On_feed raw' rows) k) (View (On_feed raw rows) k)
| does_check_follows raw raw' rows rows' k :
    listed (fetch_metadata now) raw k rows' -> does (Check_raw raw) (View (On_follows raw' rows) k) (View (On_follows raw rows') k)
| does_request f m rows k t sub j :      (* the message is the request *)
    asks f = true -> filter_to_json JNull (asked now f) false = Ok j -> (id_box f <> [] -> sub = id_box f) ->
    parse t = Ok (canon (JArray [JString (cs "REQ"); JString sub; j])) ->
    does Generate (View (On_home f m rows) k) (View (On_home f t rows) k)
| does_event f m rows k t ev :           (* the message is a signed note *)
    asks f = false -> valid_event ev -> Event.content ev = Client.c_str (content_box f) -> Event.kind ev = 1 ->
    Event.created_at ev = time_now -> Event.tags ev = [] ->
    parse t = Ok (canon (JArray [JString (cs "EVENT"); event_object (received_event ev)])) ->
    does Generate (View (On_home f m rows) k) (View (On_home f t rows) k)
| does_send f m rows k events :
    exchange (relay_box f) m = Ok events ->
    does Send (View (On_home f m rows) k) (View (On_home f m (rows_received now (raw_box f) events rows)) k)
| does_get raw rows rows' k :
    listed (fetch_feed now) raw k rows' -> does Get_feed (View (On_feed raw rows) k) (View (On_feed raw rows') k)
| does_nothing x v : idle x (on v) = true -> does x v v.
End Reference.

Inductive behaves `{Floats} `{Disk} `{OS} `{Secp256k1} `{Network} `{Random} : list (Z * action) -> view -> view -> Prop :=
| behaves_nil v : behaves [] v v
| behaves_cons now x xs v1 v2 v3 : does now x v1 v2 -> behaves xs v2 v3 -> behaves ((now, x) :: xs) v1 v3.

(** The application shows a view; the tables are those of the pages. *)
Definition form_of (p : Home.page) : form :=
  Form (Home.edit_uri p) (Home.is_req p) (Home.edit_seckey p) (Home.edit_pubkey p) (Home.area_content p) (Home.combo_kind p)
    (Home.edit_event_id p) (Home.edit_author p) (Home.check_raw p).

Definition displays (a : app) (v : view) : Prop :=
  global_pubkey a = profile v /\
  match layout_item a, on v with
  | Some (Home_ p), On_home f m rows =>
      f = form_of p /\ Home.pubkey_ p = profile v /\ Home.area_message p = m /\ Home.m_row p = len rows /\
      Home.table_messages p = put_rows 0 rows ∅
  | Some (Feed raw t), On_feed raw' rows | Some (Follows raw t), On_follows raw' rows => raw = raw' /\ t = put_rows 0 rows ∅
  | None, Nowhere => True
  | _, _ => False
  end.

Definition table_of (a : app) : table :=
  match layout_item a with
  | Some (Home_ p) => Home.table_messages p
  | Some (Feed _ t) | Some (Follows _ t) => t
  | None => ∅
  end.

Definition rows_on (v : view) : list (list (list Z)) :=
  match on v with On_home _ _ rows | On_feed _ rows | On_follows _ rows => rows | Nowhere => [] end.

Lemma displays_shows a v : displays a v -> shows (table_of a) (rows_on v).
Proof.
  destruct a as [k [[p|raw t|raw t]|]], v as [[f m rows|raw' rows|raw' rows|] k']; intros [_ Hd]; cbn in Hd; try done.
  - destruct Hd as (_ & _ & _ & _ & Ht). unfold table_of. cbn [layout_item]. rewrite Ht. apply put_rows_shows.
  - destruct Hd as [_ ->]. apply put_rows_shows.
  - destruct Hd as [_ ->]. apply put_rows_shows.
Qed.

(** ** What the user does, and what stays true *)

(** Texts from a browser are UTF-8; the content of an event holds no raw control
    characters, and a text that is clicked no floating-point number. *)
Definition action_ok `{Floats} `{Wt} (x : action) : Prop :=
  match x with
  | Type_pubkey text => utf8 text
  | Fill _ seckey content event_id author message _ =>
      (Bytes seckey /\ len seckey < 2 ^ 31) /\ (utf8 content /\ len content < 2 ^ 31 /\ sendable (Client.c_str content)) /\
      utf8 event_id /\ utf8 author /\ utf8 message
  | Click_text text => calm (wtext text)
  | _ => True
  end.

Definition time_ok (now : Z) : Prop := - 2 ^ 63 <= now < 2 ^ 63.

Record form_ok (f : form) : Prop := Form_ok {
  form_secret : Bytes (secret_box f) /\ len (secret_box f) < 2 ^ 31;
  form_content : utf8 (content_box f) /\ len (content_box f) < 2 ^ 31 /\ sendable (Client.c_str (content_box f));
  form_texts : utf8 (id_box f) /\ utf8 (author_box f) /\ utf8 (key_box f)
}.

Definition view_ok `{Floats} (v : view) : Prop :=
  utf8 (profile v) /\
  match on v with On_home f m _ => form_ok f /\ (forall j, parse m = Ok j -> typed j) | _ => True end.

(** *** The state of the C library *)

(** A computation that leaves the state of the C library alone. *)
Definition steady {A} (m : cpp A) : Prop := forall w, process (m w).2 = process w.

Lemma steady_bind {A B} (m : cpp A) (f : A -> cpp B) : steady m -> (forall a, steady (f a)) -> steady (m ≫= f).
Proof.
  intros Hm Hf w. specialize (Hm w). unfold mbind, cpp_bind. destruct (m w) as [[[e|a]| | | | |] w1]; cbn [snd] in *; try done.
  by rewrite Hf.
Qed.

Lemma steady_try {A} (m : cpp A) h : steady m -> (forall e, steady (h e)) -> steady (try_catch m h).
Proof.
  intros Hm Hh w. specialize (Hm w). unfold try_catch. destruct (m w) as [[[e|a]| | | | |] w1]; cbn [snd] in *; try done.
  by rewrite Hh.
Qed.

Lemma steady_ret {A} (a : A) : steady (mret a).
Proof. done. Qed.
Lemma steady_result {A} (r : result A) : steady (of_result r).
Proof. intros w. by destruct r. Qed.
Lemma steady_note e : steady (note e).
Proof. done. Qed.
Lemma steady_write `{Disk} name buf : steady (write_file name buf).
Proof. intros w. unfold write_file. cbn. by destruct (writable name). Qed.
Lemma steady_uuid `{Random} : steady generate_uuid_v4.
Proof. done. Qed.

Create HintDb steady.
#[local] Hint Resolve steady_ret steady_result steady_note steady_write steady_uuid : steady.

(** Through the binds, the [try] blocks and the cases of a handler. *)
Local Ltac steady :=
  cbv zeta;
  repeat first
    [ progress auto with steady
    | apply steady_bind; [|intros]
    | apply steady_try; [|intros]
    | progress (unfold log, log_what)
    | match goal with |- steady (match ?x with _ => _ end) => destruct x end
    | match goal with |- steady (if ?x then _ else _) => destruct x end ].

Section Steady.
Context `{Floats} `{Disk} `{Network} `{Random} (now : Z).

Lemma steady_file name buf : steady (json_to_file name buf).
Proof using Type. unfold json_to_file. steady. Qed.
#[local] Hint Resolve steady_file : steady.

Lemma steady_log_all store : steady (log_all store).
Proof using Type. induction store; cbn [log_all]; steady. Qed.

Lemma steady_lines name vec : steady (to_file_lines name vec).
Proof using Type. unfold to_file_lines. apply steady_bind; [steady|intros _]. induction vec; cbn [print_lines]; steady. Qed.

Lemma steady_request sub f : steady (make_request sub f).
Proof using Type. unfold make_request. steady. Qed.
#[local] Hint Resolve steady_log_all steady_lines steady_request : steady.

Lemma steady_answers {A} (f : list Z -> event_t -> A) messages : steady (answers now f messages).
Proof using Type. induction messages; cbn [answers]; [steady|]. unfold answer. steady. Qed.

Lemma steady_ask uri file f : steady (ask uri file f).
Proof using Type. unfold ask, relay_to. steady. Qed.
#[local] Hint Resolve steady_answers steady_ask : steady.

Lemma steady_follows uri key keys : steady (Client.get_follows now uri key keys).
Proof using Type. unfold Client.get_follows. steady. Qed.
#[local] Hint Resolve steady_follows : steady.

Lemma steady_list_page raw keep fetch key :
  (forall r x, steady (keep r x)) -> (forall k, steady (fetch k)) -> steady (list_page now raw keep fetch key).
Proof using Type.
  intros Hk Hf. unfold list_page.
  assert (He : forall k ms rt, steady (list_events now raw keep k ms rt)).
  { intros k ms. induction ms; intros rt; cbn [list_events]; [steady|]. unfold list_event, list_row. steady. }
  assert (Hl : forall keys rt, steady (list_keys now raw keep fetch keys rt)).
  { intros keys. induction keys; intros rt; cbn [list_keys]; steady. }
  steady.
Qed.

Lemma steady_feed raw key : steady (feed_page now raw key).
Proof using Type. apply steady_list_page; [steady|]. intros k. unfold fetch_feed, Client.get_feed. steady. Qed.

Lemma steady_follows_page raw key : steady (follows_page now raw key).
Proof using Type. apply steady_list_page; [unfold keep_content; steady|]. intros k. unfold fetch_metadata, Client.get_metadata. steady. Qed.

Lemma steady_send p : steady (Home.send_message now p).
Proof using Type.
  unfold Home.send_message.
  assert (Hh : forall m events s store, steady (Home.handle now m events s store)).
  { intros m events. induction events as [|[] events IH]; intros s store; cbn [Home.handle]; [steady|..]; unfold Home.received_text; steady. }
  steady.
Qed.

Lemma steady_show p t : steady (show_message p t).
Proof using Type. unfold show_message. steady. Qed.

Lemma steady_request_text p : steady (Home.request_text now p).
Proof using Type. unfold Home.request_text. steady. Qed.

Lemma steady_row_text t : steady (row_text t).
Proof using Type. unfold row_text. steady. Qed.
End Steady.

(** *** The event of the home page *)

Section Event.
Context `{Floats} `{Disk} `{OS} `{Secp256k1Laws} `{Network} `{Random} (junk : Z) (Htime : 0 <= time_now < 2 ^ 63).

(** The library writes no text for a page: it returns an exit code, or the text of
    the content overflows an array of 1024 characters. *)
Definition unwritten (p : Home.page) (w : cc) : Prop :=
  let r := Nostril.make_message junk 0 (Home.event_args p) event_zero (process w) in
  (exists code p', r = (Returned (code, None), p')) \/
  r.1 = Undefined /\ 1011 < len (json_string (Client.c_str (Home.area_content p))).

Lemma init_returns w : exists ok w', init_secp_context w = (Returned ok, w').
Proof using Type.
  unfold init_secp_context. destruct (fill_random_total 32 w) as (r & w1 & E). rewrite (bind_returned _ _ _ _ _ E).
  destruct r; by eexists _, _.
Qed.

(** Without a difficulty, a key comes or does not. *)
Lemma main_key_ends fuel a w : has a HAS_DIFFICULTY = false -> exists code k w', main_key junk print_hex fuel a w = (Returned (code, k), w').
Proof using Type.
  intros Ha. unfold main_key. destruct (sec a) as [s|].
  - unfold decode_key. cbn [secret]. destruct (hex_decode s _) as [okh h]. destruct (okh =? 0); [by eexists _, _, _|].
    rewrite ret_bind. destruct (create_key _) as [ok k]. by eexists _, _, _.
  - rewrite Ha. cbn [andb]. unfold generate_key. destruct (fill_random_total 32 w) as (r & w1 & E).
    rewrite bind_assoc, (bind_returned _ _ _ _ _ E). destruct r as [r|]; [|by eexists _, _, _].
    rewrite ret_bind. destruct (create_key _) as [ok k]. destruct (ok =? 0); by eexists _, _, _.
Qed.

Lemma sign_ends k ev w : key_ok k -> entropy_ok w -> exists ok ev' w', sign_event k ev w = (Returned (ok, ev'), w') /\ entropy_ok w'.
Proof using Type.
  intros (kp & Hp & _) Hw. unfold sign_event, make_sig. rewrite bind_assoc. destruct (fill_random_total 32 w) as (r & w1 & E).
  rewrite (bind_returned _ _ _ _ _ E). apply fill_random_entropy in E as [Hw1 _]; [|done].
  destruct r as [r|]; [|by eexists _, _, _]. rewrite Hp.
  unfold mbind, prog_bind, lift. destruct (schnorrsig_sign32 _ _ _); by eexists _, _, _.
Qed.

(** An event is signed or an exit code comes, without encryption or difficulty. *)
Lemma main_signed_ends fuel a k ev w :
  has a HAS_ENCRYPT = false -> has a HAS_DIFFICULTY = false -> event_ok ev -> key_ok k -> entropy_ok w ->
  exists r w', main_signed junk print_shared fuel a k ev w = (Returned r, w') /\ entropy_ok w'.
Proof using Type*.
  intros Henc Hd Hev Hk Hw. unfold main_signed. rewrite Henc, ret_bind. change (1 =? 0) with false. cbv iota zeta.
  pose proof (set_pubkey_ok ev _ Hev (key_ok_bytes k Hk)) as Hev2. set (ev2 := Gnostr.set_pubkey ev _) in *.
  assert (Hid : exists code ev3 w1, main_id fuel a ev2 w = (Returned (code, ev3), w1)).
  { unfold main_id. rewrite Hd. cbn [andb]. cbv zeta. set (buf := repeat 0 (Z.to_nat 102400)).
    destruct (generate_event_id_spec ev2 buf Hev2) as (buf' & -> & _); [by unfold buf; rewrite len_repeat|].
    destruct (_ <? _); rewrite lift_bind; by eexists _, _, _. }
  destruct Hid as (code & ev3 & w1 & E). rewrite (bind_returned _ _ _ _ _ E).
  apply main_id_keeps in E as [[Hw1 _] _]; [|done|done]. destruct (negb _); [by eexists _, _|].
  destruct (sign_ends k ev3 w1 Hk Hw1) as (ok & ev4 & w2 & E2 & Hw2). rewrite (bind_returned _ _ _ _ _ E2).
  destruct (ok =? 0); by eexists _, _.
Qed.

(** The event of a page has no tags and the content of the page. *)
Lemma page_event_fields p k ev1 ev l : let a := set_flag (Home.event_args p) HAS_ENVELOPE in
  signed a k (Gnostr.make_event a event_zero) ev1 ev l -> Event.tags ev = [] /\ explicit_tags ev = None /\ Event.content ev = Client.c_str (Home.area_content p).
Proof using Type.
  intros a Hs.
  assert (Ha : has a HAS_ENCRYPT = false /\ has a HAS_DIFFICULTY = false /\ Event.tags (Gnostr.make_event a event_zero) = [] /\
    explicit_tags (Gnostr.make_event a event_zero) = None /\ Event.content (Gnostr.make_event a event_zero) = Client.c_str (Home.area_content p)).
  { unfold a, Home.event_args. by destruct (0 <? len (Home.edit_seckey p)). }
  destruct Ha as (Henc & Hd & Ht & Hx & Hc).
  destruct (requested_intro a event_zero ev ev1 k l Ht Hs) as [_ Rx Rp _ (l' & Rt & Rl) _].
  destruct (Rp Henc) as [Rc _]. rewrite (Rl Henc) in Rt by by rewrite Hd. split; [done|]. split; congruence.
Qed.

(** What the library comes to on a page. *)
Lemma library_ends p w :
  form_ok (form_of p) -> entropy_ok w ->
  let r := Nostril.make_message junk 0 (Home.event_args p) event_zero w in
  (exists code json w', r = (Returned (code, json), w') /\ entropy_ok w') \/
  r.1 = Undefined /\ 1011 < len (json_string (Client.c_str (Home.area_content p))).
Proof using Type*.
  intros [[Hs Hsl] (Hc & Hcl & _) _] Hw. cbn in Hs, Hsl, Hc, Hcl. cbv zeta.
  destruct (event_args_ok p (utf8_Bytes _ Hc) Hcl Hs Hsl) as [Ha Henc].
  assert (Hd : has (set_flag (Home.event_args p) HAS_ENVELOPE) HAS_DIFFICULTY = false).
  { unfold Home.event_args. by destruct (0 <? len (Home.edit_seckey p)). }
  unfold Nostril.make_message. destruct (init_returns w) as (ok & w1 & E1). rewrite (bind_returned _ _ _ _ _ E1).
  apply init_keeps in E1 as [Hw1 _]; [|done]. destruct (ok =? 0); [left; by eexists _, _, _|]. cbv zeta.
  pose proof (page_event_fields p) as Hf. cbv zeta in Hf. apply (set_flag_ok _ HAS_ENVELOPE) in Ha; [|done]. set (a := set_flag _ HAS_ENVELOPE) in *.
  destruct (make_event_ok a event_zero Ha event_zero_new) as [Hev _]; [split; lia|].
  destruct (main_key_ends 0 a w1 Hd) as (code & k & w2 & E2). rewrite (bind_returned _ _ _ _ _ E2).
  apply (main_key_keeps junk print_hex) in E2 as [[Hw2 _] Hk]; [|done].
  destruct (Z.eqb_spec code 0) as [->|]; cbn [negb]; [|left; by eexists _, _, _]. specialize (Hk eq_refl).
  destruct (main_signed_ends 0 a k (Gnostr.make_event a event_zero) w2 Henc Hd Hev Hk Hw2) as (r & w3 & E3 & Hw3).
  unfold finish. rewrite (bind_returned _ _ _ _ _ E3).
  apply (main_signed_returns junk print_shared) in E3 as [_ Hr]; [|done..]. destruct r as [code|ev]; [left; by eexists _, _, _|].
  destruct Hr as (ev1 & l & Hr). destruct (Hf k ev1 ev l Hr) as (Ht & Hx & Hcont).
  unfold Nostril.print_event. pose proof (print_text_spec ev (proj1 (signed_valid _ _ _ _ _ _ Hr))) as Hp.
  unfold json_tags, tags_k in Hp. rewrite Hx, Ht, Hcont in Hp. change (json_array (map json_tag [])) with (cs "[]") in Hp.
  change (102400 <? len (cs "[]") + 0) with false in Hp. change (1014 <? len (cs "[]")) with false in Hp. cbv iota in Hp.
  destruct (102400 <? _); [destruct Hp as [out ->]; left; by eexists _, _, _|].
  destruct (Z.ltb_spec 1011 (len (json_string (Client.c_str (Home.area_content p))))); rewrite Hp; [by right|left; by eexists _, _, _].
Qed.

Lemma event_text_ends p w :
  form_ok (form_of p) -> entropy_ok (process w) ->
  (exists t w', Home.event_text junk p w = (Returned (inr t), w') /\ entropy_ok (process w')) \/
  (unwritten p w /\ (Home.event_text junk p w).1 = Undefined).
Proof using Type*.
  intros Hp Hw. pose proof (library_ends p (process w) Hp Hw) as Hl. unfold unwritten. cbv zeta in *.
  unfold Home.event_text, run, mbind, cpp_bind.
  destruct Hl as [(code & [json|] & w1 & -> & Hw1)|[Hu Hlong]].
  - left. by eexists _, _.
  - right. split; [|done]. left. by eexists _, _.
  - right. destruct (Nostril.make_message _ _ _ _ _) as [r w1]. cbn [fst] in Hu. subst r. auto.
Qed.
(** The page that shows the event, when there is a text. *)
Lemma generate_event_spec now p w :
  form_ok (form_of p) -> Home.is_req p = false -> entropy_ok (process w) ->
  (exists t w' ev, Home.make_message junk now p w = (Returned (inr (Home.set_area_message p t)), w') /\ entropy_ok (process w') /\
    valid_event ev /\ Event.content ev = Client.c_str (Home.area_content p) /\ Event.kind ev = 1 /\ Event.created_at ev = time_now /\
    Event.tags ev = [] /\ plain_json (JArray [JString (cs "EVENT"); event_object (received_event ev)]) /\
    parse t = Ok (canon (JArray [JString (cs "EVENT"); event_object (received_event ev)]))) \/
  (unwritten p w /\ (Home.make_message junk now p w).1 = Undefined).
Proof using Type*.
  intros Hp Hreq Hw. pose proof Hp as [[Hs Hsl] (Hc & Hcl & Hsend) _]. cbn in Hs, Hsl, Hc, Hcl, Hsend.
  rewrite make_message_shows, Hreq. destruct (event_text_ends p w Hp Hw) as [(t & w1 & E & Hw1)|[Hu Hr]].
  - left. rewrite (cpp_returned _ _ _ _ _ E).
    destruct (event_text_returns junk p w t w1) as (_ & ev & -> & Hv & H1' & H2' & H3' & H4' & H5'); try done; [split; lia|by apply utf8_Bytes|].
    assert (Hr : readable ev) by (split; [apply Hv|done|lia|by rewrite H1'|by rewrite H5']).
    pose proof (event_message_parses ev Hr) as Hpt. pose proof (received_typed ev Hr) as Hty.
    assert (Hj : plain_json (JArray [JString (cs "EVENT"); event_object (received_event ev)])).
    { apply array_plain. repeat apply Forall_cons_2; try apply Forall_nil_2; [by apply string_plain, ascii_utf8|by apply event_plain]. }
    destruct (show_message_reads p (event_message ev true) _ w1 Hj Hpt) as (t' & w2 & E2 & Hp2 & _).
    exists t', w2, ev. split_and!; try done. pose proof (steady_show p (event_message ev true) w1) as Hst. rewrite E2 in Hst.
    cbn [snd] in Hst. by rewrite Hst.
  - right. split; [done|]. unfold mbind, cpp_bind. destruct (Home.event_text junk p w) as [r w1]. cbn [fst] in Hr. by subst r.
Qed.
End Event.

(** ** Every action *)

Section Runs.
Context `{Floats} `{Disk} `{OS} `{Secp256k1Laws} `{Network} `{Random} `{Wt} (junk now : Z) (Hnow : time_ok now)
  (Htime : 0 <= time_now < 2 ^ 63) (Hnet : calm_network).

(** An action ends as the reference says, or at a message that is not written. *)
Definition follows (x : action) (a : app) (v : view) : Prop := forall w, entropy_ok (process w) ->
  (exists a' v' w', act junk now x a w = (Returned (inr a'), w') /\ does now x v v' /\ displays a' v' /\ view_ok v' /\
    entropy_ok (process w')) \/
  (exists p, x = Generate /\ a = at_home p /\ Home.is_req p = false /\ unwritten junk p w /\ (act junk now x a w).1 = Undefined).

(** An action that ends, and leaves the state of the C library alone. *)
Lemma follows_steady x a v :
  (forall w, exists a' v' w', act junk now x a w = (Returned (inr a'), w') /\ does now x v v' /\ displays a' v' /\ view_ok v') ->
  steady (act junk now x a) -> follows x a v.
Proof using Type.
  intros Hr Hs w Hw. left. destruct (Hr w) as (a' & v' & w' & E & Hd & Ha & Hv). exists a', v', w'. split_and!; try done.
  specialize (Hs w). rewrite E in Hs. cbn [snd] in Hs. by rewrite Hs.
Qed.

Lemma follows_pure x a v a' v' :
  (forall w, act junk now x a w = (Returned (inr a'), w)) -> does now x v v' -> displays a' v' -> view_ok v' -> follows x a v.
Proof using Type. intros E Hd Ha Hv w Hw. left. exists a', v', w. by rewrite E. Qed.

Lemma first_displayed : displays NostroApplication first_view.
Proof using Type. split; [done|]. split_and!; reflexivity. Qed.

Lemma first_view_ok : view_ok first_view.
Proof using Type.
  assert (Hk : utf8 Home.def_pubkey) by by apply ascii_utf8.
  split; [done|]. split; [|intros j Hj; by apply (parse_typed_spec [] j); [constructor|]].
  split; [by split; [constructor|]|split; [constructor|split; [done|by split; [constructor|]]]|by split_and!; [constructor..|]].
Qed.

Lemma list_page_listed raw keep fetch key w :
  utf8 key -> (forall r x, utf8 x -> ends (keep r x)) ->
  (forall key w, utf8 key -> exists ms w', fetch key w = (Returned (inr ms), w') /\ Forall calm ms) ->
  exists rows w', list_page now raw keep fetch key w = (Returned (inr (put_rows 0 rows ∅)), w') /\ listed now fetch raw key rows.
Proof using Hnow Hnet.
  intros Hk Hkeep Hf.
  destruct (list_page_spec now Hnow raw keep fetch (fun key ms => exists w1 w2, fetch key w1 = (Returned (inr ms), w2)) key w Hnet Hk Hkeep)
    as (keys & fetched & w' & E & [w1 Hg] & HF).
  { intros k w1 Hk1. destruct (Hf k w1 Hk1) as (ms & w2 & E & Hc). exists ms, w2. eauto. }
  eexists _, w'. split; [exact E|]. exists keys, fetched, w, w1. auto.
Qed.

Lemma feed_page_listed raw key w : utf8 key ->
  exists rows w', feed_page now raw key w = (Returned (inr (put_rows 0 rows ∅)), w') /\ listed now (fetch_feed now) raw key rows.
Proof using Hnow Hnet.
  intros Hk. apply list_page_listed; [done|intros r x _ w1; by eexists _, _|]. intros k w1 Hk1.
  destruct (get_feed_returns now Hnow default_relay k w1 Hnet Hk1) as (ms & w2 & E & Hc & _).
  exists ms, w2. unfold fetch_feed. by rewrite (cpp_returned _ _ _ _ _ E).
Qed.

Lemma follows_page_listed raw key w : utf8 key ->
  exists rows w', follows_page now raw key w = (Returned (inr (put_rows 0 rows ∅)), w') /\ listed now (fetch_metadata now) raw key rows.
Proof using Hnow Hnet.
  intros Hk. apply list_page_listed; [done|intros r x Hx; by apply keep_content_ends|]. intros k w1 Hk1.
  destruct (get_metadata_returns now Hnow default_relay k w1 Hnet Hk1) as (ms & w2 & E & Hc).
  exists ms, w2. unfold fetch_metadata. by rewrite (cpp_returned _ _ _ _ _ E).
Qed.

Lemma row_text_returns text w : calm text -> exists w', row_text text w = (Returned (inr tt), w').
Proof using Type.
  intros Hc. unfold row_text, try_catch. pose proof (parse_outcome_spec text) as Ho. pose proof (calm_typed text) as Hp.
  destruct (parse text) as [js|e|]; [|by eexists|done]. destruct (Hp js Hc eq_refl) as [Ht Hn]. rewrite of_result_ok.
  destruct (dump_parse_spec (Some 1) js Ht Hn ltac:(done)) as (json & -> & Hj). rewrite of_result_ok.
  destruct (json_to_file_returns (cs "row_text.json") json w) as (w' & E & _).
  { intros v Hv. assert (v = canon js) as -> by congruence. by apply canon_typed. }
  exists w'. by rewrite E.
Qed.

Lemma select_follows index a v : displays a v -> view_ok v -> follows (Select index) a v.
Proof using Hnow Hnet.
  intros [Hk _] [Hu _].
  assert (E : forall w, act junk now (Select index) a w = ('(c, k) ← selected now index (profile v); mret (App k c)) w).
  { intros w. unfold act. rewrite Hk. by destruct (layout_item a). }
  apply follows_steady; [intros w; rewrite E|intros w; rewrite E; revert w].
  - destruct (Z.eqb_spec index 0) as [->|H0'].
    { eexists _, _, w. split; [done|]. split; [apply does_home|]. split; [apply first_displayed|apply first_view_ok]. }
    destruct (Z.eqb_spec index 1) as [->|H1'].
    { eexists _, _, w. split; [done|]. split; [apply does_feed|]. by split. }
    destruct (Z.eqb_spec index 2) as [->|H2'].
    + destruct (follows_page_listed true (profile v) w Hu) as (rows & w' & El & Hl).
      assert (Es : selected now 2 (profile v) w = (Returned (inr (Some (Follows true (put_rows 0 rows ∅)), profile v)), w')).
      { unfold selected. cbn [Z.eqb Pos.eqb]. by rewrite (cpp_returned _ _ _ _ _ El). }
      eexists _, _, w'. split; [by rewrite (cpp_returned _ _ _ _ _ Es)|]. split; [by apply does_follows|]. by split.
    + assert (Es : selected now index (profile v) w = (Returned (inr (None, profile v)), w)).
      { unfold selected. by destruct (Z.eqb_spec index 0), (Z.eqb_spec index 1), (Z.eqb_spec index 2). }
      eexists _, _, w. split; [by rewrite (cpp_returned _ _ _ _ _ Es)|]. split; [by apply does_other|]. by split.
  - change (steady ('(c, k) ← selected now index (profile v); mret (App k c))). apply steady_bind; [|intros []; apply steady_ret].
    unfold selected. repeat case_match; try apply steady_ret. apply steady_bind; [apply steady_follows_page|intros; apply steady_ret].
Qed.

(** A page of the home tab, as a view. *)
Definition home_view (p : Home.page) (rows : list (list (list Z))) : view :=
  View (On_home (form_of p) (Home.area_message p) rows) (Home.pubkey_ p).

Definition page_ok (p : Home.page) (rows : list (list (list Z))) : Prop :=
  view_ok (home_view p rows) /\ Home.m_row p = len rows /\ Home.table_messages p = put_rows 0 rows ∅.

Lemma home_displayed p rows : page_ok p rows -> displays (at_home p) (home_view p rows).
Proof using Type. intros (_ & Hr & Ht). split; [done|]. by split_and!. Qed.

(** An edit of the page. *)
Lemma edit_follows x p p' rows :
  page_ok p' rows -> does now x (home_view p rows) (home_view p' rows) -> (forall w, act junk now x (at_home p) w = (Returned (inr (at_home p')), w)) ->
  follows x (at_home p) (home_view p rows).
Proof using Type. intros Hp Hd E. eapply follows_pure; [exact E|exact Hd|by apply home_displayed|apply Hp]. Qed.

Lemma asked_filter p : Home.request_filter now p = asked now (form_of p).
Proof using Type.
  unfold Home.request_filter, asked. cbn [form_of kind_item author_box key_box]. destruct (Home.combo_kind p) as [|[]|]; try done.
  destruct (Home.edit_author p) as [|c l]; [done|]. rewrite len_cons. pose proof (len_nonneg l). by destruct (Z.ltb_spec 0 (len l + 1)); [|lia].
Qed.

Lemma message_page_ok p t rows : page_ok p rows -> (forall v, parse t = Ok v -> typed v) -> page_ok (Home.set_area_message p t) rows.
Proof using Type. intros ((Hk & Hf & _) & Hr & Ht) Hm. destruct p. by split_and!. Qed.

Lemma read_typed j t v : plain_json j -> parse t = Ok (canon j) -> parse t = Ok v -> typed v.
Proof using Type. intros [Hj _] -> [= <-]. by apply canon_typed. Qed.

Lemma generate_follows p rows : page_ok p rows -> follows Generate (at_home p) (home_view p rows).
Proof using Hnow Htime H3.
  intros Hp w Hw. pose proof Hp as ((_ & Hf & _) & _ & _). unfold act. cbn [at_home layout_item].
  destruct (Home.is_req p) eqn:Hreq.
  - destruct (form_texts _ Hf) as (Hid & Hau & Hkey). left.
    destruct (generate_request junk now p w Hnow Hreq Hid Hau Hkey) as (sub & t & j & w' & E & _ & _ & Hs & Ej & Ht & Hj).
    exists (at_home (Home.set_area_message p t)), (home_view (Home.set_area_message p t) rows), w'.
    rewrite (cpp_returned _ _ _ _ _ E). split; [done|].
    assert (Hok : page_ok (Home.set_area_message p t) rows).
    { apply message_page_ok; [done|]. intros v. by apply (read_typed _ _ _ Hj). }
    split; [|split; [by apply home_displayed|split; [apply Hok|]]].
    + apply (does_request now (form_of p) (Home.area_message p) rows (Home.pubkey_ p) t sub j); [done|by rewrite <- asked_filter| |done].
      intros Hne. apply Hs. cbn [form_of id_box] in Hne. destruct (Home.edit_event_id p); [done|]. len_lia.
    + assert (Hst : process (Home.make_message junk now p w).2 = process w).
      { rewrite make_message_shows, Hreq. revert w Hw E. intros w _ _. apply (steady_bind (Home.request_text now p));
          [apply steady_request_text|intros; apply steady_show]. }
      rewrite E in Hst. cbn [snd] in Hst. by rewrite Hst.
  - destruct (generate_event_spec junk Htime now p w Hf Hreq Hw) as [(t & w' & ev & E & Hw' & Hv & Hc & Hk & Hca & Ht & Hj & Hpt)|[Hu Hr]].
    + left. exists (at_home (Home.set_area_message p t)), (home_view (Home.set_area_message p t) rows), w'.
      rewrite (cpp_returned _ _ _ _ _ E). split; [done|].
      assert (Hok : page_ok (Home.set_area_message p t) rows).
      { apply message_page_ok; [done|]. intros v. by apply (read_typed _ _ _ Hj). }
      split; [|split; [by apply home_displayed|split; [apply Hok|done]]].
      by apply (does_event now (form_of p) (Home.area_message p) rows (Home.pubkey_ p) t ev).
    + right. exists p. split_and!; try done. unfold mbind, cpp_bind. destruct (Home.make_message junk now p w) as [r w1].
      cbn [fst] in Hr. by subst r.
Qed.

Lemma send_follows p rows : page_ok p rows -> follows Send (at_home p) (home_view p rows).
Proof using Hnow Hnet.
  intros ((Hk & Hf & Hm) & Hr & Ht). destruct (Hnet (Home.edit_uri p) (Home.area_message p)) as (events & Ee & He).
  apply follows_steady.
  - intros w. destruct (send_message_spec now Hnow p events rows w Hm Ee He Hr Ht) as [w' E]. cbv zeta in E.
    set (rows' := rows_received now _ events rows) in E. set (p' := Home.set_rows _ _ _) in E.
    exists (at_home p'), (home_view p' rows'), w'. unfold act. cbn [at_home layout_item]. rewrite (cpp_returned _ _ _ _ _ E).
    assert (Hp' : page_ok p' rows') by (unfold p', page_ok, home_view; destruct p; by split_and!).
    split; [done|]. split; [|split; [by apply home_displayed|apply Hp']].
    replace (home_view p' rows') with (View (On_home (form_of p) (Home.area_message p) rows') (Home.pubkey_ p)) by by destruct p.
    by apply (does_send now (form_of p)).
  - unfold act. cbn [at_home layout_item]. apply steady_bind; [apply steady_send|intros; apply steady_ret].
Qed.

Lemma click_follows text a v : calm (wtext text) -> displays a v -> view_ok v -> follows (Click_text text) a v.
Proof using Type.
  intros Hc Hd Hv. apply follows_steady; unfold act.
  - intros w. destruct (row_text_returns (wtext text) w Hc) as [w' E]. exists a, v.
    destruct (layout_item a) as [c|] eqn:El; [exists w'|exists w]; (split; [|split; [by apply does_nothing|done]]); [|done].
    unfold click. by rewrite (cpp_returned _ _ _ _ _ E).
  - destruct (layout_item a); [|apply steady_ret]. apply steady_bind; [apply steady_row_text|intros; apply steady_ret].
Qed.

(** An action that has nothing to act on. *)
Lemma idle_follows x a v :
  (forall w, act junk now x a w = (Returned (inr a), w)) -> idle x (on v) = true -> displays a v -> view_ok v -> follows x a v.
Proof using Type. intros E Hi Ha Hv. eapply follows_pure; [exact E|by apply does_nothing|done|done]. Qed.

Lemma home_follows x p rows : action_ok x -> page_ok p rows -> follows x (at_home p) (home_view p rows).
Proof using Hnow Htime Hnet H3.
  intros Hx Hp. pose proof (home_displayed p rows Hp) as Hd. pose proof Hp as ((Hk & [Hs Hc (Hid & Hau & Hkey)] & Hm) & Hr & Ht).
  destruct x as [index|text|index|uri seckey content event_id author message req|raw| | | |text]; cbn in Hx.
  - apply select_follows; [done|apply Hp].
  - apply (edit_follows _ p (type_pubkey text p)); [|apply does_type|done]. by split_and!.
  - apply (edit_follows _ p (choose_kind index p)); [| |done].
    + unfold choose_kind, Home.kind_changed. cbn [Home.combo_kind]. destruct (index =? 1); by split_and!.
    + replace (home_view (choose_kind index p) rows) with
        (View (On_home (chosen_kind index (form_of p)) (Home.area_message p) rows) (Home.pubkey_ p)); [apply does_choose|].
      unfold choose_kind, Home.kind_changed, chosen_kind, home_view. cbn [Home.combo_kind]. by destruct (index =? 1).
  - destruct Hx as (Hs' & Hc' & Hid' & Hau' & Hm').
    apply (edit_follows _ p (fill uri seckey content event_id author message req p)); [|apply does_fill|done].
    split; [split; [done|split; [exact (Form_ok (form_of (fill uri seckey content event_id author message req p)) Hs' Hc' (conj Hid' (conj Hau' Hkey)))|]]|by split_and!]. intros v. by apply parse_typed_spec, utf8_Bytes.
  - apply (edit_follows _ p (check_home raw p)); [by split_and!|apply does_check|done].
  - by apply generate_follows.
  - by apply send_follows.
  - apply idle_follows; [done|done|done|apply Hp].
  - apply click_follows; [done|done|apply Hp].
Qed.

(** The pages that list. *)
Lemma feed_follows x key raw rows : action_ok x -> utf8 key ->
  follows x (App key (Some (Feed raw (put_rows 0 rows ∅)))) (View (On_feed raw rows) key).
Proof using Hnow Hnet.
  intros Hx Hk. set (a := App _ _). set (v := View _ _).
  assert (Ha : displays a v) by done. assert (Hv : view_ok v) by done.
  destruct x as [index| | | |raw'| | | |text]; try (by apply idle_follows).
  - by apply select_follows.
  - apply (follows_pure _ _ _ (App key (Some (Feed raw' (put_rows 0 rows ∅)))) (View (On_feed raw' rows) key)); [done|apply does_check_feed|done|done].
  - apply follows_steady; unfold act, a; cbn [layout_item global_pubkey].
    + intros w. destruct (feed_page_listed raw key w Hk) as (rows' & w' & E & Hl).
      exists (App key (Some (Feed raw (put_rows 0 rows' ∅)))), (View (On_feed raw rows') key), w'. rewrite (cpp_returned _ _ _ _ _ E).
      split; [done|]. by split; [apply does_get|].
    + apply steady_bind; [apply steady_feed|intros; apply steady_ret].
  - by apply click_follows.
Qed.

Lemma profiles_follows x key raw rows : action_ok x -> utf8 key ->
  follows x (App key (Some (Follows raw (put_rows 0 rows ∅)))) (View (On_follows raw rows) key).
Proof using Hnow Hnet.
  intros Hx Hk. set (a := App _ _). set (v := View _ _).
  assert (Ha : displays a v) by done. assert (Hv : view_ok v) by done.
  destruct x as [index| | | |raw'| | | |text]; try (by apply idle_follows).
  - by apply select_follows.
  - apply follows_steady; unfold act, check_raw_box, a; cbn [layout_item global_pubkey].
    + intros w. destruct (follows_page_listed raw' key w Hk) as (rows' & w' & E & Hl).
      exists (App key (Some (Follows raw' (put_rows 0 rows' ∅)))), (View (On_follows raw' rows') key), w'. rewrite (cpp_returned _ _ _ _ _ E).
      split; [done|]. by split; [apply does_check_follows|].
    + apply steady_bind; [apply steady_follows_page|intros; apply steady_ret].
  - by apply click_follows.
Qed.

(** Every action ends as the reference says, or at a message that is not written. *)
Lemma act_follows x a v : action_ok x -> displays a v -> view_ok v -> follows x a v.
Proof using Hnow Htime Hnet H3.
  intros Hx Ha Hv. destruct a as [key [[p|raw t|raw t]|]], v as [[f m rows|raw' rows|raw' rows|] k]; destruct Ha as [Hk Ha];
    cbn in Hk; subst k; try done.
  - destruct Ha as (-> & Hp & <- & Hr & Ht). cbn in Hp. subst key. by apply home_follows.
  - destruct Ha as [-> ->]. apply feed_follows; [done|apply Hv].
  - destruct Ha as [-> ->]. apply profiles_follows; [done|apply Hv].
  - assert (Ha' : displays (App key None) (View Nowhere key)) by done.
    destruct x; try (by apply idle_follows). by apply select_follows.
Qed.
End Runs.

(** ** Properties *)

Section Application.
Context `{Floats} `{Disk} `{OS} `{Secp256k1Laws} `{Network} `{Random} `{Wt} (junk : Z) (Htime : 0 <= time_now < 2 ^ 63)
  (Hnet : calm_network).

Lemma run_app_follows xs a v w :
  Forall (fun '(now, x) => time_ok now /\ action_ok x) xs -> displays a v -> view_ok v -> entropy_ok (process w) ->
  (exists a' v' w', run_app junk xs a w = (Returned (inr a'), w') /\ behaves xs v v' /\ displays a' v') \/
  (exists xs1 now xs2 p v1 w1, xs = xs1 ++ (now, Generate) :: xs2 /\
    run_app junk xs1 a w = (Returned (inr (at_home p)), w1) /\ behaves xs1 v v1 /\ displays (at_home p) v1 /\
    Home.is_req p = false /\ unwritten junk p w1 /\ (run_app junk xs a w).1 = Undefined).
Proof using Htime Hnet H3.
  intros Hxs. revert a v w. induction Hxs as [|[now x] xs [Hn Hx] _ IH]; intros a v w Ha Hv Hw.
  { left. exists a, v, w. split; [done|]. split; [constructor|done]. }
  destruct (act_follows junk now Hn Htime Hnet x a v Hx Ha Hv w Hw) as [(a1 & v1 & w1 & E & Hd & Ha1 & Hv1 & Hw1)|(p & -> & -> & Hr & Hu & E)].
  - cbn [run_app]. rewrite (cpp_returned _ _ _ _ _ E).
    destruct (IH a1 v1 w1 Ha1 Hv1 Hw1) as [(a' & v' & w' & E' & Hb & Ha')|(xs1 & n & xs2 & p & v2 & w2 & -> & E' & Hb & Ha' & Hr & Hu & Ho)].
    + left. exists a', v', w'. split; [done|]. split; [by eapply behaves_cons|done].
    + right. exists ((now, x) :: xs1), n, xs2, p, v2, w2. split; [done|]. cbn [run_app]. rewrite (cpp_returned _ _ _ _ _ E).
      split_and!; try done. by eapply behaves_cons.
  - right. exists [], now, xs, p, v, w. split; [done|]. split; [done|]. split; [constructor|]. split_and!; try done.
    cbn [run_app]. unfold mbind, cpp_bind. destruct (act junk now Generate (at_home p) w) as [r w1]. cbn [fst] in E. by subst r.
Qed.
End Application.

(** C18: whatever a user does with the web client, in any order and at any
    times, on relays that answer without floating-point numbers, either every
    handler ends and none throws, what the client shows is what the reference
    [does] allows, step by step, and its table has exactly the rows of the
    reference, a text in each cell; or an event was to be generated and the
    library wrote no text for it (it returned an exit code, or the content
    overflows its array): up to there the client followed the reference, and
    there its behaviour is undefined. *)
Theorem application_runs `{Floats} `{Disk} `{OS} `{Secp256k1Laws} `{Network} `{Random} `{Wt} (junk : Z) (xs : list (Z * action)) (w : cc)
    (Htime : 0 <= time_now < 2 ^ 63) (Hw : entropy_ok (process w)) (Hnet : calm_network)
    (Hxs : Forall (fun '(now, x) => time_ok now /\ action_ok x) xs) :
  (exists a v w', run_app junk xs NostroApplication w = (Returned (inr a), w') /\
    behaves xs first_view v /\ displays a v /\ shows (table_of a) (rows_on v)) \/
  (exists xs1 now xs2 p v w1, xs = xs1 ++ (now, Generate) :: xs2 /\
    run_app junk xs1 NostroApplication w = (Returned (inr (at_home p)), w1) /\ behaves xs1 first_view v /\ displays (at_home p) v /\
    Home.is_req p = false /\ unwritten junk p w1 /\ (run_app junk xs NostroApplication w).1 = Undefined).
Proof.
  destruct (run_app_follows junk Htime Hnet xs NostroApplication first_view w Hxs first_displayed first_view_ok Hw)
    as [(a & v & w' & E & Hb & Ha)|Hs]; [left|by right].
  exists a, v, w'. split_and!; [done|done|done|by apply displays_shows].
Qed.

#[local] Existing Instance zero_floats.
#[local] Existing Instance all_writable.
#[local] Existing Instance test_os.
#[local] Existing Instance Toy.lib.
#[local] Existing Instance Toy.lib_laws.
#[local] Existing Instance note_network.
#[local] Existing Instance constant_random.

(** Texts come back as they are. *)
Definition plain_texts : Wt := {| wtext := fun t => t |}.
#[local] Existing Instance plain_texts.

(** A visit: the feed, another key, a request for its contacts, an answer clicked,
    a note with a key of the user, sent. *)
Definition visit : list (Z * action) :=
  [(7, Select 1); (8, Get_feed); (9, Select 0); (10, Type_pubkey (cs "cd")); (11, Choose_kind 1); (12, Generate); (13, Send);
   (14, Click_text note_text); (15, Select 2); (16, Check_raw false); (17, Select 0);
   (18, Fill default_relay (hex_text alice) (cs "hello") [] [] [] false); (19, Generate); (20, Send)].

Lemma application_runs_witness :
  exists a v w', run_app 0 visit NostroApplication server = (Returned (inr a), w') /\
    behaves visit first_view v /\ displays a v /\ shows (table_of a) (rows_on v).
Proof.
  assert (Hc : (run_app 0 visit NostroApplication server).1 <> Undefined) by (vm_compute; discriminate).
  destruct (application_runs 0 visit server) as [Hr|(xs1 & now & xs2 & p & v & w1 & _ & _ & _ & _ & _ & _ & Hu)];
    [by_compute| |exact note_network_calm| |exact Hr|by destruct (Hc Hu)].
  - repeat apply Forall_cons_2; [cbn [from_option]; by_compute..|constructor].
  - repeat apply Forall_cons_2; [..|constructor]; (split; [split; [discriminate|reflexivity]|]); try exact I.
    + by apply ascii_utf8.
    + exact (Forall_inv (Forall_inv_tail note_calm)).
    + split; [split; [by_compute|reflexivity]|]. split; [split; [by apply ascii_utf8|split; [reflexivity|split; [by apply ascii_utf8|reflexivity]]]|].
      split_and!; constructor.
Defined.
