(* ===== verification/Desktop.v ===== *)
(** * The desktop client: [desktop/gnostro.cc]

    The state of the frame that the program keeps between events, the two button
    handlers and [get_feed], which is not that of the client library: it collects
    the events of every followed key for the grid and saves them to files.
    Windows, menus and the highlighting of the editor are the library wxWidgets;
    its texts are taken as bytes. *)
From stdpp Require Import gmap.
From S2P Require Import Prelude Hex Event Process.
From S2P Require Import Json JsonParse JsonSpec JsonGrammar JsonRound Comm Client Relay Web.

(** ** The frame *)

Record frame := Frame {
  text_ctrl : list Z;           (* the message *)
  text_relay : list Z;
  text_key : list Z;
  pubkey_ : list Z;             (* the global variable *)
  grid : list (list Z)          (* a row for each text, in one column *)
}.

Definition set_key (s : frame) v := Frame (text_ctrl s) (text_relay s) (text_key s) v (grid s).

(** [CreateGrid] puts a new pane in place of the old one. *)
Definition CreateGrid (s : frame) (store : list (list Z)) : frame :=
  Frame (text_ctrl s) (text_relay s) (text_key s) (pubkey_ s) store.

(** [PanelInput]: the message the program starts with. *)
Definition m_out_message : list Z :=
  cs "[" ++ word "REQ" ++ cs ", " ++ word "RAND" ++ cs ", {" ++ word "kinds" ++ cs ": [1], " ++ word "limit" ++ cs ": 3}]".

Definition PanelInput : frame :=
  Frame m_out_message default_relay (cs "4ea843d54a8fdab39aa45f61f19f3ff79cc19385370f6a272dda81fade0a052b") [] [].

(** ** Handlers *)

Section Desktop.
Context `{Floats} `{Disk} `{Network} `{Random} (now : Z).

(** An event: its JSON in the response and in a file. *)
Definition response_row (row : Z) (response : list (list Z)) (js : json) (ev : event_t) : cpp (Z * list (list Z)) :=
  json ← of_result (dump (Some 1) js);
  _ ← json_to_file (cs "follow." ++ fmt_int (row + 1) ++ cs ".json") json;
  mret (row + 1, response ++ [json]).

Definition response_event (message : list Z) (rr : Z * list (list Z)) : cpp (Z * list (list Z)) :=
  let '(row, response) := rr in
  try_catch
    (js ← of_result (parse message);
     type ← of_result (message_type js);
     if decide (type = cs "EVENT") then
       ev ← of_result (at_index js 2 ≫= get_event now); response_row row response js ev
     else mret (row, response))
    (fun e => _ ← log_what e; mret (row, response)).

Fixpoint response_events (events : list (list Z)) (rr : Z * list (list Z)) : cpp (Z * list (list Z)) :=
  match events with
  | [] => mret rr
  | message :: events => rr ← response_event message rr; response_events events rr
  end.

(** The loop over the keys; the row number starts anew with each. *)
Fixpoint response_keys (uri : list Z) (pubkeys response : list (list Z)) : cpp (list (list Z)) :=
  match pubkeys with
  | [] => mret response
  | pubkey :: pubkeys =>
      '(_, events) ← Client.get_feed now uri pubkey [];
      '(_, response) ← response_events events (0, response);
      response_keys uri pubkeys response
  end.

Definition get_feed (pubkey uri : list Z) (response : list (list Z)) : cpp (list (list Z)) :=
  '(_, pubkeys) ← Client.get_follows now uri pubkey [];
  _ ← to_file_lines (cs "pubkeys.txt") pubkeys;
  response_keys uri pubkeys response.

Definition OnButtonGetFeed (s : frame) : cpp frame :=
  let s := set_key s (text_key s) in
  response ← get_feed (pubkey_ s) (text_relay s) [];
  mret (CreateGrid s response).

(** The handlers of the connection; the messages received. *)
Fixpoint handle (message : list Z) (events : list net_event) (store : list (list Z)) : cpp (list (list Z)) :=
  match events with
  | [] => mret store
  | Opened http :: events =>
      _ ← log (cs "Opened connection: HTTP " ++ http);
      _ ← log (cs "Sending: " ++ [quote] ++ message ++ [quote]);
      handle message events store
  | Received str :: events =>
      _ ← log (cs "Received: " ++ [quote] ++ str ++ [quote]); handle message events (store ++ [str])
  | Closed status :: events => _ ← log (cs "Closed: " ++ fmt_int status); handle message events store
  | Failed what :: events => _ ← log (cs "Error: " ++ what); handle message events store
  end.

Definition OnButtonSendEvent (s : frame) : cpp frame :=
  let s := set_key s (text_key s) in
  events ← of_result (exchange (text_relay s) (text_ctrl s));
  store ← handle (text_ctrl s) events [];
  _ ← log (cs "Received " ++ fmt_u64 (len store) ++ cs " messages: ");
  _ ← log_all store;
  mret (CreateGrid s store).
End Desktop.

(** ** The response *)

Section Response.
Context `{Floats} `{Disk} `{Network} `{Random} (now : Z) (Hnow : - 2 ^ 63 <= now < 2 ^ 63).

(** The JSON of a message that is an event. *)
Definition json_of (m : list Z) : option (list Z) :=
  '(js, _) ← event_of_message now m; match dump (Some 1) js with Ok json => Some json | _ => None end.

Lemma response_event_spec m row response w :
  calm m ->
  exists w', response_event now m (row, response) w =
    (Returned (inr (match json_of m with Some json => (row + 1, response ++ [json]) | None => (row, response) end)), w').
Proof using Hnow.
  intros Hm. unfold response_event, json_of. pose proof (try_event now Hnow (response_row row response) (row, response) m w Hm) as Ht.
  cbv zeta in Ht. destruct (event_of_message now m) as [[js ev]|]; [|exact Ht]. destruct Ht as ([Hty Hn] & _ & Ht).
  destruct (dump_parse_spec (Some 1) js Hty Hn ltac:(done)) as (json & Ed & Hp). rewrite bind_some, Ed.
  destruct (json_to_file_returns (cs "follow." ++ fmt_int (row + 1) ++ cs ".json") json w) as (w1 & Ef & _).
  { intros v Hv. assert (v = canon js) as -> by congruence. by apply canon_typed. }
  exists w1. apply Ht. unfold response_row. by rewrite Ed, of_result_ok, (cpp_returned _ _ _ _ _ Ef).
Qed.

Lemma response_events_spec events row response w :
  Forall calm events ->
  exists row' w', response_events now events (row, response) w = (Returned (inr (row', response ++ omap json_of events)), w').
Proof using Hnow.
  intros He. revert row response w. induction He as [|m events Hm _ IH]; intros row response w; cbn [omap list_omap response_events].
  - exists row, w. by rewrite app_nil_r.
  - destruct (response_event_spec m row response w Hm) as [w1 E]. rewrite (cpp_returned _ _ _ _ _ E).
    destruct (json_of m) as [json|]; [|apply IH]. destruct (IH (row + 1) (response ++ [json]) w1) as (row' & w2 & E2).
    exists row', w2. rewrite E2. by rewrite <- app_assoc.
Qed.

Lemma response_keys_spec uri keys response w :
  calm_network -> Forall utf8 keys ->
  exists fetched w', response_keys now uri keys response w =
      (Returned (inr (response ++ concat (map (omap json_of) fetched))), w') /\
    Forall2 (fun key ms => exists w1 w2, Client.get_feed now uri key [] w1 = (Returned (inr (0, ms)), w2)) keys fetched.
Proof using Hnow.
  intros Hnet Hk. revert response w. induction Hk as [|key keys Hkey _ IH]; intros response w; cbn [response_keys].
  - exists [], w. by rewrite app_nil_r.
  - destruct (get_feed_returns now Hnow uri key w Hnet Hkey) as (ms & w1 & E1 & Hc & _). rewrite (cpp_returned _ _ _ _ _ E1).
    destruct (response_events_spec ms 0 response w1 Hc) as (row & w2 & E2). rewrite (cpp_returned _ _ _ _ _ E2).
    destruct (IH (response ++ omap json_of ms) w2) as (fetched & w3 & E3 & HF).
    exists (ms :: fetched), w3. rewrite E3. cbn [map concat]. rewrite <- app_assoc. split; [done|]. constructor; [by exists w, w1|done].
Qed.

Lemma handle_returns message events store w :
  exists w', handle message events store w = (Returned (inr (keep_messages events store)), w').
Proof using Type.
  revert store w. induction events as [|[] events IH]; intros store w; cbn [handle keep_messages]; [by eexists|..];
    rewrite ?(cpp_returned (log _) _ _ _ _ eq_refl); try apply IH.
Qed.
End Response.

(** ** Properties *)

(** The grid shows, after Get Feed, the JSON of the events that the client
    library fetched for each followed key of the profile, in order, and the
    profile is the one of the key field. *)
Theorem desktop_feed_shows `{Floats} `{Disk} `{Network} `{Random} (now : Z) (s : frame) (w : cc)
    (Hnow : - 2 ^ 63 <= now < 2 ^ 63) (Hkey : utf8 (text_key s)) (Hnet : calm_network) :
  exists keys fetched w', OnButtonGetFeed now s w =
      (Returned (inr (Frame (text_ctrl s) (text_relay s) (text_key s) (text_key s) (concat (map (omap (json_of now)) fetched)))), w') /\
    (exists w1, Client.get_follows now (text_relay s) (text_key s) [] w = (Returned (inr (0, keys)), w1)) /\
    Forall2 (fun key ms => exists w1 w2, Client.get_feed now (text_relay s) key [] w1 = (Returned (inr (0, ms)), w2)) keys fetched.
Proof.
  destruct (get_follows_returns now Hnow (text_relay s) (text_key s) w Hnet Hkey) as (keys & w1 & E1 & Hkeys).
  destruct (to_file_lines_returns (cs "pubkeys.txt") keys w1) as [w2 E2].
  destruct (response_keys_spec now Hnow (text_relay s) keys [] w2 Hnet Hkeys) as (fetched & w3 & E3 & HF).
  exists keys, fetched, w3. unfold OnButtonGetFeed, get_feed. cbv zeta. cbn [set_key pubkey_ text_relay].
  split; [|split; [by eexists|done]]. 
  assert (E : ('(_, pubkeys) ← Client.get_follows now (text_relay s) (text_key s) []; _ ← to_file_lines (cs "pubkeys.txt") pubkeys;
    response_keys now (text_relay s) pubkeys []) w = (Returned (inr (concat (map (omap (json_of now)) fetched))), w3)).
  { by rewrite (cpp_returned _ _ _ _ _ E1), (cpp_returned _ _ _ _ _ E2). }
  by rewrite (cpp_returned _ _ _ _ _ E).
Qed.

(** After Send the grid shows the messages received, whatever they are. *)
Theorem desktop_send_shows `{Floats} `{Disk} `{Network} `{Random} (s : frame) (events : list net_event) (w : cc) :
  exchange (text_relay s) (text_ctrl s) = Ok events ->
  exists w', OnButtonSendEvent s w =
    (Returned (inr (Frame (text_ctrl s) (text_relay s) (text_key s) (text_key s) (keep_messages events []))), w').
Proof.
  intros Hnet. unfold OnButtonSendEvent. cbv zeta. cbn [set_key text_relay text_ctrl]. rewrite Hnet, of_result_ok.
  destruct (handle_returns (text_ctrl s) events [] w) as [w1 E1]. rewrite (cpp_returned _ _ _ _ _ E1), (cpp_returned (log _) _ _ _ _ eq_refl).
  match goal with |- context [(log_all ?st ≫= _) ?v] => destruct (log_all_returns st v) as [w2 E2] end.
  rewrite (cpp_returned _ _ _ _ _ E2). by eexists.
Qed.

#[local] Existing Instance zero_floats.
#[local] Existing Instance all_writable.
#[local] Existing Instance note_network.
#[local] Existing Instance constant_random.

Lemma desktop_feed_shows_witness :
  exists keys fetched w', OnButtonGetFeed 7 PanelInput server =
      (Returned (inr (Frame m_out_message default_relay (text_key PanelInput) (text_key PanelInput)
        (concat (map (omap (json_of 7)) fetched)))), w') /\
    (exists w1, Client.get_follows 7 default_relay (text_key PanelInput) [] server = (Returned (inr (0, keys)), w1)) /\
    Forall2 (fun key ms => exists w1 w2, Client.get_feed 7 default_relay key [] w1 = (Returned (inr (0, ms)), w2)) keys fetched.
Proof. apply (desktop_feed_shows 7 PanelInput server); [lia|by apply ascii_utf8|exact note_network_calm]. Defined.

(** The message the program starts with asks for three notes. *)
Theorem out_message_request :
  parse_request m_out_message [] (filter_new 5) server =
    (Returned (inr (0, (cs "RAND", Filter_t [] [] [1] [] [] 0 5 3))), server).
Proof. vm_compute. reflexivity. Qed.

(** Two followed keys with an event each: the grid has two rows, but the second
    event is saved over the first. *)
Definition two_keys : event_t := Event_t (cs "0a") (cs "ab") 1700000000 1 [[cs "p"; cs "c1"]; [cs "p"; cs "c2"]] (cs "hello") (cs "ff").
Definition two_network : Network :=
  {| exchange := fun _ _ => Ok [Received (match dump None (JArray [JString (cs "EVENT"); JString (cs "sub"); event_object two_keys]) with
       Ok t => t | _ => [] end)] |}.

Theorem desktop_files_overwritten :
  match OnButtonGetFeed (H1 := two_network) 7 PanelInput server with
  | (Returned (inr s), w') => length (grid s) = 2%nat /\ is_Some (files w' !! cs "follow.1.json") /\ files w' !! cs "follow.2.json" = None
  | _ => False
  end.
Proof. vm_compute. split; [reflexivity|]. split; [eexists; reflexivity|reflexivity]. Qed.
