(* ===== verification/Samples.v ===== *)
(** * The sample programs: [examples/examples.cc], [test/tests.cc]

    Two programs that use the client library.  [examples.cc] runs through its
    functions one block after the other; [tests.cc] fetches the metadata of the
    followed profiles and has three more functions that its [main] does not
    call.  An assertion that fails aborts, and so does an exception that leaves
    [main]. *)
From stdpp Require Import gmap.
From S2P Require Import Prelude Hex Event Process Keys Dm.
From S2P Require Import Json JsonParse JsonSpec JsonGrammar JsonRound Comm Client Relay Web.

Definition aborted {A} : cpp A := fun w => (Aborted, w).

(** [std::cout << text << std::endl] *)
Definition print (text : list Z) : cpp unit := note (Printed (text ++ [10])).

Definition uri : list Z := cs "nos.lol".
Definition profile : list Z := cs "4ea843d54a8fdab39aa45f61f19f3ff79cc19385370f6a272dda81fade0a052b".

(** The lines of a raw string. *)
Definition lines (l : list (list Z)) : list Z :=
  match l with [] => [] | x :: l => x ++ concat (map (fun y => [10] ++ y) l) end.

(** ** [examples.cc] *)

Module Examples.

Definition request_json : list Z := lines
  [cs "[";
   cs "     " ++ word "REQ" ++ cs ",";
   cs "     " ++ word "34E8C71B-C0FB-4D6D-9CBB-694A091D6A2D" ++ cs ",";
   cs "     {";
   cs "      " ++ word "authors" ++ cs ": [";
   cs "       " ++ word "4ea843d54a8fdab39aa45f61f19f3ff79cc19385370f6a272dda81fade0a052b";
   cs "      ],";
   cs "      " ++ word "kinds" ++ cs ": [";
   cs "       1";
   cs "      ],";
   cs "      " ++ word "limit" ++ cs ": 1";
   cs "     }";
   cs "    ]"].

Definition event_json : list Z := lines
  [cs "[";
   cs "     " ++ word "EVENT" ++ cs ",";
   cs "     " ++ word "34E8C71B-C0FB-4D6D-9CBB-694A091D6A2D" ++ cs ",";
   cs "     {";
   cs "      " ++ word "content" ++ cs ": " ++ word "https://github.com/pedro-vicente/nostr_client_relay" ++ cs ",";
   cs "      " ++ word "created_at" ++ cs ": 1686887953,";
   cs "      " ++ word "id" ++ cs ": " ++ word "24d7deac8173f5e7ead51282106728ae39d44aa558ff3c5b3b236bece71684ef" ++ cs ",";
   cs "      " ++ word "kind" ++ cs ": 1,";
   cs "      " ++ word "pubkey" ++ cs ": " ++ word "4ea843d54a8fdab39aa45f61f19f3ff79cc19385370f6a272dda81fade0a052b" ++ cs ",";
   cs "      " ++ word "sig" ++ cs ": " ++ word "14d1b7ea0cd8f4275221c297d0d30f5afe2a87a13b743211ed23bcb5dac095498b2b34f645544e3c956577d6554d812fbf908ccb7857b2e920875046579a105c" ++ cs ",";
   cs "      " ++ word "tags" ++ cs ": []";
   cs "     }";
   cs "    ]"].

Section Examples.
Context `{Floats} `{Disk} `{Secp256k1} `{Network} `{Random} (junk now : Z).

(** The blocks of [main]. *)
Definition make_request_block : cpp unit :=
  let filter := set_limit (set_kinds (set_authors (filter_new now) [profile]) [1]) 1 in
  json ← make_request (cs "my_id") filter;
  json_to_file (cs "request.json") json.

Definition parse_request_block : cpp unit :=
  '(_, (request_id, filter)) ← parse_request request_json [] (filter_new now);
  _ ← print request_id;
  match authors filter with a :: _ => print a | [] => of_result (Throw out_of_range) end.

Definition parse_event_block : cpp unit :=
  '(_, (event_id, ev)) ← parse_relay_event event_json [] (event_new now);
  _ ← print event_id;
  print (content ev).

Definition relay_block : cpp unit :=
  '(_, response) ← relay_to uri request_json [];
  _ ← to_file_lines (cs "response.txt") response;
  print_lines response.

Definition make_event_block : cpp unit :=
  let ev := set_kind (set_content (event_new now) (cs "hello world")) 1 in
  '(json, _) ← make_event junk ev None;
  json_to_file (cs "event.json") json.

(** The last block: a file for each event of a followed key. *)
Definition save_event (row : Z) (js : json) (ev : event_t) : cpp Z :=
  json ← of_result (dump None js);
  _ ← json_to_file (cs "follow." ++ fmt_int (row + 1) ++ cs ".json") json;
  mret (row + 1).

Fixpoint save_events (events : list (list Z)) (row : Z) : cpp Z :=
  match events with
  | [] => mret row
  | message :: events =>
      row ← try_catch
        (js ← of_result (parse message);
         type ← of_result (message_type js);
         if decide (type = cs "EVENT") then ev ← of_result (at_index js 2 ≫= get_event now); save_event row js ev
         else mret row)
        (fun e => _ ← log_what e; mret row);
      save_events events row
  end.

Fixpoint save_keys (pubkeys : list (list Z)) : cpp unit :=
  match pubkeys with
  | [] => mret tt
  | pubkey :: pubkeys =>
      '(_, events) ← Client.get_feed now uri pubkey [];
      _ ← save_events events 0;
      save_keys pubkeys
  end.

Definition follows_block : cpp unit :=
  '(_, pubkeys) ← Client.get_follows now uri profile [];
  _ ← to_file_lines (cs "pubkeys.txt") pubkeys;
  save_keys pubkeys.

Definition main : prog cc Z := terminate
  (_ ← make_request_block; _ ← parse_request_block; _ ← parse_event_block; _ ← relay_block;
   _ ← make_event_block; _ ← follows_block; mret 0).
End Examples.
End Examples.

(** ** [tests.cc] *)

Module Tests.

Definition relays : list (list Z) :=
  map cs ["eden.nostr.land"; "nos.lol"; "relay.snort.social"; "relay.damus.io"; "nostr.wine"; "0.0.0.0:6102"]%string.

Definition list_ : list (list Z) := [cs "list_01.txt"; cs "list_02.txt"].

(** The lines that [std::getline] reads. *)
Fixpoint getlines (line s : list Z) : list (list Z) :=
  match s with
  | [] => match line with [] => [] | _ => [line] end
  | c :: s => if c =? 10 then line :: getlines [] s else getlines (line ++ [c]) s
  end.

Section Tests.
Context `{Floats} `{Disk} `{Network} `{Random} (now : Z).

(** A line of a list. *)
Definition read_line (json : list Z) : cpp unit :=
  _ ← print json;
  type ← get_message_type json;
  match type with
  | EVENT =>
      '(code, (event_id, ev)) ← parse_relay_event json [] (event_new now);
      if code <? 0 then aborted
      else
        _ ← json_to_file (cs "event.json") json;
        _ ← print event_id;
        print (content ev)
  | REQ =>
      '(code, (request_id, filter)) ← parse_request json [] (filter_new now);
      if code <? 0 then aborted
      else
        _ ← json_to_file (cs "request.json") json;
        _ ← print request_id;
        if 0 <? len (authors filter) then print (concat (map (fun a => a ++ cs " ") (authors filter))) else mret tt
  | _ => mret tt
  end.

Fixpoint read_all (l : list (list Z)) : cpp unit :=
  match l with [] => mret tt | json :: l => _ ← read_line json; read_all l end.

Definition read_list (file_name : list Z) : cpp Z := fun w =>
  match files w !! file_name with
  | None => (Returned (inr (-1)), w)
  | Some s => (_ ← read_all (getlines [] s); mret 0) w
  end.

Fixpoint read_lists (l : list (list Z)) : cpp Z :=
  match l with
  | [] => mret 0
  | name :: l => code ← read_list name; if code <? 0 then mret (-1) else read_lists l
  end.

Fixpoint relay_all (l : list (list Z)) (json : list Z) : cpp Z :=
  match l with [] => mret 0 | uri :: l => _ ← relay_to uri json []; relay_all l json end.

Fixpoint feed_keys (pubkeys : list (list Z)) : cpp unit :=
  match pubkeys with [] => mret tt | pubkey :: pubkeys => _ ← Client.get_feed now uri pubkey []; feed_keys pubkeys end.

Definition get_feed : cpp Z :=
  '(_, pubkeys) ← Client.get_follows now uri profile [];
  _ ← to_file_lines (cs "pubkeys.txt") pubkeys;
  _ ← feed_keys pubkeys;
  mret 0.

(** The first message for a key; [metadata.at(0)] stands outside the block. *)
Definition save_metadata (idx : Z) (metadata : list (list Z)) : cpp unit :=
  match metadata with
  | [] => of_result (Throw out_of_range)
  | message :: _ =>
      try_catch
        (js ← of_result (parse message);
         type ← of_result (message_type js);
         if decide (type = cs "EVENT") then
           ev ← of_result (at_index js 2 ≫= get_event now);
           json_to_file (cs "metadata_content." ++ fmt_int (idx + 1) ++ cs ".json") (content ev)
         else mret tt)
        (fun e => _ ← log_what e; mret tt)
  end.

Fixpoint metadata_keys (idx : Z) (pubkeys : list (list Z)) : cpp unit :=
  match pubkeys with
  | [] => mret tt
  | pubkey :: pubkeys =>
      '(_, metadata) ← Client.get_metadata now uri pubkey [];
      _ ← save_metadata idx metadata;
      metadata_keys (idx + 1) pubkeys
  end.

Definition get_metadata : cpp Z :=
  '(_, pubkeys) ← Client.get_follows now uri profile [];
  _ ← to_file_lines (cs "pubkeys.txt") pubkeys;
  _ ← metadata_keys 0 pubkeys;
  mret 0.

Definition main : prog cc Z := terminate (_ ← get_metadata; mret 0).
End Tests.
End Tests.

(** ** What they do *)

Section Runs.
Context `{Floats} `{Disk} `{Network} `{Random} (now : Z) (Hnow : - 2 ^ 63 <= now < 2 ^ 63).

Lemma save_metadata_returns idx m ms w : calm m -> exists w', Tests.save_metadata now idx (m :: ms) w = (Returned (inr tt), w').
Proof using Hnow.
  intros Hm. set (F := fun (_ : json) ev => json_to_file (cs "metadata_content." ++ fmt_int (idx + 1) ++ cs ".json") (content ev)).
  pose proof (try_event now Hnow F tt m w Hm) as Ht. cbv zeta in Ht.
  destruct (event_of_message now m) as [[js ev]|]; [|exact Ht]. destruct Ht as (_ & Hev & Ht).
  destruct (json_to_file_returns (cs "metadata_content." ++ fmt_int (idx + 1) ++ cs ".json") (content ev) w) as (w1 & E & _).
  { intros v Hv. eapply parse_typed_spec; [apply utf8_Bytes, (typed_content ev Hev)|exact Hv]. }
  exists w1. exact (Ht tt w1 E).
Qed.

(** The loop over the keys ends, or stops at a key without an answer. *)
Lemma metadata_keys_runs keys idx w :
  calm_network -> Forall utf8 keys ->
  exists w', Tests.metadata_keys now idx keys w = (Returned (inr tt), w') \/
    Tests.metadata_keys now idx keys w = (Returned (inl out_of_range), w') /\
    exists key w1 w2, key ∈ keys /\ Client.get_metadata now uri key [] w1 = (Returned (inr (0, [])), w2).
Proof using Hnow.
  intros Hnet Hk. revert idx w. induction Hk as [|key keys Hkey _ IH]; intros idx w; cbn [Tests.metadata_keys]; [exists w; by left|].
  destruct (get_metadata_returns now Hnow uri key w Hnet Hkey) as (ms & w1 & E1 & Hc). rewrite (cpp_returned _ _ _ _ _ E1).
  destruct ms as [|m ms].
  - exists w1. right. split; [done|]. exists key, w, w1. split; [apply list_elem_of_here|done].
  - apply Forall_cons in Hc as [Hm _]. destruct (save_metadata_returns idx m ms w1 Hm) as [w2 E2]. rewrite (cpp_returned _ _ _ _ _ E2).
    destruct (IH (idx + 1) w2) as (w3 & [E3|(E3 & k' & wa & wb & Hin & Ek)]); exists w3; [by left|right]. split; [done|].
    exists k', wa, wb. split; [by apply list_elem_of_further|done].
Qed.
End Runs.

(** ** Properties *)

(** The test program returns 0, or it aborts with an exception that nothing
    catches, after a followed profile for which the relay sent no metadata. *)
Theorem tests_main_outcomes `{Floats} `{Disk} `{Network} `{Random} (now : Z) (w : cc)
    (Hnow : - 2 ^ 63 <= now < 2 ^ 63) (Hnet : calm_network) :
  exists w', Tests.main now w = (Returned 0, w') \/
    Tests.main now w = (Aborted, w') /\
    exists key w1 w2, utf8 key /\ Client.get_metadata now uri key [] w1 = (Returned (inr (0, [])), w2).
Proof.
  destruct (get_follows_returns now Hnow uri profile w Hnet) as (keys & w1 & E1 & Hkeys); [by apply ascii_utf8|].
  destruct (to_file_lines_returns (cs "pubkeys.txt") keys w1) as [w2 E2].
  unfold Tests.main, Tests.get_metadata, terminate.
  destruct (metadata_keys_runs now Hnow keys 0 w2 Hnet Hkeys) as (w3 & [E3|(E3 & key & wa & wb & Hin & Ek)]); exists w3; [left|right];
    unfold mbind, cpp_bind; unfold mbind, cpp_bind in *; rewrite E1, E2, E3; [done|]. split; [done|].
  exists key, wa, wb. split; [|done]. by eapply Forall_forall.
Qed.

(** What the first two parsing examples print. *)
Theorem examples_parse `{Floats} (now : Z) (w : cc) :
  (_ ← Examples.parse_request_block now; Examples.parse_event_block now) w =
    (Returned (inr tt), CC (process w) (files w)
      ((((journal w ++ [Printed (cs "34E8C71B-C0FB-4D6D-9CBB-694A091D6A2D" ++ [10])]) ++ [Printed (profile ++ [10])]) ++
        [Printed (cs "34E8C71B-C0FB-4D6D-9CBB-694A091D6A2D" ++ [10])]) ++
        [Printed (cs "https://github.com/pedro-vicente/nostr_client_relay" ++ [10])]) (drawn w)).
Proof. destruct w. vm_compute. reflexivity. Qed.

#[local] Existing Instance zero_floats.
#[local] Existing Instance all_writable.
#[local] Existing Instance constant_random.

(** Relays that know no metadata. *)
Definition occurs (p s : list Z) : bool := existsb (fun i => starts_with p (drop i s)) (seq 0 (length s)).
Definition no_metadata : Network :=
  {| exchange := fun _ text => Ok (if occurs (cs "[0]") text then [] else [Received note_text]) |}.

Theorem tests_abort : (Tests.main (H1 := no_metadata) 7 server).1 = Aborted.
Proof. vm_compute. reflexivity. Qed.

Lemma tests_main_outcomes_witness :
  exists w', Tests.main (H1 := note_network) 7 server = (Returned 0, w') \/
    Tests.main (H1 := note_network) 7 server = (Aborted, w') /\
    exists key w1 w2, utf8 key /\ Client.get_metadata (H1 := note_network) 7 uri key [] w1 = (Returned (inr (0, [])), w2).
Proof. apply (tests_main_outcomes (H1 := note_network) 7 server); [lia|exact note_network_calm]. Defined.
